(** * A shallow embedding of the cloudify DSL parser (dsl_parser/parser.py)

    The development follows the compilation pipeline of [parser.py]:
    import merging, type hierarchies, plugin binding of operation mappings,
    node and relationship processing, post-processing (base families and
    host ids) and the validation of intrinsic functions.

    Python dictionaries that are only looked up or updated by key are
    [gmap]s, sets are [gset]s.  A dictionary that the code iterates over is
    given as the list of its items in iteration order (Python 2 fixes no
    order), so that every statement below holds for every iteration order.
    Exceptions are values of [exn]; a function that can raise returns a
    [result]. *)

From stdpp Require Import gmap strings list fin_maps.
From Stdlib Require Import ZArith Ascii.

#[local] Set Warnings "-register-all".
Local Open Scope string_scope.
Local Open Scope list_scope.

(** ** Exceptions and results *)

(** [DSLParsingLogicException code fields]: the numeric code and the values
    the message is formatted from (and that are attached to the exception
    object).  [RecursionDepthExceeded] is the [RuntimeError] the interpreter
    raises when a recursion does not bottom out within its recursion
    limit. *)
Inductive exn : Type :=
  | DSLParsingLogicException (code : Z) (fields : list string)
  | KeyError (key : string)
  | AttributeError
  | TypeError
  | ValueError
  | RuntimeError (message : string)
  | RecursionDepthExceeded.

Inductive result (A : Type) : Type :=
  | Ok (a : A)
  | Raise (e : exn).
Arguments Ok {A} a.
Arguments Raise {A} e.

Definition bind {A B} (m : result A) (f : A -> result B) : result B :=
  match m with
  | Ok a => f a
  | Raise e => Raise e
  end.

Notation "'let*' x ':=' m 'in' k" := (bind m (fun x => k))
  (at level 10, x pattern, m at level 200, k at level 200, only parsing).

Definition is_ok {A} (r : result A) : bool :=
  match r with Ok _ => true | Raise _ => false end.

(** [d[k]] on a dictionary: [KeyError] when the key is missing. *)
Definition dict_get {V} (d : gmap string V) (k : string) : result V :=
  match d !! k with
  | Some v => Ok v
  | None => Raise (KeyError k)
  end.

(** Sequencing a fallible function over a list, left to right. *)
Fixpoint mapM {A B} (f : A -> result B) (l : list A) : result (list B) :=
  match l with
  | [] => Ok []
  | x :: l' => let* y := f x in let* ys := mapM f l' in Ok (y :: ys)
  end.

(** The same with a state that is threaded through the calls. *)
Fixpoint mapM_state {A B S} (f : A -> S -> result (B * S)) (l : list A) (s : S)
    : result (list B * S) :=
  match l with
  | [] => Ok ([], s)
  | x :: l' =>
      let* (y, s) := f x s in
      let* (ys, s) := mapM_state f l' s in
      Ok (y :: ys, s)
  end.

Fixpoint foldM {A S} (f : S -> A -> result S) (l : list A) (s : S) : result S :=
  match l with
  | [] => Ok s
  | x :: l' => let* s' := f s x in foldM f l' s'
  end.

(** ** Parsed YAML values *)

Inductive yaml : Type :=
  | YNull
  | YBool (b : bool)
  | YInt (z : Z)
  | YStr (s : string)
  | YList (items : list yaml)
  | YDict (items : list (string * yaml)).

(** The items of a dictionary in iteration order. *)
Abbreviation items V := (list (string * V)).

Definition keys {V} (d : items V) : list string := d.*1.

(** ** Type definitions and hierarchies *)

(** An operation of an interface: a mapping string or a mapping spec, whose
    fields are named [implementation]/[inputs] for node operations and
    [mapping]/[parameters] for workflows. *)
Inductive operation_content : Type :=
  | OpString (mapping : string)
  | OpSpec (implementation mapping : option string)
           (inputs parameters : option (items yaml)).

Abbreviation interfaces_t := (items (items operation_content)).

(** A node type or a relationship type: a dictionary whose keys may be
    missing. *)
Record dsl_type : Type := {
  derived_from : option string;
  type_properties : option (items yaml);
  type_interfaces : option interfaces_t;
  type_source_interfaces : option interfaces_t;
  type_target_interfaces : option interfaces_t
}.

Section Hierarchy.
(** The interpreter's recursion limit. *)
Variable recursion_limit : nat.

Fixpoint create_type_hierarchy_rec (depth : nat) (type_name : string)
    (types : gmap string dsl_type) : result (list string) :=
  match depth with
  | O => Raise RecursionDepthExceeded
  | S depth' =>
      let* current_type := dict_get types type_name in
      match derived_from current_type with
      | Some parent_type_name =>
          let* types_hierarchy := create_type_hierarchy_rec depth' parent_type_name types in
          Ok (types_hierarchy ++ [type_name])
      | None => Ok [type_name]
      end
  end.

Definition _create_type_hierarchy := create_type_hierarchy_rec recursion_limit.

Fixpoint is_derived_from_rec (depth : nat) (type_name : string)
    (types : gmap string dsl_type) (derived : string) : result bool :=
  match depth with
  | O => Raise RecursionDepthExceeded
  | S depth' =>
      if decide (type_name = derived) then Ok true
      else
        let* current_type := dict_get types type_name in
        match derived_from current_type with
        | Some parent => is_derived_from_rec depth' parent types derived
        | None => Ok false
        end
  end.

Definition _is_derived_from := is_derived_from_rec recursion_limit.

(** [set(type_name for type_name in types_dict.iterkeys() if ...)]: the
    first exception of a membership test aborts the comprehension. *)
Definition _build_family_descendants_set (types_dict : gmap string dsl_type)
    (derived : string) : result (gset string) :=
  foldM (fun acc type_name =>
           let* b := _is_derived_from type_name types_dict derived in
           Ok (if b : bool then {[type_name]} ∪ acc else acc))
        (map_to_list types_dict).*1 ∅.
End Hierarchy.

(** A derivation chain of [n] types from [type_name] up to a type without
    [derived_from], all declared in [types]. *)
Inductive derivation_chain (types : gmap string dsl_type) : string -> nat -> Prop :=
  | chain_root type_name ty :
      types !! type_name = Some ty -> derived_from ty = None ->
      derivation_chain types type_name 1
  | chain_step type_name ty parent n :
      types !! type_name = Some ty -> derived_from ty = Some parent ->
      derivation_chain types parent n ->
      derivation_chain types type_name (S n).

(** Every declared type has a finite chain up to a root: the [derived_from]
    graph is acyclic and closed. *)
Definition acyclic (types : gmap string dsl_type) : Prop :=
  forall type_name, is_Some (types !! type_name) ->
    exists n, derivation_chain types type_name n.

(** Root first: the head has no [derived_from] and every next entry derives
    from the one before it. *)
Fixpoint root_first (types : gmap string dsl_type) (parent : option string)
    (h : list string) : Prop :=
  match h with
  | [] => True
  | t :: h' =>
      (exists ty, types !! t = Some ty /\ derived_from ty = parent) /\
      root_first types (Some t) h'
  end.

(** ** Plugins and the binding of operation mappings *)

(** A plugin dictionary. *)
Record plugin : Type := {
  plugin_name : option string;
  plugin_executor : string;
  plugin_source : option string;
  plugin_install : option bool
}.

(** The operation structure [{'plugin': .., 'operation': .., <payload>}];
    the payload key is [inputs] for operations and [parameters] for
    workflows, and is missing when the payload is [None]. *)
Record operation_struct : Type := {
  op_plugin : string;
  op_operation : string;
  op_inputs : option (items yaml);
  op_parameters : option (items yaml)
}.

(** [OpDescriptor]; the plugin is [None] where the code stores the empty
    string, which is the only falsy value it is given. *)
Record OpDescriptor : Type := {
  od_plugin : option plugin;
  od_op_struct : operation_struct;
  od_name : string
}.

(** Modelled from the spec: the module dsl_parser/constants.py is not part
    of the sources; the names it gives to the script plugin, its tasks, the
    script path property and the two plugin executors are taken as
    parameters. *)
Record constants : Type := {
  SCRIPT_PATH_PROPERTY : string;
  SCRIPT_PLUGIN_NAME : string;
  SCRIPT_PLUGIN_RUN_TASK : string;
  SCRIPT_PLUGIN_EXECUTE_WORKFLOW_TASK : string;
  HOST_AGENT : string;
  CENTRAL_DEPLOYMENT_AGENT : string
}.

(** [s.startswith(p)] and [s[n:]]. *)
Fixpoint startswith (s p : string) {struct p} : bool :=
  match p, s with
  | EmptyString, _ => true
  | String c p', String d s' => if decide (c = d) then startswith s' p' else false
  | String _ _, EmptyString => false
  end.

Fixpoint slice_from (n : nat) (s : string) : string :=
  match n, s with
  | O, _ => s
  | S n', String _ s' => slice_from n' s'
  | S _, EmptyString => EmptyString
  end.

(** [key in d] and [d.update({key: v})] on the items of a dictionary. *)
Definition has_key {V} (d : items V) (k : string) : bool :=
  bool_decide (k ∈ keys d).

Fixpoint items_set {V} (d : items V) (k : string) (v : V) : items V :=
  match d with
  | [] => [(k, v)]
  | (k', v') :: d' => if decide (k' = k) then (k, v) :: d' else (k', v') :: items_set d' k v
  end.

Definition _operation_struct (plugin_name operation_mapping : string)
    (operation_properties : option (items yaml)) (is_workflows : bool)
    : operation_struct :=
  {| op_plugin := plugin_name;
     op_operation := operation_mapping;
     op_inputs := if is_workflows then None else operation_properties;
     op_parameters := if is_workflows then operation_properties else None |}.

Section Binder.
(** [_validate_url_exists]: whether opening the URL succeeds. *)
Variable url_exists : string -> bool.
Variable consts : constants.

Definition _resource_exists (resource_base resource_name : string) : bool :=
  url_exists (resource_base +:+ "/" +:+ resource_name).

(** One round of the loop over [plugin_names]. *)
Definition longest_prefix_step (operation_mapping : string)
    (st : nat * option string) (plugin_name : string) : nat * option string :=
  let '(longest_prefix, longest_prefix_plugin_name) := st in
  if startswith operation_mapping (plugin_name +:+ ".") then
    let plugin_name_length := String.length plugin_name in
    if decide (longest_prefix < plugin_name_length)
    then (plugin_name_length, Some plugin_name)
    else st
  else st.

Definition kind_of (is_workflows : bool) : string :=
  if is_workflows then "workflow" else "operation".

(** [operation_mapping] and [operation_payload] as the first lines of the
    binder set them: from the string, or from the fields of the spec, the
    mapping defaulting to the empty string and the payload to [{}]. *)
Definition operation_mapping_of (is_workflows : bool)
    (operation_content : operation_content) : string :=
  match operation_content with
  | OpString s => s
  | OpSpec implementation mapping _ _ =>
      default "" (if is_workflows then mapping else implementation)
  end.

Definition operation_payload_of (is_workflows : bool)
    (operation_content : operation_content) : option (items yaml) :=
  match operation_content with
  | OpString _ => None
  | OpSpec _ _ inputs parameters =>
      Some (default [] (if is_workflows then parameters else inputs))
  end.

Definition _extract_plugin_name_and_operation_mapping_from_operation
    (plugins : gmap string plugin) (plugin_names : list string)
    (operation_name : string) (operation_content : operation_content)
    (error_code : Z) (partial_error_message : string)
    (resource_base : option string) (is_workflows : bool)
    : result OpDescriptor :=
  let operation_mapping := operation_mapping_of is_workflows operation_content in
  let operation_payload := operation_payload_of is_workflows operation_content in
  if decide (operation_mapping = "") then
    Ok {| od_name := operation_name;
          od_plugin := None;
          od_op_struct := _operation_struct "" "" (Some []) is_workflows |}
  else
    let '(longest_prefix, longest_prefix_plugin_name) :=
      fold_left (longest_prefix_step operation_mapping) plugin_names (0, None) in
    match longest_prefix_plugin_name with
    | Some name =>
        let* p := dict_get plugins name in
        Ok {| od_name := operation_name;
              od_plugin := Some p;
              od_op_struct :=
                _operation_struct name
                  (slice_from (longest_prefix + 1) operation_mapping)
                  operation_payload is_workflows |}
    | None =>
        if match resource_base with
           | Some base =>
               negb (bool_decide (base = "")) && _resource_exists base operation_mapping
           | None => false
           end
        then
          let operation_payload := default [] operation_payload in
          if has_key operation_payload (SCRIPT_PATH_PROPERTY consts) then
            Raise (DSLParsingLogicException 60
                     [SCRIPT_PATH_PROPERTY consts; operation_mapping;
                      kind_of is_workflows; operation_name])
          else
            let script_path := operation_mapping in
            let operation_mapping :=
              if is_workflows then SCRIPT_PLUGIN_EXECUTE_WORKFLOW_TASK consts
              else SCRIPT_PLUGIN_RUN_TASK consts in
            let operation_payload :=
              items_set operation_payload (SCRIPT_PATH_PROPERTY consts)
                (if is_workflows
                 then YDict [("default", YStr script_path);
                             ("description",
                              YStr "Workflow script executed by the script plugin")]
                 else YStr script_path) in
            match plugins !! SCRIPT_PLUGIN_NAME consts with
            | None =>
                Raise (DSLParsingLogicException 61
                         [operation_mapping; kind_of is_workflows; operation_name])
            | Some p =>
                Ok {| od_name := operation_name;
                      od_plugin := Some p;
                      od_op_struct :=
                        _operation_struct (SCRIPT_PLUGIN_NAME consts)
                          operation_mapping (Some operation_payload) is_workflows |}
            end
        else
          Raise (DSLParsingLogicException error_code
                   [operation_mapping; operation_name; kind_of is_workflows;
                    partial_error_message])
    end.

(** [plugins.keys()]. *)
Definition plugin_keys (plugins : gmap string plugin) : list string :=
  (map_to_list plugins).*1.

Definition _extract_plugin_names_and_operation_mapping_from_interface
    (interface : items operation_content) (plugins : gmap string plugin)
    (error_code : Z) (partial_error_message : string)
    (resource_base : option string) : result (list OpDescriptor) :=
  let plugin_names := plugin_keys plugins in
  mapM (fun '(operation_name, operation_content) =>
          _extract_plugin_name_and_operation_mapping_from_operation
            plugins plugin_names operation_name operation_content
            error_code partial_error_message resource_base false)
       interface.

(** The body of the loop over the descriptors of one interface: the
    state is the [operations] dictionary, whose values may be [None], and
    the [plugins] dictionary of the node. *)
Definition context_operation_step (interface_name : string)
    (st : gmap string (option operation_struct) * gmap string plugin)
    (op_descriptor : OpDescriptor)
    : gmap string (option operation_struct) * gmap string plugin :=
  let '(operations, node_plugins) := st in
  let op_struct := od_op_struct op_descriptor in
  let plugin_name := op_plugin op_struct in
  let operation_name := od_name op_descriptor in
  let node_plugins :=
    match od_plugin op_descriptor with
    | Some p => <[plugin_name := p]> node_plugins
    | None => node_plugins
    end in
  let operations :=
    match operations !! operation_name with
    | Some _ => <[operation_name := None]> operations
    | None => <[operation_name := Some op_struct]> operations
    end in
  (<[interface_name +:+ "." +:+ operation_name := Some op_struct]> operations,
   node_plugins).

(** [node[PLUGINS]] is passed in and returned, the only part of the node
    the function touches. *)
Definition _process_context_operations (partial_error_message : string)
    (interfaces : interfaces_t) (plugins : gmap string plugin)
    (node_plugins : gmap string plugin) (error_code : Z)
    (resource_base : option string)
    : result (gmap string operation_struct * gmap string plugin) :=
  let* st :=
    foldM (fun st '(interface_name, interface) =>
             let* operation_mapping_context :=
               _extract_plugin_names_and_operation_mapping_from_interface
                 interface plugins error_code
                 ("In interface " +:+ interface_name +:+ " " +:+ partial_error_message)
                 resource_base in
             Ok (fold_left (context_operation_step interface_name)
                           operation_mapping_context st))
          interfaces (∅, node_plugins) in
  Ok (omap id st.1, st.2).

Definition _process_workflows (workflows : items operation_content)
    (plugins : gmap string plugin) (resource_base : option string)
    : result (gmap string operation_struct) :=
  let plugin_names := plugin_keys plugins in
  foldM (fun processed_workflows '(name, mapping) =>
           let* op_descriptor :=
             _extract_plugin_name_and_operation_mapping_from_operation
               plugins plugin_names name mapping 21 "" resource_base true in
           Ok (<[name := od_op_struct op_descriptor]> processed_workflows))
        workflows ∅.

(** The plugins are collected in the iteration order of the processed
    workflows; [workflow_plugin_names] is the set of names seen. *)
Definition _create_plan_workflow_plugins (workflows : gmap string operation_struct)
    (plugins : gmap string plugin) : result (list plugin) :=
  let* st :=
    foldM (fun '(workflow_plugins, workflow_plugin_names) '(workflow, op_struct) =>
             if bool_decide (op_plugin op_struct ∈ workflow_plugin_names)
             then Ok (workflow_plugins, workflow_plugin_names)
             else
               let plugin_name := op_plugin op_struct in
               let* p := dict_get plugins plugin_name in
               Ok (workflow_plugins ++ [p], {[plugin_name]} ∪ workflow_plugin_names))
          (map_to_list workflows) (([], ∅) : list plugin * gset string) in
  Ok st.1.
End Binder.

(** ** Type and relationship implementations *)

(** An entry of [type_implementations] or [relationship_implementations]. *)
Record implementation : Type := {
  impl_type : string;
  impl_node_ref : option string;
  impl_source_node_ref : option string;
  impl_target_node_ref : option string;
  impl_properties : option (items yaml)
}.

(** [d[k]] on a dictionary modelled as a record: a missing key raises. *)
Definition field {A} (key : string) (v : option A) : result A :=
  match v with
  | Some a => Ok a
  | None => Raise (KeyError key)
  end.

(** The items for which the test holds; the first test that raises aborts. *)
Fixpoint filterM {A} (f : A -> result bool) (l : list A) : result (list A) :=
  match l with
  | [] => Ok []
  | x :: l' =>
      let* b := f x in
      let* ys := filterM f l' in
      Ok (if b : bool then x :: ys else ys)
  end.

Section Implementations.
Variable recursion_limit : nat.

(** Returns what the call returns or raises, and the [implementations]
    dictionary as the call leaves it. *)
Definition _get_implementation (lookup_message_str type_name : string)
    (implementations : gmap string implementation) (impl_category : string)
    (types : gmap string dsl_type) (err_code_ambig err_code_derive : Z)
    (candidate_func : implementation -> result bool)
    : result (option implementation) * gmap string implementation :=
  match filterM (fun '(_, impl_content) => candidate_func impl_content)
                (map_to_list implementations) with
  | Raise e => (Raise e, implementations)
  | Ok candidates =>
      match candidates with
      | [] => (Ok None, implementations)
      | [(impl_name, impl)] =>
          let impl_type := impl_type impl in
          match _is_derived_from recursion_limit impl_type types type_name with
          | Raise e => (Raise e, implementations)
          | Ok false =>
              (Raise (DSLParsingLogicException err_code_derive
                        [impl_name; impl_category; lookup_message_str;
                         impl_type; type_name]),
               implementations)
          | Ok true => (Ok (Some impl), delete impl_name implementations)
          end
      | _ :: _ :: _ =>
          (Raise (DSLParsingLogicException err_code_ambig
                    (impl_category :: lookup_message_str :: keys candidates)),
           implementations)
      end
  end.

Definition _get_type_implementation_if_exists (node_name node_type_name : string)
    (type_implementations : gmap string implementation)
    (types : gmap string dsl_type)
    : result (string * items yaml) * gmap string implementation :=
  let candidate_function impl_content :=
    let* node_ref := field "node_ref" (impl_node_ref impl_content) in
    Ok (bool_decide (node_ref = node_name)) in
  let '(impl, type_implementations) :=
    _get_implementation node_name node_type_name type_implementations "node"
                        types 103 102 candidate_function in
  (let* impl := impl in
   Ok match impl with
      | None => (node_type_name, [])
      | Some impl => (impl_type impl, default [] (impl_properties impl))
      end,
   type_implementations).

Definition _get_relationship_implementation_if_exists
    (source_node_name target_node_name : string)
    (relationship_impls : gmap string implementation)
    (relationship_type : string) (relationships : gmap string dsl_type)
    : result (string * items yaml) * gmap string implementation :=
  let candidate_function impl_content :=
    let* source_node_ref := field "source_node_ref" (impl_source_node_ref impl_content) in
    if bool_decide (source_node_ref = source_node_name) then
      let* target_node_ref := field "target_node_ref" (impl_target_node_ref impl_content) in
      if bool_decide (target_node_ref = target_node_name) then
        _is_derived_from recursion_limit (impl_type impl_content) relationships
                         relationship_type
      else Ok false
    else Ok false in
  let '(impl, relationship_impls) :=
    _get_implementation (source_node_name +:+ "->" +:+ target_node_name)
                        relationship_type relationship_impls "relationship"
                        relationships 108 109 candidate_function in
  (let* impl := impl in
   Ok match impl with
      | None => (relationship_type, [])
      | Some impl => (impl_type impl, default [] (impl_properties impl))
      end,
   relationship_impls).
End Implementations.

(** ** Relationship instances of a node *)

(** A relationship instance: the dictionary under a node template, and the
    keys that processing adds to it. *)
Record relationship : Type := {
  rel_type : string;
  rel_target : option string;
  rel_target_id : option string;
  rel_state : option string;
  rel_properties : option (items yaml);
  rel_source_interfaces : option interfaces_t;
  rel_target_interfaces : option interfaces_t;
  rel_source_operations : option (gmap string operation_struct);
  rel_target_operations : option (gmap string operation_struct);
  rel_base : option string;
  rel_type_hierarchy : option (list string)
}.

Section NodeRelationships.
Variable recursion_limit : nat.

(** Modelled from the spec: dsl_parser/interfaces/interfaces_parser.py and
    the property merge of dsl_parser/utils.py are not part of the sources;
    the merge of the interfaces of a relationship instance onto its type
    and the merge of property values against a schema are parameters. *)
Variable merge_relationship_type_and_instance_interfaces :
  dsl_type -> relationship -> result (interfaces_t * interfaces_t).
Variable merge_schema_and_instance_properties :
  items yaml -> items yaml -> items yaml -> string -> result (items yaml).

(** The body of the loop of [_process_node_relationships]. *)
Definition process_node_relationship (node_name : string)
    (node_names_set : gset string) (top_level_relationships : gmap string dsl_type)
    (relationship_impls : gmap string implementation) (rel : relationship)
    : result (relationship * gmap string implementation) :=
  let relationship_type := rel_type rel in
  let* target := field "target" (rel_target rel) in
  let '(found, relationship_impls) :=
    _get_relationship_implementation_if_exists recursion_limit node_name target
      relationship_impls relationship_type top_level_relationships in
  let* (relationship_type, impl_properties) := found in
  if negb (bool_decide (target ∈ node_names_set)) then
    Raise (DSLParsingLogicException 25 [node_name; relationship_type; target])
  else if bool_decide (target = node_name) then
    Raise (DSLParsingLogicException 23 [node_name; relationship_type])
  else
    match top_level_relationships !! relationship_type with
    | None => Raise (DSLParsingLogicException 26 [node_name; relationship_type])
    | Some relationship_complete_type =>
        let rel :=
          {| rel_type := relationship_type;
             rel_target := rel_target rel;
             rel_target_id := rel_target_id rel;
             rel_state := rel_state rel;
             rel_properties := rel_properties rel;
             rel_source_interfaces := rel_source_interfaces rel;
             rel_target_interfaces := rel_target_interfaces rel;
             rel_source_operations := rel_source_operations rel;
             rel_target_operations := rel_target_operations rel;
             rel_base := rel_base rel;
             rel_type_hierarchy := rel_type_hierarchy rel |} in
        let* (source_interfaces, target_interfaces) :=
          merge_relationship_type_and_instance_interfaces
            relationship_complete_type rel in
        let* properties :=
          merge_schema_and_instance_properties
            (default [] (rel_properties rel)) impl_properties
            (default [] (type_properties relationship_complete_type)) node_name in
        Ok ({| rel_type := relationship_type;
               rel_target := None;
               rel_target_id := Some target;
               rel_state := Some "reachable";
               rel_properties := Some properties;
               rel_source_interfaces := Some source_interfaces;
               rel_target_interfaces := Some target_interfaces;
               rel_source_operations := rel_source_operations rel;
               rel_target_operations := rel_target_operations rel;
               rel_base := rel_base rel;
               rel_type_hierarchy := rel_type_hierarchy rel |},
            relationship_impls)
    end.

Fixpoint process_node_relationships_loop (node_name : string)
    (node_names_set : gset string) (top_level_relationships : gmap string dsl_type)
    (relationship_impls : gmap string implementation)
    (node_relationships : list relationship)
    : result (list relationship * gmap string implementation) :=
  match node_relationships with
  | [] => Ok ([], relationship_impls)
  | rel :: rest =>
      let* (complete_relationship, relationship_impls) :=
        process_node_relationship node_name node_names_set
          top_level_relationships relationship_impls rel in
      let* (relationships, relationship_impls) :=
        process_node_relationships_loop node_name node_names_set
          top_level_relationships relationship_impls rest in
      Ok (complete_relationship :: relationships, relationship_impls)
  end.

(** [node_relationships] is [node[RELATIONSHIPS]] when the key is there;
    the first component of the value is what [processed_node[RELATIONSHIPS]]
    is set to, [None] when it is not set. *)
Definition _process_node_relationships (node_relationships : option (list relationship))
    (node_name : string) (node_names_set : gset string)
    (top_level_relationships : gmap string dsl_type)
    (relationship_impls : gmap string implementation)
    : result (option (list relationship) * gmap string implementation) :=
  match node_relationships with
  | None => Ok (None, relationship_impls)
  | Some rels =>
      let* (relationships, relationship_impls) :=
        process_node_relationships_loop node_name node_names_set
          top_level_relationships relationship_impls rels in
      Ok (Some relationships, relationship_impls)
  end.
End NodeRelationships.

(** ** Post-processing of the processed nodes *)

Definition HOST_TYPE : string := "cloudify.types.host".
Definition DEPENDS_ON_REL_TYPE : string := "cloudify.relationships.depends_on".
Definition CONTAINED_IN_REL_TYPE : string := "cloudify.relationships.contained_in".
Definition CONNECTED_TO_REL_TYPE : string := "cloudify.relationships.connected_to".

(** A processed node, with the keys the claims read or write. *)
Record node : Type := {
  node_id : string;
  node_name : string;
  node_type : string;
  node_plugins : gmap string plugin;
  node_relationships : option (list relationship);
  node_type_hierarchy : option (list string);
  node_host_id : option string;
  node_plugins_to_install : option (list plugin);
  node_deployment_plugins_to_install : option (list plugin)
}.

Definition set_node_plugins (n : node) (plugins : gmap string plugin) : node :=
  {| node_id := node_id n; node_name := node_name n; node_type := node_type n;
     node_plugins := plugins;
     node_relationships := node_relationships n;
     node_type_hierarchy := node_type_hierarchy n;
     node_host_id := node_host_id n;
     node_plugins_to_install := node_plugins_to_install n;
     node_deployment_plugins_to_install := node_deployment_plugins_to_install n |}.

Definition set_node_relationships (n : node) (rels : list relationship) : node :=
  {| node_id := node_id n; node_name := node_name n; node_type := node_type n;
     node_plugins := node_plugins n;
     node_relationships := Some rels;
     node_type_hierarchy := node_type_hierarchy n;
     node_host_id := node_host_id n;
     node_plugins_to_install := node_plugins_to_install n;
     node_deployment_plugins_to_install := node_deployment_plugins_to_install n |}.

Definition set_node_type_hierarchy (n : node) (h : list string) : node :=
  {| node_id := node_id n; node_name := node_name n; node_type := node_type n;
     node_plugins := node_plugins n;
     node_relationships := node_relationships n;
     node_type_hierarchy := Some h;
     node_host_id := node_host_id n;
     node_plugins_to_install := node_plugins_to_install n;
     node_deployment_plugins_to_install := node_deployment_plugins_to_install n |}.

Definition set_node_host_id (n : node) (host_id : string) : node :=
  {| node_id := node_id n; node_name := node_name n; node_type := node_type n;
     node_plugins := node_plugins n;
     node_relationships := node_relationships n;
     node_type_hierarchy := node_type_hierarchy n;
     node_host_id := Some host_id;
     node_plugins_to_install := node_plugins_to_install n;
     node_deployment_plugins_to_install := node_deployment_plugins_to_install n |}.

Definition set_node_plugins_to_install (n : node) (l : list plugin) : node :=
  {| node_id := node_id n; node_name := node_name n; node_type := node_type n;
     node_plugins := node_plugins n;
     node_relationships := node_relationships n;
     node_type_hierarchy := node_type_hierarchy n;
     node_host_id := node_host_id n;
     node_plugins_to_install := Some l;
     node_deployment_plugins_to_install := node_deployment_plugins_to_install n |}.

Definition set_node_deployment_plugins_to_install (n : node) (l : list plugin) : node :=
  {| node_id := node_id n; node_name := node_name n; node_type := node_type n;
     node_plugins := node_plugins n;
     node_relationships := node_relationships n;
     node_type_hierarchy := node_type_hierarchy n;
     node_host_id := node_host_id n;
     node_plugins_to_install := node_plugins_to_install n;
     node_deployment_plugins_to_install := Some l |}.

Definition set_rel_operations (source : bool) (r : relationship)
    (operations : gmap string operation_struct) : relationship :=
  {| rel_type := rel_type r; rel_target := rel_target r;
     rel_target_id := rel_target_id r; rel_state := rel_state r;
     rel_properties := rel_properties r;
     rel_source_interfaces := rel_source_interfaces r;
     rel_target_interfaces := rel_target_interfaces r;
     rel_source_operations :=
       if source then Some operations else rel_source_operations r;
     rel_target_operations :=
       if source then rel_target_operations r else Some operations;
     rel_base := rel_base r;
     rel_type_hierarchy := rel_type_hierarchy r |}.

Definition set_rel_base (r : relationship) (base : string) : relationship :=
  {| rel_type := rel_type r; rel_target := rel_target r;
     rel_target_id := rel_target_id r; rel_state := rel_state r;
     rel_properties := rel_properties r;
     rel_source_interfaces := rel_source_interfaces r;
     rel_target_interfaces := rel_target_interfaces r;
     rel_source_operations := rel_source_operations r;
     rel_target_operations := rel_target_operations r;
     rel_base := Some base;
     rel_type_hierarchy := rel_type_hierarchy r |}.

Definition set_rel_type_hierarchy (r : relationship) (h : list string) : relationship :=
  {| rel_type := rel_type r; rel_target := rel_target r;
     rel_target_id := rel_target_id r; rel_state := rel_state r;
     rel_properties := rel_properties r;
     rel_source_interfaces := rel_source_interfaces r;
     rel_target_interfaces := rel_target_interfaces r;
     rel_source_operations := rel_source_operations r;
     rel_target_operations := rel_target_operations r;
     rel_base := rel_base r;
     rel_type_hierarchy := Some h |}.

(** [dict((node['id'], node) for node in processed_nodes)].  The processed
    nodes are shared between the list and this dictionary: the dictionary
    is the store, and the list is the order of its ids. *)
Definition node_name_to_node_of (processed_nodes : list node) : gmap string node :=
  fold_left (fun m n => <[node_id n := n]> m) processed_nodes ∅.

(** Returns the relationship with its [base] and the list
    [contained_in_relationships] as the call leaves it. *)
Definition _add_base_type_to_relationship (rel : relationship)
    (contained_in_rel_types connected_to_rel_types depends_on_rel_types : gset string)
    (contained_in_relationships : list string) : relationship * list string :=
  let rel_type := rel_type rel in
  if bool_decide (rel_type ∈ contained_in_rel_types) then
    (set_rel_base rel "contained", contained_in_relationships ++ [rel_type])
  else if bool_decide (rel_type ∈ connected_to_rel_types) then
    (set_rel_base rel "connected", contained_in_relationships)
  else if bool_decide (rel_type ∈ depends_on_rel_types) then
    (set_rel_base rel "depends", contained_in_relationships)
  else (set_rel_base rel "undefined", contained_in_relationships).

Section PostProcess.
Variable recursion_limit : nat.
Variable url_exists : string -> bool.
Variable consts : constants.

(** [source] tells the [interfaces_attribute] and [operations_attribute]:
    the source or the target ones.  [node_for_plugins] is the id of the
    node in the store, whose [plugins] the call may extend. *)
Definition _process_node_relationships_operations (rel : relationship)
    (source : bool) (node_for_plugins : string)
    (node_name_to_node : gmap string node) (plugins : gmap string plugin)
    (resource_base : option string)
    : result (relationship * gmap string node) :=
  match (if source then rel_source_interfaces rel else rel_target_interfaces rel) with
  | None => Ok (rel, node_name_to_node)
  | Some interfaces =>
      let* n := dict_get node_name_to_node node_for_plugins in
      let partial_error_message :=
        "in relationship of type " +:+ rel_type rel +:+ " in node " +:+ node_id n in
      let* (operations, node_plugins) :=
        _process_context_operations url_exists consts partial_error_message
          interfaces plugins (node_plugins n) 19 resource_base in
      Ok (set_rel_operations source rel operations,
          <[node_for_plugins := set_node_plugins n node_plugins]> node_name_to_node)
  end.

(** The body of the loop over the relationships of a node; the state is
    the store, the relationships done and [contained_in_relationships]. *)
Definition post_process_relationship (processed_node : string)
    (plugins : gmap string plugin)
    (contained_in_rel_types connected_to_rel_types depends_on_rel_type : gset string)
    (relationships : gmap string dsl_type) (resource_base : option string)
    (st : gmap string node * list relationship * list string) (rel : relationship)
    : result (gmap string node * list relationship * list string) :=
  let '(node_name_to_node, done, contained_in_relationships) := st in
  let* target_id := field "target_id" (rel_target_id rel) in
  let* _ := dict_get node_name_to_node target_id in
  let* (rel, node_name_to_node) :=
    _process_node_relationships_operations rel true processed_node
      node_name_to_node plugins resource_base in
  let* (rel, node_name_to_node) :=
    _process_node_relationships_operations rel false target_id
      node_name_to_node plugins resource_base in
  let '(rel, contained_in_relationships) :=
    _add_base_type_to_relationship rel contained_in_rel_types
      connected_to_rel_types depends_on_rel_type contained_in_relationships in
  let* type_hierarchy :=
    _create_type_hierarchy recursion_limit (rel_type rel) relationships in
  Ok (node_name_to_node, done ++ [set_rel_type_hierarchy rel type_hierarchy],
      contained_in_relationships).

Definition _post_process_node_relationships (processed_node : string)
    (node_name_to_node : gmap string node) (plugins : gmap string plugin)
    (contained_in_rel_types connected_to_rel_types depends_on_rel_type : gset string)
    (relationships : gmap string dsl_type) (resource_base : option string)
    : result (gmap string node) :=
  let* n := dict_get node_name_to_node processed_node in
  match node_relationships n with
  | None => Ok node_name_to_node
  | Some rels =>
      let* (node_name_to_node, done, contained_in_relationships) :=
        foldM (post_process_relationship processed_node plugins
                 contained_in_rel_types connected_to_rel_types
                 depends_on_rel_type relationships resource_base)
              rels (node_name_to_node, [], []) in
      let* n := dict_get node_name_to_node processed_node in
      let node_name_to_node :=
        <[processed_node := set_node_relationships n done]> node_name_to_node in
      if decide (1 < length contained_in_relationships) then
        Raise (DSLParsingLogicException 112
                 (node_name n :: CONTAINED_IN_REL_TYPE :: contained_in_relationships))
      else Ok node_name_to_node
  end.

Fixpoint extract_node_host_id_rec (depth : nat) (processed_node : node)
    (node_name_to_node : gmap string node)
    (host_types contained_in_rel_types : gset string) : result (option string) :=
  match depth with
  | O => Raise RecursionDepthExceeded
  | S depth' =>
      if bool_decide (node_type processed_node ∈ host_types) then
        Ok (Some (node_id processed_node))
      else
        match node_relationships processed_node with
        | None => Ok None
        | Some rels =>
            match find (fun rel => bool_decide (rel_type rel ∈ contained_in_rel_types))
                       rels with
            | None => Ok None
            | Some rel =>
                let* target_id := field "target_id" (rel_target_id rel) in
                let* target := dict_get node_name_to_node target_id in
                extract_node_host_id_rec depth' target node_name_to_node
                  host_types contained_in_rel_types
            end
        end
  end.

Definition _extract_node_host_id := extract_node_host_id_rec recursion_limit.

(** The first loop of [_post_process_nodes], over the ids of the
    processed nodes. *)
Definition post_process_relationships_pass (ids : list string)
    (node_name_to_node : gmap string node) (types relationships : gmap string dsl_type)
    (plugins : gmap string plugin)
    (contained_in_rel_types connected_to_rel_types depends_on_rel_types : gset string)
    (resource_base : option string) : result (gmap string node) :=
  foldM (fun node_name_to_node id =>
           let* node_name_to_node :=
             _post_process_node_relationships id node_name_to_node plugins
               contained_in_rel_types connected_to_rel_types depends_on_rel_types
               relationships resource_base in
           let* n := dict_get node_name_to_node id in
           let* h := _create_type_hierarchy recursion_limit (node_type n) types in
           Ok (<[id := set_node_type_hierarchy n h]> node_name_to_node))
        ids node_name_to_node.

(** The second loop: [host_id] is set when the value found is truthy. *)
Definition host_id_pass (ids : list string) (node_name_to_node : gmap string node)
    (host_types contained_in_rel_types : gset string) : result (gmap string node) :=
  foldM (fun node_name_to_node id =>
           let* n := dict_get node_name_to_node id in
           let* host_id :=
             _extract_node_host_id n node_name_to_node host_types
               contained_in_rel_types in
           match host_id with
           | Some h =>
               if bool_decide (h = "") then Ok node_name_to_node
               else Ok (<[id := set_node_host_id n h]> node_name_to_node)
           | None => Ok node_name_to_node
           end)
        ids node_name_to_node.

(** The third loop: a node of a host type collects the host agent plugins
    of the nodes whose [host_id] is its id; a later plugin of the same name
    overrides an earlier one. *)
Definition plugins_to_install_of (ids : list string)
    (node_name_to_node : gmap string node) (host : string) : result (list plugin) :=
  let* plugins_to_install :=
    foldM (fun (plugins_to_install : gmap string plugin) id =>
             let* another_node := dict_get node_name_to_node id in
             if bool_decide (node_host_id another_node = Some host) then
               Ok (filter (fun kp => plugin_executor kp.2 = HOST_AGENT consts)
                          (node_plugins another_node) ∪ plugins_to_install)
             else Ok plugins_to_install)
          ids ∅ in
  Ok (map_to_list plugins_to_install).*2.

Definition plugins_to_install_pass (ids : list string)
    (node_name_to_node : gmap string node) (host_types : gset string)
    : result (gmap string node) :=
  foldM (fun node_name_to_node id =>
           let* n := dict_get node_name_to_node id in
           if bool_decide (node_type n ∈ host_types) then
             let* plugins_to_install :=
               plugins_to_install_of ids node_name_to_node (node_id n) in
             Ok (<[id := set_node_plugins_to_install n plugins_to_install]>
                   node_name_to_node)
           else Ok node_name_to_node)
        ids node_name_to_node.

(** The fourth loop: the central deployment agent plugins of each node. *)
Definition deployment_plugins_pass (ids : list string)
    (node_name_to_node : gmap string node) : result (gmap string node) :=
  foldM (fun node_name_to_node id =>
           let* n := dict_get node_name_to_node id in
           let deployment_plugins_to_install :=
             filter (fun kp => plugin_executor kp.2 = CENTRAL_DEPLOYMENT_AGENT consts)
                    (node_plugins n) in
           Ok (<[id := set_node_deployment_plugins_to_install n
                          (map_to_list deployment_plugins_to_install).*2]>
                 node_name_to_node))
        ids node_name_to_node.

Definition _validate_agent_plugins_on_host_nodes (processed_nodes : list node)
    : result unit :=
  foldM (fun (_ : unit) n =>
           match node_host_id n with
           | Some _ => Ok tt
           | None =>
               foldM (fun (_ : unit) p =>
                        if bool_decide (plugin_executor p = HOST_AGENT consts) then
                          let* name := field "name" (plugin_name p) in
                          Raise (DSLParsingLogicException 24
                                   [node_id n; name; HOST_AGENT consts])
                        else Ok tt)
                     (map_to_list (node_plugins n)).*2 tt
           end)
        processed_nodes tt.

(** Any implementation that is left was applied to no node. *)
Definition _validate_type_impls (type_impls : gmap string implementation)
    : result unit :=
  match map_to_list type_impls with
  | [] => Ok tt
  | (impl_name, impl_content) :: _ =>
      let* node_ref := field "node_ref" (impl_node_ref impl_content) in
      Raise (DSLParsingLogicException 110 [impl_name; node_ref])
  end.

Definition _validate_relationship_impls
    (relationship_impls : gmap string implementation) : result unit :=
  match map_to_list relationship_impls with
  | [] => Ok tt
  | (impl_name, impl_content) :: _ =>
      let* source_node_ref :=
        field "source_node_ref" (impl_source_node_ref impl_content) in
      let* target_node_ref :=
        field "target_node_ref" (impl_target_node_ref impl_content) in
      Raise (DSLParsingLogicException 111 [impl_name; source_node_ref; target_node_ref])
  end.

(** The value is the list of processed nodes as the call leaves them. *)
Definition _post_process_nodes (processed_nodes : list node)
    (types relationships : gmap string dsl_type) (plugins : gmap string plugin)
    (type_impls relationship_impls : gmap string implementation)
    (resource_base : option string) : result (list node) :=
  let node_name_to_node := node_name_to_node_of processed_nodes in
  let ids := node_id <$> processed_nodes in
  let* depends_on_rel_types :=
    _build_family_descendants_set recursion_limit relationships DEPENDS_ON_REL_TYPE in
  let* contained_in_rel_types :=
    _build_family_descendants_set recursion_limit relationships CONTAINED_IN_REL_TYPE in
  let* connected_to_rel_types :=
    _build_family_descendants_set recursion_limit relationships CONNECTED_TO_REL_TYPE in
  let* node_name_to_node :=
    post_process_relationships_pass ids node_name_to_node types relationships
      plugins contained_in_rel_types connected_to_rel_types depends_on_rel_types
      resource_base in
  let* host_types := _build_family_descendants_set recursion_limit types HOST_TYPE in
  let* node_name_to_node :=
    host_id_pass ids node_name_to_node host_types contained_in_rel_types in
  let* node_name_to_node :=
    plugins_to_install_pass ids node_name_to_node host_types in
  let* node_name_to_node := deployment_plugins_pass ids node_name_to_node in
  let* processed_nodes := mapM (dict_get node_name_to_node) ids in
  let* _ := _validate_agent_plugins_on_host_nodes processed_nodes in
  let* _ := _validate_type_impls type_impls in
  let* _ := _validate_relationship_impls relationship_impls in
  Ok processed_nodes.
End PostProcess.

(** ** Merging the imports *)

Definition VERSION : string := "tosca_definitions_version".
Definition IMPORTS : string := "imports".
Definition NODE_TYPES : string := "node_types".
Definition TYPE_IMPLEMENTATIONS : string := "type_implementations".
Definition PLUGINS : string := "plugins".
Definition INTERFACES : string := "interfaces".
Definition WORKFLOWS : string := "workflows".
Definition RELATIONSHIPS : string := "relationships".
Definition RELATIONSHIP_IMPLEMENTATIONS : string := "relationship_implementations".
Definition POLICY_TRIGGERS : string := "policy_triggers".
Definition POLICY_TYPES : string := "policy_types".
Definition GROUPS : string := "groups".

Definition merge_no_override : list string :=
  [INTERFACES; NODE_TYPES; PLUGINS; WORKFLOWS; TYPE_IMPLEMENTATIONS; RELATIONSHIPS;
   RELATIONSHIP_IMPLEMENTATIONS; POLICY_TYPES; GROUPS; POLICY_TRIGGERS].

Definition merge_one_nested_level_no_override : list string := [].

(** [d[k]], [del d[k]] and [' --> '.join(path)]. *)
Fixpoint items_get {V} (d : items V) (k : string) : result V :=
  match d with
  | [] => Raise (KeyError k)
  | (k', v) :: d' => if decide (k' = k) then Ok v else items_get d' k
  end.

Definition items_delete {V} (d : items V) (k : string) : items V :=
  filter (fun kv => kv.1 <> k) d.

Fixpoint join (sep : string) (l : list string) : string :=
  match l with
  | [] => ""
  | [x] => x
  | x :: l' => x +:+ sep +:+ join sep l'
  end.

(** [s.replace(old, new)]: every occurrence of [old] in [s], found from
    the left and without overlap, is replaced by [new].  [skip] counts the
    characters of the occurrence just replaced that are still to be
    passed. *)
Fixpoint replace_from (old new : string) (skip : nat) (s : string) : string :=
  match s with
  | EmptyString => EmptyString
  | String c s' =>
      match skip with
      | S skip' => replace_from old new skip' s'
      | O =>
          if startswith s old
          then new +:+ replace_from old new (String.length old - 1) s'
          else String c (replace_from old new 0 s')
      end
  end.

(** An empty [old] occurs before every character and at the end. *)
Fixpoint replace_between (new s : string) : string :=
  match s with
  | EmptyString => new
  | String c s' => new +:+ String c (replace_between new s')
  end.

Definition string_replace (s old new : string) : string :=
  if decide (old = "") then replace_between new s else replace_from old new 0 s.

(** Structural equality of parsed values, for [==] and [!=]. *)
Fixpoint yaml_eqb (a b : yaml) : bool :=
  match a, b with
  | YNull, YNull => true
  | YBool x, YBool y => bool_decide (x = y)
  | YInt x, YInt y => bool_decide (x = y)
  | YStr x, YStr y => bool_decide (x = y)
  | YList l1, YList l2 =>
      (fix go (l1 l2 : list yaml) : bool :=
         match l1, l2 with
         | [], [] => true
         | x :: l1', y :: l2' => yaml_eqb x y && go l1' l2'
         | _, _ => false
         end) l1 l2
  | YDict d1, YDict d2 =>
      (fix go (d1 d2 : items yaml) : bool :=
         match d1, d2 with
         | [], [] => true
         | (k1, x) :: d1', (k2, y) :: d2' =>
             bool_decide (k1 = k2) && yaml_eqb x y && go d1' d2'
         | _, _ => false
         end) d1 d2
  | _, _ => false
  end.

(** [sub in s] on strings. *)
Fixpoint is_substring (sub s : string) : bool :=
  startswith s sub ||
  match s with
  | EmptyString => false
  | String _ s' => is_substring sub s'
  end.

(** [k in container] and [container[k] = v] where the container is
    whatever value the document holds under a key. *)
Definition yaml_contains (container : yaml) (k : string) : result bool :=
  match container with
  | YDict d => Ok (has_key d k)
  | YList l => Ok (existsb (yaml_eqb (YStr k)) l)
  | YStr s => Ok (is_substring k s)
  | _ => Raise TypeError
  end.

Definition yaml_set_item (container : yaml) (k : string) (v : yaml) : result yaml :=
  match container with
  | YDict d => Ok (YDict (items_set d k v))
  | _ => Raise TypeError
  end.

Definition yaml_iteritems (v : yaml) : result (items yaml) :=
  match v with
  | YDict d => Ok d
  | _ => Raise AttributeError
  end.

(** The loop of [_merge_into_dict_or_throw_on_duplicate] over the items of
    [from_dict]; the value is [to_dict] as the loop leaves it. *)
Fixpoint merge_into_dict_loop (from_items : items yaml) (to_dict : yaml)
    (top_level_key : string) (path : list string) : result yaml :=
  match from_items with
  | [] => Ok to_dict
  | (_key, _value) :: rest =>
      let* present := yaml_contains to_dict _key in
      if present : bool then
        Raise (DSLParsingLogicException 4
                 [top_level_key; join " --> " (path ++ [_key])])
      else
        let* to_dict := yaml_set_item to_dict _key _value in
        merge_into_dict_loop rest to_dict top_level_key path
  end.

Definition _merge_into_dict_or_throw_on_duplicate (from_dict to_dict : yaml)
    (top_level_key : string) (path : list string) : result yaml :=
  let* from_items := yaml_iteritems from_dict in
  merge_into_dict_loop from_items to_dict top_level_key path.

(** One round of the loop that combines an imported document with the
    combined document: the handling of one top level key. *)
Definition merge_import_key (combined_parsed_dsl : items yaml) (key : string)
    (value : yaml) : result (items yaml) :=
  if decide (key = IMPORTS) then Ok combined_parsed_dsl
  else if negb (has_key combined_parsed_dsl key) then
    Ok (items_set combined_parsed_dsl key value)
  else if bool_decide (key ∈ merge_no_override) then
    let* to_dict := items_get combined_parsed_dsl key in
    let* to_dict := _merge_into_dict_or_throw_on_duplicate value to_dict key [] in
    Ok (items_set combined_parsed_dsl key to_dict)
  else if bool_decide (key ∈ merge_one_nested_level_no_override) then
    let* nested := yaml_iteritems value in
    let* to_dict := items_get combined_parsed_dsl key in
    let* to_dict :=
      foldM (fun to_dict '(nested_key, nested_value) =>
               let* present := yaml_contains to_dict nested_key in
               if present : bool then
                 let* inner := (let* d := yaml_iteritems to_dict in items_get d nested_key) in
                 let* inner :=
                   _merge_into_dict_or_throw_on_duplicate nested_value inner key
                     [nested_key] in
                 yaml_set_item to_dict nested_key inner
               else yaml_set_item to_dict nested_key nested_value)
            nested to_dict in
    Ok (items_set combined_parsed_dsl key to_dict)
  else Raise (DSLParsingLogicException 3 [key]).

Definition merge_imported_dsl (combined_parsed_dsl parsed_imported_dsl : items yaml)
    : result (items yaml) :=
  foldM (fun combined '(key, value) => merge_import_key combined key value)
        parsed_imported_dsl combined_parsed_dsl.

Section Imports.
(** Fetching and schema validation are outside the sources: [_apply_ref]
    reads the referenced resource, [load_import] opens and parses an import
    URL (raising code 13 when it cannot), [build_ordered_imports_list]
    resolves the import graph and [validate_imports_section] is the schema
    check of the [imports] list. *)
Variable _apply_ref : yaml -> option string -> result yaml.
Variable load_import : string -> result (items yaml).
Variable _build_ordered_imports_list :
  items yaml -> option string -> result (list string).
Variable _validate_imports_section : yaml -> option string -> result unit.

Fixpoint _replace_ref_with_inline_paths (dsl : yaml) (path_context : option string)
    : result yaml :=
  match dsl with
  | YList l =>
      let* l' :=
        mapM (fun item => _replace_ref_with_inline_paths item path_context) l in
      Ok (YList l')
  | YDict d =>
      let* d' :=
        mapM (fun '(key, value) =>
                let* value' :=
                  if decide (key = "ref") then _apply_ref value path_context
                  else _replace_ref_with_inline_paths value path_context in
                Ok (key, value'))
             d in
      Ok (YDict d')
  | _ => Ok dsl
  end.

(** The same on a document, which is a dictionary. *)
Definition replace_ref_in_document (dsl : items yaml) (path_context : option string)
    : result (items yaml) :=
  let* dsl' := _replace_ref_with_inline_paths (YDict dsl) path_context in
  yaml_iteritems dsl'.

Definition truthy_location (dsl_location : option string) : bool :=
  match dsl_location with
  | Some l => negb (bool_decide (l = ""))
  | None => false
  end.

(** The body of the loop over [ordered_imports_list]. *)
Definition combine_single_import (dsl_version : yaml)
    (combined_parsed_dsl : items yaml) (single_import : string)
    : result (items yaml) :=
  let* parsed_imported_dsl := load_import single_import in
  let* parsed_imported_dsl :=
    if has_key parsed_imported_dsl VERSION then
      let* imported_dsl_version := items_get parsed_imported_dsl VERSION in
      if negb (yaml_eqb imported_dsl_version dsl_version) then
        Raise (DSLParsingLogicException 28 [single_import])
      else Ok (items_delete parsed_imported_dsl VERSION)
    else Ok parsed_imported_dsl in
  let* parsed_imported_dsl :=
    replace_ref_in_document parsed_imported_dsl (Some single_import) in
  merge_imported_dsl combined_parsed_dsl parsed_imported_dsl.

Definition _combine_imports (parsed_dsl : items yaml) (dsl_location : option string)
    : result (items yaml) :=
  let* combined_parsed_dsl := replace_ref_in_document parsed_dsl dsl_location in
  if negb (has_key parsed_dsl VERSION) then
    Raise (DSLParsingLogicException 27 [VERSION])
  else if negb (has_key parsed_dsl IMPORTS) then Ok combined_parsed_dsl
  else
    let* dsl_version := items_get parsed_dsl VERSION in
    let* imports := items_get parsed_dsl IMPORTS in
    let* _ := _validate_imports_section imports dsl_location in
    let* ordered_imports_list := _build_ordered_imports_list parsed_dsl dsl_location in
    let ordered_imports_list :=
      if truthy_location dsl_location then tail ordered_imports_list
      else ordered_imports_list in
    let* combined_parsed_dsl :=
      foldM (combine_single_import dsl_version) ordered_imports_list
            combined_parsed_dsl in
    Ok (if has_key combined_parsed_dsl IMPORTS
        then items_delete combined_parsed_dsl IMPORTS
        else combined_parsed_dsl).
End Imports.

(** What the merge does to the values of the documents. *)

(** A value is kept or, when it is a dictionary, extended at its end. *)
Definition extended (v v' : yaml) : Prop :=
  v' = v \/ exists d more, v = YDict d /\ v' = YDict (d ++ more).

(** A document is extended when each of its entries is. *)
Definition document_extended (dsl dsl' : items yaml) : Prop :=
  forall key value,
    items_get dsl key = Ok value ->
    exists value', items_get dsl' key = Ok value' /\ extended value value'.

(** The entries of an imported value are in a value of the combined
    document: the value is the imported one or, when the imported one is a
    dictionary, a dictionary that holds each of its entries. *)
Definition included (value value' : yaml) : Prop :=
  value' = value \/
  exists from_items,
    value = YDict from_items /\
    forall k v, items_get from_items k = Ok v ->
      exists to_items, value' = YDict to_items /\ items_get to_items k = Ok v.

(** ** Validation of intrinsic functions *)

(** The values of a plan: scalars, lists, dictionaries and, while the
    functions are validated, function instances that stand where their raw
    form stood. *)
Inductive value : Type :=
  | VScalar (s : string)
  | VList (elements : list value)
  | VDict (entries : items value)
  | VFunction (name : string) (raw : value).

Fixpoint no_function_instance (v : value) : Prop :=
  match v with
  | VScalar _ => True
  | VList l => (fix all (l : list value) : Prop :=
                  match l with
                  | [] => True
                  | x :: l' => no_function_instance x /\ all l'
                  end) l
  | VDict d => (fix all (d : items value) : Prop :=
                  match d with
                  | [] => True
                  | (_, x) :: d' => no_function_instance x /\ all d'
                  end) d
  | VFunction _ _ => False
  end.

Definition GET_PROPERTY : string := "get_property".

Section Functions.
Variable recursion_limit : nat.

(** Modelled from the spec: dsl_parser/functions.py is not part of the
    sources.  The registry of intrinsic functions is open: the names in
    [registered] are the user-registered ones.  A function instance has
    the capabilities [parse_args], [validate] and [evaluate], taken as
    parameters, and [function_id] is the identity
    [<node name>.<property path>] of a [get_property] instance. *)
Variable registered : list string.
Variable parse_args : string -> value -> result unit.
Variable validate : string -> value -> value -> result unit.
Variable evaluate : value -> value -> result value.
Variable function_id : value -> value -> result string.

(** Modelled from the spec: dsl_parser/constants.py is not part of the
    sources; the separator of the parts of a property path in the identity
    of a [get_property] instance is taken as a parameter. *)
Variable FUNCTION_NAME_PATH_SEPARATOR : string.

Definition template_functions : list string :=
  [GET_PROPERTY; "get_attribute"; "get_input"; "concat"] ++ registered.

(** Modelled from the spec: [functions.parse] is not part of the sources.
    A leaf parses as an intrinsic function when it is a mapping of one
    registered function name to its arguments; the instance keeps the raw
    form.  Any other value is returned as it is, here [None]. *)
Definition functions_parse (raw : value) : result (option value) :=
  match raw with
  | VDict [(func_name, func_args)] =>
      if bool_decide (func_name ∈ template_functions) then
        let* _ := parse_args func_name func_args in
        Ok (Some (VFunction func_name raw))
      else Ok None
  | _ => Ok None
  end.

(** Modelled from the spec: dsl_parser/scan.py is not part of the sources.
    The scan walks the plan recursively and hands every value to the
    handler; with [replace=True] a value for which the handler returns
    something else is replaced by it (the handler returns [None] here when
    it returns its argument), and the scan goes into the lists and
    mappings that were not replaced.  The handler threads a state. *)
Fixpoint scan_service_template {S : Type}
    (handler : value -> S -> result (option value * S)) (v : value) (s : S)
    : result (value * S) :=
  let* (replaced, s) := handler v s in
  match replaced with
  | Some v' => Ok (v', s)
  | None =>
      match v with
      | VList l =>
          let* (l', s) := mapM_state (scan_service_template handler) l s in
          Ok (VList l', s)
      | VDict d =>
          let* (d', s) :=
            mapM_state (fun '(k, x) s =>
                          let* (x', s) := scan_service_template handler x s in
                          Ok ((k, x'), s))
                       d s in
          Ok (VDict d', s)
      | _ => Ok (v, s)
      end
  end.

(** The handler of [_validate_functions]; the state is the list
    [get_property_functions]. *)
Definition handler (plan : value) (v : value) (get_property_functions : list value)
    : result (option value * list value) :=
  let* _func := functions_parse v in
  match _func with
  | Some (VFunction name raw as f) =>
      let* _ := validate name raw plan in
      if decide (name = GET_PROPERTY)
      then Ok (Some f, get_property_functions ++ [f])
      else Ok (None, get_property_functions)
  | _ => Ok (None, get_property_functions)
  end.

(** [validate_no_circular_get_property] and the scan of the properties
    it runs on a value that is no [get_property] instance; the state is
    [visited_functions]. *)
Fixpoint validate_no_circular_get_property (depth : nat) (plan r : value)
    (visited_functions : list string) : result (list string) :=
  match depth with
  | O => Raise RecursionDepthExceeded
  | S depth' =>
      match r with
      | VFunction name raw =>
          if decide (name = GET_PROPERTY) then
            let* func_id := function_id raw plan in
            if bool_decide (func_id ∈ visited_functions) then
              let visited_functions := visited_functions ++ [func_id] in
              let error_output :=
                (fun x => string_replace x FUNCTION_NAME_PATH_SEPARATOR ",")
                  <$> visited_functions in
              Raise (RuntimeError
                       ("Circular get_property function call detected: " +:+
                        join " -> " error_output))
            else
              let visited_functions := visited_functions ++ [func_id] in
              let* r := evaluate raw plan in
              validate_no_circular_get_property depth' plan r visited_functions
          else Ok visited_functions
      | VList l =>
          foldM (fun visited item =>
                   let* visited :=
                     validate_no_circular_get_property depth' plan item visited in
                   scan_properties_no_circular depth' plan item visited)
                l visited_functions
      | VDict d =>
          foldM (fun visited '(_, v) =>
                   let* visited :=
                     validate_no_circular_get_property depth' plan v visited in
                   scan_properties_no_circular depth' plan v visited)
                d visited_functions
      | VScalar _ => Ok visited_functions
      end
  end
with scan_properties_no_circular (depth : nat) (plan v : value)
    (visited_functions : list string) : result (list string) :=
  match depth with
  | O => Raise RecursionDepthExceeded
  | S depth' =>
      match v with
      | VList l =>
          foldM (fun visited item =>
                   let* visited :=
                     validate_no_circular_get_property depth' plan item visited in
                   scan_properties_no_circular depth' plan item visited)
                l visited_functions
      | VDict d =>
          foldM (fun visited '(_, v) =>
                   let* visited :=
                     validate_no_circular_get_property depth' plan v visited in
                   scan_properties_no_circular depth' plan v visited)
                d visited_functions
      | _ => Ok visited_functions
      end
  end.

(** The loop over [get_property_functions]. *)
Definition validate_no_circular_calls (plan : value)
    (get_property_functions : list value) : result unit :=
  let* _ :=
    foldM (fun (_ : unit) func =>
             match func with
             | VFunction _ raw =>
                 let* func_id := function_id raw plan in
                 let* result := evaluate raw plan in
                 let* _ :=
                   validate_no_circular_get_property recursion_limit plan result
                     [func_id] in
                 Ok tt
             | _ => Ok tt
             end)
          get_property_functions tt in
  Ok tt.

Definition replace_with_raw_function (v : value) (s : unit)
    : result (option value * unit) :=
  match v with
  | VFunction name raw =>
      if decide (name = GET_PROPERTY) then Ok (Some raw, s) else Ok (None, s)
  | _ => Ok (None, s)
  end.

(** The value is the plan as the call leaves it. *)
Definition _validate_functions (plan : value) : result value :=
  let* (plan', get_property_functions) :=
    scan_service_template (handler plan) plan [] in
  match get_property_functions with
  | [] => Ok plan'
  | _ :: _ =>
      let* _ := validate_no_circular_calls plan' get_property_functions in
      let* (plan'', _) := scan_service_template replace_with_raw_function plan' tt in
      Ok plan''
  end.
End Functions.

(** ** Example inputs *)

Definition plain_type (parent : option string) : dsl_type :=
  {| derived_from := parent; type_properties := None; type_interfaces := None;
     type_source_interfaces := None; type_target_interfaces := None |}.

(** A host type and a type derived from it. *)
Definition example_types : gmap string dsl_type :=
  <["vm" := plain_type (Some HOST_TYPE)]> (<[HOST_TYPE := plain_type None]> ∅).

(** A type that derives from itself. *)
Definition cyclic_types : gmap string dsl_type :=
  <["a" := plain_type (Some "a")]> ∅.

Definition example_consts : constants :=
  {| SCRIPT_PATH_PROPERTY := "script_path";
     SCRIPT_PLUGIN_NAME := "script";
     SCRIPT_PLUGIN_RUN_TASK := "script_runner.tasks.run";
     SCRIPT_PLUGIN_EXECUTE_WORKFLOW_TASK := "script_runner.tasks.execute_workflow";
     HOST_AGENT := "host_agent";
     CENTRAL_DEPLOYMENT_AGENT := "central_deployment_agent" |}.

Definition example_plugin (name : string) : plugin :=
  {| plugin_name := Some name; plugin_executor := "host_agent";
     plugin_source := Some "source"; plugin_install := Some true |}.

(** Plugins [a] and [a.b]. *)
Definition plugins_a_ab : gmap string plugin :=
  <["a" := example_plugin "a"]> (<["a.b" := example_plugin "a.b"]> ∅).

(** A plugin declared under the empty name. *)
Definition plugins_empty_name : gmap string plugin :=
  <["" := example_plugin ""]> ∅.

Definition no_url : string -> bool := fun _ => false.

(** The descriptors of all operations of all interfaces, each with the name
    of its interface, in the order in which [_process_context_operations]
    meets them. *)
Fixpoint interface_descriptors (url_exists : string -> bool) (consts : constants)
    (partial_error_message : string) (interfaces : interfaces_t)
    (plugins : gmap string plugin) (error_code : Z) (resource_base : option string)
    : result (list (string * OpDescriptor)) :=
  match interfaces with
  | [] => Ok []
  | (interface_name, interface) :: rest =>
      let* ds :=
        _extract_plugin_names_and_operation_mapping_from_interface url_exists consts
          interface plugins error_code
          ("In interface " +:+ interface_name +:+ " " +:+ partial_error_message)
          resource_base in
      let* ds' :=
        interface_descriptors url_exists consts partial_error_message rest plugins
          error_code resource_base in
      Ok (((fun d => (interface_name, d)) <$> ds) ++ ds')
  end.

(** What the loop does to the entry of a short operation name: the first
    descriptor of that name sets it, any further one resets it to [None]. *)
Definition short_name_step (entry : option (option operation_struct))
    (op_struct : operation_struct) : option (option operation_struct) :=
  match entry with
  | Some _ => Some None
  | None => Some (Some op_struct)
  end.

(** Two interfaces, each with an operation named like the long form of an
    operation of the other. *)
Definition dotted_interfaces : interfaces_t :=
  [("x", [("y", OpString "a.f"); ("z.w", OpString "a.g")]);
   ("z", [("w", OpString "a.h"); ("x.y", OpString "a.i")])].

(** The step of the loop, on a descriptor paired with its interface. *)
Definition described_step
    (st : gmap string (option operation_struct) * gmap string plugin)
    (x : string * OpDescriptor) :=
  context_operation_step x.1 st x.2.

(** The pairs (interface, operation) of the interfaces, in order. *)
Definition interface_keys (interfaces : interfaces_t) : list (string * string) :=
  flat_map (fun x => (fun o => (x.1, o)) <$> keys x.2) interfaces.

(** The step of the loop on the [operations] dictionary alone. *)
Definition operations_step (operations : gmap string (option operation_struct))
    (x : string * OpDescriptor) : gmap string (option operation_struct) :=
  let op_struct := od_op_struct x.2 in
  let operation_name := od_name x.2 in
  <[x.1 +:+ "." +:+ operation_name := Some op_struct]>
    (match operations !! operation_name with
     | Some _ => <[operation_name := None]> operations
     | None => <[operation_name := Some op_struct]> operations
     end).

(** Two interfaces that share the operation name [start]. *)
Definition lifecycle_interfaces : interfaces_t :=
  [("lifecycle", [("start", OpString "a.start"); ("stop", OpString "a.stop")]);
   ("monitor", [("start", OpString "a.b.run")])].

(** The same with an operation whose name has a dot, and one more
    operation. *)
Definition prefixed_interfaces : interfaces_t :=
  [("lifecycle", [("pre.create", OpString "a.create"); ("start", OpString "a.start")]);
   ("monitor", [("start", OpString "a.b.run"); ("stop", OpString "a.stop")])].

(** Stand-ins for the two merges that are parameters of the node
    processing: the interfaces and the property values of the instance are
    kept. *)
Definition keep_instance_interfaces (ty : dsl_type) (rel : relationship)
    : result (interfaces_t * interfaces_t) :=
  Ok (default [] (rel_source_interfaces rel), default [] (rel_target_interfaces rel)).

Definition keep_instance_properties (values overrides schema : items yaml)
    (owner : string) : result (items yaml) :=
  Ok values.

(** A relationship instance as a node template declares it. *)
Definition declared_relationship (type target : string) : relationship :=
  {| rel_type := type; rel_target := Some target; rel_target_id := None;
     rel_state := None; rel_properties := None;
     rel_source_interfaces := None; rel_target_interfaces := None;
     rel_source_operations := None; rel_target_operations := None;
     rel_base := None; rel_type_hierarchy := None |}.

(** Relationship types: the contained-in root and a type derived from it. *)
Definition example_relationships : gmap string dsl_type :=
  <["hosted_on" := plain_type (Some CONTAINED_IN_REL_TYPE)]>
    (<[CONTAINED_IN_REL_TYPE := plain_type None]> ∅).

Definition example_node_names : gset string := {["web"; "host"]}.

(** The base family of a relationship type as the specification words it:
    the first of the three families that holds the type, in the order
    contained, connected, depends. *)
Definition base_of (contained_in_rel_types connected_to_rel_types
                    depends_on_rel_types : gset string) (rel_type : string) : string :=
  if decide (rel_type ∈ contained_in_rel_types) then "contained"
  else if decide (rel_type ∈ connected_to_rel_types) then "connected"
  else if decide (rel_type ∈ depends_on_rel_types) then "depends"
  else "undefined".

(** Two stores that hold the same nodes up to their [plugins]. *)
Definition same_but_plugins (store store' : gmap string node) : Prop :=
  forall k, (fun n => set_node_plugins n ∅) <$> store' !! k
            = (fun n => set_node_plugins n ∅) <$> store !! k.

(** The relationships of a processed node that are in the contained-in
    family. *)
Definition contained_types (contained_in_rel_types : gset string)
    (rels : list relationship) : list string :=
  filter (fun ty => ty ∈ contained_in_rel_types) (rel_type <$> rels).

(** A relationship as node processing leaves it. *)
Definition processed_relationship (type target_id : string) : relationship :=
  {| rel_type := type; rel_target := None; rel_target_id := Some target_id;
     rel_state := Some "reachable"; rel_properties := Some [];
     rel_source_interfaces := Some []; rel_target_interfaces := Some [];
     rel_source_operations := None; rel_target_operations := None;
     rel_base := None; rel_type_hierarchy := None |}.

(** A node as node processing leaves it. *)
Definition processed_node_of (id type : string) (rels : list relationship) : node :=
  {| node_id := id; node_name := id; node_type := type; node_plugins := ∅;
     node_relationships := Some rels; node_type_hierarchy := None;
     node_host_id := None; node_plugins_to_install := None;
     node_deployment_plugins_to_install := None |}.

Definition example_contained_in : gset string := {[CONTAINED_IN_REL_TYPE; "hosted_on"]}.

(** [web] is hosted on [host], a node of the host type. *)
Definition web_on_host : list node :=
  [processed_node_of "web" "vm" [processed_relationship "hosted_on" "host"];
   processed_node_of "host" HOST_TYPE []].

(** [web] is hosted on [host] twice. *)
Definition web_on_host_twice : list node :=
  [processed_node_of "web" "vm"
     [processed_relationship "hosted_on" "host";
      processed_relationship "hosted_on" "host"];
   processed_node_of "host" HOST_TYPE []].

(** A root document with an import, and the stand-ins for its fetching:
    the import resolves to one document that declares plugin [b]. *)
Definition example_root : items yaml :=
  [(VERSION, YStr "cloudify_dsl_1_0");
   (IMPORTS, YList [YStr "types.yaml"]);
   (PLUGINS, YDict [("a", YNull)]);
   ("inputs", YDict [])].

Definition keep_ref (v : yaml) (path_context : option string) : result yaml := Ok v.

Definition load_types_yaml (url : string) : result (items yaml) :=
  Ok [(IMPORTS, YList []); (PLUGINS, YDict [("b", YNull)])].

Definition one_import (dsl : items yaml) (location : option string)
    : result (list string) :=
  Ok ["types.yaml"].

Definition accept_imports (imports : yaml) (location : option string) : result unit :=
  Ok tt.

(** An import that declares plugin [a] again, and one that declares the
    [inputs] section again. *)
Definition load_conflicting_yaml (url : string) : result (items yaml) :=
  Ok [(IMPORTS, YList []); (PLUGINS, YDict [("b", YNull); ("a", YNull)])].

Definition load_inputs_yaml (url : string) : result (items yaml) :=
  Ok [(PLUGINS, YDict [("b", YNull)]); ("inputs", YDict [])].

(** A node without its [host_id] key. *)
Definition clear_node_host_id (n : node) : node :=
  {| node_id := node_id n; node_name := node_name n; node_type := node_type n;
     node_plugins := node_plugins n;
     node_relationships := node_relationships n;
     node_type_hierarchy := node_type_hierarchy n;
     node_host_id := None;
     node_plugins_to_install := node_plugins_to_install n;
     node_deployment_plugins_to_install := node_deployment_plugins_to_install n |}.

(** Two stores that hold the same nodes up to their [host_id]. *)
Definition same_but_host_id (store store' : gmap string node) : Prop :=
  forall k, clear_node_host_id <$> store' !! k = clear_node_host_id <$> store !! k.

(** Two stores whose nodes have the same ids and host ids under the same
    keys. *)
Definition same_identity (store store' : gmap string node) : Prop :=
  forall k, (fun n => (node_id n, node_host_id n)) <$> store' !! k
            = (fun n => (node_id n, node_host_id n)) <$> store !! k.

(** What the test [if host_id:] lets through. *)
Definition truthy (host_id : option string) : option string :=
  match host_id with
  | Some h => if bool_decide (h = "") then None else Some h
  | None => None
  end.

(** The node after the body of the [host_id] loop, given the value that
    [_extract_node_host_id] returned. *)
Definition with_host_id (n : node) (host_id : option string) : node :=
  match truthy host_id with
  | Some h => set_node_host_id n h
  | None => n
  end.

(** The relationship that decides the host of a node that is no host: the
    first one whose type is in the contained-in family. *)
Definition containing_relationship (contained_in_rel_types : gset string)
    (n : node) : option relationship :=
  match node_relationships n with
  | Some rels => find (fun rel => bool_decide (rel_type rel ∈ contained_in_rel_types)) rels
  | None => None
  end.

(** What the first loop of the post-processing leaves of a node: its id,
    its host id, its type and the types of its relationships. *)
Definition node_shape (n : node)
    : string * option string * string * option (list string) :=
  (node_id n, node_host_id n, node_type n,
   (fun rels : list relationship => rel_type <$> rels) <$> node_relationships n).

Definition same_shape (store store' : gmap string node) : Prop :=
  forall k, node_shape <$> store' !! k = node_shape <$> store !! k.

(** A host node declared under the empty name. *)
Definition unnamed_host : list node := [processed_node_of "" HOST_TYPE []].

Definition host_type_only : gmap string dsl_type := <[HOST_TYPE := plain_type None]> ∅.

(** Node types: an application type, the host type and a type derived from
    it. *)
Definition scenario_types : gmap string dsl_type :=
  <["app" := plain_type None]> example_types.

(** [web], an application, is hosted on [host], a node of a type derived
    from the host type. *)
Definition app_on_vm : list node :=
  [processed_node_of "web" "app" [processed_relationship "hosted_on" "host"];
   processed_node_of "host" "vm" []].

(** A plan with a [get_property] leaf in the properties of a node, and
    stand-ins for the capabilities of the function instances: every
    function validates, and a [get_property] evaluates to a scalar. *)
Definition example_plan : value :=
  VDict [("nodes",
          VList [VDict [("name", VScalar "web");
                        ("properties",
                         VDict [("port", VScalar "80");
                                ("url", VDict [("get_property",
                                                VList [VScalar "web";
                                                       VScalar "port"])])])]]);
         ("outputs", VDict [])].

Definition accept_args (name : string) (args : value) : result unit := Ok tt.
Definition accept_function (name : string) (raw plan : value) : result unit := Ok tt.
Definition evaluate_to_scalar (raw plan : value) : result value := Ok (VScalar "80").
Definition id_of_web_port (raw plan : value) : result string := Ok "web.port".

(** What the host ids are read from and written to: the id, the type, the
    relationships and the host id of a node. *)
Definition node_core (n : node)
    : string * string * option (list relationship) * option string :=
  (node_id n, node_type n, node_relationships n, node_host_id n).

Definition same_core (store store' : gmap string node) : Prop :=
  forall k, node_core <$> store' !! k = node_core <$> store !! k.

(** ** Plugins of the plan *)

(** Whether a string that may be missing is truthy: it is there and it is
    not empty. *)
Definition truthy_string (s : option string) : bool :=
  match s with
  | Some s => negb (bool_decide (s = ""))
  | None => false
  end.

Section ProcessPlugin.
Variable consts : constants.
(** Modelled from the spec: the names of the plugin keys are constants of
    dsl_parser/constants.py, which is not part of the sources; the
    exceptions are formatted from them.  The plugin record has the keys
    themselves as fields, and the [executor], which the schema requires, is
    always there. *)
Variables PLUGIN_EXECUTOR_KEY PLUGIN_SOURCE_KEY : string.

(** The processed plugin always has the keys [name], [install] and
    [source]; a [source] that is [None] is a missing field here. *)
Definition _process_plugin : plugin -> string -> result plugin :=
  fun plugin plugin_name =>
  if negb (bool_decide (plugin_executor plugin
                        ∈ [CENTRAL_DEPLOYMENT_AGENT consts; HOST_AGENT consts])) then
    Raise (DSLParsingLogicException 18
             [plugin_name; PLUGIN_EXECUTOR_KEY; plugin_executor plugin;
              CENTRAL_DEPLOYMENT_AGENT consts; HOST_AGENT consts])
  else
    let source := plugin_source plugin in
    let install := default true (plugin_install plugin) in
    if install && negb (truthy_string source) then
      Raise (DSLParsingLogicException 50 [plugin_name; PLUGIN_SOURCE_KEY])
    else
      Ok {| plugin_name := Some plugin_name;
            plugin_executor := plugin_executor plugin;
            plugin_source := source;
            plugin_install := Some install |}.
End ProcessPlugin.

(** The deployment plugins of the plan: those of the nodes, the first one
    of each name, in the order of the nodes. *)
Definition _create_plan_deployment_plugins (processed_nodes : list node)
    : result (list plugin) :=
  let* st :=
    foldM (fun st n =>
             match node_deployment_plugins_to_install n with
             | None => Ok st
             | Some l =>
                 foldM (fun '(deployment_plugins, deployment_plugin_names)
                            management_plugin =>
                          let* name := field "name" (plugin_name management_plugin) in
                          if bool_decide (name ∈ deployment_plugin_names)
                          then Ok (deployment_plugins, deployment_plugin_names)
                          else Ok (deployment_plugins ++ [management_plugin],
                                   {[name]} ∪ deployment_plugin_names))
                       l st
             end)
          processed_nodes (([], ∅) : list plugin * gset string) in
  Ok st.1.

(** ** Policy types and policy triggers *)

Definition PROPERTIES : string := "properties".
Definition PARAMETERS : string := "parameters".

(** [d[key] = d.get(key, {})]: a value that is no dictionary has no
    [get]. *)
Definition set_default_dict (key : string) (d : yaml) : result yaml :=
  match d with
  | YDict entries =>
      Ok (YDict (items_set entries key
                   (match items_get entries key with
                    | Ok v => v
                    | Raise _ => YDict []
                    end)))
  | _ => Raise AttributeError
  end.

Definition _process_policy_types (policy_types : yaml) : result yaml :=
  let* processed := yaml_iteritems policy_types in
  let* processed :=
    mapM (fun '(name, policy) =>
            let* policy := set_default_dict PROPERTIES policy in
            Ok (name, policy))
         processed in
  Ok (YDict processed).

Definition _process_policy_triggers (policy_triggers : yaml) : result yaml :=
  let* processed := yaml_iteritems policy_triggers in
  let* processed :=
    mapM (fun '(name, trigger) =>
            let* trigger := set_default_dict PARAMETERS trigger in
            Ok (name, trigger))
         processed in
  Ok (YDict processed).

(** ** Locations of resources and the order of the imports *)

(** [alias_mapping[name] if name in alias_mapping else name]. *)
Definition _apply_alias_mapping_if_available (name : string)
    (alias_mapping : gmap string string) : string :=
  match alias_mapping !! name with
  | Some alias => alias
  | None => name
  end.

(** [s.rfind(c)]: the index of the last occurrence, [-1] when there is
    none.  [found] is the index of the last occurrence before index [i]. *)
Fixpoint rfind_from (c : ascii) (s : string) (i found : Z) : Z :=
  match s with
  | EmptyString => found
  | String d s' => rfind_from c s' (i + 1) (if decide (d = c) then i else found)
  end.

Definition rfind (c : ascii) (s : string) : Z := rfind_from c s 0 (-1).

Fixpoint string_take (n : nat) (s : string) : string :=
  match n, s with
  | S n', String c s' => String c (string_take n' s')
  | _, _ => EmptyString
  end.

(** [s[:n]], also for a negative [n]. *)
Definition slice_to (n : Z) (s : string) : string :=
  if decide (0 <= n)%Z then string_take (Z.to_nat n) s
  else string_take (Z.to_nat (Z.of_nat (String.length s) + n)) s.

(** Whether [c] occurs in [s]. *)
Fixpoint string_mem (c : ascii) (s : string) : bool :=
  match s with
  | EmptyString => false
  | String d s' => bool_decide (d = c) || string_mem c s'
  end.

(** The test of the first branch of [_get_resource_location]. *)
Definition already_url_format (resource_name : string) : bool :=
  startswith resource_name "http:" || startswith resource_name "https:"
  || startswith resource_name "file:" || startswith resource_name "ftp:".

(** What opening a URL comes to: it opens, or [urlopen] raises [URLError],
    or it raises another exception, such as the [ValueError] for a URL
    without a scheme. *)
Inductive urlopen_outcome : Type :=
  | Opened
  | URLError
  | OtherError (e : exn).

Section Locations.
(** The file system and the network: [os.path.exists], the URL path of the
    absolute path of a file ([pathname2url(os.path.abspath(..))]) and
    [urlopen]. *)
Variable path_exists : string -> bool.
Variable pathname2url_abspath : string -> string.
Variable urlopen : string -> urlopen_outcome.

(** Only [URLError] is caught: any other exception of [urlopen] is raised
    through. *)
Definition _validate_url_exists (url : string) : result bool :=
  match urlopen url with
  | Opened => Ok true
  | URLError => Ok false
  | OtherError e => Raise e
  end.

Definition _get_resource_location (resource_name : string)
    (resources_base_url current_resource_context : option string)
    : result (option string) :=
  if already_url_format resource_name then Ok (Some resource_name)
  else if path_exists resource_name
  then Ok (Some ("file:" +:+ pathname2url_abspath resource_name))
  else
    let from_resources_base :=
      match resources_base_url with
      | Some base => if truthy_string (Some base) then Some (base +:+ resource_name)
                     else None
      | None => None
      end in
    match current_resource_context with
    | Some context =>
        if truthy_string (Some context) then
          let candidate_url :=
            slice_to (rfind "/" context + 1) context +:+ resource_name in
          let* found := _validate_url_exists candidate_url in
          if found : bool then Ok (Some candidate_url) else Ok from_resources_base
        else Ok from_resources_base
    | None => Ok from_resources_base
    end.

(** The location is [None] when the parser was given a string.  The
    exception is formatted from the location after it was overwritten by
    the lookup that failed, which is [None]. *)
Definition _dsl_location_to_url (dsl_location : option string)
    (alias_mapping : gmap string string) (resources_base_url : option string)
    : result (option string) :=
  match dsl_location with
  | None => Ok None
  | Some dsl_location =>
      let dsl_location := _apply_alias_mapping_if_available dsl_location alias_mapping in
      let* dsl_location := _get_resource_location dsl_location resources_base_url None in
      match dsl_location with
      | None => Raise (DSLParsingLogicException 30 ["None"])
      | Some dsl_location => Ok (Some dsl_location)
      end
  end.

(** Iterating over a parsed value: the elements of a list, the keys of a
    dictionary, the characters of a string. *)
Fixpoint characters (s : string) : list string :=
  match s with
  | EmptyString => []
  | String c s' => String c EmptyString :: characters s'
  end.

Definition yaml_iterate (v : yaml) : result (list yaml) :=
  match v with
  | YList l => Ok l
  | YDict d => Ok (YStr <$> keys d)
  | YStr s => Ok (YStr <$> characters s)
  | _ => Raise TypeError
  end.

(** The name of an import: a list or a dictionary cannot be looked up in
    the alias mapping, and any other value that is no string has no
    [startswith]. *)
Definition import_name (another_import : yaml) : result string :=
  match another_import with
  | YStr name => Ok name
  | YList _ | YDict _ => Raise TypeError
  | _ => Raise AttributeError
  end.

(** Opening an import URL and parsing what is read: [None] is the
    [URLError] of a URL that cannot be opened; any other exception, of
    [urlopen] or of the parser, is the [Raise] of the result. *)
Variable load_yaml_from_url : string -> option (result (items yaml)).
Variable recursion_limit : nat.

(** [_build_ordered_imports_list_recursive]; the list
    [ordered_imports_list], which the calls share, is passed and
    returned. *)
Fixpoint build_ordered_imports_list_recursive (depth : nat)
    (alias_mapping : gmap string string) (resources_base_url : option string)
    (_parsed_dsl : items yaml) (_current_import : option string)
    (ordered_imports_list : list string) : result (list string) :=
  match depth with
  | O => Raise RecursionDepthExceeded
  | S depth' =>
      let ordered_imports_list :=
        match _current_import with
        | Some current => ordered_imports_list ++ [current]
        | None => ordered_imports_list
        end in
      if negb (has_key _parsed_dsl IMPORTS) then Ok ordered_imports_list
      else
        let* imports := items_get _parsed_dsl IMPORTS in
        let* imports := yaml_iterate imports in
        foldM (fun ordered_imports_list another_import =>
                 let* another_import := import_name another_import in
                 let another_import :=
                   _apply_alias_mapping_if_available another_import alias_mapping in
                 let* import_url :=
                   _get_resource_location another_import resources_base_url
                     _current_import in
                 match import_url with
                 | None => Raise (DSLParsingLogicException 13 [another_import])
                 | Some import_url =>
                     if bool_decide (import_url ∈ ordered_imports_list)
                     then Ok ordered_imports_list
                     else
                       match load_yaml_from_url import_url with
                       | None => Raise (DSLParsingLogicException 13 [import_url])
                       | Some loaded =>
                           let* imported_dsl := loaded in
                           build_ordered_imports_list_recursive depth' alias_mapping
                             resources_base_url imported_dsl (Some import_url)
                             ordered_imports_list
                       end
                 end)
              imports ordered_imports_list
  end.

Definition _build_ordered_imports_list (parsed_dsl : items yaml)
    (ordered_imports_list : list string) (alias_mapping : gmap string string)
    (current_import : option string) (resources_base_url : option string)
    : result (list string) :=
  build_ordered_imports_list_recursive recursion_limit alias_mapping resources_base_url
    parsed_dsl current_import ordered_imports_list.
End Locations.

(** ** Scanning properties (dsl_parser/utils.py) *)

(** [scan_properties]: the handler is called on the dictionary, the key,
    the value and the path of every entry of every dictionary in [value],
    an entry before the entries below it.  What the handler does is a
    change of a state; it does not change the values it is given. *)
Fixpoint scan_properties {S : Type}
    (handler : items yaml -> string -> yaml -> string -> S -> result S)
    (value : yaml) (path : string) (s : S) : result S :=
  match value with
  | YDict d =>
      foldM (fun s '(k, v) =>
               let current_path := path +:+ "." +:+ k in
               let* s := handler d k v current_path s in
               scan_properties handler v current_path s)
            d s
  | YList l => foldM (fun s item => scan_properties handler item path s) l s
  | _ => Ok s
  end.

(** The calls of the handler that a scan makes, in order. *)
Fixpoint property_visits (value : yaml) (path : string)
    : list (items yaml * string * yaml * string) :=
  match value with
  | YDict d =>
      flat_map (fun '(k, v) =>
                  (d, k, v, path +:+ "." +:+ k)
                    :: property_visits v (path +:+ "." +:+ k))
               d
  | YList l => flat_map (fun item => property_visits item path) l
  | _ => []
  end.

(** ** Groups *)

(** A trigger of a policy, a policy of a group and a group: dictionaries
    whose keys may be missing. *)
Record group_trigger : Type := {
  gt_type : option string;
  gt_parameters : option yaml
}.

Record group_policy : Type := {
  gp_type : option string;
  gp_properties : option yaml;
  gp_triggers : option (items group_trigger)
}.

Record group : Type := {
  group_members : option (list string);
  group_policies : option (items group_policy)
}.

(** [d.get(key, default)]. *)
Definition yaml_get (d : yaml) (key : string) (dflt : yaml) : result yaml :=
  match d with
  | YDict entries =>
      Ok (match items_get entries key with
          | Ok v => v
          | Raise _ => dflt
          end)
  | _ => Raise AttributeError
  end.

Definition double_quote : string := String "034"%char EmptyString.

Section Groups.
(** Modelled from the spec: [merge_schema_and_instance_properties] of
    dsl_parser/utils.py is not part of the sources; it is given the
    instance properties, the implementation properties, the schema
    properties, the two message templates and the name of the owner. *)
Variable merge_schema_and_instance_properties :
  yaml -> yaml -> yaml -> string -> string -> string -> result yaml.

Definition undefined_property_error_message : string :=
  "{0} '{1}' property is not part of the policy type properties schema".

Definition missing_property_error_message : string :=
  "{0} does not provide a value for mandatory '{1}' property which is part of its policy type schema".

(** The body of the loop over the triggers of a policy.  Code 42 is also
    formatted from the group, which is left out here. *)
Definition process_group_trigger (policy_triggers : items yaml)
    (group_name policy_name : string) (entry : string * group_trigger)
    : result (string * group_trigger) :=
  let '(trigger_name, trigger) := entry in
  let* type := field "type" (gt_type trigger) in
  if negb (has_key policy_triggers type) then
    Raise (DSLParsingLogicException 42 [trigger_name; policy_name; type])
  else
    let* definition := items_get policy_triggers type in
    let* schema := yaml_get definition PARAMETERS (YDict []) in
    let* merged_parameters :=
      merge_schema_and_instance_properties
        (default (YDict []) (gt_parameters trigger)) (YDict []) schema
        undefined_property_error_message missing_property_error_message
        ("group " +:+ double_quote +:+ group_name +:+ double_quote +:+
         ", policy " +:+ double_quote +:+ policy_name +:+ double_quote +:+
         " trigger " +:+ double_quote +:+ trigger_name +:+ double_quote) in
    Ok (trigger_name, {| gt_type := Some type; gt_parameters := Some merged_parameters |}).

(** The body of the loop over the policies of a group.  Code 41 is also
    formatted from the group. *)
Definition process_group_policy (policy_types policy_triggers : items yaml)
    (group_name : string) (entry : string * group_policy)
    : result (string * group_policy) :=
  let '(policy_name, policy) := entry in
  let* type := field "type" (gp_type policy) in
  if negb (has_key policy_types type) then
    Raise (DSLParsingLogicException 41 [policy_name; type])
  else
    let* definition := items_get policy_types type in
    let* schema := yaml_get definition PROPERTIES (YDict []) in
    let* merged_properties :=
      merge_schema_and_instance_properties
        (default (YDict []) (gp_properties policy)) (YDict []) schema
        undefined_property_error_message missing_property_error_message
        ("group " +:+ double_quote +:+ group_name +:+ double_quote +:+
         ", policy " +:+ double_quote +:+ policy_name +:+ double_quote) in
    let* triggers :=
      mapM (process_group_trigger policy_triggers group_name policy_name)
           (default [] (gp_triggers policy)) in
    Ok (policy_name,
        {| gp_type := Some type; gp_properties := Some merged_properties;
           gp_triggers := Some triggers |}).

(** Code 40 is also formatted from the groups. *)
Definition _process_groups (groups : items group) (policy_types policy_triggers : items yaml)
    (processed_nodes : list node) : result (items group) :=
  let node_names : gset string := list_to_set (node_name <$> processed_nodes) in
  mapM (fun '(group_name, group) =>
          let* members := field "members" (group_members group) in
          let* _ :=
            foldM (fun (_ : unit) member =>
                     if bool_decide (member ∈ node_names) then Ok tt
                     else Raise (DSLParsingLogicException 40 [member]))
                  members tt in
          let* policies := field "policies" (group_policies group) in
          let* policies :=
            mapM (process_group_policy policy_types policy_triggers group_name)
                 policies in
          Ok (group_name,
              {| group_members := Some members; group_policies := Some policies |}))
       groups.
End Groups.

(** What setting the default does to a dictionary: nothing when it holds
    the key, and the empty dictionary under the key, as the last entry,
    when it does not. *)
Definition defaulted (key : string) (d d' : yaml) : Prop :=
  exists entries,
    d = YDict entries /\
    d' = YDict (if has_key entries key then entries
                else entries ++ [(key, YDict [])]).

(** ** What the merge of the imports keeps *)

(** Whether a value holds the key [ref] in one of its dictionaries. *)
Fixpoint has_ref (v : yaml) : bool :=
  match v with
  | YList l => existsb has_ref l
  | YDict d => existsb (fun kv => bool_decide (kv.1 = "ref") || has_ref kv.2) d
  | _ => false
  end.

(** ** Chains of [get_property] functions *)

(** Each function of the chain evaluates to the [get_property] function
    that follows it, and the last one to the function [back]. *)
Fixpoint evaluates_in_chain (evaluate : value -> value -> result value)
    (plan : value) (chain : list value) (back : value) : Prop :=
  match chain with
  | [] => True
  | raw :: rest =>
      evaluate raw plan
      = Ok (VFunction GET_PROPERTY (match rest with next :: _ => next | [] => back end)) /\
      evaluates_in_chain evaluate plan rest back
  end.

(** ** What the passes of the post-processing keep *)

(** Two stores whose nodes agree, under the same keys, on what [f] reads
    of a node. *)
Definition same_on {A} (f : node -> A) (store store' : gmap string node) : Prop :=
  forall k, f <$> store' !! k = f <$> store !! k.

(** A node without its plugins and its relationships, which the first loop
    rewrites. *)
Definition node_but_plugins_relationships (n : node) :=
  (node_id n, node_name n, node_type n, node_type_hierarchy n, node_host_id n,
   node_plugins_to_install n, node_deployment_plugins_to_install n).

(** A node without the two lists of plugins to install, which the last two
    loops write. *)
Definition node_but_installs (n : node) :=
  (node_id n, node_name n, node_type n, node_plugins n, node_relationships n,
   node_type_hierarchy n, node_host_id n).

(** A node without its deployment plugins to install, which the last loop
    writes. *)
Definition node_but_deployment_plugins (n : node) :=
  (node_but_installs n, node_plugins_to_install n).

(** What every loop of the post-processing keeps of a node but for its
    type hierarchy. *)
Definition node_frame (n : node) :=
  (node_id n, node_name n, node_type n, node_host_id n,
   node_plugins_to_install n, node_deployment_plugins_to_install n).

(** What the first loop of the post-processing gives a node: the hierarchy
    of its type and, for each of its relationships, the hierarchy of the
    type of the relationship. *)
Definition hierarchies_set (recursion_limit : nat)
    (types relationships : gmap string dsl_type) (n : node) : Prop :=
  (exists h, node_type_hierarchy n = Some h /\
             _create_type_hierarchy recursion_limit (node_type n) types = Ok h) /\
  forall rels rel, node_relationships n = Some rels -> rel ∈ rels ->
    exists h, rel_type_hierarchy rel = Some h /\
              _create_type_hierarchy recursion_limit (rel_type rel) relationships = Ok h.

(** ** Further example inputs *)

(** A type whose parent is not declared. *)
Definition dangling_types : gmap string dsl_type :=
  <["a" := plain_type (Some "p")]> ∅.
(** Node types in three layers: [db_vm] derives from [vm], which derives
    from the host type. *)
Definition layered_types : gmap string dsl_type :=
  <["db_vm" := plain_type (Some "vm")]> example_types.

(** The script plugin alone, and a resource store that holds every path. *)
Definition script_plugin_only : gmap string plugin :=
  <["script" := example_plugin "script"]> ∅.

Definition every_url : string -> bool := fun _ => true.
(** Two processed workflows that use the same plugin. *)
Definition two_workflows : gmap string operation_struct :=
  <["install" := _operation_struct "a" "install" None true]>
    (<["uninstall" := _operation_struct "a" "uninstall" None true]> ∅).
(** A type implementation for a node. *)
Definition type_implementation_of (node_ref type : string) : implementation :=
  {| impl_type := type; impl_node_ref := Some node_ref;
     impl_source_node_ref := None; impl_target_node_ref := None;
     impl_properties := None |}.

(** Two implementations for the node [web], one of an undeclared type. *)
Definition two_implementations_of_web : gmap string implementation :=
  <["impl1" := type_implementation_of "web" "undeclared"]>
    (<["impl2" := type_implementation_of "web" "vm"]> ∅).

(** One implementation for the node [web], of a type derived from the host
    type. *)
Definition one_implementation_of_web : gmap string implementation :=
  <["impl" := type_implementation_of "web" "vm"]> ∅.
(** A plugin that the central deployment agent runs. *)
Definition deployment_plugin (name : string) : plugin :=
  {| plugin_name := Some name; plugin_executor := "central_deployment_agent";
     plugin_source := Some "source"; plugin_install := Some true |}.

(** [web], hosted on [host], lists a host agent plugin and a central
    deployment agent plugin. *)
Definition web_plugins : gmap string plugin :=
  <["agent" := example_plugin "agent"]> (<["manager" := deployment_plugin "manager"]> ∅).

Definition app_with_plugins_on_vm : list node :=
  [set_node_plugins
     (processed_node_of "web" "app" [processed_relationship "hosted_on" "host"])
     web_plugins;
   processed_node_of "host" "vm" []].
(** A plugin as a blueprint declares it, without a name and without the
    [install] key. *)
Definition declared_plugin (executor source : string) : plugin :=
  {| plugin_name := None; plugin_executor := executor;
     plugin_source := Some source; plugin_install := None |}.

(** Two nodes that list the same deployment plugin, and one more. *)
Definition nodes_with_deployment_plugins : list node :=
  [set_node_deployment_plugins_to_install (processed_node_of "a" "app" [])
     [deployment_plugin "manager"];
   set_node_deployment_plugins_to_install (processed_node_of "b" "app" [])
     [deployment_plugin "manager"; deployment_plugin "monitor"]].

(** Policy types: one with properties, one without. *)
Definition example_policy_types : yaml :=
  YDict [("threshold", YDict [("source", YStr "threshold.clj");
                              ("properties", YDict [("limit", YInt 5)])]);
         ("noop", YDict [("source", YStr "noop.clj")])].
(** A group of the node [web] with one policy and one trigger, and a merge
    that keeps the instance values. *)
Definition example_groups : items group :=
  [("servers",
    {| group_members := Some ["web"];
       group_policies :=
         Some [("load",
                {| gp_type := Some "threshold"; gp_properties := None;
                   gp_triggers :=
                     Some [("scale", {| gt_type := Some "execute_workflow";
                                        gt_parameters := None |})] |})] |})].

Definition example_policy_triggers : items yaml :=
  [("execute_workflow", YDict [("source", YStr "execute_workflow.clj")])].

Definition keep_instance_values (values overrides schema : yaml)
    (undefined_message missing_message owner : string) : result yaml :=
  Ok values.
(** An import graph with a cycle: the root imports [a.yaml], which imports
    [b.yaml] and the root, and [b.yaml] imports [a.yaml]. *)
Definition cyclic_imports (url : string) : option (result (items yaml)) :=
  if decide (url = "http://host/a.yaml") then
    Some (Ok [(IMPORTS, YList [YStr "http://host/b.yaml"; YStr "http://host/root.yaml"])])
  else if decide (url = "http://host/b.yaml") then
    Some (Ok [(IMPORTS, YList [YStr "http://host/a.yaml"])])
  else if decide (url = "http://host/root.yaml") then
    Some (Ok [(IMPORTS, YList [YStr "http://host/a.yaml"])])
  else None.

Definition no_path : string -> bool := fun _ => false.
Definition same_path : string -> string := fun path => path.

(** Every URL opens; and a network where nothing is found and where, as
    with [urllib2], a URL without a scheme is refused with a
    [ValueError]. *)
Definition every_url_opens : string -> urlopen_outcome := fun _ => Opened.

Definition nothing_opens (url : string) : urlopen_outcome :=
  if already_url_format url then URLError else OtherError ValueError.
(** Properties with a nested dictionary and a list, and a handler that
    records the paths it is given. *)
Definition example_properties : yaml :=
  YDict [("port", YInt 80);
         ("server", YDict [("image", YStr "ubuntu")]);
         ("disks", YList [YDict [("size", YInt 10)]; YStr "none"])].

Definition record_path (dictionary : items yaml) (key : string) (value : yaml)
    (path : string) (paths : list string) : result (list string) :=
  Ok (paths ++ [path]).
(** Two properties of the node [web] that refer to each other, the first
    one nested: its path has two parts. *)
Definition property_a : value := VList [VScalar "web"; VScalar "a"; VScalar "x"].
Definition property_b : value := VList [VScalar "web"; VScalar "b"].

Definition evaluate_to_each_other (raw plan : value) : result value :=
  match raw with
  | VList (_ :: VScalar "a" :: _) => Ok (VFunction GET_PROPERTY property_b)
  | _ => Ok (VFunction GET_PROPERTY property_a)
  end.

(** The identity of a property, with the separator [__sep__] between the
    parts of its path. *)
Definition id_of_property (raw plan : value) : result string :=
  match raw with
  | VList (VScalar node :: path) =>
      let* path :=
        mapM (fun part => match part with
                          | VScalar part => Ok part
                          | _ => Raise TypeError
                          end) path in
      Ok (node +:+ "." +:+ join "__sep__" path)
  | _ => Raise (KeyError "name")
  end.

(** * Properties *)

(** ** Results *)

Lemma bind_ok {A B} (m : result A) (f : A -> result B) (b : B) :
  bind m f = Ok b -> exists a, m = Ok a /\ f a = Ok b.
Proof. destruct m as [a|e]; simpl; [eauto | discriminate]. Qed.

Lemma dict_get_ok {V} (d : gmap string V) k v :
  dict_get d k = Ok v <-> d !! k = Some v.
Proof. unfold dict_get. destruct (d !! k); split; congruence. Qed.

Lemma foldM_preserves {A S} (R : S -> S -> Prop) (f : S -> A -> result S) l s s' :
  (forall s, R s s) -> (forall s1 s2 s3, R s1 s2 -> R s2 s3 -> R s1 s3) ->
  (forall s x s', f s x = Ok s' -> R s s') ->
  foldM f l s = Ok s' -> R s s'.
Proof.
  intros Hrefl Htrans Hstep. revert s. induction l as [|x l IH]; intros s H; simpl in H.
  - injection H as <-. apply Hrefl.
  - apply bind_ok in H as (s1 & Hx & H). eapply Htrans; [eapply Hstep; exact Hx|].
    apply IH. exact H.
Qed.

Lemma foldM_app {A S} (f : S -> A -> result S) l1 l2 s :
  foldM f (l1 ++ l2) s = let* s' := foldM f l1 s in foldM f l2 s'.
Proof.
  revert s. induction l1 as [|x l1 IH]; intros s; simpl; [reflexivity|].
  destruct (f s x) as [s'|e]; simpl; [apply IH | reflexivity].
Qed.

Ltac inv_bind H :=
  let a := fresh "a" in
  let Ha := fresh "Ha" in
  apply bind_ok in H; destruct H as (a & Ha & H).

(** ** Type hierarchies *)

Lemma root_first_snoc types parent h t ty :
  root_first types parent h ->
  types !! t = Some ty ->
  derived_from ty = match last h with Some p => Some p | None => parent end ->
  root_first types parent (h ++ [t]).
Proof.
  revert parent. induction h as [|x h IH]; intros parent Hh Ht Hd; simpl in *.
  - split; [eauto | exact I].
  - destruct Hh as [Hx Hh]. split; [exact Hx|].
    apply IH; [exact Hh | exact Ht |].
    rewrite Hd. destruct h as [|y h']; [reflexivity|].
    change (last (x :: y :: h')) with (last (y :: h')).
    destruct (last (y :: h')) eqn:E; [reflexivity|].
    apply last_None in E. discriminate.
Qed.

Lemma hierarchy_of_chain types type_name n :
  derivation_chain types type_name n ->
  exists h, length h = n /\ last h = Some type_name /\ root_first types None h /\
    forall depth, n <= depth -> create_type_hierarchy_rec depth type_name types = Ok h.
Proof.
  induction 1 as [t ty Ht Hd | t ty parent n Ht Hd Hc (h & Hlen & Hlast & Hrf & Hrun)].
  - exists [t]. repeat split; simpl; eauto.
    intros [|depth] Hle; [lia|]. simpl.
    apply dict_get_ok in Ht. rewrite Ht. simpl. rewrite Hd. reflexivity.
  - exists (h ++ [t]). repeat split.
    + rewrite length_app. simpl. lia.
    + apply last_snoc.
    + eapply root_first_snoc; eauto. rewrite Hlast. exact Hd.
    + intros [|depth] Hle; [lia|]. simpl.
      apply dict_get_ok in Ht. rewrite Ht. simpl. rewrite Hd.
      rewrite Hrun by lia. reflexivity.
Qed.

Lemma is_derived_from_of_chain types type_name n derived h :
  derivation_chain types type_name n ->
  (forall depth, n <= depth -> create_type_hierarchy_rec depth type_name types = Ok h) ->
  forall depth, n <= depth ->
    is_derived_from_rec depth type_name types derived = Ok (bool_decide (derived ∈ h)).
Proof.
  intros Hc. revert h.
  induction Hc as [t ty Ht Hd | t ty parent n Ht Hd Hc IH]; intros h Hrun depth Hle.
  - specialize (Hrun 1 (le_n _)). simpl in Hrun.
    apply dict_get_ok in Ht. rewrite Ht in Hrun. simpl in Hrun. rewrite Hd in Hrun.
    injection Hrun as <-.
    destruct depth as [|depth]; [lia|]. simpl.
    destruct (decide (t = derived)) as [->|Hne].
    + rewrite bool_decide_eq_true_2; [reflexivity | apply list_elem_of_singleton; reflexivity].
    + rewrite Ht. simpl. rewrite Hd.
      rewrite bool_decide_eq_false_2; [reflexivity|].
      intros Hin. apply list_elem_of_singleton in Hin. congruence.
  - destruct (hierarchy_of_chain _ _ _ Hc) as (hp & _ & _ & _ & Hp).
    specialize (Hrun (S n) (le_n _)). simpl in Hrun.
    apply dict_get_ok in Ht. rewrite Ht in Hrun. simpl in Hrun. rewrite Hd in Hrun.
    rewrite Hp in Hrun by lia. simpl in Hrun. injection Hrun as <-.
    destruct depth as [|depth]; [lia|]. simpl.
    destruct (decide (t = derived)) as [->|Hne].
    + rewrite bool_decide_eq_true_2; [reflexivity|].
      apply elem_of_app. right. apply list_elem_of_singleton. reflexivity.
    + rewrite Ht. simpl. rewrite Hd.
      rewrite (IH hp Hp) by lia. f_equal.
      apply bool_decide_ext. rewrite elem_of_app, list_elem_of_singleton.
      split; [auto | intros [?|?]; [assumption | congruence]].
Qed.

Lemma cyclic_types_no_bottom depth derived :
  create_type_hierarchy_rec depth "a" cyclic_types = Raise RecursionDepthExceeded /\
  (derived <> "a" ->
   is_derived_from_rec depth "a" cyclic_types derived = Raise RecursionDepthExceeded).
Proof.
  induction depth as [|depth [IH1 IH2]]; [split; reflexivity|].
  split.
  - simpl. change (dict_get cyclic_types "a") with (Ok (plain_type (Some "a"))).
    simpl. rewrite IH1. reflexivity.
  - intros Hne. simpl. destruct (decide ("a" = derived)) as [E|_]; [congruence|].
    change (dict_get cyclic_types "a") with (Ok (plain_type (Some "a"))).
    simpl. auto.
Qed.

(** C10: on a types map whose [derived_from] chains are finite and acyclic,
    both recursions return once the recursion limit exceeds the length of
    the chain: [_create_type_hierarchy] returns a root-first list that ends
    in the queried type, and [_is_derived_from] returns a boolean (whether
    the ancestor is in that list).  Neither detects cycles: on a type that
    derives from itself they exhaust every recursion limit. *)
Theorem hierarchy_total_on_acyclic_types :
  (forall types type_name derived,
     acyclic types -> is_Some (types !! type_name) ->
     exists n h,
       last h = Some type_name /\ root_first types None h /\
       forall recursion_limit, n <= recursion_limit ->
         _create_type_hierarchy recursion_limit type_name types = Ok h /\
         _is_derived_from recursion_limit type_name types derived
           = Ok (bool_decide (derived ∈ h))) /\
  (forall recursion_limit,
     _create_type_hierarchy recursion_limit "a" cyclic_types
       = Raise RecursionDepthExceeded /\
     _is_derived_from recursion_limit "a" cyclic_types "b"
       = Raise RecursionDepthExceeded).
Proof.
  split.
  - intros types type_name derived Hacyclic Hin.
    destruct (Hacyclic _ Hin) as [n Hc].
    destruct (hierarchy_of_chain _ _ _ Hc) as (h & _ & Hlast & Hrf & Hrun).
    exists n, h. split; [exact Hlast|]. split; [exact Hrf|].
    intros limit Hle. split.
    + apply Hrun; assumption.
    + eapply is_derived_from_of_chain; eauto.
  - intros limit. destruct (cyclic_types_no_bottom limit "b") as [H1 H2].
    split; [exact H1 | apply H2; discriminate].
Qed.

(** ** Implementations *)

Lemma filterM_ok_elem {A} (f : A -> result bool) (l l' : list A) x :
  filterM f l = Ok l' -> x ∈ l' -> x ∈ l /\ f x = Ok true.
Proof.
  revert l'. induction l as [|y l IH]; intros l' H Hx; simpl in H.
  - injection H as <-. apply elem_of_nil in Hx. contradiction.
  - destruct (f y) as [b|e] eqn:Hy; simpl in H; [|discriminate].
    destruct (filterM f l) as [ys|e]; simpl in H; [|discriminate].
    injection H as <-.
    destruct b.
    + apply elem_of_cons in Hx as [->|Hx].
      * split; [apply elem_of_cons; auto | exact Hy].
      * destruct (IH ys eq_refl Hx). split; [apply elem_of_cons; auto | assumption].
    + destruct (IH ys eq_refl Hx). split; [apply elem_of_cons; auto | assumption].
Qed.

(** What a lookup leaves of the [implementations] dictionary: nothing
    changes when it raises or finds no candidate, and exactly the entry that
    was applied is deleted otherwise. *)
Definition consumed_only_on_success {A} (applied : A -> implementation -> Prop)
    (implementations : gmap string implementation)
    (outcome : result A * gmap string implementation) (none : A -> Prop) : Prop :=
  match outcome with
  | (Raise _, implementations') => implementations' = implementations
  | (Ok a, implementations') =>
      (none a /\ implementations' = implementations) \/
      (exists impl_name impl,
          implementations !! impl_name = Some impl /\ applied a impl /\
          implementations' = delete impl_name implementations)
  end.

Lemma get_implementation_consumes limit msg type_name implementations category
    types err_code_ambig err_code_derive candidate_func :
  consumed_only_on_success (fun found impl => found = Some impl) implementations
    (_get_implementation limit msg type_name implementations category types
       err_code_ambig err_code_derive candidate_func)
    (fun found => found = None).
Proof.
  unfold _get_implementation, consumed_only_on_success.
  destruct (filterM _ (map_to_list implementations)) as [candidates|e] eqn:Hf;
    [|reflexivity].
  destruct candidates as [|[impl_name impl] [|c2 rest]]; [left; auto | | reflexivity].
  destruct (_is_derived_from limit (impl_type impl) types type_name) as [[|]|e];
    try reflexivity.
  right. exists impl_name, impl. split; [|auto].
  apply elem_of_map_to_list.
  eapply filterM_ok_elem; [exact Hf | apply elem_of_cons; auto].
Qed.

(** C9: a lookup of a type or relationship implementation deletes the
    matched entry only when it returns it; whenever the lookup raises (an
    ambiguity, codes 103 and 108, a derivation mismatch, codes 102 and 109,
    or any other exception) the implementations map is as it was before the
    call, and so it is when there is no candidate. *)
Theorem implementations_consumed_only_on_success :
  forall recursion_limit implementations types,
    (forall msg type_name category err_code_ambig err_code_derive candidate_func,
       consumed_only_on_success (fun found impl => found = Some impl) implementations
         (_get_implementation recursion_limit msg type_name implementations category
            types err_code_ambig err_code_derive candidate_func)
         (fun found => found = None)) /\
    (forall node_name node_type_name,
       consumed_only_on_success
         (fun found impl => found.1 = impl_type impl) implementations
         (_get_type_implementation_if_exists recursion_limit node_name
            node_type_name implementations types)
         (fun found => found = (node_type_name, []))) /\
    (forall source_node_name target_node_name relationship_type,
       consumed_only_on_success
         (fun found impl => found.1 = impl_type impl) implementations
         (_get_relationship_implementation_if_exists recursion_limit
            source_node_name target_node_name implementations relationship_type types)
         (fun found => found = (relationship_type, []))).
Proof.
  intros limit implementations types. split; [|split].
  - intros. apply get_implementation_consumes.
  - intros node_name node_type_name.
    unfold _get_type_implementation_if_exists.
    match goal with |- context [_get_implementation ?l ?m ?t ?i ?c ?ty ?a ?d ?f] =>
      pose proof (get_implementation_consumes l m t i c ty a d f) as H;
      destruct (_get_implementation l m t i c ty a d f) as [[found|e] impls']
    end; simpl in *; [|exact H].
    destruct H as [[-> ->] | (impl_name & impl & Hin & -> & ->)]; [left; auto|].
    right. exists impl_name, impl. auto.
  - intros source_node_name target_node_name relationship_type.
    unfold _get_relationship_implementation_if_exists.
    match goal with |- context [_get_implementation ?l ?m ?t ?i ?c ?ty ?a ?d ?f] =>
      pose proof (get_implementation_consumes l m t i c ty a d f) as H;
      destruct (_get_implementation l m t i c ty a d f) as [[found|e] impls']
    end; simpl in *; [|exact H].
    destruct H as [[-> ->] | (impl_name & impl & Hin & -> & ->)]; [left; auto|].
    right. exists impl_name, impl. auto.
Qed.

(** ** The plugin binder *)

Lemma startswith_app s p :
  startswith s p = true <-> exists rest, s = p +:+ rest.
Proof.
  revert s. induction p as [|c p IH]; intros s; simpl.
  - split; [intros _; exists s; reflexivity | reflexivity].
  - destruct s as [|d s].
    + split; [discriminate | intros [rest H]; discriminate].
    + destruct (decide (c = d)) as [->|Hne].
      * rewrite IH. split; intros [rest H]; exists rest.
        -- rewrite H. reflexivity.
        -- injection H as H. exact H.
      * split; [discriminate | intros [rest H]; injection H as H1 H2; congruence].
Qed.

Lemma string_app_cons c (a b : string) : String c a +:+ b = String c (a +:+ b).
Proof. reflexivity. Qed.

Lemma slice_from_app p rest :
  slice_from (String.length p) (p +:+ rest) = rest.
Proof.
  induction p as [|c p IH]; [destruct rest; reflexivity|].
  rewrite string_app_cons. simpl. exact IH.
Qed.

Lemma string_app_assoc (a b c : string) : (a +:+ b) +:+ c = a +:+ (b +:+ c).
Proof.
  induction a as [|x a IH]; [reflexivity|].
  rewrite !string_app_cons. f_equal. exact IH.
Qed.

Lemma string_app_length (a b : string) :
  String.length (a +:+ b) = String.length a + String.length b.
Proof.
  induction a as [|x a IH]; [reflexivity|].
  rewrite string_app_cons. simpl. f_equal. exact IH.
Qed.

(** Two names of the same length that both lead the mapping are equal. *)
Lemma same_length_prefix_eq (p q r1 r2 : string) :
  p +:+ r1 = q +:+ r2 -> String.length p = String.length q -> p = q.
Proof.
  revert q. induction p as [|c p IH]; intros [|d q] H Hlen;
    try discriminate; [reflexivity|].
  rewrite !string_app_cons in H.
  injection H as -> H. injection Hlen as Hlen. f_equal. eauto.
Qed.

(** The state of the loop over the plugin names: the name held is one of
    the names seen, it leads the mapping, its length is the length held,
    and no name seen that leads the mapping is longer than the length
    held. *)
Definition longest_prefix_inv (operation_mapping : string) (seen : list string)
    (st : nat * option string) : Prop :=
  (forall q, q ∈ seen -> startswith operation_mapping (q +:+ ".") = true ->
     String.length q <= st.1) /\
  match st.2 with
  | None => st.1 = 0
  | Some p =>
      p ∈ seen /\ startswith operation_mapping (p +:+ ".") = true /\
      st.1 = String.length p /\ 0 < st.1
  end.

Lemma longest_prefix_fold operation_mapping names seen st :
  longest_prefix_inv operation_mapping seen st ->
  longest_prefix_inv operation_mapping (seen ++ names)
    (fold_left (longest_prefix_step operation_mapping) names st).
Proof.
  revert seen st. induction names as [|x names IH]; intros seen st Hinv; simpl.
  - rewrite app_nil_r. exact Hinv.
  - replace (seen ++ x :: names) with ((seen ++ [x]) ++ names)
      by (rewrite <- app_assoc; reflexivity).
    apply IH. destruct st as [n r]. destruct Hinv as [Hmax Hheld].
    unfold longest_prefix_step, longest_prefix_inv in *. simpl in *.
    destruct (startswith operation_mapping (x +:+ ".")) eqn:Hx.
    + destruct (decide (n < String.length x)) as [Hlt|Hge]; simpl.
      * split.
        -- intros q Hq Hs. apply elem_of_app in Hq as [Hq|Hq].
           ++ specialize (Hmax q Hq Hs). lia.
           ++ apply list_elem_of_singleton in Hq as ->. lia.
        -- split; [apply elem_of_app; right; apply list_elem_of_singleton; reflexivity|].
           split; [exact Hx|]. split; [reflexivity | lia].
      * split.
        -- intros q Hq Hs. apply elem_of_app in Hq as [Hq|Hq]; [auto|].
           apply list_elem_of_singleton in Hq as ->. lia.
        -- destruct r as [p|]; [|exact Hheld].
           destruct Hheld as (Hp & ? & ? & ?).
           split; [apply elem_of_app; auto | auto].
    + simpl. split.
      * intros q Hq Hs. apply elem_of_app in Hq as [Hq|Hq]; [auto|].
        apply list_elem_of_singleton in Hq as ->. congruence.
      * destruct r as [p|]; [|exact Hheld].
        destruct Hheld as (Hp & ? & ? & ?).
        split; [apply elem_of_app; auto | auto].
Qed.

Lemma longest_prefix_loop operation_mapping names :
  longest_prefix_inv operation_mapping names
    (fold_left (longest_prefix_step operation_mapping) names (0, None)).
Proof.
  apply (longest_prefix_fold operation_mapping names []).
  split; [|reflexivity].
  intros q Hq. apply elem_of_nil in Hq. contradiction.
Qed.

Lemma plugin_keys_elem (plugins : gmap string plugin) name :
  name ∈ plugin_keys plugins <-> is_Some (plugins !! name).
Proof.
  unfold plugin_keys. rewrite list_elem_of_fmap. split.
  - intros [[k p] [-> Hin]]. apply elem_of_map_to_list in Hin. eauto.
  - intros [p Hp]. exists (name, p). split; [reflexivity|].
    apply elem_of_map_to_list. exact Hp.
Qed.

Lemma string_app_nonempty (a b : string) : a <> "" -> a +:+ b <> "".
Proof. destruct a; [congruence | discriminate]. Qed.

(** C1, as amended: when the longest declared plugin name [P] such that
    the mapping starts with [P] followed by a dot is not the empty string,
    the binder selects [P], and the bound operation is what follows that
    dot. *)
Theorem binder_selects_longest_prefix :
  forall url_exists consts plugins operation_name operation_content error_code
         partial_error_message resource_base is_workflows P p op,
    operation_mapping_of is_workflows operation_content = P +:+ "." +:+ op ->
    plugins !! P = Some p ->
    P <> "" ->
    (forall Q, is_Some (plugins !! Q) ->
       startswith (P +:+ "." +:+ op) (Q +:+ ".") = true ->
       String.length Q <= String.length P) ->
    _extract_plugin_name_and_operation_mapping_from_operation url_exists consts
      plugins (plugin_keys plugins) operation_name operation_content error_code
      partial_error_message resource_base is_workflows
    = Ok {| od_plugin := Some p;
            od_op_struct :=
              _operation_struct P op
                (operation_payload_of is_workflows operation_content) is_workflows;
            od_name := operation_name |}.
Proof.
  intros url_exists consts plugins operation_name operation_content error_code
         msg resource_base is_workflows P p op Hm Hp Hne Hlongest.
  unfold _extract_plugin_name_and_operation_mapping_from_operation.
  rewrite Hm.
  destruct (decide (P +:+ "." +:+ op = "")) as [E|_];
    [exfalso; revert E; apply string_app_nonempty; exact Hne|].
  assert (HP : startswith (P +:+ "." +:+ op) (P +:+ ".") = true).
  { apply startswith_app. exists op. rewrite string_app_assoc. reflexivity. }
  pose proof (longest_prefix_loop (P +:+ "." +:+ op) (plugin_keys plugins)) as Hinv.
  destruct (fold_left _ (plugin_keys plugins) (0, None)) as [n r].
  destruct Hinv as [Hmax Hheld]. simpl in Hmax, Hheld.
  assert (HPin : P ∈ plugin_keys plugins) by (apply plugin_keys_elem; eauto).
  specialize (Hmax P HPin HP).
  destruct r as [P'|].
  - destruct Hheld as (HP'in & HP' & Hn & _).
    assert (P' = P) as ->.
    { apply plugin_keys_elem in HP'in.
      specialize (Hlongest P' HP'in HP').
      apply startswith_app in HP' as [rest Hrest].
      rewrite string_app_assoc in Hrest.
      symmetry. eapply same_length_prefix_eq; [exact Hrest | lia]. }
    apply dict_get_ok in Hp. rewrite Hp. simpl. subst n.
    replace (String.length P + 1) with (String.length (P +:+ "."))
      by (rewrite string_app_length; reflexivity).
    rewrite <- (string_app_assoc P "." op), slice_from_app. reflexivity.
  - exfalso. subst n. apply Hne. destruct P; [reflexivity | simpl in Hmax; lia].
Qed.

(** The instance of the specification: with plugins [a] and [a.b] declared,
    the mapping [a.b.run] is bound to plugin [a.b] and operation [run]. *)
Lemma binder_selects_longest_prefix_witness :
  _extract_plugin_name_and_operation_mapping_from_operation no_url example_consts
    plugins_a_ab (plugin_keys plugins_a_ab) "start" (OpString "a.b.run") 10 "" None
    false
  = Ok {| od_plugin := Some (example_plugin "a.b");
          od_op_struct := _operation_struct "a.b" "run" None false;
          od_name := "start" |}.
Proof.
  apply (binder_selects_longest_prefix no_url example_consts plugins_a_ab "start"
           (OpString "a.b.run") 10 "" None false "a.b" (example_plugin "a.b") "run").
  - reflexivity.
  - reflexivity.
  - discriminate.
  - intros Q [v Hv] _. unfold plugins_a_ab in Hv.
    rewrite lookup_insert in Hv. destruct (decide ("a" = Q)) as [<-|_]; [simpl; lia|].
    rewrite lookup_insert in Hv. destruct (decide ("a.b" = Q)) as [<-|_]; [simpl; lia|].
    rewrite lookup_empty in Hv. discriminate.
Defined.

(** C1 as stated fails for a plugin declared under the empty name: it is
    the longest (the only) declared name that, followed by a dot, leads the
    mapping [.run], and the binder does not select it. *)
Lemma binder_skips_empty_plugin_name :
  operation_mapping_of false (OpString ".run") = "" +:+ "." +:+ "run" /\
  plugins_empty_name !! "" = Some (example_plugin "") /\
  (forall Q, is_Some (plugins_empty_name !! Q) ->
     startswith ("" +:+ "." +:+ "run") (Q +:+ ".") = true ->
     String.length Q <= String.length "") /\
  _extract_plugin_name_and_operation_mapping_from_operation no_url example_consts
    plugins_empty_name (plugin_keys plugins_empty_name) "start" (OpString ".run")
    10 "" None false
  = Raise (DSLParsingLogicException 10 [".run"; "start"; "operation"; ""]).
Proof.
  split; [reflexivity|]. split; [reflexivity|]. split.
  - intros Q [v Hv] _. unfold plugins_empty_name in Hv.
    rewrite lookup_insert in Hv. destruct (decide ("" = Q)) as [<-|_]; [simpl; lia|].
    rewrite lookup_empty in Hv. discriminate.
  - vm_compute. reflexivity.
Qed.

Lemma example_types_acyclic : acyclic example_types.
Proof.
  intros type_name [ty Hty]. unfold example_types in Hty.
  rewrite lookup_insert in Hty. destruct (decide ("vm" = type_name)) as [<-|_].
  - exists 2. eapply chain_step; [reflexivity | reflexivity |].
    eapply chain_root; reflexivity.
  - rewrite lookup_insert in Hty. destruct (decide (HOST_TYPE = type_name)) as [<-|_].
    + exists 1. eapply chain_root; reflexivity.
    + rewrite lookup_empty in Hty. discriminate.
Qed.

(** The types [vm] and the host type it derives from. *)
Lemma hierarchy_total_on_acyclic_types_witness :
  exists n h,
    last h = Some "vm" /\ root_first example_types None h /\
    forall recursion_limit, n <= recursion_limit ->
      _create_type_hierarchy recursion_limit "vm" example_types = Ok h /\
      _is_derived_from recursion_limit "vm" example_types HOST_TYPE
        = Ok (bool_decide (HOST_TYPE ∈ h)).
Proof.
  apply (proj1 hierarchy_total_on_acyclic_types example_types "vm" HOST_TYPE).
  - exact example_types_acyclic.
  - exists (plain_type (Some HOST_TYPE)). reflexivity.
Defined.

(** ** Workflows *)

(** C8: a workflow whose mapping is the empty string, or a mapping spec
    without the [mapping] field, is processed into an operation structure
    whose plugin is the empty string; unless a plugin is declared under the
    empty name, the computation of [workflow_plugins_to_install] then
    raises [KeyError] on that empty name, not a parsing exception. *)
Theorem empty_workflow_mapping_raises_key_error :
  forall url_exists consts plugins name content resource_base,
    operation_mapping_of true content = "" ->
    plugins !! "" = None ->
    exists op_struct,
      _process_workflows url_exists consts [(name, content)] plugins resource_base
        = Ok {[name := op_struct]} /\
      op_plugin op_struct = "" /\
      _create_plan_workflow_plugins {[name := op_struct]} plugins
        = Raise (KeyError "").
Proof.
  intros url_exists consts plugins name content resource_base Hm Hp.
  exists (_operation_struct "" "" (Some []) true).
  split; [|split; [reflexivity|]].
  - unfold _process_workflows. simpl.
    unfold _extract_plugin_name_and_operation_mapping_from_operation.
    rewrite Hm. simpl. rewrite insert_empty. reflexivity.
  - unfold _create_plan_workflow_plugins. rewrite map_to_list_singleton. simpl.
    rewrite bool_decide_eq_false_2 by apply not_elem_of_empty.
    unfold dict_get. rewrite Hp. reflexivity.
Qed.

(** A blueprint with the workflow [install: ""] and no plugins. *)
Lemma empty_workflow_mapping_raises_key_error_witness :
  exists op_struct,
    _process_workflows no_url example_consts [("install", OpString "")] ∅ None
      = Ok {[ "install" := op_struct ]} /\
    op_plugin op_struct = "" /\
    _create_plan_workflow_plugins {[ "install" := op_struct ]} ∅ = Raise (KeyError "").
Proof.
  apply (empty_workflow_mapping_raises_key_error no_url example_consts ∅ "install"
           (OpString "") None).
  - reflexivity.
  - apply lookup_empty.
Defined.

(** ** The operations of a node *)

Lemma binder_name url_exists consts plugins plugin_names operation_name
    operation_content error_code partial_error_message resource_base is_workflows d :
  _extract_plugin_name_and_operation_mapping_from_operation url_exists consts plugins
    plugin_names operation_name operation_content error_code partial_error_message
    resource_base is_workflows = Ok d ->
  od_name d = operation_name.
Proof.
  unfold _extract_plugin_name_and_operation_mapping_from_operation.
  intros H.
  destruct (decide _); [injection H as <-; reflexivity|].
  destruct (fold_left _ plugin_names (0, None)) as [len [name|]].
  - destruct (dict_get plugins name); simpl in H; [|discriminate].
    injection H as <-. reflexivity.
  - destruct (match resource_base with Some _ => _ | None => _ end); [|discriminate].
    destruct (has_key _ _); [discriminate|].
    destruct (plugins !! _); [|discriminate].
    injection H as <-. reflexivity.
Qed.

Lemma mapM_ok_Forall2 {A B} (f : A -> result B) l ys :
  mapM f l = Ok ys -> Forall2 (fun x y => f x = Ok y) l ys.
Proof.
  revert ys. induction l as [|x l IH]; intros ys H; simpl in H.
  - injection H as <-. constructor.
  - destruct (f x) as [y|e] eqn:Hx; simpl in H; [|discriminate].
    destruct (mapM f l) as [ys'|e]; simpl in H; [|discriminate].
    injection H as <-. constructor; auto.
Qed.

Lemma described_step_fmap iface ds st :
  fold_left described_step ((fun d => (iface, d)) <$> ds) st
  = fold_left (context_operation_step iface) ds st.
Proof. revert st. induction ds as [|d ds IH]; intros st; simpl; auto. Qed.

Lemma context_operations_fold url_exists consts msg interfaces plugins error_code
    resource_base st0 st :
  foldM (fun st '(interface_name, interface) =>
           let* operation_mapping_context :=
             _extract_plugin_names_and_operation_mapping_from_interface url_exists
               consts interface plugins error_code
               ("In interface " +:+ interface_name +:+ " " +:+ msg) resource_base in
           Ok (fold_left (context_operation_step interface_name)
                         operation_mapping_context st))
        interfaces st0 = Ok st ->
  exists descs,
    interface_descriptors url_exists consts msg interfaces plugins error_code
      resource_base = Ok descs /\
    st = fold_left described_step descs st0.
Proof.
  revert st0. induction interfaces as [|[iface ops] rest IH]; intros st0 H; simpl in H.
  - injection H as <-. exists []. auto.
  - simpl.
    destruct (_extract_plugin_names_and_operation_mapping_from_interface _ _ ops _ _ _ _)
      as [ds|e]; simpl in H; [|discriminate].
    destruct (IH _ H) as (descs & -> & ->). simpl.
    eexists. split; [reflexivity|].
    rewrite fold_left_app, described_step_fmap. reflexivity.
Qed.

Lemma interface_descriptors_keys url_exists consts msg interfaces plugins error_code
    resource_base descs :
  interface_descriptors url_exists consts msg interfaces plugins error_code
    resource_base = Ok descs ->
  (fun x => (x.1, od_name x.2)) <$> descs = interface_keys interfaces.
Proof.
  revert descs. induction interfaces as [|[iface ops] rest IH]; intros descs H; simpl in H.
  - injection H as <-. reflexivity.
  - destruct (_extract_plugin_names_and_operation_mapping_from_interface _ _ ops _ _ _ _)
      as [ds|e] eqn:Hds; simpl in H; [|discriminate].
    destruct (interface_descriptors _ _ _ rest _ _ _) as [ds'|e]; simpl in H;
      [|discriminate].
    injection H as <-. unfold interface_keys. simpl.
    rewrite fmap_app. f_equal; [|apply IH; reflexivity].
    unfold _extract_plugin_names_and_operation_mapping_from_interface in Hds.
    apply mapM_ok_Forall2 in Hds. clear -Hds.
    induction Hds as [|[o c] d ops ds Hd _ IH']; [reflexivity|].
    apply binder_name in Hd. simpl in *. rewrite Hd. f_equal. exact IH'.
Qed.

Lemma interface_descriptors_elem url_exists consts msg interfaces plugins error_code
    resource_base descs iface ops o c :
  interface_descriptors url_exists consts msg interfaces plugins error_code
    resource_base = Ok descs ->
  (iface, ops) ∈ interfaces -> (o, c) ∈ ops ->
  exists d,
    _extract_plugin_name_and_operation_mapping_from_operation url_exists consts plugins
      (plugin_keys plugins) o c error_code
      ("In interface " +:+ iface +:+ " " +:+ msg) resource_base false = Ok d /\
    (iface, d) ∈ descs /\ od_name d = o.
Proof.
  revert descs. induction interfaces as [|[iface' ops'] rest IH]; intros descs H Hi Ho.
  - apply elem_of_nil in Hi. contradiction.
  - simpl in H.
    destruct (_extract_plugin_names_and_operation_mapping_from_interface _ _ ops' _ _ _ _)
      as [ds|e] eqn:Hds; simpl in H; [|discriminate].
    destruct (interface_descriptors _ _ _ rest _ _ _) as [ds'|e]; simpl in H;
      [|discriminate].
    injection H as <-.
    apply elem_of_cons in Hi as [Hi|Hi].
    + injection Hi as <- <-.
      unfold _extract_plugin_names_and_operation_mapping_from_interface in Hds.
      apply mapM_ok_Forall2 in Hds.
      clear -Hds Ho. induction Hds as [|[o' c'] d ops ds Hd _ IH'].
      * apply elem_of_nil in Ho. contradiction.
      * apply elem_of_cons in Ho as [Ho|Ho].
        -- injection Ho as <- <-. exists d. split; [exact Hd|].
           split; [|eapply binder_name; exact Hd].
           apply elem_of_app. left. simpl. apply elem_of_cons. auto.
        -- destruct (IH' Ho) as (d' & ? & Hin & ?). exists d'.
           split; [assumption|]. split; [|assumption].
           apply elem_of_app in Hin as [Hin|Hin]; apply elem_of_app;
             [left; simpl; apply elem_of_cons; auto | auto].
    + destruct (IH ds' eq_refl Hi Ho) as (d & ? & ? & ?). exists d.
      split; [assumption|]. split; [|assumption]. apply elem_of_app. auto.
Qed.

Lemma described_step_operations descs operations node_plugins :
  (fold_left described_step descs (operations, node_plugins)).1
  = fold_left operations_step descs operations.
Proof.
  revert operations node_plugins.
  induction descs as [|x descs IH]; intros operations node_plugins; [reflexivity|].
  simpl. destruct (described_step (operations, node_plugins) x) as [ops' np'] eqn:E.
  rewrite IH.
  assert (ops' = operations_step operations x) as ->; [|reflexivity].
  unfold described_step, context_operation_step in E.
  destruct (od_plugin x.2); injection E as <- _; reflexivity.
Qed.

(** The entry of a key that is no long form of any descriptor is set by
    the descriptors whose short name it is. *)
Lemma fold_short_key descs operations k :
  (forall x, x ∈ descs -> x.1 +:+ "." +:+ od_name x.2 <> k) ->
  fold_left operations_step descs operations !! k
  = fold_left short_name_step
      ((fun x => od_op_struct x.2) <$> filter (fun x => od_name x.2 = k) descs)
      (operations !! k).
Proof.
  revert operations. induction descs as [|x descs IH]; intros operations Hlong;
    [reflexivity|].
  simpl. rewrite IH by (intros y Hy; apply Hlong, elem_of_cons; auto).
  assert (Hx : x.1 +:+ "." +:+ od_name x.2 <> k) by (apply Hlong, elem_of_cons; auto).
  rewrite filter_cons. unfold operations_step.
  rewrite lookup_insert_ne by exact Hx.
  destruct (decide (od_name x.2 = k)) as [E|E].
  - simpl. f_equal. rewrite E.
    destruct (operations !! k) eqn:Hk; rewrite lookup_insert_eq; reflexivity.
  - f_equal. destruct (operations !! od_name x.2);
      rewrite lookup_insert_ne by exact E; reflexivity.
Qed.

(** The entry of a key that is no short name of any descriptor is set by
    the last descriptor whose long form it is. *)
Lemma fold_long_key descs operations k :
  (forall x, x ∈ descs -> od_name x.2 <> k) ->
  fold_left operations_step descs operations !! k
  = match last (filter (fun x => x.1 +:+ "." +:+ od_name x.2 = k) descs) with
    | Some x => Some (Some (od_op_struct x.2))
    | None => operations !! k
    end.
Proof.
  revert operations. induction descs as [|x descs IH]; intros operations Hshort;
    [reflexivity|].
  simpl. rewrite IH by (intros y Hy; apply Hshort, elem_of_cons; auto).
  assert (Hx : od_name x.2 <> k) by (apply Hshort, elem_of_cons; auto).
  rewrite filter_cons.
  destruct (decide (x.1 +:+ "." +:+ od_name x.2 = k)) as [E|E].
  - rewrite last_cons.
    destruct (last (filter _ descs)); [reflexivity|].
    unfold operations_step. rewrite E, lookup_insert_eq. reflexivity.
  - destruct (last (filter _ descs)); [reflexivity|].
    unfold operations_step. rewrite lookup_insert_ne by exact E.
    destruct (operations !! od_name x.2); rewrite lookup_insert_ne by exact Hx;
      reflexivity.
Qed.

Lemma short_name_step_reset l :
  fold_left short_name_step l (Some None) = Some None.
Proof. induction l as [|s l IH]; [reflexivity | exact IH]. Qed.

Lemma short_name_step_many a b l :
  fold_left short_name_step (a :: b :: l) None = Some None.
Proof. apply short_name_step_reset. Qed.

Lemma NoDup_fmap_eq {A B} (f : A -> B) (l : list A) x y :
  NoDup (f <$> l) -> x ∈ l -> y ∈ l -> f x = f y -> x = y.
Proof.
  induction l as [|z l IH]; intros Hnd Hx Hy E.
  - apply elem_of_nil in Hx. contradiction.
  - simpl in Hnd. apply NoDup_cons in Hnd as [Hz Hnd].
    apply elem_of_cons in Hx as [->|Hx]; apply elem_of_cons in Hy as [->|Hy]; auto.
    + exfalso. apply Hz. rewrite E. apply list_elem_of_fmap_2. exact Hy.
    + exfalso. apply Hz. rewrite <- E. apply list_elem_of_fmap_2. exact Hx.
Qed.

Lemma NoDup_fmap_NoDup {A B} (f : A -> B) (l : list A) :
  NoDup (f <$> l) -> NoDup l.
Proof.
  induction l as [|z l IH]; intros Hnd; [constructor|].
  simpl in Hnd. apply NoDup_cons in Hnd as [Hz Hnd].
  apply NoDup_cons. split; [|auto].
  intros Hin. apply Hz. apply list_elem_of_fmap_2. exact Hin.
Qed.

Lemma NoDup_all_equal {A} (l : list A) a :
  NoDup l -> a ∈ l -> (forall x, x ∈ l -> x = a) -> l = [a].
Proof.
  intros Hnd Ha Hall. destruct l as [|x [|y l]].
  - apply elem_of_nil in Ha. contradiction.
  - f_equal. apply Hall, elem_of_cons. auto.
  - exfalso. apply NoDup_cons in Hnd as [Hx _]. apply Hx.
    rewrite (Hall x) by (apply elem_of_cons; auto).
    rewrite <- (Hall y) at 1 by (apply elem_of_cons; right; apply elem_of_cons; auto).
    apply elem_of_cons. auto.
Qed.

Lemma interface_keys_elem interfaces i o :
  (i, o) ∈ interface_keys interfaces <->
  exists ops, (i, ops) ∈ interfaces /\ o ∈ keys ops.
Proof.
  unfold interface_keys. rewrite list_elem_of_In, in_flat_map. split.
  - intros [[i' ops] [Hin Ho]]. apply list_elem_of_In in Hin.
    apply list_elem_of_In, list_elem_of_fmap in Ho as [o' [Heq Ho]].
    simpl in *. injection Heq as -> ->. eauto.
  - intros [ops [Hin Ho]]. exists (i, ops). split; [apply list_elem_of_In; exact Hin|].
    apply list_elem_of_In, list_elem_of_fmap. exists o. auto.
Qed.

Lemma interface_keys_NoDup interfaces :
  NoDup (keys interfaces) ->
  (forall i ops, (i, ops) ∈ interfaces -> NoDup (keys ops)) ->
  NoDup (interface_keys interfaces).
Proof.
  induction interfaces as [|[i ops] rest IH]; intros Hnd Hops; [constructor|].
  unfold interface_keys. simpl. apply NoDup_app. simpl in Hnd.
  apply NoDup_cons in Hnd as [Hi Hnd]. split; [|split].
  - apply NoDup_fmap_2; [intros o1 o2 E; congruence|].
    apply (Hops i). apply elem_of_cons. auto.
  - intros [i' o] H1 H2. apply list_elem_of_fmap in H1 as [o' [Heq _]].
    injection Heq as -> ->.
    apply (interface_keys_elem rest i o') in H2 as [ops' [Hin _]].
    apply Hi. unfold keys. apply list_elem_of_fmap. exists (i, ops'). auto.
  - apply IH; [exact Hnd|]. intros i' ops' Hin. apply (Hops i').
    apply elem_of_cons. auto.
Qed.

(** C6, as amended: the operations map of a node holds the long-form entry
    [interface.op] of an operation, with the structure of that operation,
    when no operation is itself named [interface.op] and no other operation
    has the same long form; and when the short name [op] is not the long
    form of any operation, the short-form entry is kept, with the same
    structure, when exactly one interface has an operation of that name,
    and is removed when two or more have one.  Operation names may contain
    dots. *)
Theorem operations_short_and_long_forms :
  forall url_exists consts msg interfaces plugins node_plugins error_code
         resource_base operations node_plugins',
    NoDup (keys interfaces) ->
    (forall i ops, (i, ops) ∈ interfaces -> NoDup (keys ops)) ->
    _process_context_operations url_exists consts msg interfaces plugins node_plugins
      error_code resource_base = Ok (operations, node_plugins') ->
    forall i ops o c, (i, ops) ∈ interfaces -> (o, c) ∈ ops ->
      exists d,
        _extract_plugin_name_and_operation_mapping_from_operation url_exists consts
          plugins (plugin_keys plugins) o c error_code
          ("In interface " +:+ i +:+ " " +:+ msg) resource_base false = Ok d /\
        ((forall i' ops' o', (i', ops') ∈ interfaces -> o' ∈ keys ops' ->
            o' <> i +:+ "." +:+ o /\
            (i' +:+ "." +:+ o' = i +:+ "." +:+ o -> i' = i /\ o' = o)) ->
         operations !! (i +:+ "." +:+ o) = Some (od_op_struct d)) /\
        ((forall i' ops' o', (i', ops') ∈ interfaces -> o' ∈ keys ops' ->
            i' +:+ "." +:+ o' <> o) ->
         ((forall i' ops', (i', ops') ∈ interfaces -> o ∈ keys ops' -> i' = i) ->
          operations !! o = Some (od_op_struct d)) /\
         ((exists i' ops', (i', ops') ∈ interfaces /\ o ∈ keys ops' /\ i' <> i) ->
          operations !! o = None)).
Proof.
  intros url_exists consts msg interfaces plugins node_plugins error_code
         resource_base operations node_plugins' Hnd Hops Hrun i ops o c Hi Ho.
  unfold _process_context_operations in Hrun.
  apply bind_ok in Hrun as (st & Hfold & Hst). injection Hst as <- _.
  apply context_operations_fold in Hfold as (descs & Hdescs & ->).
  rewrite described_step_operations.
  pose proof (interface_descriptors_keys _ _ _ _ _ _ _ _ Hdescs) as Hkeys.
  assert (Hknd : NoDup ((fun x => (x.1, od_name x.2)) <$> descs))
    by (rewrite Hkeys; apply interface_keys_NoDup; assumption).
  assert (Howner : forall x, x ∈ descs ->
            exists ops', (x.1, ops') ∈ interfaces /\ od_name x.2 ∈ keys ops').
  { intros x Hx. apply interface_keys_elem. rewrite <- Hkeys.
    apply (list_elem_of_fmap_2 (fun x => (x.1, od_name x.2))). exact Hx. }
  destruct (interface_descriptors_elem _ _ _ _ _ _ _ _ _ _ _ _ Hdescs Hi Ho)
    as (d & Hd & Hin & Hname).
  exists d. split; [exact Hd|].
  assert (Hsame : forall x, x ∈ descs -> x.1 = i -> od_name x.2 = o -> x = (i, d)).
  { intros x Hx E1 E2.
    apply (NoDup_fmap_eq (fun x => (x.1, od_name x.2)) descs); auto.
    simpl. congruence. }
  split.
  - intros Hlong. rewrite lookup_omap, fold_long_key.
    2:{ intros x Hx. destruct (Howner x Hx) as (ops' & Hin' & Hk).
        exact (proj1 (Hlong _ _ _ Hin' Hk)). }
    destruct (last (filter _ descs)) as [y|] eqn:Hlast.
    + apply last_Some_elem_of, list_elem_of_filter in Hlast as [Hy Hyin].
      destruct (Howner y Hyin) as (ops' & Hin' & Hk).
      destruct (proj2 (Hlong _ _ _ Hin' Hk) Hy) as [E1 E2].
      rewrite (Hsame y Hyin E1 E2). reflexivity.
    + exfalso. apply last_None in Hlast.
      assert (Hf : (i, d) ∈ filter
                (fun x => x.1 +:+ "." +:+ od_name x.2 = i +:+ "." +:+ o) descs).
      { apply list_elem_of_filter. split; [simpl; congruence | exact Hin]. }
      rewrite Hlast in Hf. apply elem_of_nil in Hf. exact Hf.
  - intros Hshort.
    assert (Hnolong : forall x, x ∈ descs -> x.1 +:+ "." +:+ od_name x.2 <> o).
    { intros x Hx. destruct (Howner x Hx) as (ops' & Hin' & Hk).
      exact (Hshort _ _ _ Hin' Hk). }
    split.
    + intros Hunique. rewrite lookup_omap, fold_short_key by exact Hnolong.
      rewrite lookup_empty.
      rewrite (NoDup_all_equal (filter (fun x => od_name x.2 = o) descs) (i, d)).
      * reflexivity.
      * apply NoDup_filter. eapply NoDup_fmap_NoDup. exact Hknd.
      * apply list_elem_of_filter. auto.
      * intros x Hx. apply list_elem_of_filter in Hx as [E Hx].
        apply Hsame; auto.
        destruct (Howner x Hx) as (ops' & Hin' & Hk). rewrite E in Hk. eauto.
    + intros (i' & ops' & Hi' & Ho' & Hne).
      unfold keys in Ho'. apply list_elem_of_fmap in Ho' as [[o' c'] [-> Ho']].
      destruct (interface_descriptors_elem _ _ _ _ _ _ _ _ _ _ _ _ Hdescs Hi' Ho')
        as (d' & _ & Hin' & Hname').
      rewrite lookup_omap, fold_short_key by exact Hnolong.
      rewrite lookup_empty.
      assert (H1 : (i, d) ∈ filter (fun x => od_name x.2 = (o', c').1) descs)
        by (apply list_elem_of_filter; auto).
      assert (H2 : (i', d') ∈ filter (fun x => od_name x.2 = (o', c').1) descs)
        by (apply list_elem_of_filter; auto).
      destruct (filter (fun x => od_name x.2 = (o', c').1) descs) as [|x [|y l]].
      * apply elem_of_nil in H1. contradiction.
      * apply list_elem_of_singleton in H1, H2. congruence.
      * rewrite !fmap_cons, short_name_step_many. reflexivity.
Qed.

(** A decidable proposition about closed terms, by evaluation. *)
Ltac compute_decision := apply (bool_decide_unpack _); vm_compute; exact I.

(** Membership in a list that is written out. *)
Ltac elem_cases H :=
  repeat (apply elem_of_cons in H as [H|H]; [try (injection H as -> ->) |]);
  try (apply elem_of_nil in H; contradiction).

(** The operation [pre.create], whose name has a dot, of one interface and
    the operation [start] of two. *)
Lemma operations_short_and_long_forms_witness :
  exists operations node_plugins' d_create d_start,
    _process_context_operations no_url example_consts "" prefixed_interfaces
      plugins_a_ab ∅ 10 None = Ok (operations, node_plugins') /\
    operations !! "lifecycle.pre.create" = Some (od_op_struct d_create) /\
    operations !! "pre.create" = Some (od_op_struct d_create) /\
    operations !! "lifecycle.start" = Some (od_op_struct d_start) /\
    operations !! "start" = None.
Proof.
  destruct (_process_context_operations no_url example_consts "" prefixed_interfaces
              plugins_a_ab ∅ 10 None) as [[operations node_plugins']|e] eqn:Hrun;
    [|vm_compute in Hrun; discriminate].
  assert (Hnd : NoDup (keys prefixed_interfaces))
    by (compute_decision).
  assert (Hops : forall i ops, (i, ops) ∈ prefixed_interfaces -> NoDup (keys ops)).
  { intros i ops H. unfold prefixed_interfaces in H.
    elem_cases H; compute_decision. }
  destruct (operations_short_and_long_forms no_url example_consts ""
              prefixed_interfaces plugins_a_ab ∅ 10 None operations node_plugins'
              Hnd Hops Hrun "lifecycle"
              [("pre.create", OpString "a.create"); ("start", OpString "a.start")]
              "pre.create" (OpString "a.create"))
    as (d_create & _ & Hlong & Hshort).
  { apply elem_of_cons. left. reflexivity. }
  { apply elem_of_cons. left. reflexivity. }
  destruct (operations_short_and_long_forms no_url example_consts ""
              prefixed_interfaces plugins_a_ab ∅ 10 None operations node_plugins'
              Hnd Hops Hrun "lifecycle"
              [("pre.create", OpString "a.create"); ("start", OpString "a.start")]
              "start" (OpString "a.start"))
    as (d_start & _ & Hlong' & Hshort').
  { apply elem_of_cons. left. reflexivity. }
  { apply elem_of_cons. right. apply elem_of_cons. left. reflexivity. }
  exists operations, node_plugins', d_create, d_start.
  split; [reflexivity|]. split; [|split; [|split]].
  - apply Hlong. intros i' ops' o' H Ho. unfold prefixed_interfaces in H.
    elem_cases H; simpl in Ho; elem_cases Ho; subst;
      (split; [discriminate | intros E; discriminate E || (split; reflexivity)]).
  - refine (proj1 (Hshort _) _).
    + intros i' ops' o' H Ho. unfold prefixed_interfaces in H.
      elem_cases H; simpl in Ho; elem_cases Ho; subst; discriminate.
    + intros i' ops' H Ho. unfold prefixed_interfaces in H.
      elem_cases H; [reflexivity|]. simpl in Ho. elem_cases Ho; discriminate.
  - apply Hlong'. intros i' ops' o' H Ho. unfold prefixed_interfaces in H.
    elem_cases H; simpl in Ho; elem_cases Ho; subst;
      (split; [discriminate | intros E; discriminate E || (split; reflexivity)]).
  - refine (proj2 (Hshort' _) _).
    + intros i' ops' o' H Ho. unfold prefixed_interfaces in H.
      elem_cases H; simpl in Ho; elem_cases Ho; subst; discriminate.
    + exists "monitor", [("start", OpString "a.b.run"); ("stop", OpString "a.stop")].
      split; [|split; [|discriminate]].
      * apply elem_of_cons. right. apply elem_of_cons. left. reflexivity.
      * apply elem_of_cons. left. reflexivity.
Defined.

(** C6 as stated fails when an operation is named like the long form of
    another one: interface [x] has the operations [y] and [z.w], interface
    [z] has [w] and [x.y].  Whichever interface comes first, the long-form
    entry of an operation of that interface is removed by the short name of
    the other interface, which only that interface has. *)
Lemma dotted_operation_name_removes_long_form :
  NoDup (keys dotted_interfaces) /\
  (forall i ops, (i, ops) ∈ dotted_interfaces -> NoDup (keys ops)) /\
  (exists operations node_plugins',
     _process_context_operations no_url example_consts "" dotted_interfaces
       plugins_a_ab ∅ 10 None = Ok (operations, node_plugins') /\
     operations !! ("x" +:+ "." +:+ "y") = None) /\
  (exists operations node_plugins',
     _process_context_operations no_url example_consts "" (reverse dotted_interfaces)
       plugins_a_ab ∅ 10 None = Ok (operations, node_plugins') /\
     operations !! ("z" +:+ "." +:+ "w") = None).
Proof.
  split; [compute_decision|]. split.
  { intros i ops H. unfold dotted_interfaces in H.
    elem_cases H; compute_decision. }
  split.
  - destruct (_process_context_operations no_url example_consts "" dotted_interfaces
                plugins_a_ab ∅ 10 None) as [[operations node_plugins']|e] eqn:Hrun;
      [|vm_compute in Hrun; discriminate].
    exists operations, node_plugins'. split; [reflexivity|].
    assert (H : match _process_context_operations no_url example_consts ""
                        dotted_interfaces plugins_a_ab ∅ 10 None with
                | Ok st => st.1 !! "x.y" = None
                | Raise _ => False
                end) by (vm_compute; reflexivity).
    rewrite Hrun in H. exact H.
  - destruct (_process_context_operations no_url example_consts ""
                (reverse dotted_interfaces) plugins_a_ab ∅ 10 None)
      as [[operations node_plugins']|e] eqn:Hrun;
      [|vm_compute in Hrun; discriminate].
    exists operations, node_plugins'. split; [reflexivity|].
    assert (H : match _process_context_operations no_url example_consts ""
                        (reverse dotted_interfaces) plugins_a_ab ∅ 10 None with
                | Ok st => st.1 !! "z.w" = None
                | Raise _ => False
                end) by (vm_compute; reflexivity).
    rewrite Hrun in H. exact H.
Qed.

(** ** The relationships of a node template *)

Section NodeRelationshipsProperties.
Variable recursion_limit : nat.
Variable merge_interfaces : dsl_type -> relationship -> result (interfaces_t * interfaces_t).
Variable merge_properties :
  items yaml -> items yaml -> items yaml -> string -> result (items yaml).

Let body := process_node_relationship recursion_limit merge_interfaces merge_properties.
Let loop :=
  process_node_relationships_loop recursion_limit merge_interfaces merge_properties.

Lemma process_node_relationships_loop_app node_name names tlr impls rels1 rels2 :
  loop node_name names tlr impls (rels1 ++ rels2)
  = (let* (done1, impls1) := loop node_name names tlr impls rels1 in
     let* (done2, impls2) := loop node_name names tlr impls1 rels2 in
     Ok (done1 ++ done2, impls2)).
Proof.
  revert impls. induction rels1 as [|rel rels1 IH]; intros impls; simpl.
  - destruct (loop node_name names tlr impls rels2) as [[done2 impls2]|e]; reflexivity.
  - fold loop body.
    destruct (body node_name names tlr impls rel) as [[rel' impls1]|e]; simpl;
      [|reflexivity].
    rewrite IH.
    destruct (loop node_name names tlr impls1 rels1) as [[done1 impls2]|e]; simpl;
      [|reflexivity].
    destruct (loop node_name names tlr impls2 rels2) as [[done2 impls3]|e]; reflexivity.
Qed.

(** The first relationship that raises decides what the whole call
    raises. *)
Lemma process_node_relationships_first_failure node_name names tlr impls done rel rest
    done' impls1 e :
  loop node_name names tlr impls done = Ok (done', impls1) ->
  body node_name names tlr impls1 rel = Raise e ->
  _process_node_relationships recursion_limit merge_interfaces merge_properties
    (Some (done ++ rel :: rest)) node_name names tlr impls = Raise e.
Proof.
  intros Hdone Hrel. unfold _process_node_relationships. fold loop.
  rewrite process_node_relationships_loop_app, Hdone. simpl. fold body.
  rewrite Hrel. reflexivity.
Qed.

(** The checks of one relationship, once its implementation lookup has
    returned the type to use. *)
Lemma process_node_relationship_checks node_name names tlr impls rel t ty props impls' :
  rel_target rel = Some t ->
  _get_relationship_implementation_if_exists recursion_limit node_name t impls
    (rel_type rel) tlr = (Ok (ty, props), impls') ->
  (t ∉ names ->
   body node_name names tlr impls rel
   = Raise (DSLParsingLogicException 25 [node_name; ty; t])) /\
  (t ∈ names -> t = node_name ->
   body node_name names tlr impls rel
   = Raise (DSLParsingLogicException 23 [node_name; ty])) /\
  (t ∈ names -> t <> node_name -> tlr !! ty = None ->
   body node_name names tlr impls rel
   = Raise (DSLParsingLogicException 26 [node_name; ty])).
Proof.
  intros Ht Hfound. unfold body, process_node_relationship.
  rewrite Ht. simpl. rewrite Hfound. simpl.
  split; [|split].
  - intros Hnot. rewrite bool_decide_eq_false_2 by exact Hnot. reflexivity.
  - intros Hin ->. rewrite bool_decide_eq_true_2 by exact Hin. simpl.
    rewrite bool_decide_eq_true_2 by reflexivity. reflexivity.
  - intros Hin Hne Hty. rewrite bool_decide_eq_true_2 by exact Hin. simpl.
    rewrite bool_decide_eq_false_2 by exact Hne. rewrite Hty. reflexivity.
Qed.

(** What a processed relationship looks like. *)
Lemma process_node_relationship_ok node_name names tlr impls rel rel' impls' :
  body node_name names tlr impls rel = Ok (rel', impls') ->
  exists t,
    rel_target rel = Some t /\ rel_target_id rel' = Some t /\ rel_target rel' = None /\
    rel_state rel' = Some "reachable" /\ t ∈ names /\ t <> node_name /\
    is_Some (tlr !! rel_type rel').
Proof.
  unfold body, process_node_relationship. intros H.
  destruct (rel_target rel) as [t|]; simpl in H; [|discriminate].
  destruct (_get_relationship_implementation_if_exists _ _ _ _ _ _)
    as [[[ty props]|e] impls1]; simpl in H; [|discriminate].
  destruct (bool_decide (t ∈ names)) eqn:Hin; simpl in H; [|discriminate].
  destruct (bool_decide (t = node_name)) eqn:Hself; [discriminate|].
  destruct (tlr !! ty) as [complete|] eqn:Hty; [|discriminate].
  destruct (merge_interfaces _ _) as [[src tgt]|e]; simpl in H; [|discriminate].
  destruct (merge_properties _ _ _ _) as [properties|e]; simpl in H; [|discriminate].
  injection H as <- _. exists t. simpl.
  apply bool_decide_eq_true_1 in Hin. apply bool_decide_eq_false_1 in Hself.
  rewrite Hty. repeat split; eauto.
Qed.

Lemma process_node_relationships_loop_ok node_name names tlr impls rels rels' impls' :
  loop node_name names tlr impls rels = Ok (rels', impls') ->
  Forall2 (fun rel rel' =>
             exists t,
               rel_target rel = Some t /\ rel_target_id rel' = Some t /\
               rel_target rel' = None /\ rel_state rel' = Some "reachable" /\
               t ∈ names /\ t <> node_name /\ is_Some (tlr !! rel_type rel'))
          rels rels'.
Proof.
  revert impls rels'. induction rels as [|rel rels IH]; intros impls rels' H; simpl in H.
  - injection H as <- _. constructor.
  - fold loop body in H.
    destruct (body node_name names tlr impls rel) as [[rel' impls1]|e] eqn:Hrel;
      simpl in H; [|discriminate].
    destruct (loop node_name names tlr impls1 rels) as [[done impls2]|e] eqn:Hrest;
      simpl in H; [|discriminate].
    injection H as <- <-. constructor; [|eapply IH; exact Hrest].
    eapply process_node_relationship_ok. exact Hrel.
Qed.
End NodeRelationshipsProperties.

(** C4: for every relationship instance of a node template, once the
    relationships before it are processed and its implementation lookup has
    returned the (possibly overridden) type, node processing raises code 25
    when the target is no declared node name, code 23 when the target is the
    node itself, and code 26 when the type is no declared relationship type;
    when processing succeeds, every relationship has lost its [target] key
    for a [target_id] that is a declared node name other than the owning
    node, has a declared type, and has the state [reachable]. *)
Theorem node_relationship_checks :
  forall recursion_limit merge_interfaces merge_properties node_name names tlr impls rels,
    (forall done rel rest done' impls1 t ty props impls2,
       rels = done ++ rel :: rest ->
       process_node_relationships_loop recursion_limit merge_interfaces
         merge_properties node_name names tlr impls done = Ok (done', impls1) ->
       rel_target rel = Some t ->
       _get_relationship_implementation_if_exists recursion_limit node_name t impls1
         (rel_type rel) tlr = (Ok (ty, props), impls2) ->
       (t ∉ names ->
        _process_node_relationships recursion_limit merge_interfaces merge_properties
          (Some rels) node_name names tlr impls
        = Raise (DSLParsingLogicException 25 [node_name; ty; t])) /\
       (t ∈ names -> t = node_name ->
        _process_node_relationships recursion_limit merge_interfaces merge_properties
          (Some rels) node_name names tlr impls
        = Raise (DSLParsingLogicException 23 [node_name; ty])) /\
       (t ∈ names -> t <> node_name -> tlr !! ty = None ->
        _process_node_relationships recursion_limit merge_interfaces merge_properties
          (Some rels) node_name names tlr impls
        = Raise (DSLParsingLogicException 26 [node_name; ty]))) /\
    (forall processed impls',
       _process_node_relationships recursion_limit merge_interfaces merge_properties
         (Some rels) node_name names tlr impls = Ok (processed, impls') ->
       exists rels',
         processed = Some rels' /\
         Forall2 (fun rel rel' =>
                    exists t,
                      rel_target rel = Some t /\ rel_target_id rel' = Some t /\
                      rel_target rel' = None /\ rel_state rel' = Some "reachable" /\
                      t ∈ names /\ t <> node_name /\ is_Some (tlr !! rel_type rel'))
                 rels rels').
Proof.
  intros limit merge_interfaces merge_properties node_name names tlr impls rels. split.
  - intros done rel rest done' impls1 t ty props impls2 -> Hdone Ht Hfound.
    destruct (process_node_relationship_checks limit merge_interfaces merge_properties
                node_name names tlr impls1 rel t ty props impls2 Ht Hfound)
      as (H25 & H23 & H26).
    split; [|split]; intros; eapply process_node_relationships_first_failure; eauto.
  - intros processed impls' H. unfold _process_node_relationships in H.
    destruct (process_node_relationships_loop _ _ _ _ _ _ _ rels)
      as [[rels' impls2]|e] eqn:Hloop; simpl in H; [|discriminate].
    injection H as <- _. exists rels'. split; [reflexivity|].
    eapply process_node_relationships_loop_ok. exact Hloop.
Qed.

(** Node [web]: a relationship to the undeclared node [db] raises code 25,
    and a relationship to the declared node [host] is processed. *)
Lemma node_relationship_checks_witness :
  _process_node_relationships 10 keep_instance_interfaces keep_instance_properties
    (Some [declared_relationship "hosted_on" "db"]) "web" example_node_names
    example_relationships ∅
  = Raise (DSLParsingLogicException 25 ["web"; "hosted_on"; "db"]) /\
  exists rels',
    Forall2 (fun rel rel' =>
               exists t,
                 rel_target rel = Some t /\ rel_target_id rel' = Some t /\
                 rel_target rel' = None /\ rel_state rel' = Some "reachable" /\
                 t ∈ example_node_names /\ t <> "web" /\
                 is_Some (example_relationships !! rel_type rel'))
            [declared_relationship "hosted_on" "host"] rels'.
Proof.
  split.
  - apply (proj1 (node_relationship_checks 10 keep_instance_interfaces
                    keep_instance_properties "web" example_node_names
                    example_relationships ∅ [declared_relationship "hosted_on" "db"])
             [] (declared_relationship "hosted_on" "db") [] [] ∅ "db" "hosted_on" [] ∅).
    + reflexivity.
    + reflexivity.
    + reflexivity.
    + vm_compute. reflexivity.
    + compute_decision.
  - destruct (_process_node_relationships 10 keep_instance_interfaces
                keep_instance_properties
                (Some [declared_relationship "hosted_on" "host"]) "web"
                example_node_names example_relationships ∅)
      as [[processed impls']|e] eqn:Hrun; [|vm_compute in Hrun; discriminate].
    destruct (proj2 (node_relationship_checks 10 keep_instance_interfaces
                       keep_instance_properties "web" example_node_names
                       example_relationships ∅
                       [declared_relationship "hosted_on" "host"])
                processed impls' Hrun) as (rels' & _ & H).
    exists rels'. exact H.
Defined.

(** ** Base families of relationships *)

Lemma same_but_plugins_refl store : same_but_plugins store store.
Proof. intros k. reflexivity. Qed.

Lemma same_but_plugins_trans s1 s2 s3 :
  same_but_plugins s1 s2 -> same_but_plugins s2 s3 -> same_but_plugins s1 s3.
Proof. intros H12 H23 k. rewrite H23. apply H12. Qed.

Lemma same_but_plugins_insert store k n plugins :
  store !! k = Some n ->
  same_but_plugins store (<[k := set_node_plugins n plugins]> store).
Proof.
  intros Hk k'. rewrite lookup_insert. destruct (decide (k = k')) as [<-|_]; [|reflexivity].
  rewrite Hk. reflexivity.
Qed.

Lemma same_but_plugins_lookup store store' k n :
  same_but_plugins store store' -> store !! k = Some n ->
  exists n',
    store' !! k = Some n' /\ node_id n' = node_id n /\ node_name n' = node_name n /\
    node_type n' = node_type n /\ node_relationships n' = node_relationships n /\
    node_host_id n' = node_host_id n.
Proof.
  intros H Hk. specialize (H k). rewrite Hk in H.
  destruct (store' !! k) as [n'|]; [|discriminate].
  injection H as Hid Hname Htype Hrels _ Hhost _ _. exists n'. auto 10.
Qed.

Lemma add_base_type_spec rel cin con dep contained :
  _add_base_type_to_relationship rel cin con dep contained
  = (set_rel_base rel (base_of cin con dep (rel_type rel)),
     contained ++ (if decide (rel_type rel ∈ cin) then [rel_type rel] else [])).
Proof.
  unfold _add_base_type_to_relationship, base_of.
  destruct (decide (rel_type rel ∈ cin)) as [H|H].
  - rewrite bool_decide_eq_true_2 by exact H. reflexivity.
  - rewrite bool_decide_eq_false_2 by exact H. rewrite app_nil_r.
    destruct (decide (rel_type rel ∈ con)) as [H'|H'].
    + rewrite bool_decide_eq_true_2 by exact H'. reflexivity.
    + rewrite bool_decide_eq_false_2 by exact H'.
      destruct (decide (rel_type rel ∈ dep)) as [H''|H''].
      * rewrite bool_decide_eq_true_2 by exact H''. reflexivity.
      * rewrite bool_decide_eq_false_2 by exact H''. reflexivity.
Qed.

Lemma base_of_contained cin con dep ty :
  base_of cin con dep ty = "contained" <-> ty ∈ cin.
Proof.
  unfold base_of. destruct (decide (ty ∈ cin)); [tauto|].
  destruct (decide (ty ∈ con)); [split; [discriminate | contradiction]|].
  destruct (decide (ty ∈ dep)); split; try discriminate; contradiction.
Qed.

Lemma relationships_operations_spec url_exists consts rel source node_for_plugins
    store plugins resource_base rel' store' :
  _process_node_relationships_operations url_exists consts rel source
    node_for_plugins store plugins resource_base = Ok (rel', store') ->
  rel_type rel' = rel_type rel /\ rel_base rel' = rel_base rel /\
  rel_target_id rel' = rel_target_id rel /\ same_but_plugins store store'.
Proof.
  unfold _process_node_relationships_operations. intros H.
  destruct (if source then rel_source_interfaces rel else rel_target_interfaces rel).
  - apply bind_ok in H as (n & Hn & H). apply dict_get_ok in Hn.
    apply bind_ok in H as ([operations node_plugins] & _ & H).
    injection H as <- <-. do 3 (split; [reflexivity|]).
    apply same_but_plugins_insert. exact Hn.
  - injection H as <- <-. do 3 (split; [reflexivity|]). apply same_but_plugins_refl.
Qed.

Section PostProcessProperties.
Variable recursion_limit : nat.
Variable url_exists : string -> bool.
Variable consts : constants.
Variables (processed_node : string) (plugins : gmap string plugin).
Variables (cin con dep : gset string) (relationships : gmap string dsl_type).
Variable resource_base : option string.

Let step :=
  post_process_relationship recursion_limit url_exists consts processed_node plugins
    cin con dep relationships resource_base.

Lemma post_process_relationship_spec store done contained rel store' done' contained' :
  step (store, done, contained) rel = Ok (store', done', contained') ->
  same_but_plugins store store' /\
  contained' = contained ++ (if decide (rel_type rel ∈ cin) then [rel_type rel] else []) /\
  exists rel',
    done' = done ++ [rel'] /\ rel_type rel' = rel_type rel /\
    rel_base rel' = Some (base_of cin con dep (rel_type rel)).
Proof.
  unfold step, post_process_relationship. intros H.
  apply bind_ok in H as (target_id & _ & H).
  apply bind_ok in H as (target_node & _ & H).
  apply bind_ok in H as ([rel1 store1] & H1 & H).
  apply bind_ok in H as ([rel2 store2] & H2 & H).
  apply relationships_operations_spec in H1 as (T1 & _ & _ & S1).
  apply relationships_operations_spec in H2 as (T2 & _ & _ & S2).
  rewrite add_base_type_spec in H.
  apply bind_ok in H as (type_hierarchy & _ & H).
  injection H as <- <- <-.
  split; [eapply same_but_plugins_trans; [exact S1 | exact S2]|].
  rewrite T2, T1. split; [reflexivity|].
  eexists. split; [reflexivity|]. simpl. rewrite T2, T1. auto.
Qed.

Lemma post_process_relationship_loop rels store done contained store' done' contained' :
  foldM step rels (store, done, contained) = Ok (store', done', contained') ->
  same_but_plugins store store' /\
  contained' = contained ++ contained_types cin rels /\
  exists rels',
    done' = done ++ rels' /\
    Forall2 (fun rel rel' =>
               rel_type rel' = rel_type rel /\
               rel_base rel' = Some (base_of cin con dep (rel_type rel)))
            rels rels'.
Proof.
  revert store done contained.
  induction rels as [|rel rels IH]; intros store done contained H; simpl in H.
  - injection H as <- <- <-. split; [apply same_but_plugins_refl|].
    split; [rewrite app_nil_r; reflexivity|].
    exists []. split; [rewrite app_nil_r; reflexivity | constructor].
  - apply bind_ok in H as ([[store1 done1] contained1] & Hstep & H).
    apply post_process_relationship_spec in Hstep as (S1 & -> & rel' & -> & Hty & Hbase).
    apply IH in H as (S2 & -> & rels' & -> & Hall).
    split; [eapply same_but_plugins_trans; eassumption|].
    split.
    + rewrite <- app_assoc. f_equal. unfold contained_types. simpl.
      rewrite filter_cons. destruct (decide (rel_type rel ∈ cin)); reflexivity.
    + exists (rel' :: rels'). split; [rewrite <- app_assoc; reflexivity|].
      constructor; auto.
Qed.

Lemma contained_bases_count rels rels' :
  Forall2 (fun rel rel' =>
             rel_type rel' = rel_type rel /\
             rel_base rel' = Some (base_of cin con dep (rel_type rel)))
          rels rels' ->
  length (filter (fun rel' => rel_base rel' = Some "contained") rels')
  = length (contained_types cin rels).
Proof.
  induction 1 as [|rel rel' rels rels' [Hty Hbase] _ IH]; [reflexivity|].
  unfold contained_types in *. simpl. rewrite !filter_cons.
  destruct (decide (rel_type rel ∈ cin)) as [Hin|Hin].
  - rewrite decide_True; [simpl; f_equal; exact IH|].
    rewrite Hbase. f_equal. apply base_of_contained. exact Hin.
  - rewrite decide_False; [exact IH|].
    rewrite Hbase. intros E. injection E as E. apply base_of_contained in E. auto.
Qed.
End PostProcessProperties.

(** C3: every relationship of a processed node is given the base of the
    first family that holds its type, in the order contained, connected,
    depends, and [undefined] when none does.  When post-processing the
    relationships of a node succeeds, at most one of them has the base
    [contained]; when more than one type is in the contained-in family and
    the loop over the relationships completes, post-processing raises code
    112 with those relationship types. *)
Theorem relationship_bases_and_single_containment :
  forall recursion_limit url_exists consts processed_node store plugins cin con dep
         relationships resource_base n rels,
    store !! processed_node = Some n ->
    node_relationships n = Some rels ->
    (forall rel contained,
       _add_base_type_to_relationship rel cin con dep contained
       = (set_rel_base rel (base_of cin con dep (rel_type rel)),
          contained ++ (if decide (rel_type rel ∈ cin) then [rel_type rel] else []))) /\
    (forall store',
       _post_process_node_relationships recursion_limit url_exists consts
         processed_node store plugins cin con dep relationships resource_base
       = Ok store' ->
       exists n' rels',
         store' !! processed_node = Some n' /\ node_relationships n' = Some rels' /\
         Forall2 (fun rel rel' =>
                    rel_type rel' = rel_type rel /\
                    rel_base rel' = Some (base_of cin con dep (rel_type rel)))
                 rels rels' /\
         length (filter (fun rel' => rel_base rel' = Some "contained") rels') <= 1) /\
    (forall st,
       foldM (post_process_relationship recursion_limit url_exists consts
                processed_node plugins cin con dep relationships resource_base)
             rels (store, [], []) = Ok st ->
       1 < length (contained_types cin rels) ->
       _post_process_node_relationships recursion_limit url_exists consts
         processed_node store plugins cin con dep relationships resource_base
       = Raise (DSLParsingLogicException 112
                  (node_name n :: CONTAINED_IN_REL_TYPE :: contained_types cin rels))).
Proof.
  intros limit url_exists consts processed_node store plugins cin con dep
         relationships resource_base n rels Hn Hrels.
  split; [intros; apply add_base_type_spec|].
  unfold _post_process_node_relationships.
  apply dict_get_ok in Hn as Hget. rewrite Hget. simpl. rewrite Hrels.
  split.
  - intros store' H.
    apply bind_ok in H as ([[store1 done] contained] & Hloop & H).
    apply post_process_relationship_loop in Hloop as (Hsame & -> & rels' & -> & Hall).
    destruct (same_but_plugins_lookup _ _ _ _ Hsame Hn) as (n1 & Hn1 & _).
    apply dict_get_ok in Hn1. rewrite Hn1 in H. simpl in H.
    destruct (decide (1 < length (contained_types cin rels))) as [Hmany|Hfew];
      [discriminate|].
    injection H as <-.
    exists (set_node_relationships n1 rels'), rels'.
    split; [apply lookup_insert_eq|]. split; [reflexivity|]. split; [exact Hall|].
    rewrite (contained_bases_count cin con dep rels rels' Hall). lia.
  - intros [[store1 done] contained] Hloop Hmany. rewrite Hloop. simpl.
    apply post_process_relationship_loop in Hloop as (Hsame & -> & _).
    destruct (same_but_plugins_lookup _ _ _ _ Hsame Hn) as (n1 & Hn1 & _ & Hname & _).
    apply dict_get_ok in Hn1. rewrite Hn1. simpl.
    destruct (decide (1 < length (contained_types cin rels))) as [_|Hfew];
      [|contradiction].
    rewrite Hname. reflexivity.
Qed.

(** Node [web] hosted on [host] once, and twice. *)
Lemma relationship_bases_and_single_containment_witness :
  (exists store' n' rels',
     _post_process_node_relationships 10 no_url example_consts "web"
       (node_name_to_node_of web_on_host) ∅ example_contained_in ∅ ∅
       example_relationships None = Ok store' /\
     store' !! "web" = Some n' /\ node_relationships n' = Some rels' /\
     Forall2 (fun rel rel' =>
                rel_type rel' = rel_type rel /\
                rel_base rel' = Some (base_of example_contained_in ∅ ∅ (rel_type rel)))
             [processed_relationship "hosted_on" "host"] rels' /\
     length (filter (fun rel' => rel_base rel' = Some "contained") rels') <= 1) /\
  _post_process_node_relationships 10 no_url example_consts "web"
    (node_name_to_node_of web_on_host_twice) ∅ example_contained_in ∅ ∅
    example_relationships None
  = Raise (DSLParsingLogicException 112
             ["web"; CONTAINED_IN_REL_TYPE; "hosted_on"; "hosted_on"]).
Proof.
  split.
  - destruct (_post_process_node_relationships 10 no_url example_consts "web"
                (node_name_to_node_of web_on_host) ∅ example_contained_in ∅ ∅
                example_relationships None) as [store'|e] eqn:Hrun;
      [|vm_compute in Hrun; discriminate].
    destruct (relationship_bases_and_single_containment 10 no_url example_consts "web"
                (node_name_to_node_of web_on_host) ∅ example_contained_in ∅ ∅
                example_relationships None
                (processed_node_of "web" "vm" [processed_relationship "hosted_on" "host"])
                [processed_relationship "hosted_on" "host"] eq_refl eq_refl)
      as (_ & Hok & _).
    destruct (Hok store' Hrun) as (n' & rels' & H).
    exists store', n', rels'. split; [reflexivity | exact H].
  - destruct (relationship_bases_and_single_containment 10 no_url example_consts "web"
                (node_name_to_node_of web_on_host_twice) ∅ example_contained_in ∅ ∅
                example_relationships None
                (processed_node_of "web" "vm"
                   [processed_relationship "hosted_on" "host";
                    processed_relationship "hosted_on" "host"])
                [processed_relationship "hosted_on" "host";
                 processed_relationship "hosted_on" "host"] eq_refl eq_refl)
      as (_ & _ & Hmany).
    destruct (foldM (post_process_relationship 10 no_url example_consts "web" ∅
                       example_contained_in ∅ ∅ example_relationships None)
                    [processed_relationship "hosted_on" "host";
                     processed_relationship "hosted_on" "host"]
                    (node_name_to_node_of web_on_host_twice, [], []))
      as [st|e] eqn:Hloop; [|vm_compute in Hloop; discriminate].
    apply (Hmany st eq_refl). vm_compute. lia.
Defined.

(** ** Merging the imports *)

Lemma has_key_spec {V} (d : items V) k : has_key d k = true <-> k ∈ keys d.
Proof. unfold has_key. apply bool_decide_eq_true. Qed.

Lemma has_key_false {V} (d : items V) k : has_key d k = false <-> k ∉ keys d.
Proof. unfold has_key. apply bool_decide_eq_false. Qed.

Lemma items_set_fresh {V} (d : items V) k v :
  k ∉ keys d -> items_set d k v = d ++ [(k, v)].
Proof.
  induction d as [|[k' v'] d IH]; intros Hk; simpl; [reflexivity|].
  unfold keys in Hk. simpl in Hk. apply not_elem_of_cons in Hk as [Hne Hk].
  destruct (decide (k' = k)); [congruence|]. rewrite IH by exact Hk. reflexivity.
Qed.

Lemma items_delete_not_key {V} (d : items V) k : k ∉ keys (items_delete d k).
Proof.
  unfold items_delete, keys. intros Hin.
  apply list_elem_of_fmap in Hin as [[k' v] [-> Hin]].
  apply list_elem_of_filter in Hin as [Hne _]. apply Hne. reflexivity.
Qed.

Lemma merge_into_dict_loop_ok from_items to_items top_level_key path :
  NoDup (keys from_items) ->
  (forall k, k ∈ keys from_items -> k ∉ keys to_items) ->
  merge_into_dict_loop from_items (YDict to_items) top_level_key path
  = Ok (YDict (to_items ++ from_items)).
Proof.
  revert to_items. induction from_items as [|[k v] rest IH]; intros to_items Hnd Hfresh.
  - simpl. rewrite app_nil_r. reflexivity.
  - unfold keys in Hnd. simpl in Hnd. apply NoDup_cons in Hnd as [Hk Hnd].
    assert (Hkto : k ∉ keys to_items)
      by (apply Hfresh; unfold keys; simpl; apply elem_of_cons; auto).
    simpl. rewrite (proj2 (has_key_false to_items k) Hkto).
    rewrite items_set_fresh by exact Hkto.
    rewrite IH; [rewrite <- app_assoc; reflexivity | exact Hnd |].
    intros k' Hk' Hin. unfold keys in Hin. rewrite fmap_app in Hin.
    apply elem_of_app in Hin as [Hin|Hin].
    + revert Hin. apply Hfresh. unfold keys. simpl. apply elem_of_cons. auto.
    + simpl in Hin. apply list_elem_of_singleton in Hin as ->. contradiction.
Qed.

Lemma merge_into_dict_loop_duplicate pre k v post to_items top_level_key path :
  NoDup (keys pre) ->
  (forall k', k' ∈ keys pre -> k' ∉ keys to_items) ->
  k ∈ keys to_items ->
  merge_into_dict_loop (pre ++ (k, v) :: post) (YDict to_items) top_level_key path
  = Raise (DSLParsingLogicException 4 [top_level_key; join " --> " (path ++ [k])]).
Proof.
  revert to_items. induction pre as [|[k' v'] pre IH]; intros to_items Hnd Hfresh Hk.
  - simpl. rewrite (proj2 (has_key_spec to_items k) Hk). reflexivity.
  - unfold keys in Hnd. simpl in Hnd. apply NoDup_cons in Hnd as [Hk' Hnd].
    assert (Hkto : k' ∉ keys to_items)
      by (apply Hfresh; unfold keys; simpl; apply elem_of_cons; auto).
    simpl. rewrite (proj2 (has_key_false to_items k') Hkto).
    rewrite items_set_fresh by exact Hkto.
    apply IH; [exact Hnd | |].
    + intros k'' Hk'' Hin. unfold keys in Hin. rewrite fmap_app in Hin.
      apply elem_of_app in Hin as [Hin|Hin].
      * revert Hin. apply Hfresh. unfold keys. simpl. apply elem_of_cons. auto.
      * simpl in Hin. apply list_elem_of_singleton in Hin as ->. contradiction.
    + unfold keys. rewrite fmap_app. apply elem_of_app. auto.
Qed.

Lemma mapM_keys {V W} (f : string -> V -> result W) (d : items V) d' :
  mapM (fun '(k, v) => let* v' := f k v in Ok (k, v')) d = Ok d' -> keys d' = keys d.
Proof.
  revert d'. induction d as [|[k v] d IH]; intros d' H; simpl in H.
  - injection H as <-. reflexivity.
  - destruct (f k v) as [v'|e]; simpl in H; [|discriminate].
    destruct (mapM _ d) as [d''|e]; simpl in H; [|discriminate].
    injection H as <-. unfold keys in *. simpl. f_equal. apply IH. reflexivity.
Qed.

Lemma replace_ref_in_document_keys apply_ref dsl path_context dsl' :
  replace_ref_in_document apply_ref dsl path_context = Ok dsl' -> keys dsl' = keys dsl.
Proof.
  unfold replace_ref_in_document. simpl. intros H.
  apply bind_ok in H as (v & Hv & H).
  apply bind_ok in Hv as (d' & Hd & Hv). injection Hv as <-.
  simpl in H. injection H as <-.
  apply (mapM_keys (fun key value =>
                      if decide (key = "ref") then apply_ref value path_context
                      else _replace_ref_with_inline_paths apply_ref value path_context)).
  exact Hd.
Qed.

(** Lookup after update on the items of a dictionary. *)
Lemma items_get_set_same {V} (d : items V) k v : items_get (items_set d k v) k = Ok v.
Proof.
  induction d as [|[k' v'] d IH]; simpl.
  - destruct (decide (k = k)); [reflexivity | contradiction].
  - destruct (decide (k' = k)) as [->|Hne]; simpl.
    + destruct (decide (k = k)); [reflexivity | contradiction].
    + destruct (decide (k' = k)); [contradiction | exact IH].
Qed.

Lemma items_get_set_other {V} (d : items V) k k' v :
  k' <> k -> items_get (items_set d k v) k' = items_get d k'.
Proof.
  intros Hne. induction d as [|[k0 v0] d IH]; simpl.
  - destruct (decide (k = k')); [congruence | reflexivity].
  - destruct (decide (k0 = k)) as [->|Hne0]; simpl.
    + destruct (decide (k = k')); [congruence | reflexivity].
    + destruct (decide (k0 = k')); [reflexivity | exact IH].
Qed.

Lemma extended_refl v : extended v v.
Proof. left. reflexivity. Qed.

Lemma extended_trans v1 v2 v3 : extended v1 v2 -> extended v2 v3 -> extended v1 v3.
Proof.
  intros [->|(d & more & -> & ->)] H; [exact H|].
  destruct H as [->|(d' & more' & E & ->)].
  - right. eauto.
  - injection E as <-. right. exists d, (more ++ more'). rewrite app_assoc. auto.
Qed.

Lemma document_extended_refl dsl : document_extended dsl dsl.
Proof. intros key value H. exists value. split; [exact H | apply extended_refl]. Qed.

Lemma document_extended_trans d1 d2 d3 :
  document_extended d1 d2 -> document_extended d2 d3 -> document_extended d1 d3.
Proof.
  intros H12 H23 key v1 H1.
  destruct (H12 _ _ H1) as (v2 & H2 & E12). destruct (H23 _ _ H2) as (v3 & H3 & E23).
  exists v3. split; [exact H3 | eapply extended_trans; eassumption].
Qed.

Lemma items_get_ok_key {V} (d : items V) k v : items_get d k = Ok v -> k ∈ keys d.
Proof.
  induction d as [|[k' v'] d IH]; simpl; [discriminate|].
  unfold keys. simpl. destruct (decide (k' = k)) as [->|_].
  - intros _. apply elem_of_cons. auto.
  - intros H. apply elem_of_cons. right. apply IH. exact H.
Qed.

Lemma items_get_delete_other {V} (d : items V) k k' :
  k' <> k -> items_get (items_delete d k) k' = items_get d k'.
Proof.
  intros Hne. unfold items_delete. induction d as [|[k0 v0] d IH]; [reflexivity|].
  rewrite filter_cons. simpl. destruct (decide (k0 <> k)) as [Hk|Hk]; simpl.
  - rewrite IH. reflexivity.
  - destruct (decide (k0 = k')) as [->|_]; [|exact IH].
    exfalso. apply Hk. congruence.
Qed.

(** The merge of a section extends it at its end. *)
Lemma merge_into_dict_loop_extended from_items to_dict top_level_key path to_dict' :
  merge_into_dict_loop from_items to_dict top_level_key path = Ok to_dict' ->
  extended to_dict to_dict'.
Proof.
  revert to_dict. induction from_items as [|[k v] from_items IH]; intros to_dict H;
    simpl in H.
  - injection H as <-. apply extended_refl.
  - apply bind_ok in H as (present & Hpresent & H).
    destruct present; [discriminate|].
    apply bind_ok in H as (to1 & Hset & H).
    apply IH in H. eapply extended_trans; [|exact H].
    destruct to_dict; try discriminate.
    simpl in Hpresent, Hset. injection Hpresent as Hpresent. injection Hset as <-.
    apply has_key_false in Hpresent. rewrite items_set_fresh by exact Hpresent.
    right. eauto.
Qed.

(** The merge of one top level key of an import extends the combined
    document. *)
Lemma merge_import_key_extended combined key value combined' :
  merge_import_key combined key value = Ok combined' ->
  document_extended combined combined'.
Proof.
  unfold merge_import_key. intros H.
  destruct (decide (key = IMPORTS)); [injection H as <-; apply document_extended_refl|].
  destruct (has_key combined key) eqn:Hkey; simpl in H.
  - destruct (bool_decide (key ∈ merge_no_override)); simpl in H.
    + apply bind_ok in H as (to_dict & Hto & H).
      apply bind_ok in H as (to_dict' & Hmerge & H). injection H as <-.
      unfold _merge_into_dict_or_throw_on_duplicate in Hmerge.
      apply bind_ok in Hmerge as (from_items & _ & Hmerge).
      apply merge_into_dict_loop_extended in Hmerge.
      intros k v Hk. destruct (decide (k = key)) as [->|Hne].
      * rewrite Hto in Hk. injection Hk as <-.
        exists to_dict'. split; [apply items_get_set_same | exact Hmerge].
      * exists v. split; [|apply extended_refl].
        rewrite items_get_set_other by exact Hne. exact Hk.
    + destruct (bool_decide (key ∈ merge_one_nested_level_no_override)) eqn:Hnested;
        [|discriminate].
      apply bool_decide_eq_true in Hnested. apply elem_of_nil in Hnested. contradiction.
  - injection H as <-. apply has_key_false in Hkey.
    intros k v Hk. exists v. split; [|apply extended_refl].
    rewrite items_get_set_other; [exact Hk|].
    intros ->. apply Hkey. eapply items_get_ok_key. exact Hk.
Qed.

Lemma has_key_items_get {V} (d : items V) k :
  has_key d k = true -> exists v, items_get d k = Ok v.
Proof.
  intros H. apply has_key_spec in H.
  induction d as [|[k' v'] d IH]; [apply elem_of_nil in H; contradiction|].
  simpl. destruct (decide (k' = k)); [eauto|]. apply IH.
  unfold keys in H. simpl in H. apply elem_of_cons in H as [H|H]; [congruence | exact H].
Qed.

Lemma items_delete_absent {V} (d : items V) k :
  has_key d k = false -> items_delete d k = d.
Proof.
  intros H. apply has_key_false in H. unfold items_delete.
  induction d as [|[k' v'] d IH]; [reflexivity|].
  unfold keys in H. simpl in H. apply not_elem_of_cons in H as [Hne H].
  rewrite filter_cons. simpl.
  destruct (decide (k' <> k)) as [_|Heq]; [f_equal; apply IH; exact H|].
  exfalso. apply Heq. congruence.
Qed.

Lemma items_get_app_ok {V} (d more : items V) k v :
  items_get d k = Ok v -> items_get (d ++ more) k = Ok v.
Proof.
  induction d as [|[k' v'] d IH]; simpl; [discriminate|].
  destruct (decide (k' = k)); auto.
Qed.

Lemma included_extended v w w' : included v w -> extended w w' -> included v w'.
Proof.
  intros Hvw [->|(d & more & -> & ->)]; [exact Hvw|].
  right. destruct Hvw as [<-|(from_items & -> & Hfrom)].
  - exists d. split; [reflexivity|]. intros k x Hx.
    exists (d ++ more). split; [reflexivity | apply items_get_app_ok; exact Hx].
  - exists from_items. split; [reflexivity|]. intros k x Hx.
    destruct (Hfrom k x Hx) as (to_items & E & Hto). injection E as <-.
    exists (d ++ more). split; [reflexivity | apply items_get_app_ok; exact Hto].
Qed.

(** The merge of a section puts each entry of the imported section into the
    combined one. *)
Lemma merge_into_dict_loop_included from_items to_dict top_level_key path to_dict' :
  merge_into_dict_loop from_items to_dict top_level_key path = Ok to_dict' ->
  forall k v, items_get from_items k = Ok v ->
    exists to_items, to_dict' = YDict to_items /\ items_get to_items k = Ok v.
Proof.
  revert to_dict. induction from_items as [|[k0 v0] from_items IH]; intros to_dict H k v Hk;
    simpl in H, Hk; [discriminate|].
  apply bind_ok in H as (present & Hpresent & H).
  destruct present; [discriminate|].
  apply bind_ok in H as (to1 & Hset & H).
  destruct (decide (k0 = k)) as [->|Hne]; [|eapply IH; eassumption].
  injection Hk as <-.
  destruct to_dict as [| | | | |d]; try discriminate.
  simpl in Hset. injection Hset as <-.
  apply merge_into_dict_loop_extended in H as [->|(d' & more & E & ->)].
  - eexists. split; [reflexivity | apply items_get_set_same].
  - injection E as <-. eexists. split; [reflexivity|].
    apply items_get_app_ok, items_get_set_same.
Qed.

(** The merge of one top level key of an import puts its value into the
    combined document. *)
Lemma merge_import_key_included combined key value combined' :
  merge_import_key combined key value = Ok combined' ->
  key <> IMPORTS ->
  exists value', items_get combined' key = Ok value' /\ included value value'.
Proof.
  unfold merge_import_key. intros H Hkey.
  destruct (decide (key = IMPORTS)); [contradiction|].
  destruct (has_key combined key) eqn:Hpresent; simpl in H.
  - destruct (bool_decide (key ∈ merge_no_override)); simpl in H.
    + apply bind_ok in H as (to_dict & Hto & H).
      apply bind_ok in H as (to_dict' & Hmerge & H). injection H as <-.
      unfold _merge_into_dict_or_throw_on_duplicate in Hmerge.
      apply bind_ok in Hmerge as (from_items & Hfrom & Hmerge).
      destruct value; try discriminate. simpl in Hfrom. injection Hfrom as <-.
      exists to_dict'. split; [apply items_get_set_same|].
      right. eexists. split; [reflexivity|].
      eapply merge_into_dict_loop_included. exact Hmerge.
    + destruct (bool_decide (key ∈ merge_one_nested_level_no_override)) eqn:Hnested;
        [|discriminate].
      apply bool_decide_eq_true in Hnested. apply elem_of_nil in Hnested. contradiction.
  - injection H as <-. exists value. split; [apply items_get_set_same | left; reflexivity].
Qed.

Lemma merge_imported_dsl_extended combined imported combined' :
  merge_imported_dsl combined imported = Ok combined' ->
  document_extended combined combined'.
Proof.
  unfold merge_imported_dsl.
  apply foldM_preserves; [apply document_extended_refl | apply document_extended_trans|].
  intros s [key value] s'. apply merge_import_key_extended.
Qed.

(** The loop over an imported document puts each of its values but that of
    [imports] into the combined document. *)
Lemma merge_imported_dsl_included imported :
  forall combined combined',
    merge_imported_dsl combined imported = Ok combined' ->
    forall key value,
      key <> IMPORTS -> items_get imported key = Ok value ->
      exists value', items_get combined' key = Ok value' /\ included value value'.
Proof.
  induction imported as [|[k0 v0] imported IH]; intros combined combined' H key value
    Hkey Hvalue; simpl in Hvalue; [discriminate|].
  unfold merge_imported_dsl in H. simpl in H.
  apply bind_ok in H as (combined1 & Hstep & H).
  destruct (decide (k0 = key)) as [->|Hne]; [|eapply IH; eassumption].
  injection Hvalue as <-.
  destruct (merge_import_key_included _ _ _ _ Hstep Hkey) as (v1 & Hv1 & Hin).
  destruct (merge_imported_dsl_extended _ _ _ H _ _ Hv1) as (v' & Hv' & Hext).
  exists v'. split; [exact Hv' | eapply included_extended; eassumption].
Qed.

(** What the body of the loop over the imports comes to when it
    returns. *)
Lemma combine_single_import_ok apply_ref load_import dsl_version combined single_import
    combined' :
  combine_single_import apply_ref load_import dsl_version combined single_import
  = Ok combined' ->
  exists imported imported',
    load_import single_import = Ok imported /\
    replace_ref_in_document apply_ref (items_delete imported VERSION) (Some single_import)
    = Ok imported' /\
    merge_imported_dsl combined imported' = Ok combined'.
Proof.
  unfold combine_single_import. intros H.
  apply bind_ok in H as (imported & Hload & H).
  apply bind_ok in H as (imported1 & Hversion & H).
  apply bind_ok in H as (imported' & Hrefs & H).
  exists imported, imported'. split; [exact Hload|]. split; [|exact H].
  destruct (has_key imported VERSION) eqn:Hkey.
  - apply bind_ok in Hversion as (v & _ & Hversion).
    destruct (negb (yaml_eqb v dsl_version)); [discriminate|].
    injection Hversion as <-. exact Hrefs.
  - injection Hversion as <-. rewrite items_delete_absent by exact Hkey. exact Hrefs.
Qed.

(** And when the import has the version of the main blueprint, or none. *)
Lemma combine_single_import_merge apply_ref load_import dsl_version combined
    single_import imported imported' :
  load_import single_import = Ok imported ->
  (forall v, items_get imported VERSION = Ok v -> yaml_eqb v dsl_version = true) ->
  replace_ref_in_document apply_ref (items_delete imported VERSION) (Some single_import)
  = Ok imported' ->
  combine_single_import apply_ref load_import dsl_version combined single_import
  = merge_imported_dsl combined imported'.
Proof.
  intros Hload Hversion Hrefs. unfold combine_single_import. rewrite Hload. simpl.
  destruct (has_key imported VERSION) eqn:Hkey.
  - destruct (has_key_items_get _ _ Hkey) as (v & Hv). rewrite Hv. simpl.
    rewrite (Hversion v Hv). simpl. rewrite Hrefs. reflexivity.
  - simpl. rewrite items_delete_absent in Hrefs by exact Hkey. rewrite Hrefs. reflexivity.
Qed.

Lemma combined_imports_included apply_ref load_import dsl_version ordered :
  forall combined combined',
    foldM (combine_single_import apply_ref load_import dsl_version) ordered combined
    = Ok combined' ->
    document_extended combined combined' /\
    forall single_import, single_import ∈ ordered ->
      exists imported imported',
        load_import single_import = Ok imported /\
        replace_ref_in_document apply_ref (items_delete imported VERSION)
          (Some single_import) = Ok imported' /\
        forall key value,
          key <> IMPORTS -> items_get imported' key = Ok value ->
          exists value', items_get combined' key = Ok value' /\ included value value'.
Proof.
  induction ordered as [|x ordered IH]; intros combined combined' H; simpl in H.
  - injection H as <-. split; [apply document_extended_refl|].
    intros single Hin. apply elem_of_nil in Hin. contradiction.
  - apply bind_ok in H as (combined1 & Hstep & H).
    destruct (IH _ _ H) as [Hext Hrest].
    destruct (combine_single_import_ok _ _ _ _ _ _ Hstep)
      as (imported & imported' & Hload & Hrefs & Hmerge).
    split.
    { eapply document_extended_trans; [|exact Hext].
      eapply merge_imported_dsl_extended. exact Hmerge. }
    intros single Hin. apply elem_of_cons in Hin as [->|Hin]; [|apply Hrest; exact Hin].
    exists imported, imported'. split; [exact Hload|]. split; [exact Hrefs|].
    intros key value Hkey Hvalue.
    destruct (merge_imported_dsl_included _ _ _ Hmerge _ _ Hkey Hvalue)
      as (v1 & Hv1 & Hin).
    destruct (Hext _ _ Hv1) as (v' & Hv' & Hext').
    exists v'. split; [exact Hv' | eapply included_extended; eassumption].
Qed.

(** C5: in an import merge step, the key [imports] is skipped; a key that
    the combined document already has and that is one of the ten
    whitelisted sections is merged entry by entry, the first entry that the
    combined section already has raising code 4 with the section and the
    path of the conflict; any other key that the combined document already
    has raises code 3; and the document that [_combine_imports] returns has
    no [imports] key.  The step is what the loops take: the loop over an
    imported document takes it for each key in turn, on the document
    combined so far; what the step raises for a key of an import,
    [_combine_imports] raises; and when [_combine_imports] returns, every
    value of every import, but that of [imports], is in the combined
    document, a section with each of its entries. *)
Theorem import_merge_policy :
  forall combined key value,
    (key = "imports" -> merge_import_key combined key value = Ok combined) /\
    (key ∈ ["interfaces"; "node_types"; "plugins"; "workflows";
            "type_implementations"; "relationships"; "relationship_implementations";
            "policy_types"; "groups"; "policy_triggers"] ->
     key ∈ keys combined ->
     forall from_items to_items,
       value = YDict from_items ->
       items_get combined key = Ok (YDict to_items) ->
       NoDup (keys from_items) ->
       ((forall k, k ∈ keys from_items -> k ∉ keys to_items) ->
        merge_import_key combined key value
        = Ok (items_set combined key (YDict (to_items ++ from_items)))) /\
       (forall pre k v post,
          from_items = pre ++ (k, v) :: post ->
          (forall k', k' ∈ keys pre -> k' ∉ keys to_items) ->
          k ∈ keys to_items ->
          merge_import_key combined key value
          = Raise (DSLParsingLogicException 4 [key; k]))) /\
    (key <> "imports" ->
     key ∉ ["interfaces"; "node_types"; "plugins"; "workflows";
            "type_implementations"; "relationships"; "relationship_implementations";
            "policy_types"; "groups"; "policy_triggers"] ->
     key ∈ keys combined ->
     merge_import_key combined key value
     = Raise (DSLParsingLogicException 3 [key])) /\
    (forall _apply_ref load_import _build_ordered_imports_list
            _validate_imports_section dsl_location result,
       _combine_imports _apply_ref load_import _build_ordered_imports_list
         _validate_imports_section combined dsl_location = Ok result ->
       "imports" ∉ keys result) /\
    (forall combined_before pre post,
       merge_imported_dsl combined_before pre = Ok combined ->
       merge_imported_dsl combined_before (pre ++ (key, value) :: post)
       = (let* combined' := merge_import_key combined key value in
          merge_imported_dsl combined' post)) /\
    (forall _apply_ref load_import _build_ordered_imports_list
            _validate_imports_section parsed_dsl dsl_location inlined dsl_version
            imports ordered_imports_list merged single_import later imported
            combined_before pre post e,
       replace_ref_in_document _apply_ref parsed_dsl dsl_location = Ok inlined ->
       items_get parsed_dsl "tosca_definitions_version" = Ok dsl_version ->
       items_get parsed_dsl "imports" = Ok imports ->
       _validate_imports_section imports dsl_location = Ok tt ->
       _build_ordered_imports_list parsed_dsl dsl_location = Ok ordered_imports_list ->
       (if truthy_location dsl_location then tail ordered_imports_list
        else ordered_imports_list) = merged ++ single_import :: later ->
       foldM (combine_single_import _apply_ref load_import dsl_version) merged inlined
       = Ok combined_before ->
       load_import single_import = Ok imported ->
       (forall v, items_get imported "tosca_definitions_version" = Ok v ->
                  yaml_eqb v dsl_version = true) ->
       replace_ref_in_document _apply_ref
         (items_delete imported "tosca_definitions_version") (Some single_import)
       = Ok (pre ++ (key, value) :: post) ->
       merge_imported_dsl combined_before pre = Ok combined ->
       merge_import_key combined key value = Raise e ->
       _combine_imports _apply_ref load_import _build_ordered_imports_list
         _validate_imports_section parsed_dsl dsl_location = Raise e) /\
    (forall _apply_ref load_import _build_ordered_imports_list
            _validate_imports_section parsed_dsl dsl_location result,
       "imports" ∈ keys parsed_dsl ->
       _combine_imports _apply_ref load_import _build_ordered_imports_list
         _validate_imports_section parsed_dsl dsl_location = Ok result ->
       exists ordered_imports_list,
         _build_ordered_imports_list parsed_dsl dsl_location = Ok ordered_imports_list /\
         forall single_import,
           single_import ∈ (if truthy_location dsl_location
                            then tail ordered_imports_list
                            else ordered_imports_list) ->
           exists imported imported',
             load_import single_import = Ok imported /\
             replace_ref_in_document _apply_ref
               (items_delete imported "tosca_definitions_version") (Some single_import)
             = Ok imported' /\
             forall k v,
               k <> "imports" -> items_get imported' k = Ok v ->
               exists v', items_get result k = Ok v' /\ included v v').
Proof.
  intros combined key value. split; [|split; [|split; [|split; [|split; [|split]]]]].
  - intros ->. reflexivity.
  - intros Hwhite Hpresent from_items to_items -> Hto Hnd.
    assert (Hne : key <> IMPORTS).
    { intros ->. revert Hwhite. compute_decision. }
    unfold merge_import_key.
    destruct (decide (key = IMPORTS)) as [E|_]; [contradiction|].
    rewrite (proj2 (has_key_spec combined key) Hpresent). simpl.
    rewrite bool_decide_eq_true_2 by exact Hwhite.
    rewrite Hto. simpl. unfold _merge_into_dict_or_throw_on_duplicate. simpl.
    split.
    + intros Hfresh. rewrite merge_into_dict_loop_ok by assumption. reflexivity.
    + intros pre k v post -> Hfresh Hk.
      rewrite merge_into_dict_loop_duplicate; [reflexivity | | assumption..].
      unfold keys in Hnd. rewrite fmap_app in Hnd. apply NoDup_app in Hnd as [Hnd _].
      exact Hnd.
  - intros Hne Hblack Hpresent. unfold merge_import_key.
    destruct (decide (key = IMPORTS)) as [E|_]; [contradiction|].
    rewrite (proj2 (has_key_spec combined key) Hpresent). simpl.
    rewrite bool_decide_eq_false_2 by exact Hblack. reflexivity.
  - intros apply_ref load_import build validate dsl_location result H.
    unfold _combine_imports in H.
    apply bind_ok in H as (inlined & Hinlined & H).
    apply replace_ref_in_document_keys in Hinlined.
    destruct (has_key combined VERSION); simpl in H; [|discriminate].
    destruct (has_key combined IMPORTS) eqn:Himports; simpl in H.
    + apply bind_ok in H as (dsl_version & _ & H).
      apply bind_ok in H as (imports & _ & H).
      apply bind_ok in H as (? & _ & H).
      apply bind_ok in H as (ordered & _ & H).
      apply bind_ok in H as (merged & _ & H).
      injection H as <-.
      destruct (has_key merged IMPORTS) eqn:Hm.
      * apply items_delete_not_key.
      * apply has_key_false. exact Hm.
    + injection H as <-. rewrite Hinlined. apply has_key_false. exact Himports.
  - intros combined_before pre post Hpre. unfold merge_imported_dsl in *.
    rewrite foldM_app, Hpre. reflexivity.
  - intros apply_ref load_import build validate parsed_dsl dsl_location inlined
           dsl_version imports ordered merged single later imported combined_before
           pre post e Hinlined Hversion Himports Hvalid Hbuild Hordered Hmerged Hload
           Hsame Hrefs Hpre Hraise.
    unfold _combine_imports. rewrite Hinlined. simpl.
    rewrite (proj2 (has_key_spec parsed_dsl VERSION) (items_get_ok_key _ _ _ Hversion)).
    rewrite (proj2 (has_key_spec parsed_dsl IMPORTS) (items_get_ok_key _ _ _ Himports)).
    simpl. change "tosca_definitions_version" with VERSION in Hversion.
    change "imports" with IMPORTS in Himports.
    rewrite Hversion, Himports. simpl. rewrite Hvalid. simpl. rewrite Hbuild. simpl.
    rewrite Hordered, foldM_app, Hmerged. simpl.
    rewrite (combine_single_import_merge _ _ _ _ _ _ _ Hload Hsame Hrefs).
    unfold merge_imported_dsl in *. rewrite foldM_app, Hpre. simpl.
    rewrite Hraise. reflexivity.
  - intros apply_ref load_import build validate parsed_dsl dsl_location result
           Himports H.
    unfold _combine_imports in H.
    apply bind_ok in H as (inlined & Hinlined & H).
    destruct (has_key parsed_dsl VERSION); simpl in H; [|discriminate].
    rewrite (proj2 (has_key_spec parsed_dsl IMPORTS) Himports) in H. simpl in H.
    apply bind_ok in H as (dsl_version & _ & H).
    apply bind_ok in H as (imports & _ & H).
    apply bind_ok in H as (? & _ & H).
    apply bind_ok in H as (ordered & Hbuild & H).
    apply bind_ok in H as (merged & Hmerged & H).
    injection H as <-.
    exists ordered. split; [exact Hbuild|].
    intros single Hin.
    destruct (combined_imports_included _ _ _ _ _ _ Hmerged) as [_ Hall].
    destruct (Hall single Hin) as (imported & imported' & Hload & Hrefs & Hvalues).
    exists imported, imported'. split; [exact Hload|]. split; [exact Hrefs|].
    intros k v Hk Hv. destruct (Hvalues k v Hk Hv) as (v' & Hv' & Hincluded).
    exists v'. split; [|exact Hincluded].
    destruct (has_key merged IMPORTS); [|exact Hv'].
    rewrite items_get_delete_other by exact Hk. exact Hv'.
Qed.

(** The root document with plugin [a] and one import that declares plugin
    [b]: the plugins are merged, and the combined document has the entry of
    the import and no [imports] key.  An import that declares plugin [a]
    again raises code 4, and one that declares the [inputs] section again
    raises code 3, also out of [_combine_imports]. *)
Lemma import_merge_policy_witness :
  merge_import_key example_root "plugins" (YDict [("b", YNull)])
  = Ok (items_set example_root "plugins" (YDict [("a", YNull); ("b", YNull)])) /\
  merge_import_key example_root "plugins" (YDict [("b", YNull); ("a", YNull)])
  = Raise (DSLParsingLogicException 4 ["plugins"; "a"]) /\
  merge_import_key example_root "inputs" (YDict [])
  = Raise (DSLParsingLogicException 3 ["inputs"]) /\
  (exists result,
     _combine_imports keep_ref load_types_yaml one_import accept_imports example_root
       None = Ok result /\
     ("imports" ∉ keys result) /\
     exists plugins,
       items_get result "plugins" = Ok plugins /\
       included (YDict [("b", YNull)]) plugins) /\
  merge_imported_dsl example_root [("plugins", YDict [("b", YNull)]); ("inputs", YDict [])]
  = Raise (DSLParsingLogicException 3 ["inputs"]) /\
  _combine_imports keep_ref load_conflicting_yaml one_import accept_imports example_root
    None = Raise (DSLParsingLogicException 4 ["plugins"; "a"]) /\
  _combine_imports keep_ref load_inputs_yaml one_import accept_imports example_root
    None = Raise (DSLParsingLogicException 3 ["inputs"]).
Proof.
  assert (Hmerged : merge_import_key example_root "plugins" (YDict [("b", YNull)])
                    = Ok (items_set example_root "plugins"
                            (YDict [("a", YNull); ("b", YNull)]))).
  { apply (proj1 (proj1 (proj2 (import_merge_policy example_root "plugins"
                                  (YDict [("b", YNull)])))
                    ltac:(compute_decision) ltac:(compute_decision)
                    [("b", YNull)] [("a", YNull)] eq_refl eq_refl
                    ltac:(compute_decision))).
    intros k Hk. unfold keys in Hk. simpl in Hk. elem_cases Hk. subst. compute_decision. }
  assert (Hduplicate : merge_import_key example_root "plugins"
                         (YDict [("b", YNull); ("a", YNull)])
                       = Raise (DSLParsingLogicException 4 ["plugins"; "a"])).
  { apply (proj2 (proj1 (proj2 (import_merge_policy example_root "plugins"
                                  (YDict [("b", YNull); ("a", YNull)])))
                    ltac:(compute_decision) ltac:(compute_decision)
                    [("b", YNull); ("a", YNull)] [("a", YNull)] eq_refl eq_refl
                    ltac:(compute_decision))
             [("b", YNull)] "a" YNull [] eq_refl).
    - intros k Hk. unfold keys in Hk. simpl in Hk. elem_cases Hk. subst.
      compute_decision.
    - compute_decision. }
  assert (Hother : forall combined, "inputs" ∈ keys combined ->
            merge_import_key combined "inputs" (YDict [])
            = Raise (DSLParsingLogicException 3 ["inputs"])).
  { intros combined Hin.
    apply (proj1 (proj2 (proj2 (import_merge_policy combined "inputs" (YDict []))))).
    - discriminate.
    - compute_decision.
    - exact Hin. }
  split; [exact Hmerged|]. split; [exact Hduplicate|].
  split; [apply Hother; compute_decision|].
  split; [|split; [|split]].
  - destruct (_combine_imports keep_ref load_types_yaml one_import accept_imports
                example_root None) as [result|e] eqn:Hrun;
      [|vm_compute in Hrun; discriminate].
    exists result. split; [reflexivity|]. split.
    + exact (proj1 (proj2 (proj2 (proj2 (import_merge_policy example_root "plugins"
                                           YNull))))
               keep_ref load_types_yaml one_import accept_imports None result Hrun).
    + destruct (proj2 (proj2 (proj2 (proj2 (proj2 (proj2
                  (import_merge_policy example_root "plugins" YNull))))))
                  keep_ref load_types_yaml one_import accept_imports example_root None
                  result ltac:(compute_decision) Hrun)
        as (ordered & Hordered & Hall).
      injection Hordered as <-.
      destruct (Hall "types.yaml" ltac:(compute_decision))
        as (imported & imported' & Hload & Hrefs & Hvalues).
      injection Hload as <-. vm_compute in Hrefs. injection Hrefs as <-.
      apply (Hvalues "plugins" (YDict [("b", YNull)])); [discriminate | reflexivity].
  - refine (eq_trans
              (proj1 (proj2 (proj2 (proj2 (proj2
                 (import_merge_policy
                    (items_set example_root "plugins"
                       (YDict [("a", YNull); ("b", YNull)]))
                    "inputs" (YDict []))))))
                 example_root [("plugins", YDict [("b", YNull)])] [] _) _).
    + vm_compute. reflexivity.
    + rewrite Hother by compute_decision. reflexivity.
  - apply (proj1 (proj2 (proj2 (proj2 (proj2 (proj2
             (import_merge_policy example_root "plugins"
                (YDict [("b", YNull); ("a", YNull)])))))))
             keep_ref load_conflicting_yaml one_import accept_imports example_root None
             example_root (YStr "cloudify_dsl_1_0") (YList [YStr "types.yaml"])
             ["types.yaml"] [] "types.yaml" []
             [(IMPORTS, YList []); (PLUGINS, YDict [("b", YNull); ("a", YNull)])]
             example_root [(IMPORTS, YList [])] []
             (DSLParsingLogicException 4 ["plugins"; "a"]));
      try exact Hduplicate; try reflexivity.
    intros v Hv. vm_compute in Hv. discriminate.
  - apply (proj1 (proj2 (proj2 (proj2 (proj2 (proj2
             (import_merge_policy
                (items_set example_root "plugins" (YDict [("a", YNull); ("b", YNull)]))
                "inputs" (YDict [])))))))
             keep_ref load_inputs_yaml one_import accept_imports example_root None
             example_root (YStr "cloudify_dsl_1_0") (YList [YStr "types.yaml"])
             ["types.yaml"] [] "types.yaml" []
             [(PLUGINS, YDict [("b", YNull)]); ("inputs", YDict [])]
             example_root [(PLUGINS, YDict [("b", YNull)])] []
             (DSLParsingLogicException 3 ["inputs"]));
      try (apply Hother; compute_decision); try reflexivity.
    intros v Hv. vm_compute in Hv. discriminate.
Defined.

(** ** Host ids *)

Section HostIds.
Variable recursion_limit : nat.
Variables host_types cin : gset string.

Let extract depth n store := extract_node_host_id_rec depth n store host_types cin.

Lemma extract_unfold depth n store :
  extract (S depth) n store
  = if bool_decide (node_type n ∈ host_types) then Ok (Some (node_id n))
    else match containing_relationship cin n with
         | None => Ok None
         | Some rel =>
             let* target_id := field "target_id" (rel_target_id rel) in
             let* target := dict_get store target_id in
             extract depth target store
         end.
Proof.
  unfold extract, containing_relationship. simpl.
  destruct (bool_decide (node_type n ∈ host_types)); [reflexivity|].
  destruct (node_relationships n) as [rels|]; reflexivity.
Qed.

(** The recursion reads the type, the id and the relationships of the
    nodes, not their [host_id]. *)
Lemma extract_ext depth n n' store store' :
  same_but_host_id store store' ->
  clear_node_host_id n' = clear_node_host_id n ->
  extract depth n' store' = extract depth n store.
Proof.
  intros Hstore. revert n n'. induction depth as [|depth IH]; intros n n' Hn;
    [reflexivity|].
  rewrite !extract_unfold.
  injection Hn as Hid _ Hty _ Hrels _ _ _.
  unfold containing_relationship. rewrite Hty, Hid, Hrels.
  destruct (bool_decide (node_type n ∈ host_types)); [reflexivity|].
  destruct (match node_relationships n with Some _ => _ | None => _ end) as [rel|];
    [|reflexivity].
  destruct (field "target_id" (rel_target_id rel)) as [t|e]; [|reflexivity]. simpl.
  specialize (Hstore t). unfold dict_get.
  destruct (store !! t) as [m|], (store' !! t) as [m'|]; try discriminate;
    [|reflexivity].
  simpl. apply IH. injection Hstore as H1 H2 H3 H4 H5 H6 H7 H8.
  unfold clear_node_host_id. congruence.
Qed.

(** A larger recursion limit does not change a value that was returned. *)
Lemma extract_mono depth depth' n store h :
  extract depth n store = Ok h -> depth <= depth' -> extract depth' n store = Ok h.
Proof.
  revert depth' n. induction depth as [|depth IH]; intros depth' n H Hle;
    [discriminate|].
  destruct depth' as [|depth']; [lia|].
  rewrite extract_unfold in *.
  destruct (bool_decide (node_type n ∈ host_types)); [exact H|].
  destruct (containing_relationship cin n) as [rel|]; [|exact H].
  destruct (field "target_id" (rel_target_id rel)) as [t|e]; [|discriminate].
  simpl in *. destruct (dict_get store t) as [m|e]; [|discriminate].
  simpl in *. apply IH; [exact H | lia].
Qed.

(** A host id that is returned is the id of the node itself, a host, or
    the key of a host in the store. *)
Lemma extract_some_host depth n store h :
  (forall k m, store !! k = Some m -> node_id m = k) ->
  extract depth n store = Ok (Some h) ->
  (node_type n ∈ host_types /\ h = node_id n) \/
  ((node_type n ∉ host_types) /\
   exists m, store !! h = Some m /\ node_type m ∈ host_types).
Proof.
  intros Hkeys. revert n. induction depth as [|depth IH]; intros n H; [discriminate|].
  rewrite extract_unfold in H.
  destruct (bool_decide (node_type n ∈ host_types)) eqn:Hhost.
  - apply bool_decide_eq_true_1 in Hhost. injection H as <-. left. auto.
  - apply bool_decide_eq_false_1 in Hhost. right. split; [exact Hhost|].
    destruct (containing_relationship cin n) as [rel|]; [|discriminate].
    destruct (field "target_id" (rel_target_id rel)) as [t|e]; [|discriminate].
    simpl in H. destruct (dict_get store t) as [m|e] eqn:Hm; [|discriminate].
    simpl in H. apply dict_get_ok in Hm.
    destruct (IH m H) as [[Hmhost ->] | [_ Hex]]; [|exact Hex].
    exists m. rewrite (Hkeys _ _ Hm). auto.
Qed.

Let step (store : gmap string node) (id : string) : result (gmap string node) :=
  let* n := dict_get store id in
  let* host_id := _extract_node_host_id recursion_limit n store host_types cin in
  match host_id with
  | Some h =>
      if bool_decide (h = "") then Ok store
      else Ok (<[id := set_node_host_id n h]> store)
  | None => Ok store
  end.

Lemma same_but_host_id_lookup store store' k n :
  same_but_host_id store store' -> store !! k = Some n ->
  exists n', store' !! k = Some n' /\ clear_node_host_id n' = clear_node_host_id n.
Proof.
  intros H Hk. specialize (H k). rewrite Hk in H.
  destruct (store' !! k) as [n'|]; [|discriminate].
  exists n'. split; [reflexivity|]. simpl in H. congruence.
Qed.

Lemma same_but_host_id_sym store store' :
  same_but_host_id store store' -> same_but_host_id store' store.
Proof. intros H k. symmetry. apply H. Qed.

Lemma host_id_step_spec store0 store id store' :
  same_but_host_id store0 store ->
  step store id = Ok store' ->
  exists n0 n h,
    store0 !! id = Some n0 /\ store !! id = Some n /\
    extract recursion_limit n0 store0 = Ok h /\
    same_but_host_id store0 store' /\
    store' !! id = Some (with_host_id n h) /\
    forall k, k <> id -> store' !! k = store !! k.
Proof.
  intros Hsame H. unfold step in H.
  apply bind_ok in H as (n & Hn & H). apply dict_get_ok in Hn.
  apply bind_ok in H as (h & Hh & H).
  destruct (same_but_host_id_lookup _ _ _ _ (same_but_host_id_sym _ _ Hsame) Hn)
    as (n0 & Hn0 & Hclear).
  exists n0, n, h. split; [exact Hn0|]. split; [exact Hn|].
  split.
  { unfold _extract_node_host_id in Hh. fold (extract recursion_limit n store) in Hh.
    rewrite <- Hh. symmetry. apply extract_ext; [exact Hsame | congruence]. }
  unfold with_host_id, truthy.
  destruct h as [h|].
  - destruct (bool_decide (h = "")); injection H as <-.
    + split; [exact Hsame|]. split; [exact Hn | reflexivity].
    + split; [|split].
      * intros k. rewrite lookup_insert. destruct (decide (id = k)) as [<-|_]; [|apply Hsame].
        rewrite <- (Hsame id), Hn. reflexivity.
      * apply lookup_insert_eq.
      * intros k Hk. apply lookup_insert_ne. congruence.
  - injection H as <-. split; [exact Hsame|]. split; [exact Hn | reflexivity].
Qed.

Lemma host_id_pass_spec ids store0 store store' :
  NoDup ids ->
  same_but_host_id store0 store ->
  foldM step ids store = Ok store' ->
  same_but_host_id store0 store' /\
  (forall k, k ∉ ids -> store' !! k = store !! k) /\
  forall id, id ∈ ids ->
    exists n0 n h,
      store0 !! id = Some n0 /\ store !! id = Some n /\
      extract recursion_limit n0 store0 = Ok h /\
      store' !! id = Some (with_host_id n h).
Proof.
  intros Hnd. revert store. induction ids as [|id ids IH]; intros store Hsame H;
    simpl in H.
  - injection H as <-. split; [exact Hsame|]. split; [reflexivity|].
    intros id Hid. apply elem_of_nil in Hid. contradiction.
  - apply NoDup_cons in Hnd as [Hid Hnd].
    apply bind_ok in H as (store1 & Hstep & H).
    destruct (host_id_step_spec _ _ _ _ Hsame Hstep)
      as (n0 & n & h & Hn0 & Hn & Hh & Hsame1 & Hid1 & Hother).
    destruct (IH Hnd store1 Hsame1 H) as (Hsame' & Hrest & Hids).
    split; [exact Hsame'|]. split.
    + intros k Hk. apply not_elem_of_cons in Hk as [Hne Hk].
      rewrite Hrest by exact Hk. apply Hother. exact Hne.
    + intros id' Hid'. apply elem_of_cons in Hid' as [->|Hid'].
      * exists n0, n, h. rewrite Hrest by exact Hid. auto.
      * destruct (Hids id' Hid') as (m0 & m & hm & Hm0 & Hm & Hhm & Hm').
        exists m0, m, hm. rewrite <- Hother by (intros ->; contradiction). auto.
Qed.
End HostIds.

Lemma host_ids_of_pass recursion_limit host_types cin ids store0 store' :
  NoDup ids ->
  (forall k n, store0 !! k = Some n ->
     node_id n = k /\ node_host_id n = None /\ k ∈ ids) ->
  host_id_pass recursion_limit ids store0 host_types cin = Ok store' ->
  forall id n', id ∈ ids -> store' !! id = Some n' ->
    node_id n' = id /\
    (node_type n' ∈ host_types -> id <> "" -> node_host_id n' = Some id) /\
    (node_host_id n' = Some id -> node_type n' ∈ host_types) /\
    (node_type n' ∉ host_types ->
     forall rel t,
       containing_relationship cin n' = Some rel -> rel_target_id rel = Some t ->
       exists m', t ∈ ids /\ store' !! t = Some m' /\
                  node_host_id n' = node_host_id m') /\
    (node_type n' ∉ host_types -> containing_relationship cin n' = None ->
     node_host_id n' = None).
Proof.
  intros Hnd Hstore Hpass id n' Hid Hn'.
  assert (Hrefl : same_but_host_id store0 store0) by (intros k; reflexivity).
  destruct (host_id_pass_spec recursion_limit host_types cin ids store0 store0 store'
              Hnd Hrefl Hpass) as (_ & _ & Hids).
  destruct (Hids id Hid) as (n0 & n & h & Hn0 & Hn & Hh & Hfinal).
  rewrite Hn0 in Hn. injection Hn as <-.
  rewrite Hfinal in Hn'. injection Hn' as <-.
  destruct (Hstore id n0 Hn0) as (Hkey & Hnone & _).
  assert (Hhost_id : node_host_id (with_host_id n0 h) = truthy h).
  { unfold with_host_id. destruct (truthy h); [reflexivity | exact Hnone]. }
  assert (Hty : node_type (with_host_id n0 h) = node_type n0)
    by (unfold with_host_id; destruct (truthy h); reflexivity).
  assert (Hcr : containing_relationship cin (with_host_id n0 h)
                = containing_relationship cin n0)
    by (unfold with_host_id; destruct (truthy h); reflexivity).
  assert (Hidn : node_id (with_host_id n0 h) = id)
    by (unfold with_host_id; destruct (truthy h); exact Hkey).
  rewrite Hhost_id, Hty, Hcr.
  destruct recursion_limit as [|depth]; [discriminate|].
  split; [exact Hidn|]. split; [|split; [|split]].
  - intros Hhost Hne. rewrite extract_unfold in Hh.
    rewrite bool_decide_eq_true_2 in Hh by exact Hhost. injection Hh as <-.
    simpl. rewrite Hkey. rewrite bool_decide_eq_false_2 by exact Hne. reflexivity.
  - intros Hself.
    assert (h = Some id) as ->.
    { destruct h as [h|]; [|discriminate]. simpl in Hself.
      destruct (bool_decide (h = "")); [discriminate | exact Hself]. }
    destruct (extract_some_host host_types cin _ _ _ _
                (fun k m Hm => proj1 (Hstore k m Hm)) Hh)
      as [[Hhost _] | [_ (m & Hm & Hhost)]]; [exact Hhost|].
    rewrite Hn0 in Hm. injection Hm as <-. exact Hhost.
  - intros Hnot rel t Hrel Ht. rewrite extract_unfold in Hh.
    rewrite bool_decide_eq_false_2 in Hh by exact Hnot.
    rewrite Hrel, Ht in Hh. simpl in Hh.
    destruct (dict_get store0 t) as [m0|e] eqn:Hm0; [|discriminate].
    simpl in Hh. apply dict_get_ok in Hm0.
    destruct (Hstore t m0 Hm0) as (_ & Hmnone & Htin).
    destruct (Hids t Htin) as (m0' & m & hm & Hm0' & Hm & Hhm & Hmfinal).
    rewrite Hm0 in Hm0', Hm. injection Hm0' as <-. injection Hm as <-.
    exists (with_host_id m0 hm). split; [exact Htin|]. split; [exact Hmfinal|].
    apply (extract_mono host_types cin depth (S depth)) in Hh; [|lia].
    rewrite Hh in Hhm. injection Hhm as <-.
    unfold with_host_id. destruct (truthy h); [reflexivity | congruence].
  - intros Hnot Hrel. rewrite extract_unfold in Hh.
    rewrite bool_decide_eq_false_2 in Hh by exact Hnot.
    rewrite Hrel in Hh. injection Hh as <-. reflexivity.
Qed.

Lemma same_shape_refl store : same_shape store store.
Proof. intros k. reflexivity. Qed.

Lemma same_shape_trans s1 s2 s3 :
  same_shape s1 s2 -> same_shape s2 s3 -> same_shape s1 s3.
Proof. intros H12 H23 k. rewrite H23. apply H12. Qed.

Lemma same_shape_insert store k n n' :
  store !! k = Some n -> node_shape n' = node_shape n ->
  same_shape store (<[k := n']> store).
Proof.
  intros Hk Hn k'. rewrite lookup_insert. destruct (decide (k = k')) as [<-|_]; [|reflexivity].
  rewrite Hk. simpl. rewrite Hn. reflexivity.
Qed.

Lemma same_but_plugins_shape store store' :
  same_but_plugins store store' -> same_shape store store'.
Proof.
  intros H k. specialize (H k).
  destruct (store !! k) as [n|], (store' !! k) as [n'|]; try discriminate;
    [|reflexivity].
  injection H as Hid Hname Hty Hrels _ Hhost _ _. simpl. unfold node_shape.
  rewrite Hid, Hty, Hrels, Hhost. reflexivity.
Qed.

Lemma same_but_host_id_relationships store store' k n n' :
  same_but_host_id store store' -> store !! k = Some n -> store' !! k = Some n' ->
  node_relationships n' = node_relationships n.
Proof.
  intros H Hn Hn'. specialize (H k). rewrite Hn, Hn' in H.
  injection H as _ _ _ _ Hrels _ _ _. exact Hrels.
Qed.

Lemma same_shape_lookup store store' k n' :
  same_shape store store' -> store' !! k = Some n' ->
  exists n, store !! k = Some n /\ node_shape n' = node_shape n.
Proof.
  intros H Hk. specialize (H k). rewrite Hk in H.
  destruct (store !! k) as [n|]; [|discriminate].
  injection H as Hid Hhost Hty Hrels. exists n. split; [reflexivity|].
  unfold node_shape. rewrite Hid, Hhost, Hty, Hrels. reflexivity.
Qed.

Lemma contained_types_shape cin rels rels' :
  rel_type <$> rels' = rel_type <$> rels ->
  contained_types cin rels' = contained_types cin rels.
Proof. intros H. unfold contained_types. f_equal. exact H. Qed.

Lemma Forall2_rel_types (P : relationship -> relationship -> Prop) rels rels' :
  Forall2 (fun rel rel' => rel_type rel' = rel_type rel /\ P rel rel') rels rels' ->
  rel_type <$> rels' = rel_type <$> rels.
Proof.
  induction 1 as [|rel rel' rels rels' [Hty _] _ IH]; [reflexivity|].
  rewrite !fmap_cons, Hty. f_equal. exact IH.
Qed.

(** Post-processing the relationships of one node keeps the shape of every
    node, and succeeds only when at most one of its relationships is in the
    contained-in family. *)
Lemma post_process_node_relationships_shape recursion_limit url_exists consts
    processed_node store plugins cin con dep relationships resource_base store' :
  _post_process_node_relationships recursion_limit url_exists consts processed_node
    store plugins cin con dep relationships resource_base = Ok store' ->
  same_shape store store' /\
  forall n rels,
    store !! processed_node = Some n -> node_relationships n = Some rels ->
    length (contained_types cin rels) <= 1.
Proof.
  unfold _post_process_node_relationships. intros H.
  apply bind_ok in H as (n & Hn & H). apply dict_get_ok in Hn.
  destruct (node_relationships n) as [rels|] eqn:Hrels.
  - apply bind_ok in H as ([[store1 done] contained] & Hloop & H).
    apply post_process_relationship_loop in Hloop as (Hsame & -> & rels' & -> & Hall).
    destruct (same_but_plugins_lookup _ _ _ _ Hsame Hn)
      as (n1 & Hn1 & Hid & _ & Hty & Hrels1 & Hhost).
    apply dict_get_ok in Hn1 as Hget. rewrite Hget in H. simpl in H.
    destruct (decide (1 < length (contained_types cin rels))) as [|Hfew];
      [discriminate|].
    injection H as <-. split.
    + eapply same_shape_trans; [apply same_but_plugins_shape; exact Hsame|].
      apply (same_shape_insert _ _ n1); [exact Hn1|].
      unfold node_shape. simpl. rewrite Hrels1, Hrels. simpl.
      rewrite (Forall2_rel_types _ _ _ Hall). reflexivity.
    + intros n' rels0 Hn' Hrels0. rewrite Hn in Hn'. injection Hn' as <-.
      rewrite Hrels in Hrels0. injection Hrels0 as <-. lia.
  - injection H as <-. split; [apply same_shape_refl|].
    intros n' rels0 Hn' Hrels0. rewrite Hn in Hn'. injection Hn' as <-.
    rewrite Hrels in Hrels0. discriminate.
Qed.

Lemma post_process_relationships_pass_shape recursion_limit url_exists consts ids store
    types relationships plugins cin con dep resource_base store' :
  post_process_relationships_pass recursion_limit url_exists consts ids store types
    relationships plugins cin con dep resource_base = Ok store' ->
  same_shape store store' /\
  forall id n rels,
    id ∈ ids -> store !! id = Some n -> node_relationships n = Some rels ->
    length (contained_types cin rels) <= 1.
Proof.
  unfold post_process_relationships_pass. revert store.
  induction ids as [|id ids IH]; intros store H; simpl in H.
  - injection H as <-. split; [apply same_shape_refl|].
    intros id n rels Hid. apply elem_of_nil in Hid. contradiction.
  - apply bind_ok in H as (store2 & Hstep & H).
    apply bind_ok in Hstep as (store1 & Hnode & Hstep).
    apply bind_ok in Hstep as (n1 & Hn1 & Hstep). apply dict_get_ok in Hn1.
    apply bind_ok in Hstep as (h & _ & Hstep). injection Hstep as <-.
    apply post_process_node_relationships_shape in Hnode as (Hshape1 & Hfew).
    assert (Hshape2 : same_shape store (<[id := set_node_type_hierarchy n1 h]> store1)).
    { eapply same_shape_trans; [exact Hshape1|].
      apply (same_shape_insert _ _ n1); [exact Hn1 | reflexivity]. }
    destruct (IH _ H) as (Hshape' & Hrest).
    split; [eapply same_shape_trans; eassumption|].
    intros id' n rels Hid' Hn Hrels. apply elem_of_cons in Hid' as [->|Hid'].
    + eapply Hfew; eassumption.
    + pose proof (Hshape2 id') as Hk. rewrite Hn in Hk.
      destruct (<[id:=set_node_type_hierarchy n1 h]> store1 !! id') as [n2|] eqn:Hn2;
        [|discriminate].
      injection Hk as _ _ _ Hk. rewrite Hrels in Hk.
      destruct (node_relationships n2) as [rels2|] eqn:Hrels2; [|discriminate].
      injection Hk as Hk.
      rewrite <- (contained_types_shape cin rels rels2 Hk).
      eapply Hrest; eassumption.
Qed.

Lemma node_name_to_node_of_lookup processed_nodes k n :
  node_name_to_node_of processed_nodes !! k = Some n ->
  n ∈ processed_nodes /\ node_id n = k.
Proof.
  unfold node_name_to_node_of.
  assert (H : forall acc : gmap string node,
            (forall k n, acc !! k = Some n -> n ∈ processed_nodes /\ node_id n = k) ->
            forall l, (forall n, n ∈ l -> n ∈ processed_nodes) ->
            fold_left (fun m n => <[node_id n := n]> m) l acc !! k = Some n ->
            n ∈ processed_nodes /\ node_id n = k).
  { intros acc Hacc l. revert acc Hacc. induction l as [|x l IH]; intros acc Hacc Hl;
      simpl; [apply Hacc|].
    apply IH.
    - intros k' n'. rewrite lookup_insert.
      destruct (decide (node_id x = k')) as [<-|_]; [|apply Hacc].
      intros E. injection E as <-. split; [|reflexivity]. apply Hl, elem_of_cons. auto.
    - intros n' Hn'. apply Hl, elem_of_cons. auto. }
  apply (H ∅); [|auto].
  intros k' n'. rewrite lookup_empty. discriminate.
Qed.

Lemma mapM_dict_get_elem {V} (store : gmap string V) ids l :
  mapM (dict_get store) ids = Ok l ->
  forall v, v ∈ l <-> exists id, id ∈ ids /\ store !! id = Some v.
Proof.
  revert l. induction ids as [|id ids IH]; intros l H v; simpl in H.
  - injection H as <-. split; [intros Hv; apply elem_of_nil in Hv; contradiction|].
    intros (id & Hid & _). apply elem_of_nil in Hid. contradiction.
  - destruct (dict_get store id) as [x|e] eqn:Hx; simpl in H; [|discriminate].
    destruct (mapM (dict_get store) ids) as [xs|e]; simpl in H; [|discriminate].
    injection H as <-. apply dict_get_ok in Hx.
    rewrite elem_of_cons, (IH xs eq_refl v). split.
    + intros [->|(id' & Hid' & Hv)].
      * exists id. split; [apply elem_of_cons; auto | exact Hx].
      * exists id'. split; [apply elem_of_cons; auto | exact Hv].
    + intros (id' & Hid' & Hv). apply elem_of_cons in Hid' as [->|Hid'].
      * left. congruence.
      * right. eauto.
Qed.

(** The family set holds the declared types that derive from the root. *)
Lemma build_family_descendants_set_spec recursion_limit types derived family :
  _build_family_descendants_set recursion_limit types derived = Ok family ->
  forall t, t ∈ family <->
            is_Some (types !! t) /\
            _is_derived_from recursion_limit t types derived = Ok true.
Proof.
  unfold _build_family_descendants_set. intros H t.
  assert (Hgen : forall l (acc : gset string) family,
            foldM (fun acc type_name =>
                     let* b := _is_derived_from recursion_limit type_name types derived in
                     Ok (if b : bool then {[type_name]} ∪ acc else acc)) l acc
            = Ok family ->
            (t ∈ family <->
             t ∈ acc \/
             (t ∈ l /\ _is_derived_from recursion_limit t types derived = Ok true))).
  { clear H family. induction l as [|x l IH]; intros acc family H; simpl in H.
    - injection H as <-. split; [auto|]. intros [Hacc|[Hl _]]; [exact Hacc|].
      apply elem_of_nil in Hl. contradiction.
    - apply bind_ok in H as (acc' & Hx & H).
      apply bind_ok in Hx as (b & Hb & Hx). injection Hx as <-.
      rewrite (IH _ _ H), elem_of_cons. destruct b.
      + rewrite elem_of_union, elem_of_singleton. split.
        * intros [[->|Hacc]|[Hl Hd]]; auto.
        * intros [Hacc|[[->|Hl] Hd]]; auto.
      + split.
        * intros [Hacc|[Hl Hd]]; auto.
        * intros [Hacc|[[->|Hl] Hd]]; auto. congruence. }
  rewrite (Hgen _ _ _ H). split.
  - intros [Hempty|[Hin Hd]]; [apply elem_of_empty in Hempty; contradiction|].
    split; [|exact Hd].
    apply list_elem_of_fmap in Hin as [[k ty] [-> Hin]].
    apply elem_of_map_to_list in Hin. eauto.
  - intros [[ty Hty] Hd]. right. split; [|exact Hd].
    apply list_elem_of_fmap. exists (t, ty). split; [reflexivity|].
    apply elem_of_map_to_list. exact Hty.
Qed.

(** With at most one relationship in the family, any relationship in the
    family is the one that decides the host. *)
Lemma containing_relationship_unique cin n rels rel :
  node_relationships n = Some rels ->
  length (contained_types cin rels) <= 1 ->
  rel ∈ rels -> rel_type rel ∈ cin ->
  containing_relationship cin n = Some rel.
Proof.
  intros Hrels Hfew Hin Hty. unfold containing_relationship. rewrite Hrels.
  clear Hrels. unfold contained_types in Hfew.
  induction rels as [|x rels IH]; [apply elem_of_nil in Hin; contradiction|].
  simpl. rewrite fmap_cons, filter_cons in Hfew.
  destruct (decide (rel_type x ∈ cin)) as [Hx|Hx].
  - rewrite bool_decide_eq_true_2 by exact Hx.
    apply elem_of_cons in Hin as [->|Hin]; [reflexivity|].
    exfalso.
    assert (Hmem : rel_type rel ∈ filter (fun ty => ty ∈ cin) (rel_type <$> rels)).
    { apply list_elem_of_filter. split; [exact Hty|].
      apply list_elem_of_fmap_2. exact Hin. }
    destruct (filter (fun ty => ty ∈ cin) (rel_type <$> rels));
      [apply elem_of_nil in Hmem; contradiction|].
    simpl in Hfew. lia.
  - rewrite bool_decide_eq_false_2 by exact Hx.
    apply elem_of_cons in Hin as [->|Hin]; [contradiction|]. apply IH; assumption.
Qed.

Lemma containing_relationship_none cin n :
  (forall rels rel, node_relationships n = Some rels -> rel ∈ rels ->
     rel_type rel ∉ cin) ->
  containing_relationship cin n = None.
Proof.
  intros H. unfold containing_relationship.
  destruct (node_relationships n) as [rels|]; [|reflexivity].
  specialize (H rels). induction rels as [|x rels IH]; [reflexivity|]. simpl.
  rewrite bool_decide_eq_false_2 by (apply (H x eq_refl), elem_of_cons; auto).
  apply IH. intros rel _ Hin. apply (H rel eq_refl), elem_of_cons. auto.
Qed.

Lemma same_core_refl store : same_core store store.
Proof. intros k. reflexivity. Qed.

Lemma same_core_trans s1 s2 s3 : same_core s1 s2 -> same_core s2 s3 -> same_core s1 s3.
Proof. intros H12 H23 k. rewrite H23. apply H12. Qed.

Lemma same_core_insert store k n n' :
  store !! k = Some n -> node_core n' = node_core n ->
  same_core store (<[k := n']> store).
Proof.
  intros Hk Hn k'. rewrite lookup_insert. destruct (decide (k = k')) as [<-|_]; [|reflexivity].
  rewrite Hk. simpl. rewrite Hn. reflexivity.
Qed.

Lemma same_core_lookup store store' k n :
  same_core store store' -> store !! k = Some n ->
  exists n', store' !! k = Some n' /\ node_core n' = node_core n.
Proof.
  intros H Hk. specialize (H k). rewrite Hk in H.
  destruct (store' !! k) as [n'|]; [|discriminate].
  exists n'. split; [reflexivity|]. simpl in H. congruence.
Qed.

Lemma same_core_sym store store' : same_core store store' -> same_core store' store.
Proof. intros H k. symmetry. apply H. Qed.

(** The last two loops write the plugins to install and nothing else. *)
Lemma plugins_to_install_pass_core consts ids store host_types store' :
  plugins_to_install_pass consts ids store host_types = Ok store' ->
  same_core store store'.
Proof.
  unfold plugins_to_install_pass. generalize ids at 1. intros all_ids.
  apply foldM_preserves; [apply same_core_refl | apply same_core_trans|].
  intros s id s' H.
  apply bind_ok in H as (n & Hn & H). apply dict_get_ok in Hn.
  destruct (bool_decide (node_type n ∈ host_types)).
  - apply bind_ok in H as (l & _ & H). injection H as <-.
    apply (same_core_insert _ _ n); [exact Hn | reflexivity].
  - injection H as <-. apply same_core_refl.
Qed.

Lemma deployment_plugins_pass_core consts ids store store' :
  deployment_plugins_pass consts ids store = Ok store' -> same_core store store'.
Proof.
  unfold deployment_plugins_pass.
  apply foldM_preserves; [apply same_core_refl | apply same_core_trans|].
  intros s id s' H.
  apply bind_ok in H as (n & Hn & H). apply dict_get_ok in Hn.
  injection H as <-. apply (same_core_insert _ _ n); [exact Hn | reflexivity].
Qed.

(** C2, as amended: in every fully processed set of nodes, a node whose
    type is the host type or derives from it and whose id is not the empty
    string has its own id as [host_id], and no node of another type has its
    own id as [host_id]; a node that is no host and has a relationship in
    the contained-in family has the [host_id] of the target of that
    relationship, or no [host_id] when the target has none; and a node that
    is no host and has no such relationship has no [host_id]. *)
Theorem host_id_of_processed_nodes :
  forall recursion_limit url_exists consts processed_nodes types relationships plugins
         type_impls relationship_impls resource_base nodes',
    NoDup (node_id <$> processed_nodes) ->
    (forall n, n ∈ processed_nodes -> node_host_id n = None) ->
    _post_process_nodes recursion_limit url_exists consts processed_nodes types
      relationships plugins type_impls relationship_impls resource_base = Ok nodes' ->
    exists host_types cin : gset string,
      (forall t, t ∈ host_types <->
                 is_Some (types !! t) /\
                 _is_derived_from recursion_limit t types HOST_TYPE = Ok true) /\
      (forall t, t ∈ cin <->
                 is_Some (relationships !! t) /\
                 _is_derived_from recursion_limit t relationships CONTAINED_IN_REL_TYPE
                 = Ok true) /\
      forall n, n ∈ nodes' ->
        (node_type n ∈ host_types -> node_id n <> "" ->
         node_host_id n = Some (node_id n)) /\
        (node_host_id n = Some (node_id n) -> node_type n ∈ host_types) /\
        (node_type n ∉ host_types ->
         forall rels rel t,
           node_relationships n = Some rels -> rel ∈ rels -> rel_type rel ∈ cin ->
           rel_target_id rel = Some t ->
           exists m, m ∈ nodes' /\ node_id m = t /\ node_host_id n = node_host_id m) /\
        (node_type n ∉ host_types ->
         (forall rels rel, node_relationships n = Some rels -> rel ∈ rels ->
            rel_type rel ∉ cin) ->
         node_host_id n = None).
Proof.
  intros limit url_exists consts processed_nodes types relationships plugins
         type_impls relationship_impls resource_base nodes' Hnd Hnone H.
  unfold _post_process_nodes in H.
  apply bind_ok in H as (dep & _ & H).
  apply bind_ok in H as (cin & Hcin & H).
  apply bind_ok in H as (con & _ & H).
  apply bind_ok in H as (store1 & Hpass1 & H).
  apply bind_ok in H as (host_types & Hhosts & H).
  apply bind_ok in H as (store2 & Hpass2 & H).
  apply bind_ok in H as (store3 & Hpass3 & H).
  apply bind_ok in H as (store4 & Hpass4 & H).
  apply bind_ok in H as (final & Hfinal & H).
  apply bind_ok in H as (? & _ & H).
  apply bind_ok in H as (? & _ & H).
  apply bind_ok in H as (? & _ & H).
  injection H as <-. rename Hfinal into H.
  exists host_types, cin.
  split; [apply build_family_descendants_set_spec; exact Hhosts|].
  split; [apply build_family_descendants_set_spec; exact Hcin|].
  set (store0 := node_name_to_node_of processed_nodes) in *.
  set (ids := node_id <$> processed_nodes) in *.
  apply post_process_relationships_pass_shape in Hpass1 as (Hshape & Hfew).
  assert (Hstore1 : forall k m, store1 !! k = Some m ->
            node_id m = k /\ node_host_id m = None /\ k ∈ ids).
  { intros k m Hm.
    destruct (same_shape_lookup _ _ _ _ Hshape Hm) as (m0 & Hm0 & Hsh).
    apply node_name_to_node_of_lookup in Hm0 as [Hin Hk].
    injection Hsh as Hid Hhost _ _.
    split; [congruence|]. split; [rewrite Hhost; apply Hnone; exact Hin|].
    subst k. apply list_elem_of_fmap_2. exact Hin. }
  assert (Hrefl : same_but_host_id store1 store1) by (intros k; reflexivity).
  destruct (host_id_pass_spec limit host_types cin ids store1 store1 store2
              Hnd Hrefl Hpass2) as (Hsame2 & _ & _).
  pose proof (host_ids_of_pass limit host_types cin ids store1 store2
                Hnd Hstore1 Hpass2) as Hspec.
  assert (Hcore : same_core store2 store4).
  { eapply same_core_trans;
      [eapply plugins_to_install_pass_core | eapply deployment_plugins_pass_core];
      eassumption. }
  pose proof (mapM_dict_get_elem store4 ids final H) as Hnodes.
  intros n4 Hn4. apply Hnodes in Hn4 as (id & Hid & Hn4).
  destruct (same_core_lookup _ _ _ _ (same_core_sym _ _ Hcore) Hn4) as (n & Hn & Hc).
  injection Hc as Hcid Hcty Hcrels Hchost.
  rewrite <- Hcid, <- Hcty, <- Hcrels, <- Hchost.
  destruct (Hspec id n Hid Hn) as (Hidn & H1 & H2 & H3 & H4).
  rewrite Hidn.
  assert (Hcount : forall rels, node_relationships n = Some rels ->
            length (contained_types cin rels) <= 1).
  { intros rels Hrels.
    destruct (same_but_host_id_lookup _ _ _ _ (same_but_host_id_sym _ _ Hsame2) Hn)
      as (n1 & Hn1 & Hclear).
    destruct (same_shape_lookup _ _ _ _ Hshape Hn1) as (n0 & Hn0 & Hsh).
    injection Hclear as _ _ _ _ Hrels1 _ _ _. injection Hsh as _ _ _ Hrels0.
    rewrite Hrels1, Hrels in Hrels0.
    destruct (node_relationships n0) as [rels0|] eqn:Hr0; [|discriminate].
    injection Hrels0 as Hrels0.
    rewrite (contained_types_shape cin rels0 rels Hrels0).
    eapply Hfew; eassumption. }
  split; [exact H1|]. split; [exact H2|]. split.
  - intros Hnot rels rel t Hrels Hin Hty Ht.
    destruct (H3 Hnot rel t) as (m & Htin & Hm & Heq).
    + eapply containing_relationship_unique; eauto.
    + exact Ht.
    + destruct (same_core_lookup _ _ _ _ Hcore Hm) as (m4 & Hm4 & Hmc).
      injection Hmc as Hmid _ _ Hmhost.
      exists m4. split; [apply Hnodes; eauto|]. rewrite Hmid, Hmhost.
      split; [|exact Heq].
      destruct (Hspec t m Htin Hm) as (Hidm & _). exact Hidm.
  - intros Hnot Hnorel. apply H4; [exact Hnot|].
    apply containing_relationship_none. exact Hnorel.
Qed.

(** The application [web] hosted on the host [host]: both have the host id
    [host]. *)
Lemma host_id_of_processed_nodes_witness :
  exists nodes',
    _post_process_nodes 10 no_url example_consts app_on_vm scenario_types
      example_relationships ∅ ∅ ∅ None = Ok nodes' /\
    node_host_id <$> nodes' = [Some "host"; Some "host"] /\
    exists host_types cin : gset string,
      (forall t, t ∈ host_types <->
                 is_Some (scenario_types !! t) /\
                 _is_derived_from 10 t scenario_types HOST_TYPE = Ok true) /\
      (forall t, t ∈ cin <->
                 is_Some (example_relationships !! t) /\
                 _is_derived_from 10 t example_relationships CONTAINED_IN_REL_TYPE
                 = Ok true) /\
      forall n, n ∈ nodes' ->
        (node_type n ∈ host_types -> node_id n <> "" ->
         node_host_id n = Some (node_id n)) /\
        (node_host_id n = Some (node_id n) -> node_type n ∈ host_types) /\
        (node_type n ∉ host_types ->
         forall rels rel t,
           node_relationships n = Some rels -> rel ∈ rels -> rel_type rel ∈ cin ->
           rel_target_id rel = Some t ->
           exists m, m ∈ nodes' /\ node_id m = t /\ node_host_id n = node_host_id m) /\
        (node_type n ∉ host_types ->
         (forall rels rel, node_relationships n = Some rels -> rel ∈ rels ->
            rel_type rel ∉ cin) ->
         node_host_id n = None).
Proof.
  destruct (_post_process_nodes 10 no_url example_consts app_on_vm scenario_types
              example_relationships ∅ ∅ ∅ None) as [nodes'|e] eqn:Hrun;
    [|vm_compute in Hrun; discriminate].
  exists nodes'. split; [reflexivity|]. split.
  - assert (H : match _post_process_nodes 10 no_url example_consts app_on_vm
                        scenario_types example_relationships ∅ ∅ ∅ None with
                | Ok l => node_host_id <$> l = [Some "host"; Some "host"]
                | Raise _ => False
                end) by (vm_compute; reflexivity).
    rewrite Hrun in H. exact H.
  - apply (host_id_of_processed_nodes 10 no_url example_consts app_on_vm scenario_types
             example_relationships ∅ ∅ ∅ None nodes').
    + compute_decision.
    + intros n Hn. unfold app_on_vm in Hn. elem_cases Hn; subst; reflexivity.
    + exact Hrun.
Defined.

(** C2 as stated fails for a host declared under the empty name: its type
    is the host type, and the test [if host_id:] leaves it without a
    [host_id] key. *)
Lemma empty_id_host_has_no_host_id :
  NoDup (node_id <$> unnamed_host) /\
  exists n,
    _post_process_nodes 10 no_url example_consts unnamed_host host_type_only ∅ ∅ ∅ ∅
      None = Ok [n] /\
    _is_derived_from 10 (node_type n) host_type_only HOST_TYPE = Ok true /\
    node_host_id n = None /\
    node_host_id n <> Some (node_id n).
Proof.
  split; [compute_decision|].
  eexists. split; [vm_compute; reflexivity|].
  split; [reflexivity|]. split; [reflexivity | discriminate].
Qed.

(** ** Validation of intrinsic functions *)

(** Induction on values, with the property of the elements of a list and
    of the values of a mapping. *)
Lemma value_nested_ind (P : value -> Prop) :
  (forall s, P (VScalar s)) ->
  (forall l, Forall P l -> P (VList l)) ->
  (forall d, Forall (fun kv => P kv.2) d -> P (VDict d)) ->
  (forall name raw, P raw -> P (VFunction name raw)) ->
  forall v, P v.
Proof.
  intros Hs Hl Hd Hf. fix IH 1. intros [s|l|d|name raw].
  - apply Hs.
  - apply Hl. induction l as [|x l IHl]; constructor; [apply IH | exact IHl].
  - apply Hd. induction d as [|[k x] d IHd]; constructor; [apply IH | exact IHd].
  - apply Hf. apply IH.
Qed.

Lemma no_function_instance_list l :
  no_function_instance (VList l) <-> Forall no_function_instance l.
Proof.
  induction l as [|x l IH]; simpl.
  - split; [constructor | auto].
  - simpl in IH. rewrite IH. split.
    + intros [Hx Hl]. constructor; assumption.
    + intros H. inversion H; subst. auto.
Qed.

Lemma no_function_instance_dict d :
  no_function_instance (VDict d) <-> Forall (fun kv => no_function_instance kv.2) d.
Proof.
  induction d as [|[k x] d IH]; simpl.
  - split; [constructor | auto].
  - simpl in IH. rewrite IH. split.
    + intros [Hx Hl]. constructor; assumption.
    + intros H. inversion H; subst. auto.
Qed.

Lemma scan_unfold {S} (h : value -> S -> result (option value * S)) v s :
  scan_service_template h v s
  = (let* (replaced, s) := h v s in
     match replaced with
     | Some v' => Ok (v', s)
     | None =>
         match v with
         | VList l =>
             let* (l', s) := mapM_state (scan_service_template h) l s in
             Ok (VList l', s)
         | VDict d =>
             let* (d', s) :=
               mapM_state (fun '(k, x) s =>
                             let* (x', s) := scan_service_template h x s in
                             Ok ((k, x'), s))
                          d s in
             Ok (VDict d', s)
         | _ => Ok (v, s)
         end
     end).
Proof. destruct v; reflexivity. Qed.

(** The handler of the validation leaves a value alone or replaces it by a
    [get_property] instance that keeps it as its raw form. *)
Lemma handler_cases registered parse_args validate plan v gp r gp' :
  handler registered parse_args validate plan v gp = Ok (r, gp') ->
  (r = None /\ gp' = gp) \/
  (r = Some (VFunction GET_PROPERTY v) /\ gp' = gp ++ [VFunction GET_PROPERTY v]).
Proof.
  unfold handler. intros H.
  apply bind_ok in H as (f & Hf & H).
  destruct f as [[s|l|d|name raw]|]; try (injection H as <- <-; auto).
  apply bind_ok in H as (? & _ & H).
  assert (raw = v) as ->.
  { unfold functions_parse in Hf.
    destruct v as [s|l|d|name' raw']; try discriminate.
    destruct d as [|[func_name func_args] [|? ?]]; try discriminate.
    destruct (bool_decide _); [|discriminate].
    apply bind_ok in Hf as (? & _ & Hf). congruence. }
  destruct (decide (name = GET_PROPERTY)) as [->|_]; injection H as <- <-; auto.
Qed.

Section RoundTrip.
Variable registered : list string.
Variable parse_args : string -> value -> result unit.
Variable validate : string -> value -> value -> result unit.
Variable plan : value.

Let h := handler registered parse_args validate plan.

(** What one scan with the handler and one with [replace_with_raw_function]
    do to a raw value: the second gives the value back, and the first
    leaves it as it is when it collects no [get_property] instance. *)
Let round_trip (v : value) : Prop :=
  forall gp v' gp',
    no_function_instance v ->
    scan_service_template h v gp = Ok (v', gp') ->
    scan_service_template replace_with_raw_function v' tt = Ok (v, tt) /\
    exists new, gp' = gp ++ new /\ (new = [] -> v' = v).

Lemma round_trip_elements l :
  Forall round_trip l ->
  forall gp l' gp',
    Forall no_function_instance l ->
    mapM_state (scan_service_template h) l gp = Ok (l', gp') ->
    mapM_state (scan_service_template replace_with_raw_function) l' tt = Ok (l, tt) /\
    exists new, gp' = gp ++ new /\ (new = [] -> l' = l).
Proof.
  induction 1 as [|x l Hx _ IH]; intros gp l' gp' Hraw H; simpl in H.
  - injection H as <- <-. split; [reflexivity|]. exists []. rewrite app_nil_r. auto.
  - inversion Hraw as [|? ? Hrx Hrl]; subst.
    apply bind_ok in H as ([x' gp1] & Hscan & H).
    apply bind_ok in H as ([l'' gp2] & Hrest & H). injection H as <- <-.
    destruct (Hx _ _ _ Hrx Hscan) as (Hback & new1 & -> & Hsame1).
    destruct (IH _ _ _ Hrl Hrest) as (Hbacks & new2 & -> & Hsame2).
    split; [simpl; rewrite Hback; simpl; rewrite Hbacks; reflexivity|].
    exists (new1 ++ new2). split; [rewrite app_assoc; reflexivity|].
    intros Hnil. apply app_eq_nil in Hnil as [-> ->].
    rewrite Hsame1, Hsame2; reflexivity.
Qed.

Lemma round_trip_entries d :
  Forall (fun kv => round_trip kv.2) d ->
  forall gp d' gp',
    Forall (fun kv => no_function_instance kv.2) d ->
    mapM_state (A := string * value) (B := string * value)
               (fun '(k, x) s =>
                  let* (x', s) := scan_service_template h x s in Ok ((k, x'), s))
               d gp = Ok (d', gp') ->
    mapM_state (A := string * value) (B := string * value)
               (fun '(k, x) s =>
                  let* (x', s) :=
                    scan_service_template replace_with_raw_function x s in
                  Ok ((k, x'), s))
               d' tt = Ok (d, tt) /\
    exists new, gp' = gp ++ new /\ (new = [] -> d' = d).
Proof.
  induction 1 as [|[k x] d Hx _ IH]; intros gp d' gp' Hraw H; simpl in H.
  - injection H as <- <-. split; [reflexivity|]. exists []. rewrite app_nil_r. auto.
  - inversion Hraw as [|? ? Hrx Hrl]; subst. simpl in Hx, Hrx.
    apply bind_ok in H as ([kx' gp1] & Hscan & H).
    apply bind_ok in Hscan as ([x' gp1'] & Hscan & Hkx). injection Hkx as <- <-.
    apply bind_ok in H as ([d'' gp2] & Hrest & H). injection H as <- <-.
    destruct (Hx _ _ _ Hrx Hscan) as (Hback & new1 & -> & Hsame1).
    destruct (IH _ _ _ Hrl Hrest) as (Hbacks & new2 & -> & Hsame2).
    split; [simpl; rewrite Hback; simpl; rewrite Hbacks; reflexivity|].
    exists (new1 ++ new2). split; [rewrite app_assoc; reflexivity|].
    intros Hnil. apply app_eq_nil in Hnil as [-> ->].
    rewrite Hsame1, Hsame2; reflexivity.
Qed.

Lemma scan_round_trip v : round_trip v.
Proof.
  induction v as [s|l IHl|d IHd|name raw _] using value_nested_ind;
    intros gp v' gp' Hraw H; [| | |contradiction];
    rewrite scan_unfold in H;
    apply bind_ok in H as ([r gp1] & Hh & H);
    (apply handler_cases in Hh as [[-> ->] | [-> ->]];
     [|injection H as <- <-; split; [reflexivity|]; eexists;
       split; [reflexivity | discriminate]]).
  - injection H as <- <-. split; [reflexivity|]. exists []. rewrite app_nil_r. auto.
  - apply bind_ok in H as ([l' gp2] & Hl & H). injection H as <- <-.
    apply no_function_instance_list in Hraw.
    destruct (round_trip_elements l IHl _ _ _ Hraw Hl) as (Hback & new & -> & Hsame).
    split; [rewrite scan_unfold; simpl; rewrite Hback; reflexivity|].
    exists new. split; [reflexivity|]. intros Hnil. rewrite Hsame; auto.
  - apply bind_ok in H as ([d' gp2] & Hd & H). injection H as <- <-.
    apply no_function_instance_dict in Hraw.
    destruct (round_trip_entries d IHd _ _ _ Hraw Hd) as (Hback & new & -> & Hsame).
    split; [rewrite scan_unfold; simpl; rewrite Hback; reflexivity|].
    exists new. split; [reflexivity|]. intros Hnil. rewrite Hsame; auto.
Qed.
End RoundTrip.

(** C7: when the validation of the functions of a raw plan completes
    without error, the scan that replaced leaves by function instances is
    undone by the scan that restores their raw forms: the plan the
    validation leaves is the input plan, leaf for leaf, and holds no function
    instance. *)
Theorem validate_functions_round_trip :
  forall recursion_limit registered parse_args validate evaluate function_id
         FUNCTION_NAME_PATH_SEPARATOR plan plan',
    no_function_instance plan ->
    _validate_functions recursion_limit registered parse_args validate evaluate
      function_id FUNCTION_NAME_PATH_SEPARATOR plan = Ok plan' ->
    exists scanned get_property_functions,
      scan_service_template (handler registered parse_args validate plan) plan []
      = Ok (scanned, get_property_functions) /\
      scan_service_template replace_with_raw_function scanned tt = Ok (plan, tt) /\
      plan' = plan /\ no_function_instance plan'.
Proof.
  intros limit registered parse_args validate evaluate function_id separator plan plan'
         Hraw H.
  unfold _validate_functions in H.
  apply bind_ok in H as ([scanned gp] & Hscan & H).
  destruct (scan_round_trip registered parse_args validate plan plan [] scanned gp
              Hraw Hscan) as (Hback & new & Hgp & Hsame).
  exists scanned, gp. split; [exact Hscan|]. split; [exact Hback|].
  assert (plan' = plan) as ->; [|auto].
  destruct gp as [|f gp].
  - injection H as <-. apply Hsame. destruct new; [reflexivity | discriminate].
  - apply bind_ok in H as (? & _ & H).
    rewrite Hback in H. simpl in H. congruence.
Qed.

(** A plan with one [get_property] leaf. *)
Lemma validate_functions_round_trip_witness :
  exists scanned get_property_functions,
    scan_service_template (handler [] accept_args accept_function example_plan)
      example_plan [] = Ok (scanned, get_property_functions) /\
    scan_service_template replace_with_raw_function scanned tt = Ok (example_plan, tt) /\
    example_plan = example_plan /\ no_function_instance example_plan.
Proof.
  destruct (_validate_functions 10 [] accept_args accept_function evaluate_to_scalar
              id_of_web_port "." example_plan) as [plan'|e] eqn:Hrun;
    [|vm_compute in Hrun; discriminate].
  assert (Hraw : no_function_instance example_plan) by (simpl; tauto).
  destruct (validate_functions_round_trip 10 [] accept_args accept_function
              evaluate_to_scalar id_of_web_port "." example_plan plan' Hraw Hrun)
    as (scanned & gp & Hscan & Hback & -> & Hno).
  exists scanned, gp. auto.
Defined.

(** * Further properties *)

(** ** Type hierarchies *)

(** A result of [_is_derived_from] does not depend on the recursion limit
    under which it was found. *)
Lemma is_derived_from_mono types derived d d' t r :
  is_derived_from_rec d t types derived = Ok r -> d <= d' ->
  is_derived_from_rec d' t types derived = Ok r.
Proof.
  revert d' t. induction d as [|d IH]; intros d' t H Hle; [discriminate|].
  destruct d' as [|d']; [lia|]. simpl in *.
  destruct (decide (t = derived)); [exact H|].
  destruct (dict_get types t) as [ty|e]; [|discriminate]. simpl in *.
  destruct (derived_from ty); [|exact H]. apply IH; [exact H | lia].
Qed.

(** The only exceptions of [_is_derived_from] are the [KeyError] of an
    undeclared type and the exhausted recursion. *)
Lemma is_derived_from_raises types derived d t e :
  is_derived_from_rec d t types derived = Raise e ->
  e = RecursionDepthExceeded \/ exists k, e = KeyError k /\ types !! k = None.
Proof.
  revert t. induction d as [|d IH]; intros t H; simpl in H.
  - injection H as <-. left. reflexivity.
  - destruct (decide (t = derived)); [discriminate|].
    unfold dict_get in H. destruct (types !! t) as [ty|] eqn:Ht; simpl in H.
    + destruct (derived_from ty); [eapply IH; exact H | discriminate].
    + injection H as <-. right. eauto.
Qed.

(** When the family set is built, every membership test has returned. *)
Lemma build_family_tests_return limit (types : gmap string dsl_type) derived family t :
  _build_family_descendants_set limit types derived = Ok family ->
  is_Some (types !! t) ->
  exists b, _is_derived_from limit t types derived = Ok b /\ (t ∈ family <-> b = true).
Proof.
  intros H Ht.
  destruct (build_family_descendants_set_spec limit types derived family H t) as [H1 H2].
  assert (Hin : t ∈ (map_to_list types).*1).
  { destruct Ht as [ty Hty]. apply list_elem_of_fmap. exists (t, ty).
    split; [reflexivity|]. apply elem_of_map_to_list. exact Hty. }
  assert (Hret : forall l (acc family : gset string),
            foldM (fun acc type_name =>
                     let* b := _is_derived_from limit type_name types derived in
                     Ok (if b : bool then {[type_name]} ∪ acc else acc)) l acc
            = Ok family ->
            forall x, x ∈ l -> exists b, _is_derived_from limit x types derived = Ok b).
  { clear. induction l as [|y l IH]; intros acc family H x Hx.
    - apply elem_of_nil in Hx. destruct Hx.
    - simpl in H. apply bind_ok in H as (acc' & Hy & H).
      apply bind_ok in Hy as (b & Hb & _).
      apply elem_of_cons in Hx as [->|Hx]; [eauto|]. eapply IH; eauto. }
  destruct (Hret _ _ _ H t Hin) as [b Hb]. exists b. split; [exact Hb|].
  split.
  - intros Hf. apply H1 in Hf as [_ Hf]. congruence.
  - intros ->. apply H2. auto.
Qed.

(** X1: derivation composes.  If [a] is found to derive from [b] and [b] to
    derive from [c], then [a] is found to derive from [c] under the sum of
    the two recursion limits. *)
Theorem is_derived_from_transitive :
  forall l1 l2 types a b c,
    _is_derived_from l1 a types b = Ok true ->
    _is_derived_from l2 b types c = Ok true ->
    _is_derived_from (l1 + l2) a types c = Ok true.
Proof.
  unfold _is_derived_from.
  induction l1 as [|l1 IH]; intros l2 types a b c Hab Hbc; [discriminate|].
  simpl in Hab. destruct (decide (a = b)) as [->|Hne].
  - eapply is_derived_from_mono; [exact Hbc | lia].
  - change (S l1 + l2) with (S (l1 + l2)). simpl.
    destruct (decide (a = c)); [reflexivity|].
    destruct (dict_get types a) as [ty|e]; [|discriminate]. simpl in *.
    destruct (derived_from ty) as [p|]; [|discriminate].
    eapply IH; eauto.
Qed.

Lemma is_derived_from_transitive_witness :
  _is_derived_from (2 + 2) "db_vm" layered_types HOST_TYPE = Ok true.
Proof.
  apply (is_derived_from_transitive 2 2 layered_types "db_vm" "vm" HOST_TYPE);
    reflexivity.
Defined.

(** X2: a family set is closed under derivation: a declared type whose
    parent is in the set is in the set. *)
Theorem family_set_closed_under_derivation :
  forall recursion_limit types derived family t ty parent,
    _build_family_descendants_set recursion_limit types derived = Ok family ->
    types !! t = Some ty ->
    derived_from ty = Some parent ->
    parent ∈ family ->
    t ∈ family.
Proof.
  intros limit types derived family t ty parent H Ht Hp Hin.
  destruct (build_family_tests_return limit types derived family t H) as (b & Hb & Hiff);
    [eauto|].
  apply Hiff.
  apply (build_family_descendants_set_spec limit types derived family H) in Hin
    as [_ Hparent].
  unfold _is_derived_from in *. destruct limit as [|limit]; [discriminate|].
  simpl in Hb. destruct (decide (t = derived)); [congruence|].
  unfold dict_get in Hb. rewrite Ht in Hb. simpl in Hb. rewrite Hp in Hb.
  destruct b; [reflexivity|].
  apply (is_derived_from_mono _ _ _ (S limit)) in Hb; [congruence | lia].
Qed.

Lemma family_set_closed_under_derivation_witness :
  "vm" ∈ ({[HOST_TYPE; "vm"]} : gset string).
Proof.
  apply (family_set_closed_under_derivation 10 example_types HOST_TYPE
           {[HOST_TYPE; "vm"]} "vm" (plain_type (Some HOST_TYPE)) HOST_TYPE).
  - vm_compute. reflexivity.
  - reflexivity.
  - reflexivity.
  - compute_decision.
Defined.

(** X3: a dangling parent breaks every family set.  If a declared type
    derives from an undeclared one, no family set is built for any other
    root: the call raises a [KeyError] (or exhausts the recursion on
    another type), never a parsing exception. *)
Theorem dangling_parent_breaks_family_set :
  forall recursion_limit types derived t ty parent,
    types !! t = Some ty ->
    derived_from ty = Some parent ->
    types !! parent = None ->
    t <> derived -> parent <> derived ->
    exists e,
      _build_family_descendants_set recursion_limit types derived = Raise e /\
      (e = RecursionDepthExceeded \/ exists k, e = KeyError k /\ types !! k = None).
Proof.
  intros limit types derived t ty parent Ht Hp Hnone Hne1 Hne2.
  destruct (_build_family_descendants_set limit types derived) as [family|e] eqn:H.
  - exfalso.
    destruct (build_family_tests_return limit types derived family t H) as (b & Hb & _);
      [eauto|].
    unfold _is_derived_from in Hb. destruct limit as [|limit]; [discriminate|].
    simpl in Hb. destruct (decide (t = derived)); [contradiction|].
    unfold dict_get in Hb. rewrite Ht in Hb. simpl in Hb. rewrite Hp in Hb.
    destruct limit as [|limit]; [discriminate|]. simpl in Hb.
    destruct (decide (parent = derived)); [contradiction|].
    unfold dict_get in Hb. rewrite Hnone in Hb. discriminate.
  - exists e. split; [reflexivity|].
    unfold _build_family_descendants_set in H.
    revert H. generalize (∅ : gset string). generalize ((map_to_list types).*1).
    induction l as [|x l IH]; intros acc H; simpl in H; [discriminate|].
    destruct (_is_derived_from limit x types derived) as [b|e'] eqn:Hx; simpl in H.
    + eapply IH; exact H.
    + injection H as <-. eapply is_derived_from_raises; exact Hx.
Qed.

Lemma dangling_parent_breaks_family_set_witness :
  _build_family_descendants_set 10 dangling_types HOST_TYPE = Raise (KeyError "p") /\
  exists e,
    _build_family_descendants_set 10 dangling_types HOST_TYPE = Raise e /\
    (e = RecursionDepthExceeded \/
     exists k, e = KeyError k /\ dangling_types !! k = None).
Proof.
  split; [vm_compute; reflexivity|].
  apply (dangling_parent_breaks_family_set 10 dangling_types HOST_TYPE "a"
           (plain_type (Some "p")) "p");
    try reflexivity; discriminate.
Defined.

(** ** The plugin binder, beyond the longest prefix *)

(** When no declared plugin with a non-empty name leads the mapping, the
    loop over the plugin names ends without a name. *)
Lemma longest_prefix_none (plugins : gmap string plugin) operation_mapping :
  (forall name, is_Some (plugins !! name) -> name <> "" ->
     startswith operation_mapping (name +:+ ".") = false) ->
  exists n, fold_left (longest_prefix_step operation_mapping) (plugin_keys plugins)
              (0, None) = (n, None).
Proof.
  intros Hno.
  pose proof (longest_prefix_loop operation_mapping (plugin_keys plugins)) as Hinv.
  destruct (fold_left _ (plugin_keys plugins) (0, None)) as [n [p|]]; [|eauto].
  exfalso. destruct Hinv as [_ (Hp & Hs & Hlen & Hpos)]. simpl in *.
  apply plugin_keys_elem in Hp.
  rewrite Hno in Hs; [discriminate | exact Hp |].
  intros ->. simpl in Hlen. lia.
Qed.

(** What a descriptor of the binder holds. *)
Lemma binder_descriptor url_exists consts plugins plugin_names operation_name
    operation_content error_code partial_error_message resource_base is_workflows d :
  _extract_plugin_name_and_operation_mapping_from_operation url_exists consts plugins
    plugin_names operation_name operation_content error_code partial_error_message
    resource_base is_workflows = Ok d ->
  match od_plugin d with
  | None =>
      operation_mapping_of is_workflows operation_content = "" /\
      od_op_struct d = _operation_struct "" "" (Some []) is_workflows
  | Some p =>
      operation_mapping_of is_workflows operation_content <> "" /\
      plugins !! op_plugin (od_op_struct d) = Some p
  end.
Proof.
  intros H.
  unfold _extract_plugin_name_and_operation_mapping_from_operation in H.
  destruct (decide _) as [He|Hne]; [injection H as <-; simpl; auto|].
  destruct (fold_left _ plugin_names (0, None)) as [len [name|]].
  - unfold dict_get in H. destruct (plugins !! name) as [p|] eqn:Hp; simpl in H;
      [|discriminate].
    injection H as <-. simpl. destruct is_workflows; auto.
  - destruct (match resource_base with Some _ => _ | None => _ end); [|discriminate].
    destruct (has_key _ _); [discriminate|].
    destruct (plugins !! _) eqn:Hp; [|discriminate].
    injection H as <-. simpl. destruct is_workflows; auto.
Qed.

(** X4: the binder invents no plugin.  Whenever it returns, the descriptor
    bears the name of the operation, and either it is the stub of an empty
    mapping (no plugin, empty plugin name and operation, empty payload) or
    its plugin is the one declared under the plugin name of its operation
    structure. *)
Theorem binder_returns_declared_plugin :
  forall url_exists consts plugins plugin_names operation_name operation_content
         error_code partial_error_message resource_base is_workflows d,
    _extract_plugin_name_and_operation_mapping_from_operation url_exists consts plugins
      plugin_names operation_name operation_content error_code partial_error_message
      resource_base is_workflows = Ok d ->
    od_name d = operation_name /\
    match od_plugin d with
    | None =>
        operation_mapping_of is_workflows operation_content = "" /\
        od_op_struct d = _operation_struct "" "" (Some []) is_workflows
    | Some p =>
        operation_mapping_of is_workflows operation_content <> "" /\
        plugins !! op_plugin (od_op_struct d) = Some p
    end.
Proof.
  intros url_exists consts plugins plugin_names operation_name operation_content
         error_code msg resource_base is_workflows d H.
  split; [eapply binder_name; exact H | eapply binder_descriptor; exact H].
Qed.

Lemma binder_returns_declared_plugin_witness :
  od_name (Build_OpDescriptor (Some (example_plugin "a.b"))
             (_operation_struct "a.b" "run" None false) "start") = "start" /\
  "a.b.run" <> "" /\
  plugins_a_ab !! "a.b" = Some (example_plugin "a.b").
Proof.
  apply (binder_returns_declared_plugin no_url example_consts plugins_a_ab
           (plugin_keys plugins_a_ab) "start" (OpString "a.b.run") 10 "" None false
           (Build_OpDescriptor (Some (example_plugin "a.b"))
              (_operation_struct "a.b" "run" None false) "start")).
  vm_compute. reflexivity.
Defined.

(** X5: a mapping that no declared plugin leads and that names an existing
    resource is bound to the script plugin.  If the payload has no script
    path property and the script plugin is declared, the binder returns that
    plugin with the script task as operation; the payload holds the mapping
    under the script path property (as the default of a parameter, for a
    workflow) and keeps what it held under every other key. *)
Theorem unprefixed_mapping_binds_to_script_plugin :
  forall url_exists consts plugins operation_name operation_content error_code
         partial_error_message base is_workflows script_plugin,
    let operation_mapping := operation_mapping_of is_workflows operation_content in
    let operation_payload :=
      default [] (operation_payload_of is_workflows operation_content) in
    operation_mapping <> "" ->
    (forall name, is_Some (plugins !! name) -> name <> "" ->
       startswith operation_mapping (name +:+ ".") = false) ->
    base <> "" ->
    url_exists (base +:+ "/" +:+ operation_mapping) = true ->
    has_key operation_payload (SCRIPT_PATH_PROPERTY consts) = false ->
    plugins !! SCRIPT_PLUGIN_NAME consts = Some script_plugin ->
    exists payload,
      _extract_plugin_name_and_operation_mapping_from_operation url_exists consts
        plugins (plugin_keys plugins) operation_name operation_content error_code
        partial_error_message (Some base) is_workflows
      = Ok {| od_plugin := Some script_plugin;
              od_op_struct :=
                _operation_struct (SCRIPT_PLUGIN_NAME consts)
                  (if is_workflows then SCRIPT_PLUGIN_EXECUTE_WORKFLOW_TASK consts
                   else SCRIPT_PLUGIN_RUN_TASK consts)
                  (Some payload) is_workflows;
              od_name := operation_name |} /\
      items_get payload (SCRIPT_PATH_PROPERTY consts)
      = Ok (if is_workflows
            then YDict [("default", YStr operation_mapping);
                        ("description",
                         YStr "Workflow script executed by the script plugin")]
            else YStr operation_mapping) /\
      forall k, k <> SCRIPT_PATH_PROPERTY consts ->
        items_get payload k = items_get operation_payload k.
Proof.
  intros url_exists consts plugins operation_name operation_content error_code msg
         base is_workflows script_plugin operation_mapping operation_payload
         Hne Hno Hbase Hurl Hkey Hscript.
  eexists. split; [|split].
  - unfold _extract_plugin_name_and_operation_mapping_from_operation.
    fold operation_mapping. destruct (decide (operation_mapping = "")) as [?|_]; [contradiction|].
    destruct (longest_prefix_none plugins operation_mapping Hno) as [n ->].
    rewrite bool_decide_eq_false_2 by exact Hbase.
    unfold _resource_exists. rewrite Hurl. simpl.
    fold operation_payload. rewrite Hkey, Hscript. reflexivity.
  - apply items_get_set_same.
  - intros k Hk. apply items_get_set_other. exact Hk.
Qed.

Lemma unprefixed_mapping_binds_to_script_plugin_witness :
  exists payload,
    _extract_plugin_name_and_operation_mapping_from_operation every_url example_consts
      script_plugin_only (plugin_keys script_plugin_only) "start"
      (OpString "scripts/start.sh") 10 "" (Some "http://host/blueprint") false
    = Ok {| od_plugin := Some (example_plugin "script");
            od_op_struct :=
              _operation_struct "script" "script_runner.tasks.run" (Some payload) false;
            od_name := "start" |} /\
    items_get payload "script_path" = Ok (YStr "scripts/start.sh") /\
    forall k, k <> "script_path" -> items_get payload k = items_get [] k.
Proof.
  apply (unprefixed_mapping_binds_to_script_plugin every_url example_consts
           script_plugin_only "start" (OpString "scripts/start.sh") 10 ""
           "http://host/blueprint" false (example_plugin "script")).
  - discriminate.
  - intros name [p Hp] _. unfold script_plugin_only in Hp.
    rewrite lookup_insert in Hp. destruct (decide ("script" = name)) as [<-|_];
      [reflexivity|].
    rewrite lookup_empty in Hp. discriminate.
  - discriminate.
  - reflexivity.
  - reflexivity.
  - reflexivity.
Defined.



(** ** Workflows and the operations of a node *)

(** The loop of [_create_plan_workflow_plugins]: the names seen so far are
    listed once each, in the order of the plugins collected. *)
Lemma workflow_plugins_loop (plugins : gmap string plugin)
    (l : list (string * operation_struct)) done names wps seen st' :
  NoDup names -> (forall n, n ∈ names <-> n ∈ seen) ->
  (forall n, n ∈ seen <-> exists x, x ∈ done /\ op_plugin x.2 = n) ->
  Forall2 (fun n p => plugins !! n = Some p) names wps ->
  foldM (fun '(workflow_plugins, workflow_plugin_names) '(workflow, op_struct) =>
           if bool_decide (op_plugin op_struct ∈ workflow_plugin_names)
           then Ok (workflow_plugins, workflow_plugin_names)
           else
             let plugin_name := op_plugin op_struct in
             let* p := dict_get plugins plugin_name in
             Ok (workflow_plugins ++ [p], {[plugin_name]} ∪ workflow_plugin_names))
        l ((wps, seen) : list plugin * gset string) = Ok st' ->
  exists names',
    NoDup names' /\
    (forall n, n ∈ names' <-> exists x, x ∈ done ++ l /\ op_plugin x.2 = n) /\
    Forall2 (fun n p => plugins !! n = Some p) names' st'.1.
Proof.
  revert done names wps seen.
  induction l as [|[w op] l IH]; intros done names wps seen Hnd Hnames Hseen Hall H;
    simpl in H.
  - injection H as <-. exists names. rewrite app_nil_r. split; [exact Hnd|].
    split; [|exact Hall]. intros n. rewrite Hnames. apply Hseen.
  - replace (done ++ (w, op) :: l) with ((done ++ [(w, op)]) ++ l)
      by (rewrite <- app_assoc; reflexivity).
    destruct (bool_decide (op_plugin op ∈ seen)) eqn:Hin.
    + apply bool_decide_eq_true in Hin. simpl in H.
      eapply (IH _ names wps seen); eauto.
      intros n. rewrite Hseen. split.
      * intros (x & Hx & <-). exists x. split; [apply elem_of_app; auto | reflexivity].
      * intros (x & Hx & <-). apply elem_of_app in Hx as [Hx|Hx]; [eauto|].
        apply list_elem_of_singleton in Hx as ->. simpl. apply Hseen. exact Hin.
    + apply bool_decide_eq_false in Hin.
      apply bind_ok in H as ([wps' seen'] & Hstep & H).
      apply bind_ok in Hstep as (p & Hp & Hstep). apply dict_get_ok in Hp.
      injection Hstep as <- <-.
      eapply (IH _ (names ++ [op_plugin op])); [| | | |exact H].
      * apply NoDup_app. split; [exact Hnd|]. split; [|apply NoDup_singleton].
        intros n Hn Hn'. apply list_elem_of_singleton in Hn' as ->.
        apply Hin, Hnames. exact Hn.
      * intros n. rewrite elem_of_app, list_elem_of_singleton, elem_of_union,
          elem_of_singleton, Hnames. tauto.
      * intros n. rewrite elem_of_union, elem_of_singleton, Hseen. split.
        -- intros [->|(x & Hx & <-)].
           ++ exists (w, op). split; [|reflexivity].
              apply elem_of_app. right. apply list_elem_of_singleton. reflexivity.
           ++ exists x. split; [apply elem_of_app; auto | reflexivity].
        -- intros (x & Hx & <-). apply elem_of_app in Hx as [Hx|Hx]; [eauto|].
           apply list_elem_of_singleton in Hx as ->. auto.
      * apply Forall2_app; [exact Hall|]. constructor; [exact Hp | constructor].
Qed.

(** X7: the workflow plugins to install hold one plugin for each plugin
    name that a processed workflow uses: the names are listed once each,
    and every plugin is the one declared under its name. *)
Theorem workflow_plugins_one_per_name :
  forall workflows plugins workflow_plugins,
    _create_plan_workflow_plugins workflows plugins = Ok workflow_plugins ->
    exists names,
      NoDup names /\
      (forall name, name ∈ names <->
         exists workflow op_struct,
           workflows !! workflow = Some op_struct /\ op_plugin op_struct = name) /\
      Forall2 (fun name p => plugins !! name = Some p) names workflow_plugins.
Proof.
  intros workflows plugins workflow_plugins H.
  unfold _create_plan_workflow_plugins in H.
  apply bind_ok in H as (st & H & Hst). injection Hst as <-.
  destruct (workflow_plugins_loop plugins (map_to_list workflows) [] [] [] ∅ st)
    as (names & Hnd & Hnames & Hall); try exact H.
  - apply NoDup_nil_2.
  - intros n. rewrite elem_of_nil. split; [contradiction | apply not_elem_of_empty].
  - intros n. split; [intros Hn; apply not_elem_of_empty in Hn; contradiction|].
    intros (x & Hx & _). apply elem_of_nil in Hx. contradiction.
  - constructor.
  - exists names. split; [exact Hnd|]. split; [|exact Hall].
    intros name. rewrite Hnames. simpl. split.
    + intros ([w op] & Hx & <-). apply elem_of_map_to_list in Hx. eauto.
    + intros (w & op & Hw & <-). exists (w, op). split; [|reflexivity].
      apply elem_of_map_to_list. exact Hw.
Qed.

Lemma workflow_plugins_one_per_name_witness :
  exists names,
    NoDup names /\
    (forall name, name ∈ names <->
       exists workflow op_struct,
         two_workflows !! workflow = Some op_struct /\ op_plugin op_struct = name) /\
    Forall2 (fun name p => plugins_a_ab !! name = Some p) names [example_plugin "a"].
Proof.
  apply (workflow_plugins_one_per_name two_workflows plugins_a_ab [example_plugin "a"]).
  vm_compute. reflexivity.
Defined.

(** What the descriptors of the interfaces of a node hold. *)
Lemma interface_descriptors_bound url_exists consts msg interfaces plugins error_code
    resource_base descs :
  interface_descriptors url_exists consts msg interfaces plugins error_code
    resource_base = Ok descs ->
  Forall (fun x : string * OpDescriptor =>
            match od_plugin x.2 with
            | None => od_op_struct x.2 = _operation_struct "" "" (Some []) false
            | Some p => plugins !! op_plugin (od_op_struct x.2) = Some p
            end) descs.
Proof.
  revert descs. induction interfaces as [|[iface ops] rest IH]; intros descs H; simpl in H.
  - injection H as <-. constructor.
  - destruct (_extract_plugin_names_and_operation_mapping_from_interface _ _ ops _ _ _ _)
      as [ds|e] eqn:Hds; simpl in H; [|discriminate].
    destruct (interface_descriptors _ _ _ rest _ _ _) as [ds'|e]; simpl in H;
      [|discriminate].
    injection H as <-. apply Forall_app. split; [|apply IH; reflexivity].
    unfold _extract_plugin_names_and_operation_mapping_from_interface in Hds.
    apply mapM_ok_Forall2 in Hds. clear -Hds.
    induction Hds as [|[o c] d ops ds Hd _ IH']; [constructor|].
    rewrite fmap_cons. constructor; [|exact IH']. simpl.
    apply binder_descriptor in Hd. destruct (od_plugin d); tauto.
Qed.

(** The loop over the descriptors keeps what [_process_context_operations]
    promises of the node's plugins and of the operations. *)
Lemma described_step_plugins (plugins node_plugins : gmap string plugin) descs st :
  Forall (fun x : string * OpDescriptor =>
            match od_plugin x.2 with
            | None => od_op_struct x.2 = _operation_struct "" "" (Some []) false
            | Some p => plugins !! op_plugin (od_op_struct x.2) = Some p
            end) descs ->
  (forall name, is_Some (node_plugins !! name) -> is_Some (st.2 !! name)) ->
  (forall name p, st.2 !! name = Some p ->
     node_plugins !! name = Some p \/ plugins !! name = Some p) ->
  (forall k op, st.1 !! k = Some (Some op) ->
     op = _operation_struct "" "" (Some []) false \/
     exists p, plugins !! op_plugin op = Some p /\ st.2 !! op_plugin op = Some p) ->
  let st' := fold_left described_step descs st in
  (forall name, is_Some (node_plugins !! name) -> is_Some (st'.2 !! name)) /\
  (forall name p, st'.2 !! name = Some p ->
     node_plugins !! name = Some p \/ plugins !! name = Some p) /\
  (forall k op, st'.1 !! k = Some (Some op) ->
     op = _operation_struct "" "" (Some []) false \/
     exists p, plugins !! op_plugin op = Some p /\ st'.2 !! op_plugin op = Some p).
Proof.
  intros Hall. revert st. induction Hall as [|[iface d] descs Hd _ IH];
    intros st Hkeep Hfrom Hops; [simpl; auto|].
  simpl. apply IH; clear IH; destruct st as [operations np];
    unfold described_step, context_operation_step; simpl in *.
  - intros name Hname. apply Hkeep in Hname.
    destruct (od_plugin d); simpl; [|exact Hname].
    rewrite lookup_insert. destruct (decide _); [eauto | exact Hname].
  - intros name p. destruct (od_plugin d) as [q|]; simpl; [|apply Hfrom].
    rewrite lookup_insert. destruct (decide _) as [<-|_]; [|apply Hfrom].
    intros [= <-]. auto.
  - assert (Hnew : od_op_struct d = _operation_struct "" "" (Some []) false \/
             exists p, plugins !! op_plugin (od_op_struct d) = Some p /\
               (match od_plugin d with
                | Some p => <[op_plugin (od_op_struct d) := p]> np
                | None => np
                end) !! op_plugin (od_op_struct d) = Some p).
    { destruct (od_plugin d) as [q|]; [right | left; exact Hd].
      exists q. split; [exact Hd | apply lookup_insert_eq]. }
    assert (Hold : forall k op, operations !! k = Some (Some op) ->
              op = _operation_struct "" "" (Some []) false \/
              exists p, plugins !! op_plugin op = Some p /\
                (match od_plugin d with
                 | Some p => <[op_plugin (od_op_struct d) := p]> np
                 | None => np
                 end) !! op_plugin op = Some p).
    { intros k op Hk. destruct (Hops k op Hk) as [->|(p & Hp & Hnp)]; [auto|].
      right. exists p. split; [exact Hp|].
      destruct (od_plugin d) as [q|]; [|exact Hnp].
      rewrite lookup_insert. destruct (decide _) as [E|_]; [|exact Hnp].
      rewrite E in Hd. congruence. }
    intros k op. destruct (od_plugin d) as [q|] eqn:Hq; simpl;
      rewrite lookup_insert; (destruct (decide _) as [_|_]; [intros [= <-]; exact Hnew|]);
      destruct (operations !! od_name d);
      rewrite lookup_insert; (destruct (decide _) as [_|_]; [intros [= <-]; try exact Hnew|]);
      try discriminate; apply Hold.
Qed.

(** X8: the plugins of a node only grow, by declared plugins, and hold the
    plugin of every operation.  When [_process_context_operations] returns,
    every plugin the node had is still listed; a plugin listed under a name
    is the one the node had or the one declared under that name; and every
    operation is the stub of an empty mapping or names a declared plugin
    that the node lists. *)
Theorem context_operations_record_declared_plugins :
  forall url_exists consts partial_error_message interfaces plugins node_plugins
         error_code resource_base operations node_plugins',
    _process_context_operations url_exists consts partial_error_message interfaces
      plugins node_plugins error_code resource_base = Ok (operations, node_plugins') ->
    (forall name, is_Some (node_plugins !! name) -> is_Some (node_plugins' !! name)) /\
    (forall name p, node_plugins' !! name = Some p ->
       node_plugins !! name = Some p \/ plugins !! name = Some p) /\
    (forall k op, operations !! k = Some op ->
       op = _operation_struct "" "" (Some []) false \/
       exists p, plugins !! op_plugin op = Some p /\
                 node_plugins' !! op_plugin op = Some p).
Proof.
  intros url_exists consts msg interfaces plugins node_plugins error_code
         resource_base operations node_plugins' H.
  unfold _process_context_operations in H.
  apply bind_ok in H as (st & Hfold & H). injection H as <- <-.
  apply context_operations_fold in Hfold as (descs & Hdescs & ->).
  apply interface_descriptors_bound in Hdescs.
  destruct (described_step_plugins plugins node_plugins descs (∅, node_plugins) Hdescs)
    as (Hkeep & Hfrom & Hops); simpl; auto.
  - intros k op Hk. rewrite lookup_empty in Hk. discriminate.
  - split; [exact Hkeep|]. split; [exact Hfrom|].
    intros k op Hk. rewrite lookup_omap in Hk.
    destruct ((fold_left described_step descs (∅, node_plugins)).1 !! k) as [[op'|]|] eqn:E;
      simpl in Hk; try discriminate.
    injection Hk as <-. eapply Hops. exact E.
Qed.

Lemma context_operations_record_declared_plugins_witness :
  exists operations node_plugins',
    _process_context_operations no_url example_consts "in node web of type vm"
      lifecycle_interfaces plugins_a_ab ∅ 10 None = Ok (operations, node_plugins') /\
    (forall name, is_Some ((∅ : gmap string plugin) !! name) ->
       is_Some (node_plugins' !! name)) /\
    (forall name p, node_plugins' !! name = Some p ->
       (∅ : gmap string plugin) !! name = Some p \/ plugins_a_ab !! name = Some p) /\
    (forall k op, operations !! k = Some op ->
       op = _operation_struct "" "" (Some []) false \/
       exists p, plugins_a_ab !! op_plugin op = Some p /\
                 node_plugins' !! op_plugin op = Some p).
Proof.
  destruct (_process_context_operations no_url example_consts "in node web of type vm"
              lifecycle_interfaces plugins_a_ab ∅ 10 None)
    as [[operations node_plugins']|e] eqn:Hrun; [|vm_compute in Hrun; discriminate].
  exists operations, node_plugins'. split; [reflexivity|].
  apply (context_operations_record_declared_plugins no_url example_consts
           "in node web of type vm" lifecycle_interfaces plugins_a_ab ∅ 10 None
           operations node_plugins').
  exact Hrun.
Defined.

(** ** Implementations *)

(** The candidates when every test returns. *)
Lemma filterM_total {A} (f : A -> result bool) (l : list A) :
  (forall x, x ∈ l -> exists b, f x = Ok b) ->
  exists l', filterM f l = Ok l' /\ forall x, x ∈ l' <-> x ∈ l /\ f x = Ok true.
Proof.
  induction l as [|y l IH]; intros Hall; simpl.
  - exists []. split; [reflexivity|]. intros x. rewrite elem_of_nil. tauto.
  - destruct (Hall y) as [b Hb]; [apply elem_of_cons; auto|].
    destruct IH as (l' & -> & Hl'); [intros x Hx; apply Hall, elem_of_cons; auto|].
    rewrite Hb. simpl. eexists. split; [reflexivity|].
    intros x. destruct b.
    + rewrite !elem_of_cons, Hl'. split.
      * intros [->|[? ?]]; auto.
      * intros [[->|?] ?]; auto.
    + rewrite elem_of_cons, Hl'. split.
      * intros [? ?]; auto.
      * intros [[->|?] ?]; [congruence | auto].
Qed.

(** What [_get_implementation] returns when it returns an implementation. *)
Lemma get_implementation_found limit msg type_name implementations category types
    err_code_ambig err_code_derive candidate_func impl implementations' :
  _get_implementation limit msg type_name implementations category types
    err_code_ambig err_code_derive candidate_func = (Ok (Some impl), implementations') ->
  exists impl_name,
    implementations !! impl_name = Some impl /\
    candidate_func impl = Ok true /\
    _is_derived_from limit (impl_type impl) types type_name = Ok true.
Proof.
  unfold _get_implementation. intros H.
  destruct (filterM _ (map_to_list implementations)) as [candidates|e] eqn:Hf;
    [|discriminate].
  destruct candidates as [|[impl_name impl'] [|c2 rest]]; try discriminate.
  destruct (_is_derived_from limit (impl_type impl') types type_name) as [[|]|e] eqn:Hd;
    try discriminate.
  injection H as <- _.
  destruct (filterM_ok_elem _ _ _ (impl_name, impl') Hf) as [Hin Hc];
    [apply elem_of_cons; auto|].
  apply elem_of_map_to_list in Hin. eauto.
Qed.

(** X9: an implementation only narrows a type.  The type that the lookup of
    a type implementation returns is the declared type itself, with no
    properties, or the type of an implementation that refers to this node,
    and that type derives from the declared type; the same holds for a
    relationship implementation, which refers to the source and the target
    node. *)
Theorem implementation_type_derives_from_declared :
  forall recursion_limit types,
    (forall node_name node_type_name type_implementations found properties rest,
       _get_type_implementation_if_exists recursion_limit node_name node_type_name
         type_implementations types = (Ok (found, properties), rest) ->
       (found = node_type_name /\ properties = []) \/
       (_is_derived_from recursion_limit found types node_type_name = Ok true /\
        exists impl_name impl,
          type_implementations !! impl_name = Some impl /\
          impl_type impl = found /\ impl_node_ref impl = Some node_name)) /\
    (forall source_node_name target_node_name relationship_impls relationship_type
            found properties rest,
       _get_relationship_implementation_if_exists recursion_limit source_node_name
         target_node_name relationship_impls relationship_type types
       = (Ok (found, properties), rest) ->
       (found = relationship_type /\ properties = []) \/
       (_is_derived_from recursion_limit found types relationship_type = Ok true /\
        exists impl_name impl,
          relationship_impls !! impl_name = Some impl /\
          impl_type impl = found /\
          impl_source_node_ref impl = Some source_node_name /\
          impl_target_node_ref impl = Some target_node_name)).
Proof.
  intros limit types. split.
  - intros node_name node_type_name impls found properties rest H.
    unfold _get_type_implementation_if_exists in H.
    match type of H with context [_get_implementation ?l ?m ?t ?i ?c ?ty ?a ?d ?f] =>
      destruct (_get_implementation l m t i c ty a d f) as [[[impl|]|e] impls'] eqn:Hg
    end; simpl in H; try discriminate.
    + injection H as <- _ _. right.
      apply get_implementation_found in Hg as (impl_name & Hin & Hc & Hd).
      split; [exact Hd|]. exists impl_name, impl. split; [exact Hin|].
      split; [reflexivity|].
      destruct (impl_node_ref impl) as [r|]; simpl in Hc; [|discriminate].
      injection Hc as Hc. apply bool_decide_eq_true in Hc. congruence.
    + injection H as <- <- _. left. auto.
  - intros source target impls relationship_type found properties rest H.
    unfold _get_relationship_implementation_if_exists in H.
    match type of H with context [_get_implementation ?l ?m ?t ?i ?c ?ty ?a ?d ?f] =>
      destruct (_get_implementation l m t i c ty a d f) as [[[impl|]|e] impls'] eqn:Hg
    end; simpl in H; try discriminate.
    + injection H as <- _ _. right.
      apply get_implementation_found in Hg as (impl_name & Hin & Hc & Hd).
      split; [exact Hd|]. exists impl_name, impl. split; [exact Hin|].
      split; [reflexivity|].
      destruct (impl_source_node_ref impl) as [s|]; simpl in Hc; [|discriminate].
      destruct (bool_decide (s = source)) eqn:Hs; [|discriminate].
      apply bool_decide_eq_true in Hs.
      destruct (impl_target_node_ref impl) as [t|]; simpl in Hc; [|discriminate].
      destruct (bool_decide (t = target)) eqn:Ht; [|discriminate].
      apply bool_decide_eq_true in Ht. split; congruence.
    + injection H as <- <- _. left. auto.
Qed.

Lemma implementation_type_derives_from_declared_witness :
  ("vm" = HOST_TYPE /\ ([] : items yaml) = []) \/
  (_is_derived_from 10 "vm" example_types HOST_TYPE = Ok true /\
   exists impl_name impl,
     one_implementation_of_web !! impl_name = Some impl /\
     impl_type impl = "vm" /\ impl_node_ref impl = Some "web").
Proof.
  apply (proj1 (implementation_type_derives_from_declared 10 example_types)
           "web" HOST_TYPE one_implementation_of_web "vm" [] ∅).
  vm_compute. reflexivity.
Defined.

(** X10: two type implementations that refer to the same node are an
    ambiguity, code 103, whatever their types are: no type is looked up, the
    candidates are listed in the exception and the implementations are left
    as they were. *)
Theorem ambiguous_type_implementation_raises_103 :
  forall recursion_limit node_name node_type_name type_implementations types
         name1 name2 impl1 impl2,
    (forall name impl, type_implementations !! name = Some impl ->
       is_Some (impl_node_ref impl)) ->
    type_implementations !! name1 = Some impl1 ->
    type_implementations !! name2 = Some impl2 ->
    name1 <> name2 ->
    impl_node_ref impl1 = Some node_name ->
    impl_node_ref impl2 = Some node_name ->
    exists candidates,
      _get_type_implementation_if_exists recursion_limit node_name node_type_name
        type_implementations types
      = (Raise (DSLParsingLogicException 103 ("node" :: node_name :: candidates)),
         type_implementations) /\
      name1 ∈ candidates /\ name2 ∈ candidates.
Proof.
  intros limit node_name node_type_name impls types name1 name2 impl1 impl2
         Hrefs H1 H2 Hne Hr1 Hr2.
  unfold _get_type_implementation_if_exists, _get_implementation.
  match goal with |- context [filterM ?f ?l] =>
    destruct (filterM_total f l) as (candidates & Hf & Hc)
  end.
  { intros [name impl] Hin. apply elem_of_map_to_list in Hin.
    destruct (Hrefs _ _ Hin) as [r Hr]. rewrite Hr. simpl. eauto. }
  rewrite Hf.
  assert (Hin1 : (name1, impl1) ∈ candidates).
  { apply Hc. split; [apply elem_of_map_to_list; exact H1|].
    rewrite Hr1. simpl. rewrite bool_decide_eq_true_2; reflexivity. }
  assert (Hin2 : (name2, impl2) ∈ candidates).
  { apply Hc. split; [apply elem_of_map_to_list; exact H2|].
    rewrite Hr2. simpl. rewrite bool_decide_eq_true_2; reflexivity. }
  destruct candidates as [|[n1 i1] [|c2 rest]].
  - apply elem_of_nil in Hin1. contradiction.
  - apply list_elem_of_singleton in Hin1. apply list_elem_of_singleton in Hin2. congruence.
  - exists (keys ((n1, i1) :: c2 :: rest)). split; [reflexivity|].
    split; [change name1 with (name1, impl1).1 | change name2 with (name2, impl2).1];
      apply (list_elem_of_fmap_2 fst); assumption.
Qed.

Lemma ambiguous_type_implementation_raises_103_witness :
  exists candidates,
    _get_type_implementation_if_exists 10 "web" "vm" two_implementations_of_web
      example_types
    = (Raise (DSLParsingLogicException 103 ("node" :: "web" :: candidates)),
       two_implementations_of_web) /\
    "impl1" ∈ candidates /\ "impl2" ∈ candidates.
Proof.
  apply (ambiguous_type_implementation_raises_103 10 "web" "vm"
           two_implementations_of_web example_types "impl1" "impl2"
           (type_implementation_of "web" "undeclared")
           (type_implementation_of "web" "vm")); try reflexivity.
  - intros name impl H. unfold two_implementations_of_web in H.
    rewrite lookup_insert in H. destruct (decide ("impl1" = name));
      [injection H as <-; eauto|].
    rewrite lookup_insert in H. destruct (decide ("impl2" = name));
      [injection H as <-; eauto|].
    rewrite lookup_empty in H. discriminate.
  - discriminate.
Defined.

(** ** The whole of the post-processing *)

Lemma same_on_refl {A} (f : node -> A) store : same_on f store store.
Proof. intros k. reflexivity. Qed.

Lemma same_on_trans {A} (f : node -> A) s1 s2 s3 :
  same_on f s1 s2 -> same_on f s2 s3 -> same_on f s1 s3.
Proof. intros H12 H23 k. rewrite H23. apply H12. Qed.

Lemma same_on_insert {A} (f : node -> A) store k n n' :
  store !! k = Some n -> f n' = f n -> same_on f store (<[k := n']> store).
Proof.
  intros Hk Hn k'. rewrite lookup_insert. destruct (decide (k = k')) as [<-|_]; [|reflexivity].
  rewrite Hk. simpl. rewrite Hn. reflexivity.
Qed.

Lemma same_on_weaken {A B} (f : node -> A) (g : node -> B) store store' :
  (forall n n', f n = f n' -> g n = g n') ->
  same_on f store store' -> same_on g store store'.
Proof.
  intros Hfg H k. specialize (H k).
  destruct (store !! k) as [n|], (store' !! k) as [n'|]; try discriminate;
    [|reflexivity].
  simpl in *. f_equal. apply Hfg. congruence.
Qed.

Lemma same_on_forth {A} (f : node -> A) store store' k n :
  same_on f store store' -> store !! k = Some n ->
  exists n', store' !! k = Some n' /\ f n' = f n.
Proof.
  intros H Hk. specialize (H k). rewrite Hk in H.
  destruct (store' !! k) as [n'|]; [|discriminate].
  exists n'. split; [reflexivity|]. simpl in H. congruence.
Qed.

Lemma same_on_back {A} (f : node -> A) store store' k n' :
  same_on f store store' -> store' !! k = Some n' ->
  exists n, store !! k = Some n /\ f n' = f n.
Proof.
  intros H Hk. specialize (H k). rewrite Hk in H.
  destruct (store !! k) as [n|]; [|discriminate].
  exists n. split; [reflexivity|]. simpl in H. congruence.
Qed.

(** The stages of [_post_process_nodes]. *)
Lemma post_process_nodes_stages recursion_limit url_exists consts processed_nodes types
    relationships plugins type_impls relationship_impls resource_base nodes' :
  _post_process_nodes recursion_limit url_exists consts processed_nodes types
    relationships plugins type_impls relationship_impls resource_base = Ok nodes' ->
  let ids := node_id <$> processed_nodes in
  exists dep cin con store1 host_types store2 store3 store4,
    _build_family_descendants_set recursion_limit relationships CONTAINED_IN_REL_TYPE
    = Ok cin /\
    post_process_relationships_pass recursion_limit url_exists consts ids
      (node_name_to_node_of processed_nodes) types relationships plugins cin con dep
      resource_base = Ok store1 /\
    _build_family_descendants_set recursion_limit types HOST_TYPE = Ok host_types /\
    host_id_pass recursion_limit ids store1 host_types cin = Ok store2 /\
    plugins_to_install_pass consts ids store2 host_types = Ok store3 /\
    deployment_plugins_pass consts ids store3 = Ok store4 /\
    mapM (dict_get store4) ids = Ok nodes' /\
    _validate_agent_plugins_on_host_nodes consts nodes' = Ok tt /\
    _validate_type_impls type_impls = Ok tt /\
    _validate_relationship_impls relationship_impls = Ok tt.
Proof.
  intros H ids. unfold _post_process_nodes in H. fold ids in H.
  apply bind_ok in H as (dep & _ & H).
  apply bind_ok in H as (cin & Hcin & H).
  apply bind_ok in H as (con & _ & H).
  apply bind_ok in H as (store1 & Hpass1 & H).
  apply bind_ok in H as (host_types & Hhosts & H).
  apply bind_ok in H as (store2 & Hpass2 & H).
  apply bind_ok in H as (store3 & Hpass3 & H).
  apply bind_ok in H as (store4 & Hpass4 & H).
  apply bind_ok in H as (final & Hfinal & H).
  apply bind_ok in H as ([] & Hv1 & H).
  apply bind_ok in H as ([] & Hv2 & H).
  apply bind_ok in H as ([] & Hv3 & H).
  injection H as <-.
  exists dep, cin, con, store1, host_types, store2, store3, store4. auto 12.
Qed.

(** X11: implementations that no node used are rejected.  Post-processing
    returns only when no type implementation and no relationship
    implementation is left. *)
Theorem post_process_rejects_unused_implementations :
  forall recursion_limit url_exists consts processed_nodes types relationships plugins
         type_impls relationship_impls resource_base nodes',
    _post_process_nodes recursion_limit url_exists consts processed_nodes types
      relationships plugins type_impls relationship_impls resource_base = Ok nodes' ->
    type_impls = ∅ /\ relationship_impls = ∅.
Proof.
  intros limit url_exists consts processed_nodes types relationships plugins
         type_impls relationship_impls resource_base nodes' H.
  apply post_process_nodes_stages in H
    as (? & ? & ? & ? & ? & ? & ? & ? & _ & _ & _ & _ & _ & _ & _ & _ & Hv2 & Hv3).
  split.
  - unfold _validate_type_impls in Hv2.
    destruct (map_to_list type_impls) as [|[name impl] rest] eqn:E.
    + apply map_to_list_empty_iff. exact E.
    + destruct (field "node_ref" (impl_node_ref impl)); discriminate.
  - unfold _validate_relationship_impls in Hv3.
    destruct (map_to_list relationship_impls) as [|[name impl] rest] eqn:E.
    + apply map_to_list_empty_iff. exact E.
    + destruct (field "source_node_ref" (impl_source_node_ref impl)); [|discriminate].
      simpl in Hv3.
      destruct (field "target_node_ref" (impl_target_node_ref impl)); discriminate.
Qed.

Lemma post_process_rejects_unused_implementations_witness :
  is_ok (_post_process_nodes 10 no_url example_consts app_on_vm scenario_types
           example_relationships ∅ ∅ ∅ None) = true /\
  (∅ : gmap string implementation) = ∅ /\ (∅ : gmap string implementation) = ∅.
Proof.
  destruct (_post_process_nodes 10 no_url example_consts app_on_vm scenario_types
              example_relationships ∅ ∅ ∅ None) as [nodes'|e] eqn:Hrun;
    [|vm_compute in Hrun; discriminate].
  split; [reflexivity|].
  apply (post_process_rejects_unused_implementations 10 no_url example_consts
           app_on_vm scenario_types example_relationships ∅ ∅ ∅ None nodes').
  exact Hrun.
Defined.

(** Post-processing the relationships of one node rewrites plugins and
    relationships only. *)
Lemma post_process_node_relationships_keeps recursion_limit url_exists consts
    processed_node store plugins cin con dep relationships resource_base store' :
  _post_process_node_relationships recursion_limit url_exists consts processed_node
    store plugins cin con dep relationships resource_base = Ok store' ->
  same_on node_but_plugins_relationships store store'.
Proof.
  unfold _post_process_node_relationships. intros H.
  apply bind_ok in H as (n & Hn & H). apply dict_get_ok in Hn.
  destruct (node_relationships n) as [rels|] eqn:Hrels.
  - apply bind_ok in H as ([[store1 done] contained] & Hloop & H).
    apply post_process_relationship_loop in Hloop as (Hsame & _).
    apply bind_ok in H as (n1 & Hn1 & H). apply dict_get_ok in Hn1.
    destruct (decide _); [discriminate|]. injection H as <-.
    eapply same_on_trans.
    + eapply (same_on_weaken (fun n => set_node_plugins n ∅)); [|exact Hsame].
      intros a b E. injection E as E1 E2 E3 E4 E5 E6 E7 E8.
      unfold node_but_plugins_relationships. congruence.
    + apply (same_on_insert _ _ _ n1); [exact Hn1 | reflexivity].
  - injection H as <-. apply same_on_refl.
Qed.

(** Every relationship that the loop over the relationships of a node has
    done bears the hierarchy of its type. *)
Lemma post_process_relationship_hierarchy recursion_limit url_exists consts
    processed_node plugins cin con dep relationships resource_base rels store done
    contained store' done' contained' :
  foldM (post_process_relationship recursion_limit url_exists consts processed_node
           plugins cin con dep relationships resource_base)
        rels (store, done, contained) = Ok (store', done', contained') ->
  Forall (fun rel => exists h, rel_type_hierarchy rel = Some h /\
            _create_type_hierarchy recursion_limit (rel_type rel) relationships = Ok h)
         done ->
  Forall (fun rel => exists h, rel_type_hierarchy rel = Some h /\
            _create_type_hierarchy recursion_limit (rel_type rel) relationships = Ok h)
         done'.
Proof.
  revert store done contained.
  induction rels as [|rel rels IH]; intros store done contained H Hdone; simpl in H.
  - injection H as _ <- _. exact Hdone.
  - apply bind_ok in H as ([[store1 done1] contained1] & Hstep & H).
    eapply IH; [exact H|].
    unfold post_process_relationship in Hstep.
    apply bind_ok in Hstep as (target_id & _ & Hstep).
    apply bind_ok in Hstep as (target_node & _ & Hstep).
    apply bind_ok in Hstep as ([rel1 s1] & _ & Hstep).
    apply bind_ok in Hstep as ([rel2 s2] & _ & Hstep).
    rewrite add_base_type_spec in Hstep.
    apply bind_ok in Hstep as (h & Hh & Hstep).
    injection Hstep as _ <- _.
    apply Forall_app. split; [exact Hdone|].
    constructor; [|constructor]. exists h. split; [reflexivity | exact Hh].
Qed.

(** Post-processing the relationships of one node rewrites the
    relationships of that node only, and leaves each of them with the
    hierarchy of its type. *)
Lemma post_process_node_relationships_hierarchy recursion_limit url_exists consts
    processed_node store plugins cin con dep relationships resource_base store' :
  _post_process_node_relationships recursion_limit url_exists consts processed_node
    store plugins cin con dep relationships resource_base = Ok store' ->
  (forall k, k <> processed_node ->
     node_relationships <$> store' !! k = node_relationships <$> store !! k) /\
  forall n rels rel,
    store' !! processed_node = Some n -> node_relationships n = Some rels ->
    rel ∈ rels ->
    exists h, rel_type_hierarchy rel = Some h /\
              _create_type_hierarchy recursion_limit (rel_type rel) relationships = Ok h.
Proof.
  unfold _post_process_node_relationships. intros H.
  apply bind_ok in H as (n & Hn & H). apply dict_get_ok in Hn.
  destruct (node_relationships n) as [rels|] eqn:Hrels.
  - apply bind_ok in H as ([[store1 done] contained] & Hloop & H).
    pose proof (post_process_relationship_hierarchy _ _ _ _ _ _ _ _ _ _ _ _ _ _ _ _
                  _ Hloop (Forall_nil_2 _)) as Hdone.
    apply post_process_relationship_loop in Hloop as (Hsame & _).
    apply bind_ok in H as (n1 & Hn1 & H). apply dict_get_ok in Hn1.
    destruct (decide _); [discriminate|]. injection H as <-.
    split.
    + intros k Hk. rewrite lookup_insert_ne by congruence.
      specialize (Hsame k).
      destruct (store !! k) as [a|], (store1 !! k) as [b|]; try discriminate;
        [|reflexivity].
      injection Hsame as _ _ _ E _ _ _ _. simpl. congruence.
    + intros n' rels' rel. rewrite lookup_insert_eq. intros [= <-]. simpl.
      intros [= <-] Hin. rewrite Forall_forall in Hdone. apply Hdone. exact Hin.
  - injection H as <-. split; [reflexivity|].
    intros n' rels' rel Hn' Hrels'. congruence.
Qed.

(** The first loop keeps the frame of every node, and gives every node it
    meets the hierarchy of its type and of the types of its relationships. *)
Lemma post_process_relationships_pass_keeps recursion_limit url_exists consts ids store
    types relationships plugins cin con dep resource_base store' :
  post_process_relationships_pass recursion_limit url_exists consts ids store types
    relationships plugins cin con dep resource_base = Ok store' ->
  same_on node_frame store store' /\
  forall id n, id ∈ ids -> store' !! id = Some n ->
    hierarchies_set recursion_limit types relationships n.
Proof.
  unfold post_process_relationships_pass.
  assert (Hgen : forall done s,
            (forall id n, id ∈ done -> s !! id = Some n ->
               hierarchies_set recursion_limit types relationships n) ->
            foldM (fun node_name_to_node id =>
                     let* node_name_to_node :=
                       _post_process_node_relationships recursion_limit url_exists consts
                         id node_name_to_node plugins cin con dep relationships
                         resource_base in
                     let* n := dict_get node_name_to_node id in
                     let* h := _create_type_hierarchy recursion_limit (node_type n) types in
                     Ok (<[id := set_node_type_hierarchy n h]> node_name_to_node))
                  ids s = Ok store' ->
            same_on node_frame s store' /\
            forall id n, id ∈ done ++ ids -> store' !! id = Some n ->
              hierarchies_set recursion_limit types relationships n).
  { induction ids as [|id ids IH]; intros done s Hdone H; simpl in H.
    - injection H as <-. split; [apply same_on_refl|]. rewrite app_nil_r. exact Hdone.
    - apply bind_ok in H as (store2 & Hstep & H).
      apply bind_ok in Hstep as (store1 & Hnode & Hstep).
      apply bind_ok in Hstep as (n1 & Hn1 & Hstep). apply dict_get_ok in Hn1.
      apply bind_ok in Hstep as (h & Hh & Hstep). injection Hstep as <-.
      pose proof (post_process_node_relationships_hierarchy _ _ _ _ _ _ _ _ _ _ _ _
                    Hnode) as [Hothers Hrels].
      apply post_process_node_relationships_keeps in Hnode.
      assert (Hdone' : forall id' n, id' ∈ done ++ [id] ->
                <[id := set_node_type_hierarchy n1 h]> store1 !! id' = Some n ->
                hierarchies_set recursion_limit types relationships n).
      { intros id' n Hid'. rewrite lookup_insert.
        destruct (decide (id = id')) as [<-|Hne].
        - intros [= <-]. split; [exists h; auto|].
          simpl. intros rels rel. apply Hrels. exact Hn1.
        - intros Hn. apply elem_of_app in Hid' as [Hid'|Hid'];
            [|apply list_elem_of_singleton in Hid'; congruence].
          destruct (same_on_back _ _ _ _ _ Hnode Hn) as (n0 & Hn0 & E).
          destruct (Hdone id' n0 Hid' Hn0) as [(h0 & Hh0 & Hc) Hr0].
          injection E as _ _ Ety Eh _ _ _.
          assert (Er : node_relationships n = node_relationships n0).
          { specialize (Hothers id'). rewrite Hn, Hn0 in Hothers.
            simpl in Hothers. injection Hothers; [auto | congruence]. }
          split; [exists h0; rewrite Ety, Eh; auto|].
          rewrite Er. exact Hr0. }
      destruct (IH _ _ Hdone' H) as [Hsame Hall].
      split.
      + eapply same_on_trans; [|exact Hsame].
        eapply same_on_trans.
        * eapply (same_on_weaken node_but_plugins_relationships); [|exact Hnode].
          intros a b E. injection E as E1 E2 E3 E4 E5 E6 E7.
          unfold node_frame. congruence.
        * apply (same_on_insert _ _ _ n1); [exact Hn1 | reflexivity].
      + intros id' n Hid'. apply Hall. rewrite <- app_assoc. exact Hid'. }
  intros H. apply (Hgen [] store); [|exact H].
  intros id n Hid. apply elem_of_nil in Hid. contradiction.
Qed.

(** The second loop writes host ids only. *)
Lemma host_id_pass_keeps recursion_limit ids store host_types cin store' :
  host_id_pass recursion_limit ids store host_types cin = Ok store' ->
  same_on clear_node_host_id store store'.
Proof.
  unfold host_id_pass.
  apply foldM_preserves; [apply same_on_refl | apply same_on_trans|].
  intros s id s' H.
  apply bind_ok in H as (n & Hn & H). apply dict_get_ok in Hn.
  apply bind_ok in H as (h & _ & H).
  destruct h as [h|]; [|injection H as <-; apply same_on_refl].
  destruct (bool_decide (h = "")); injection H as <-; [apply same_on_refl|].
  apply (same_on_insert _ _ _ n); [exact Hn | reflexivity].
Qed.

(** The third loop writes the plugins to install only. *)
Lemma plugins_to_install_pass_keeps consts ids store host_types store' :
  plugins_to_install_pass consts ids store host_types = Ok store' ->
  same_on (fun n => (node_but_installs n, node_deployment_plugins_to_install n))
    store store'.
Proof.
  unfold plugins_to_install_pass. generalize ids at 1. intros all_ids.
  apply foldM_preserves; [apply same_on_refl | apply same_on_trans|].
  intros s id s' H.
  apply bind_ok in H as (n & Hn & H). apply dict_get_ok in Hn.
  destruct (bool_decide (node_type n ∈ host_types)).
  - apply bind_ok in H as (l & _ & H). injection H as <-.
    apply (same_on_insert _ _ _ n); [exact Hn | reflexivity].
  - injection H as <-. apply same_on_refl.
Qed.

(** The fourth loop writes the deployment plugins to install only, and
    gives every node it meets its central deployment agent plugins. *)
Lemma deployment_plugins_pass_keeps consts ids store store' :
  deployment_plugins_pass consts ids store = Ok store' ->
  same_on node_but_deployment_plugins store store' /\
  forall id n, id ∈ ids -> store' !! id = Some n ->
    node_deployment_plugins_to_install n
    = Some (map_to_list
              (filter (fun kp => plugin_executor kp.2 = CENTRAL_DEPLOYMENT_AGENT consts)
                      (node_plugins n))).*2.
Proof.
  unfold deployment_plugins_pass.
  assert (Hgen : forall done s,
            (forall id n, id ∈ done -> s !! id = Some n ->
               node_deployment_plugins_to_install n
               = Some (map_to_list
                         (filter (fun kp => plugin_executor kp.2
                                            = CENTRAL_DEPLOYMENT_AGENT consts)
                                 (node_plugins n))).*2) ->
            foldM (fun node_name_to_node id =>
                     let* n := dict_get node_name_to_node id in
                     let deployment_plugins_to_install :=
                       filter (fun kp => plugin_executor kp.2
                                         = CENTRAL_DEPLOYMENT_AGENT consts)
                              (node_plugins n) in
                     Ok (<[id := set_node_deployment_plugins_to_install n
                                    (map_to_list deployment_plugins_to_install).*2]>
                           node_name_to_node))
                  ids s = Ok store' ->
            same_on node_but_deployment_plugins s store' /\
            forall id n, id ∈ done ++ ids -> store' !! id = Some n ->
              node_deployment_plugins_to_install n
              = Some (map_to_list
                        (filter (fun kp => plugin_executor kp.2
                                           = CENTRAL_DEPLOYMENT_AGENT consts)
                                (node_plugins n))).*2).
  { induction ids as [|id ids IH]; intros done s Hdone H; simpl in H.
    - injection H as <-. split; [apply same_on_refl|]. rewrite app_nil_r. exact Hdone.
    - apply bind_ok in H as (store1 & Hstep & H).
      apply bind_ok in Hstep as (n1 & Hn1 & Hstep). apply dict_get_ok in Hn1.
      injection Hstep as <-.
      assert (Hdone' : forall id' n, id' ∈ done ++ [id] ->
                <[id := set_node_deployment_plugins_to_install n1
                          (map_to_list
                             (filter (fun kp => plugin_executor kp.2
                                                = CENTRAL_DEPLOYMENT_AGENT consts)
                                     (node_plugins n1))).*2]> s !! id' = Some n ->
                node_deployment_plugins_to_install n
                = Some (map_to_list
                          (filter (fun kp => plugin_executor kp.2
                                             = CENTRAL_DEPLOYMENT_AGENT consts)
                                  (node_plugins n))).*2).
      { intros id' n Hid'. rewrite lookup_insert.
        destruct (decide (id = id')) as [<-|Hne].
        - intros [= <-]. reflexivity.
        - intros Hn. apply elem_of_app in Hid' as [Hid'|Hid'];
            [|apply list_elem_of_singleton in Hid'; congruence].
          eapply Hdone; eassumption. }
      destruct (IH _ _ Hdone' H) as [Hsame Hall].
      split.
      + eapply same_on_trans; [|exact Hsame].
        apply (same_on_insert _ _ _ n1); [exact Hn1 | reflexivity].
      + intros id' n Hid'. apply Hall. rewrite <- app_assoc. exact Hid'. }
  intros H. apply (Hgen [] store); [|exact H].
  intros id n Hid. apply elem_of_nil in Hid. contradiction.
Qed.

(** What the validation of the agent plugins has checked when it
    returns. *)
Lemma validate_agent_plugins_ok consts processed_nodes :
  _validate_agent_plugins_on_host_nodes consts processed_nodes = Ok tt ->
  forall n name p,
    n ∈ processed_nodes -> node_host_id n = None ->
    node_plugins n !! name = Some p ->
    plugin_executor p <> HOST_AGENT consts.
Proof.
  unfold _validate_agent_plugins_on_host_nodes.
  induction processed_nodes as [|m nodes IH]; intros H n name p Hn Hhost Hp.
  - apply elem_of_nil in Hn. contradiction.
  - simpl in H. apply bind_ok in H as ([] & Hm & H).
    apply elem_of_cons in Hn as [->|Hn]; [|eapply IH; eassumption].
    rewrite Hhost in Hm.
    assert (Hin : p ∈ (map_to_list (node_plugins m)).*2).
    { apply list_elem_of_fmap. exists (name, p). split; [reflexivity|].
      apply elem_of_map_to_list. exact Hp. }
    revert Hm Hin. generalize ((map_to_list (node_plugins m)).*2). clear.
    induction l as [|q l IH]; intros H Hin; [apply elem_of_nil in Hin; contradiction|].
    simpl in H. apply bind_ok in H as ([] & Hq & H).
    apply elem_of_cons in Hin as [->|Hin]; [|apply IH; assumption].
    destruct (bool_decide (plugin_executor q = HOST_AGENT consts)) eqn:E.
    + destruct (field "name" (plugin_name q)); discriminate.
    + apply bool_decide_eq_false in E. exact E.
Qed.

(** X12: a host agent plugin needs a host.  In every fully processed set
    of nodes, a node that lists a plugin whose executor is the host agent
    has a host id. *)
Theorem host_agent_plugins_need_a_host :
  forall recursion_limit url_exists consts processed_nodes types relationships plugins
         type_impls relationship_impls resource_base nodes',
    _post_process_nodes recursion_limit url_exists consts processed_nodes types
      relationships plugins type_impls relationship_impls resource_base = Ok nodes' ->
    forall n name p,
      n ∈ nodes' -> node_plugins n !! name = Some p ->
      plugin_executor p = HOST_AGENT consts ->
      is_Some (node_host_id n).
Proof.
  intros limit url_exists consts processed_nodes types relationships plugins
         type_impls relationship_impls resource_base nodes' H n name p Hn Hp He.
  apply post_process_nodes_stages in H
    as (? & ? & ? & ? & ? & ? & ? & ? & _ & _ & _ & _ & _ & _ & _ & Hv & _ & _).
  destruct (node_host_id n) as [h|] eqn:Hh; [eauto|].
  exfalso. eapply validate_agent_plugins_ok; eassumption.
Qed.

Lemma host_agent_plugins_need_a_host_witness :
  exists nodes',
    _post_process_nodes 10 no_url example_consts app_with_plugins_on_vm scenario_types
      example_relationships ∅ ∅ ∅ None = Ok nodes' /\
    forall n name p,
      n ∈ nodes' -> node_plugins n !! name = Some p ->
      plugin_executor p = HOST_AGENT example_consts ->
      is_Some (node_host_id n).
Proof.
  destruct (_post_process_nodes 10 no_url example_consts app_with_plugins_on_vm
              scenario_types example_relationships ∅ ∅ ∅ None) as [nodes'|e] eqn:Hrun;
    [|vm_compute in Hrun; discriminate].
  exists nodes'. split; [reflexivity|].
  apply (host_agent_plugins_need_a_host 10 no_url example_consts app_with_plugins_on_vm
           scenario_types example_relationships ∅ ∅ ∅ None nodes').
  exact Hrun.
Defined.

(** X13: every fully processed node lists its deployment plugins to
    install, and they are the plugins of the node whose executor is the
    central deployment agent. *)
Theorem deployment_plugins_of_processed_nodes :
  forall recursion_limit url_exists consts processed_nodes types relationships plugins
         type_impls relationship_impls resource_base nodes',
    _post_process_nodes recursion_limit url_exists consts processed_nodes types
      relationships plugins type_impls relationship_impls resource_base = Ok nodes' ->
    forall n, n ∈ nodes' ->
      exists l,
        node_deployment_plugins_to_install n = Some l /\
        forall p, p ∈ l <->
          exists name, node_plugins n !! name = Some p /\
                       plugin_executor p = CENTRAL_DEPLOYMENT_AGENT consts.
Proof.
  intros limit url_exists consts processed_nodes types relationships plugins
         type_impls relationship_impls resource_base nodes' H n Hn.
  apply post_process_nodes_stages in H
    as (? & ? & ? & ? & ? & ? & store3 & store4 & _ & _ & _ & _ & _ & H4 & Hfinal & _).
  apply deployment_plugins_pass_keeps in H4 as [_ H4].
  apply (mapM_dict_get_elem _ _ _ Hfinal) in Hn as (id & Hid & Hn).
  eexists. split; [eapply H4; eassumption|].
  intros p. rewrite list_elem_of_fmap. split.
  - intros ([name q] & -> & Hin). apply elem_of_map_to_list in Hin.
    apply map_lookup_filter_Some in Hin as [Hq He]. eauto.
  - intros (name & Hp & He). exists (name, p). split; [reflexivity|].
    apply elem_of_map_to_list. apply map_lookup_filter_Some. auto.
Qed.

Lemma deployment_plugins_of_processed_nodes_witness :
  exists nodes',
    _post_process_nodes 10 no_url example_consts app_with_plugins_on_vm scenario_types
      example_relationships ∅ ∅ ∅ None = Ok nodes' /\
    node_deployment_plugins_to_install <$> nodes'
    = [Some [deployment_plugin "manager"]; Some []] /\
    forall n, n ∈ nodes' ->
      exists l,
        node_deployment_plugins_to_install n = Some l /\
        forall p, p ∈ l <->
          exists name, node_plugins n !! name = Some p /\
                       plugin_executor p = CENTRAL_DEPLOYMENT_AGENT example_consts.
Proof.
  destruct (_post_process_nodes 10 no_url example_consts app_with_plugins_on_vm
              scenario_types example_relationships ∅ ∅ ∅ None) as [nodes'|e] eqn:Hrun;
    [|vm_compute in Hrun; discriminate].
  exists nodes'. split; [reflexivity|]. split.
  - assert (H : match _post_process_nodes 10 no_url example_consts
                        app_with_plugins_on_vm scenario_types example_relationships
                        ∅ ∅ ∅ None with
                | Ok l => node_deployment_plugins_to_install <$> l
                          = [Some [deployment_plugin "manager"]; Some []]
                | Raise _ => False
                end) by (vm_compute; reflexivity).
    rewrite Hrun in H. exact H.
  - apply (deployment_plugins_of_processed_nodes 10 no_url example_consts
             app_with_plugins_on_vm scenario_types example_relationships ∅ ∅ ∅ None
             nodes').
    exact Hrun.
Defined.

(** A hierarchy that is returned comes from a finite chain. *)
Lemma hierarchy_success_chain types depth t h :
  create_type_hierarchy_rec depth t types = Ok h ->
  exists n, n <= depth /\ derivation_chain types t n.
Proof.
  revert t h. induction depth as [|depth IH]; intros t h H; [discriminate|].
  simpl in H. apply bind_ok in H as (ty & Hty & H). apply dict_get_ok in Hty.
  destruct (derived_from ty) as [parent|] eqn:Hd.
  - apply bind_ok in H as (hp & Hp & _).
    destruct (IH _ _ Hp) as (n & Hle & Hc).
    exists (S n). split; [lia|]. eapply chain_step; eassumption.
  - exists 1. split; [lia|]. eapply chain_root; eassumption.
Qed.

Lemma derivation_chain_unique types t n m :
  derivation_chain types t n -> derivation_chain types t m -> n = m.
Proof.
  intros Hn. revert m. induction Hn as [t ty Ht Hd | t ty parent n Ht Hd Hc IH];
    intros m Hm; inversion Hm; subst; try congruence.
  f_equal. apply IH. congruence.
Qed.

(** The types of the hierarchy of a chain have shorter chains, so none
    occurs twice. *)
Lemma hierarchy_of_chain_NoDup types t n :
  derivation_chain types t n ->
  exists h,
    (forall depth, n <= depth -> create_type_hierarchy_rec depth t types = Ok h) /\
    (forall x, x ∈ h -> exists m, m <= n /\ derivation_chain types x m) /\
    NoDup h.
Proof.
  induction 1 as [t ty Ht Hd | t ty parent n Ht Hd Hc (h & Hrun & Hshort & Hnd)].
  - exists [t]. split; [|split].
    + intros [|depth] Hle; [lia|]. simpl.
      apply dict_get_ok in Ht. rewrite Ht. simpl. rewrite Hd. reflexivity.
    + intros x Hx. apply list_elem_of_singleton in Hx as ->.
      exists 1. split; [lia|]. eapply chain_root; eassumption.
    + apply NoDup_singleton.
  - exists (h ++ [t]). split; [|split].
    + intros [|depth] Hle; [lia|]. simpl.
      apply dict_get_ok in Ht. rewrite Ht. simpl. rewrite Hd.
      rewrite Hrun by lia. reflexivity.
    + intros x Hx. apply elem_of_app in Hx as [Hx|Hx].
      * destruct (Hshort x Hx) as (m & Hle & Hm). exists m. split; [lia | exact Hm].
      * apply list_elem_of_singleton in Hx as ->. exists (S n). split; [lia|].
        eapply chain_step; eassumption.
    + apply NoDup_app. split; [exact Hnd|]. split; [|apply NoDup_singleton].
      intros x Hx Hx'. apply list_elem_of_singleton in Hx' as ->.
      destruct (Hshort t Hx) as (m & Hle & Hm).
      assert (m = S n); [|lia].
      eapply derivation_chain_unique; [exact Hm|]. eapply chain_step; eassumption.
Qed.

(** X14: what a hierarchy is, whenever one is returned (the types map may
    hold cycles elsewhere).  The list ends in the queried type, starts at a
    type without [derived_from], each entry derives from the one before it,
    no type occurs twice, and the types in it are those that
    [_is_derived_from] finds the queried type to derive from. *)
Theorem hierarchy_lists_the_ancestors :
  forall recursion_limit type_name types h,
    _create_type_hierarchy recursion_limit type_name types = Ok h ->
    last h = Some type_name /\ root_first types None h /\ NoDup h /\
    forall derived,
      _is_derived_from recursion_limit type_name types derived
      = Ok (bool_decide (derived ∈ h)).
Proof.
  intros limit t types h H. unfold _create_type_hierarchy, _is_derived_from in *.
  destruct (hierarchy_success_chain _ _ _ _ H) as (n & Hle & Hc).
  destruct (hierarchy_of_chain _ _ _ Hc) as (h1 & _ & Hlast & Hrf & Hrun1).
  destruct (hierarchy_of_chain_NoDup _ _ _ Hc) as (h2 & Hrun2 & _ & Hnd).
  pose proof (Hrun1 limit Hle) as E1. pose proof (Hrun2 limit Hle) as E2.
  assert (h1 = h) as -> by congruence. assert (h2 = h) as -> by congruence.
  split; [exact Hlast|]. split; [exact Hrf|]. split; [exact Hnd|].
  intros derived. eapply is_derived_from_of_chain; eauto.
Qed.

Lemma hierarchy_lists_the_ancestors_witness :
  last ["cloudify.types.host"; "vm"; "db_vm"] = Some "db_vm" /\
  root_first layered_types None ["cloudify.types.host"; "vm"; "db_vm"] /\
  NoDup ["cloudify.types.host"; "vm"; "db_vm"] /\
  forall derived,
    _is_derived_from 10 "db_vm" layered_types derived
    = Ok (bool_decide (derived ∈ ["cloudify.types.host"; "vm"; "db_vm"])).
Proof.
  apply (hierarchy_lists_the_ancestors 10 "db_vm" layered_types
           ["cloudify.types.host"; "vm"; "db_vm"]).
  reflexivity.
Defined.

(** The last three loops keep the type, its hierarchy and the
    relationships of every node. *)
Lemma late_passes_keep recursion_limit consts ids store1 host_types cin store2 store3
    store4 :
  host_id_pass recursion_limit ids store1 host_types cin = Ok store2 ->
  plugins_to_install_pass consts ids store2 host_types = Ok store3 ->
  deployment_plugins_pass consts ids store3 = Ok store4 ->
  same_on (fun n => (node_id n, node_name n, node_type n, node_plugins n,
                     node_relationships n, node_type_hierarchy n)) store1 store4 /\
  same_on (fun n => (node_plugins_to_install n, node_deployment_plugins_to_install n))
    store1 store2 /\
  same_on node_host_id store2 store4 /\
  same_on node_plugins_to_install store3 store4.
Proof.
  intros H2 H3 H4.
  apply host_id_pass_keeps in H2. apply plugins_to_install_pass_keeps in H3.
  apply deployment_plugins_pass_keeps in H4 as [H4 _].
  split; [|split; [|split]].
  - eapply same_on_trans; [|eapply same_on_trans].
    + eapply (same_on_weaken clear_node_host_id); [|exact H2].
      intros a b E. injection E as E1 E2 E3 E4 E5 E6 E7 E8. congruence.
    + eapply same_on_weaken; [|exact H3].
      intros a b E. injection E as E1 E2 E3 E4 E5 E6 E7 E8. congruence.
    + eapply same_on_weaken; [|exact H4].
      intros a b E. injection E as E1 E2 E3 E4 E5 E6 E7 E8. congruence.
  - eapply (same_on_weaken clear_node_host_id); [|exact H2].
    intros a b E. injection E as E1 E2 E3 E4 E5 E6 E7 E8. congruence.
  - eapply same_on_trans.
    + eapply same_on_weaken; [|exact H3].
      intros a b E. injection E as E1 E2 E3 E4 E5 E6 E7 E8. exact E7.
    + eapply same_on_weaken; [|exact H4].
      intros a b E. injection E as E1 E2 E3 E4 E5 E6 E7 E8. exact E7.
  - eapply same_on_weaken; [|exact H4].
    intros a b E. injection E as E1 E2 E3 E4 E5 E6 E7 E8. exact E8.
Qed.

(** X15: every fully processed node bears the hierarchy of its type, and
    each of its relationships bears the hierarchy of the type of the
    relationship, as [_create_type_hierarchy] returns them. *)
Theorem type_hierarchies_of_processed_nodes :
  forall recursion_limit url_exists consts processed_nodes types relationships plugins
         type_impls relationship_impls resource_base nodes',
    _post_process_nodes recursion_limit url_exists consts processed_nodes types
      relationships plugins type_impls relationship_impls resource_base = Ok nodes' ->
    forall n, n ∈ nodes' ->
      (exists h, node_type_hierarchy n = Some h /\
                 _create_type_hierarchy recursion_limit (node_type n) types = Ok h) /\
      forall rels rel, node_relationships n = Some rels -> rel ∈ rels ->
        exists h, rel_type_hierarchy rel = Some h /\
                  _create_type_hierarchy recursion_limit (rel_type rel) relationships
                  = Ok h.
Proof.
  intros limit url_exists consts processed_nodes types relationships plugins
         type_impls relationship_impls resource_base nodes' H n Hn.
  apply post_process_nodes_stages in H
    as (dep & cin & con & store1 & host_types & store2 & store3 & store4 &
        _ & H1 & _ & H2 & H3 & H4 & Hfinal & _).
  apply post_process_relationships_pass_keeps in H1 as [_ H1].
  destruct (late_passes_keep _ _ _ _ _ _ _ _ _ H2 H3 H4) as (Hkeep & _).
  apply (mapM_dict_get_elem _ _ _ Hfinal) in Hn as (id & Hid & Hn).
  destruct (same_on_back _ _ _ _ _ Hkeep Hn) as (n1 & Hn1 & E).
  injection E as _ _ Ety _ Erels Eh.
  destruct (H1 id n1 Hid Hn1) as [Hh Hr].
  unfold hierarchies_set. rewrite Ety, Eh, Erels. split; assumption.
Qed.

Lemma type_hierarchies_of_processed_nodes_witness :
  exists nodes',
    _post_process_nodes 10 no_url example_consts app_on_vm scenario_types
      example_relationships ∅ ∅ ∅ None = Ok nodes' /\
    node_type_hierarchy <$> nodes' = [Some ["app"]; Some [HOST_TYPE; "vm"]] /\
    forall n, n ∈ nodes' ->
      (exists h, node_type_hierarchy n = Some h /\
                 _create_type_hierarchy 10 (node_type n) scenario_types = Ok h) /\
      forall rels rel, node_relationships n = Some rels -> rel ∈ rels ->
        exists h, rel_type_hierarchy rel = Some h /\
                  _create_type_hierarchy 10 (rel_type rel) example_relationships = Ok h.
Proof.
  destruct (_post_process_nodes 10 no_url example_consts app_on_vm scenario_types
              example_relationships ∅ ∅ ∅ None) as [nodes'|e] eqn:Hrun;
    [|vm_compute in Hrun; discriminate].
  exists nodes'. split; [reflexivity|]. split.
  - assert (H : match _post_process_nodes 10 no_url example_consts app_on_vm
                        scenario_types example_relationships ∅ ∅ ∅ None with
                | Ok l => node_type_hierarchy <$> l
                          = [Some ["app"]; Some [HOST_TYPE; "vm"]]
                | Raise _ => False
                end) by (vm_compute; reflexivity).
    rewrite Hrun in H. exact H.
  - apply (type_hierarchies_of_processed_nodes 10 no_url example_consts app_on_vm
             scenario_types example_relationships ∅ ∅ ∅ None nodes').
    exact Hrun.
Defined.

(** The store of the processed nodes holds each node under its id when
    the ids differ. *)
Lemma node_name_to_node_of_elem processed_nodes n :
  NoDup (node_id <$> processed_nodes) -> n ∈ processed_nodes ->
  node_name_to_node_of processed_nodes !! node_id n = Some n.
Proof.
  unfold node_name_to_node_of. generalize (∅ : gmap string node).
  induction processed_nodes as [|x l IH]; intros acc Hnd Hn.
  - apply elem_of_nil in Hn. contradiction.
  - rewrite fmap_cons in Hnd. apply NoDup_cons in Hnd as [Hx Hnd].
    simpl. apply elem_of_cons in Hn as [->|Hn]; [|apply IH; assumption].
    assert (Hkeep : forall (l : list node) (acc : gmap string node) k,
              k ∉ node_id <$> l ->
              fold_left (fun m n => <[node_id n := n]> m) l acc !! k = acc !! k).
    { clear. induction l as [|y l IH]; intros acc k Hk; [reflexivity|].
      rewrite fmap_cons in Hk. apply not_elem_of_cons in Hk as [Hne Hk].
      simpl. rewrite IH by exact Hk. apply lookup_insert_ne. congruence. }
    rewrite Hkeep by exact Hx. apply lookup_insert_eq.
Qed.

(** X16: post-processing keeps the nodes in their order, each with its id,
    its name and its type. *)
Theorem post_processing_keeps_the_nodes :
  forall recursion_limit url_exists consts processed_nodes types relationships plugins
         type_impls relationship_impls resource_base nodes',
    NoDup (node_id <$> processed_nodes) ->
    _post_process_nodes recursion_limit url_exists consts processed_nodes types
      relationships plugins type_impls relationship_impls resource_base = Ok nodes' ->
    Forall2 (fun n n' => node_id n' = node_id n /\ node_name n' = node_name n /\
                         node_type n' = node_type n)
            processed_nodes nodes'.
Proof.
  intros limit url_exists consts processed_nodes types relationships plugins
         type_impls relationship_impls resource_base nodes' Hnd H.
  apply post_process_nodes_stages in H
    as (dep & cin & con & store1 & host_types & store2 & store3 & store4 &
        _ & H1 & _ & H2 & H3 & H4 & Hfinal & _).
  apply post_process_relationships_pass_keeps in H1 as [H1 _].
  destruct (late_passes_keep _ _ _ _ _ _ _ _ _ H2 H3 H4) as (Hkeep & _).
  apply mapM_ok_Forall2 in Hfinal. apply Forall2_fmap_l in Hfinal.
  apply Forall2_same_length_lookup. split; [eapply Forall2_length; exact Hfinal|].
  intros i n n' Hi Hi'.
  pose proof (Forall2_lookup_lr _ _ _ _ _ _ Hfinal Hi Hi') as Hn'. simpl in Hn'.
  apply dict_get_ok in Hn'.
  destruct (same_on_back _ _ _ _ _ Hkeep Hn') as (n1 & Hn1 & E).
  destruct (same_on_back _ _ _ _ _ H1 Hn1) as (n0 & Hn0 & E0).
  rewrite (node_name_to_node_of_elem processed_nodes n Hnd) in Hn0
    by (eapply list_elem_of_lookup_2; exact Hi).
  injection Hn0 as <-.
  injection E as Eid Ename Ety _ _ _. injection E0 as Eid0 Ename0 Ety0 _ _ _.
  repeat split; congruence.
Qed.

Lemma post_processing_keeps_the_nodes_witness :
  exists nodes',
    _post_process_nodes 10 no_url example_consts app_on_vm scenario_types
      example_relationships ∅ ∅ ∅ None = Ok nodes' /\
    Forall2 (fun n n' => node_id n' = node_id n /\ node_name n' = node_name n /\
                         node_type n' = node_type n)
            app_on_vm nodes'.
Proof.
  destruct (_post_process_nodes 10 no_url example_consts app_on_vm scenario_types
              example_relationships ∅ ∅ ∅ None) as [nodes'|e] eqn:Hrun;
    [|vm_compute in Hrun; discriminate].
  exists nodes'. split; [reflexivity|].
  apply (post_processing_keeps_the_nodes 10 no_url example_consts app_on_vm
           scenario_types example_relationships ∅ ∅ ∅ None nodes').
  - compute_decision.
  - exact Hrun.
Defined.

(** The plugins that a host collects: one for each name under which a
    node it hosts lists a host agent plugin. *)
Lemma plugins_to_install_of_spec consts ids store host l :
  plugins_to_install_of consts ids store host = Ok l ->
  exists M : gmap string plugin,
    l = (map_to_list M).*2 /\
    (forall name p, M !! name = Some p ->
       plugin_executor p = HOST_AGENT consts /\
       exists id m, id ∈ ids /\ store !! id = Some m /\
                    node_host_id m = Some host /\ node_plugins m !! name = Some p) /\
    (forall id m name p,
       id ∈ ids -> store !! id = Some m -> node_host_id m = Some host ->
       node_plugins m !! name = Some p -> plugin_executor p = HOST_AGENT consts ->
       is_Some (M !! name)).
Proof.
  unfold plugins_to_install_of. intros H.
  apply bind_ok in H as (M & H & Hl). injection Hl as <-.
  exists M. split; [reflexivity|].
  assert (Hgen : forall done (M0 : gmap string plugin),
            (forall name p, M0 !! name = Some p ->
               plugin_executor p = HOST_AGENT consts /\
               exists id m, id ∈ done /\ store !! id = Some m /\
                            node_host_id m = Some host /\
                            node_plugins m !! name = Some p) ->
            (forall id m name p,
               id ∈ done -> store !! id = Some m -> node_host_id m = Some host ->
               node_plugins m !! name = Some p ->
               plugin_executor p = HOST_AGENT consts -> is_Some (M0 !! name)) ->
            foldM (fun (plugins_to_install : gmap string plugin) id =>
                     let* another_node := dict_get store id in
                     if bool_decide (node_host_id another_node = Some host) then
                       Ok (filter (fun kp => plugin_executor kp.2 = HOST_AGENT consts)
                                  (node_plugins another_node) ∪ plugins_to_install)
                     else Ok plugins_to_install)
                  ids M0 = Ok M ->
            (forall name p, M !! name = Some p ->
               plugin_executor p = HOST_AGENT consts /\
               exists id m, id ∈ done ++ ids /\ store !! id = Some m /\
                            node_host_id m = Some host /\
                            node_plugins m !! name = Some p) /\
            (forall id m name p,
               id ∈ done ++ ids -> store !! id = Some m -> node_host_id m = Some host ->
               node_plugins m !! name = Some p ->
               plugin_executor p = HOST_AGENT consts -> is_Some (M !! name))).
  { clear H. induction ids as [|id ids IH]; intros done M0 Hfrom Hcover H; simpl in H.
    - injection H as <-. rewrite app_nil_r. auto.
    - apply bind_ok in H as (M1 & Hstep & H).
      apply bind_ok in Hstep as (a & Ha & Hstep). apply dict_get_ok in Ha.
      replace (done ++ id :: ids) with ((done ++ [id]) ++ ids)
        by (rewrite <- app_assoc; reflexivity).
      apply (IH (done ++ [id]) M1); [| |exact H].
      + intros name p Hp.
        destruct (bool_decide (node_host_id a = Some host)) eqn:Hhost;
          injection Hstep as <-.
        * apply bool_decide_eq_true in Hhost.
          apply lookup_union_Some_raw in Hp as [Hp|[_ Hp]].
          -- apply map_lookup_filter_Some in Hp as [Hp He]. split; [exact He|].
             exists id, a. split; [|auto].
             apply elem_of_app. right. apply list_elem_of_singleton. reflexivity.
          -- destruct (Hfrom name p Hp) as (He & id' & m & Hid' & Hm).
             split; [exact He|]. exists id', m. split; [|exact Hm].
             apply elem_of_app. auto.
        * destruct (Hfrom name p Hp) as (He & id' & m & Hid' & Hm).
          split; [exact He|]. exists id', m. split; [|exact Hm].
          apply elem_of_app. auto.
      + intros id' m name p Hid' Hm Hhm Hp He.
        apply elem_of_app in Hid' as [Hid'|Hid'].
        * destruct (Hcover id' m name p Hid' Hm Hhm Hp He) as [q Hq].
          destruct (bool_decide (node_host_id a = Some host)); injection Hstep as <-;
            [|eauto].
          apply lookup_union_is_Some. right. eauto.
        * apply list_elem_of_singleton in Hid' as ->.
          rewrite Ha in Hm. injection Hm as <-.
          rewrite bool_decide_eq_true_2 in Hstep by exact Hhm. injection Hstep as <-.
          apply lookup_union_is_Some. left. exists p.
          apply map_lookup_filter_Some. auto. }
  apply (Hgen [] ∅) in H; [exact H| |].
  - intros name p Hp. rewrite lookup_empty in Hp. discriminate.
  - intros id m name p Hid. apply elem_of_nil in Hid. contradiction.
Qed.

(** The third loop: a node it meets has the plugins to install of a host
    when its type is a host type, and what it had otherwise. *)
Lemma plugins_to_install_pass_spec consts ids store host_types store' :
  plugins_to_install_pass consts ids store host_types = Ok store' ->
  forall id n', id ∈ ids -> store' !! id = Some n' ->
    exists n, store !! id = Some n /\
      if bool_decide (node_type n' ∈ host_types) then
        exists l, node_plugins_to_install n' = Some l /\
          exists s, same_on (fun n => (node_host_id n, node_plugins n)) store s /\
                    plugins_to_install_of consts ids s (node_id n') = Ok l
      else node_plugins_to_install n' = node_plugins_to_install n.
Proof.
  unfold plugins_to_install_pass. generalize ids at 1 4. intros all_ids.
  set (Q := fun (n n' : node) =>
         if bool_decide (node_type n' ∈ host_types) then
           exists l, node_plugins_to_install n' = Some l /\
             exists s, same_on (fun n => (node_host_id n, node_plugins n)) store s /\
                       plugins_to_install_of consts all_ids s (node_id n') = Ok l
         else node_plugins_to_install n' = node_plugins_to_install n).
  assert (Hgen : forall done s,
            same_on (fun n => (node_but_installs n, node_deployment_plugins_to_install n))
              store s ->
            (forall id n', id ∈ done -> s !! id = Some n' ->
               exists n, store !! id = Some n /\ Q n n') ->
            (forall id n', id ∉ done -> s !! id = Some n' -> store !! id = Some n') ->
            foldM (fun node_name_to_node id =>
                     let* n := dict_get node_name_to_node id in
                     if bool_decide (node_type n ∈ host_types) then
                       let* plugins_to_install :=
                         plugins_to_install_of consts all_ids node_name_to_node
                           (node_id n) in
                       Ok (<[id := set_node_plugins_to_install n plugins_to_install]>
                             node_name_to_node)
                     else Ok node_name_to_node)
                  ids s = Ok store' ->
            forall id n', id ∈ done ++ ids -> store' !! id = Some n' ->
              exists n, store !! id = Some n /\ Q n n').
  { induction ids as [|id ids IH]; intros done s Hsame Hdone Hrest H; simpl in H.
    - injection H as <-. rewrite app_nil_r. exact Hdone.
    - apply bind_ok in H as (s1 & Hstep & H).
      apply bind_ok in Hstep as (n1 & Hn1 & Hstep). apply dict_get_ok in Hn1.
      replace (done ++ id :: ids) with ((done ++ [id]) ++ ids)
        by (rewrite <- app_assoc; reflexivity).
      destruct (same_on_back _ _ _ _ _ Hsame Hn1) as (n0 & Hn0 & E0).
      assert (Hweak : same_on (fun n => (node_host_id n, node_plugins n)) store s).
      { eapply same_on_weaken; [|exact Hsame].
        intros a b E. injection E as E1 E2 E3 E4 E5 E6 E7 E8. congruence. }
      destruct (bool_decide (node_type n1 ∈ host_types)) eqn:Hhost.
      + apply bind_ok in Hstep as (l & Hl & Hstep). injection Hstep as <-.
        apply (IH (done ++ [id]) (<[id := set_node_plugins_to_install n1 l]> s));
          [| | |exact H].
        * eapply same_on_trans; [exact Hsame|].
          apply (same_on_insert _ _ _ n1); [exact Hn1 | reflexivity].
        * intros id' n' Hid'. rewrite lookup_insert.
          destruct (decide (id = id')) as [<-|Hne].
          -- intros [= <-]. exists n0. split; [exact Hn0|].
             unfold Q. simpl. rewrite Hhost. exists l. split; [reflexivity|].
             exists s. auto.
          -- intros Hn'. apply elem_of_app in Hid' as [Hid'|Hid'];
               [|apply list_elem_of_singleton in Hid'; congruence].
             eapply Hdone; eassumption.
        * intros id' n' Hid'. rewrite not_elem_of_app, list_elem_of_singleton in Hid'.
          destruct Hid' as [Hid' Hne]. rewrite lookup_insert_ne by congruence.
          apply Hrest. exact Hid'.
      + injection Hstep as <-.
        apply (IH (done ++ [id]) s); [exact Hsame| | |exact H].
        * intros id' n' Hid' Hn'. apply elem_of_app in Hid' as [Hid'|Hid'];
            [eapply Hdone; eassumption|].
          apply list_elem_of_singleton in Hid' as ->.
          rewrite Hn1 in Hn'. injection Hn' as <-.
          destruct (decide (id ∈ done)) as [Hin|Hout]; [eapply Hdone; eassumption|].
          exists n1. split; [apply Hrest; assumption|].
          unfold Q. rewrite Hhost. reflexivity.
        * intros id' n' Hid'. rewrite not_elem_of_app in Hid'. apply Hrest, Hid'. }
  intros H. apply (Hgen [] store); [apply same_on_refl| |auto|exact H].
  intros id n' Hid. apply elem_of_nil in Hid. contradiction.
Qed.

Lemma same_on_sym {A} (f : node -> A) store store' :
  same_on f store store' -> same_on f store' store.
Proof. intros H k. symmetry. apply H. Qed.

(** X17: a host installs the host agent plugins of the nodes it hosts.  In
    every fully processed set of nodes that had no plugins to install
    before, the nodes with plugins to install are those of a host type; the
    list holds one plugin for each name under which a node with this host id
    lists a host agent plugin, and each of them is such a plugin. *)
Theorem plugins_to_install_of_processed_nodes :
  forall recursion_limit url_exists consts processed_nodes types relationships plugins
         type_impls relationship_impls resource_base nodes',
    (forall n, n ∈ processed_nodes -> node_plugins_to_install n = None) ->
    _post_process_nodes recursion_limit url_exists consts processed_nodes types
      relationships plugins type_impls relationship_impls resource_base = Ok nodes' ->
    forall n, n ∈ nodes' ->
      (is_Some (node_plugins_to_install n) <->
       _is_derived_from recursion_limit (node_type n) types HOST_TYPE = Ok true) /\
      forall l, node_plugins_to_install n = Some l ->
        exists M : gmap string plugin,
          l = (map_to_list M).*2 /\
          (forall name p, M !! name = Some p ->
             plugin_executor p = HOST_AGENT consts /\
             exists m, m ∈ nodes' /\ node_host_id m = Some (node_id n) /\
                       node_plugins m !! name = Some p) /\
          (forall m name p,
             m ∈ nodes' -> node_host_id m = Some (node_id n) ->
             node_plugins m !! name = Some p ->
             plugin_executor p = HOST_AGENT consts ->
             is_Some (M !! name)).
Proof.
  intros limit url_exists consts processed_nodes types relationships plugins
         type_impls relationship_impls resource_base nodes' Hnone H n Hn.
  apply post_process_nodes_stages in H
    as (dep & cin & con & store1 & host_types & store2 & store3 & store4 &
        _ & H1 & Hhosts & H2 & H3 & H4 & Hfinal & _).
  pose proof (mapM_dict_get_elem _ _ _ Hfinal) as Hnodes.
  apply Hnodes in Hn as (id & Hid & Hn).
  apply post_process_relationships_pass_keeps in H1 as [Hframe Hhier].
  destruct (late_passes_keep _ _ _ _ _ _ _ _ _ H2 H3 H4) as (Hkeep & Hpti12 & _ & Hpti34).
  pose proof (plugins_to_install_pass_spec _ _ _ _ _ H3) as Hspec.
  pose proof (plugins_to_install_pass_keeps _ _ _ _ _ H3) as Hkeep3.
  pose proof (proj1 (deployment_plugins_pass_keeps _ _ _ _ H4)) as Hkeep4.
  assert (Hhp : same_on (fun n => (node_id n, node_type n, node_host_id n, node_plugins n))
                  store2 store4).
  { eapply same_on_trans.
    - eapply same_on_weaken; [|exact Hkeep3].
      intros a b E. injection E as E1 E2 E3 E4 E5 E6 E7 E8. congruence.
    - eapply same_on_weaken; [|exact Hkeep4].
      intros a b E. injection E as E1 E2 E3 E4 E5 E6 E7 E8. congruence. }
  destruct (same_on_back _ _ _ _ _ Hpti34 Hn) as (n3 & Hn3 & E34).
  destruct (Hspec id n3 Hid Hn3) as (n2 & Hn2 & HQ).
  destruct (same_on_forth _ _ _ _ _ Hhp Hn2) as (n4 & Hn4 & E24).
  rewrite Hn in Hn4. injection Hn4 as <-. injection E24 as Eid Ety Ehost Eplugins.
  destruct (same_on_back _ _ _ _ _ Hkeep3 Hn3) as (n2' & Hn2' & E23).
  rewrite Hn2 in Hn2'. injection Hn2' as <-. injection E23 as _ _ Ety3 _ _ _ _ _.
  destruct (same_on_back _ _ _ _ _ Hpti12 Hn2) as (n1 & Hn1 & E12).
  injection E12 as Epti12 _.
  destruct (same_on_back _ _ _ _ _ Hframe Hn1) as (n0 & Hn0 & E01).
  injection E01 as _ _ _ _ Epti01 _.
  apply node_name_to_node_of_lookup in Hn0 as [Hn0 _].
  assert (Hdeclared : is_Some (types !! node_type n)).
  { destruct (same_on_back _ _ _ _ _ Hkeep Hn) as (n1' & Hn1' & E14).
    rewrite Hn1 in Hn1'. injection Hn1' as <-. injection E14 as _ _ Ety14 _ _ _.
    destruct (Hhier id n1 Hid Hn1) as [(h & _ & Hh) _].
    rewrite Ety14. unfold _create_type_hierarchy in Hh.
    destruct limit as [|limit]; [discriminate|]. simpl in Hh.
    unfold dict_get in Hh. destruct (types !! node_type n1); [eauto | discriminate]. }
  assert (Hhost_iff : node_type n ∈ host_types <->
            _is_derived_from limit (node_type n) types HOST_TYPE = Ok true).
  { rewrite (build_family_descendants_set_spec _ _ _ _ Hhosts). tauto. }
  rewrite <- Hhost_iff. rewrite E34. rewrite Ety3 in HQ. rewrite <- Ety in HQ.
  destruct (bool_decide (node_type n ∈ host_types)) eqn:Hhost.
  - apply bool_decide_eq_true in Hhost.
    destruct HQ as (l & Hl & s & Hs & Hof).
    split; [rewrite Hl; split; [auto | eauto]|].
    intros l' Hl'. rewrite Hl in Hl'. injection Hl' as <-.
    apply plugins_to_install_of_spec in Hof as (M & -> & Hfrom & Hcover).
    assert (Hs4 : same_on (fun n => (node_host_id n, node_plugins n)) s store4).
    { eapply same_on_trans; [apply same_on_sym; exact Hs|].
      eapply same_on_weaken; [|exact Hhp].
      intros a b E. injection E as E1 E2 E3 E4. congruence. }
    assert (Eid3 : node_id n3 = node_id n).
    { destruct (same_on_back _ _ _ _ _ Hkeep4 Hn) as (n3' & Hn3' & E).
      rewrite Hn3 in Hn3'. injection Hn3' as <-.
      injection E as E _ _ _ _ _ _ _. congruence. }
    rewrite Eid3 in Hfrom, Hcover.
    exists M. split; [reflexivity|]. split.
    + intros name p Hp. destruct (Hfrom name p Hp) as (He & id' & m & Hid' & Hm & Hh & Hmp).
      split; [exact He|].
      destruct (same_on_forth _ _ _ _ _ Hs4 Hm) as (m4 & Hm4 & E).
      injection E as E1 E2. exists m4. split; [apply Hnodes; eauto|].
      split; congruence.
    + intros m name p Hm Hh Hmp He.
      apply Hnodes in Hm as (id' & Hid' & Hm).
      destruct (same_on_back _ _ _ _ _ Hs4 Hm) as (ms & Hms & E).
      injection E as E1 E2.
      apply (Hcover id' ms name p Hid' Hms); congruence.
  - apply bool_decide_eq_false in Hhost.
    assert (Enone : node_plugins_to_install n3 = None).
    { rewrite HQ, Epti12, Epti01. apply Hnone. exact Hn0. }
    rewrite Enone. split; [|discriminate].
    split; [intros [x Hx]; discriminate | contradiction].
Qed.

Lemma plugins_to_install_of_processed_nodes_witness :
  exists nodes',
    _post_process_nodes 10 no_url example_consts app_with_plugins_on_vm scenario_types
      example_relationships ∅ ∅ ∅ None = Ok nodes' /\
    node_plugins_to_install <$> nodes' = [None; Some [example_plugin "agent"]] /\
    forall n, n ∈ nodes' ->
      (is_Some (node_plugins_to_install n) <->
       _is_derived_from 10 (node_type n) scenario_types HOST_TYPE = Ok true) /\
      forall l, node_plugins_to_install n = Some l ->
        exists M : gmap string plugin,
          l = (map_to_list M).*2 /\
          (forall name p, M !! name = Some p ->
             plugin_executor p = HOST_AGENT example_consts /\
             exists m, m ∈ nodes' /\ node_host_id m = Some (node_id n) /\
                       node_plugins m !! name = Some p) /\
          (forall m name p,
             m ∈ nodes' -> node_host_id m = Some (node_id n) ->
             node_plugins m !! name = Some p ->
             plugin_executor p = HOST_AGENT example_consts ->
             is_Some (M !! name)).
Proof.
  destruct (_post_process_nodes 10 no_url example_consts app_with_plugins_on_vm
              scenario_types example_relationships ∅ ∅ ∅ None) as [nodes'|e] eqn:Hrun;
    [|vm_compute in Hrun; discriminate].
  exists nodes'. split; [reflexivity|]. split.
  - assert (H : match _post_process_nodes 10 no_url example_consts
                        app_with_plugins_on_vm scenario_types example_relationships
                        ∅ ∅ ∅ None with
                | Ok l => node_plugins_to_install <$> l
                          = [None; Some [example_plugin "agent"]]
                | Raise _ => False
                end) by (vm_compute; reflexivity).
    rewrite Hrun in H. exact H.
  - apply (plugins_to_install_of_processed_nodes 10 no_url example_consts
             app_with_plugins_on_vm scenario_types example_relationships ∅ ∅ ∅ None
             nodes').
    + intros n Hn. unfold app_with_plugins_on_vm in Hn. elem_cases Hn; subst; reflexivity.
    + exact Hrun.
Defined.

(** ** Plugins of the plan *)

(** X18: a processed plugin is complete.  When [_process_plugin] returns,
    the plugin bears the name it was declared under, its executor is the
    declared one and is the central deployment agent or the host agent, its
    install flag is set ([True] when none was declared), and a plugin to
    install has a source that is not empty. *)
Theorem processed_plugin_is_complete :
  forall consts executor_key source_key plugin name processed,
    _process_plugin consts executor_key source_key plugin name = Ok processed ->
    plugin_name processed = Some name /\
    plugin_executor processed = plugin_executor plugin /\
    (plugin_executor processed = CENTRAL_DEPLOYMENT_AGENT consts \/
     plugin_executor processed = HOST_AGENT consts) /\
    plugin_install processed = Some (default true (plugin_install plugin)) /\
    plugin_source processed = plugin_source plugin /\
    (plugin_install processed = Some true ->
     exists source, plugin_source processed = Some source /\ source <> "").
Proof.
  intros consts ek sk plugin name processed H.
  unfold _process_plugin in H.
  destruct (bool_decide (plugin_executor plugin ∈ _)) eqn:He; [|discriminate].
  apply bool_decide_eq_true in He. simpl in H.
  destruct (default true (plugin_install plugin) && _) eqn:Hi; [discriminate|].
  injection H as <-. simpl.
  split; [reflexivity|]. split; [reflexivity|]. split.
  { apply elem_of_cons in He as [He|He]; [auto|].
    apply list_elem_of_singleton in He. auto. }
  split; [reflexivity|]. split; [reflexivity|].
  intros [= Hinst]. rewrite Hinst in Hi. simpl in Hi.
  apply negb_false_iff in Hi. unfold truthy_string in Hi.
  destruct (plugin_source plugin) as [source|]; [|discriminate].
  exists source. split; [reflexivity|].
  apply negb_true_iff, bool_decide_eq_false in Hi. exact Hi.
Qed.

Lemma processed_plugin_is_complete_witness :
  exists processed,
    _process_plugin example_consts "executor" "source"
      (declared_plugin "host_agent" "http://host/plugin.zip") "agent" = Ok processed /\
    plugin_name processed = Some "agent" /\
    plugin_executor processed = "host_agent" /\
    (plugin_executor processed = CENTRAL_DEPLOYMENT_AGENT example_consts \/
     plugin_executor processed = HOST_AGENT example_consts) /\
    plugin_install processed = Some true /\
    plugin_source processed = Some "http://host/plugin.zip" /\
    (plugin_install processed = Some true ->
     exists source, plugin_source processed = Some source /\ source <> "").
Proof.
  eexists. split; [reflexivity|].
  apply (processed_plugin_is_complete example_consts "executor" "source"
           (declared_plugin "host_agent" "http://host/plugin.zip") "agent").
  reflexivity.
Defined.

(** The loop over the nodes and their deployment plugins is one loop over
    the plugins, in the order of the nodes. *)
Lemma deployment_plugins_flat {S} (f : S -> plugin -> result S) nodes st :
  foldM (fun st n =>
           match node_deployment_plugins_to_install n with
           | None => Ok st
           | Some l => foldM f l st
           end) nodes st
  = foldM f (nodes ≫= fun n => default [] (node_deployment_plugins_to_install n)) st.
Proof.
  revert st. induction nodes as [|n nodes IH]; intros st; [reflexivity|].
  simpl. rewrite foldM_app.
  destruct (node_deployment_plugins_to_install n) as [l|]; simpl.
  - destruct (foldM f l st) as [st'|e]; simpl; [apply IH | reflexivity].
  - apply IH.
Qed.

Lemma deployment_plugins_loop (l : list plugin) done names dps seen :
  (forall p, p ∈ l -> is_Some (plugin_name p)) ->
  NoDup names -> (forall n, n ∈ names <-> n ∈ seen) ->
  Forall2 (fun n p => plugin_name p = Some n) names dps ->
  (forall p, p ∈ dps -> p ∈ done) ->
  (forall p, p ∈ done -> exists q, q ∈ dps /\ plugin_name q = plugin_name p) ->
  exists st' names',
    foldM (fun '(deployment_plugins, deployment_plugin_names) management_plugin =>
             let* name := field "name" (plugin_name management_plugin) in
             if bool_decide (name ∈ deployment_plugin_names)
             then Ok (deployment_plugins, deployment_plugin_names)
             else Ok (deployment_plugins ++ [management_plugin],
                      {[name]} ∪ deployment_plugin_names))
          l ((dps, seen) : list plugin * gset string) = Ok st' /\
    NoDup names' /\
    Forall2 (fun n p => plugin_name p = Some n) names' st'.1 /\
    (forall p, p ∈ st'.1 -> p ∈ done ++ l) /\
    (forall p, p ∈ done ++ l -> exists q, q ∈ st'.1 /\ plugin_name q = plugin_name p).
Proof.
  revert done names dps seen.
  induction l as [|x l IH]; intros done names dps seen Hnamed Hnd Hseen Hall Hfrom Hcover.
  - exists (dps, seen), names. rewrite app_nil_r. simpl. auto.
  - destruct (Hnamed x) as [name Hname]; [apply elem_of_cons; auto|].
    simpl. rewrite Hname. simpl.
    replace (done ++ x :: l) with ((done ++ [x]) ++ l)
      by (rewrite <- app_assoc; reflexivity).
    destruct (bool_decide (name ∈ seen)) eqn:Hin.
    + apply bool_decide_eq_true in Hin.
      apply (IH (done ++ [x]) names); auto.
      * intros p Hp. apply Hnamed, elem_of_cons. auto.
      * intros p Hp. apply elem_of_app. auto.
      * intros p Hp. apply elem_of_app in Hp as [Hp|Hp]; [auto|].
        apply list_elem_of_singleton in Hp as ->.
        apply Hseen in Hin. clear -Hin Hall Hname.
        induction Hall as [|n q ns qs Hq _ IH']; [apply elem_of_nil in Hin; contradiction|].
        apply elem_of_cons in Hin as [->|Hin].
        -- exists q. split; [apply elem_of_cons; auto | congruence].
        -- destruct (IH' Hin) as (q' & Hq' & E). exists q'.
           split; [apply elem_of_cons; auto | exact E].
    + apply bool_decide_eq_false in Hin.
      apply (IH (done ++ [x]) (names ++ [name])).
      * intros p Hp. apply Hnamed, elem_of_cons. auto.
      * apply NoDup_app. split; [exact Hnd|]. split; [|apply NoDup_singleton].
        intros n Hn Hn'. apply list_elem_of_singleton in Hn' as ->.
        apply Hin, Hseen. exact Hn.
      * intros n. rewrite elem_of_app, list_elem_of_singleton, elem_of_union,
          elem_of_singleton, Hseen. tauto.
      * apply Forall2_app; [exact Hall|]. constructor; [exact Hname | constructor].
      * intros p Hp. apply elem_of_app in Hp as [Hp|Hp]; apply elem_of_app; auto.
      * intros p Hp. apply elem_of_app in Hp as [Hp|Hp].
        -- destruct (Hcover p Hp) as (q & Hq & E). exists q.
           split; [apply elem_of_app; auto | exact E].
        -- apply list_elem_of_singleton in Hp as ->. exists x.
           split; [|reflexivity]. apply elem_of_app. right.
           apply list_elem_of_singleton. reflexivity.
Qed.

(** X19: the deployment plugins of the plan hold each plugin name once.
    When every deployment plugin of the nodes has a name (as processed
    plugins have), [_create_plan_deployment_plugins] returns; no two plugins
    of the list have the same name, each is a deployment plugin of a node,
    and every deployment plugin of a node has its name in the list. *)
Theorem deployment_plugins_once_per_name :
  forall processed_nodes,
    (forall n l p, n ∈ processed_nodes ->
       node_deployment_plugins_to_install n = Some l -> p ∈ l ->
       is_Some (plugin_name p)) ->
    exists deployment_plugins,
      _create_plan_deployment_plugins processed_nodes = Ok deployment_plugins /\
      NoDup (plugin_name <$> deployment_plugins) /\
      (forall p, p ∈ deployment_plugins ->
         exists n l, n ∈ processed_nodes /\
                     node_deployment_plugins_to_install n = Some l /\ p ∈ l) /\
      (forall n l p, n ∈ processed_nodes ->
         node_deployment_plugins_to_install n = Some l -> p ∈ l ->
         exists q, q ∈ deployment_plugins /\ plugin_name q = plugin_name p).
Proof.
  intros nodes Hnamed. unfold _create_plan_deployment_plugins.
  rewrite deployment_plugins_flat.
  set (flat := nodes ≫= fun n => default [] (node_deployment_plugins_to_install n)).
  assert (Hflat : forall p, p ∈ flat <->
            exists n l, n ∈ nodes /\ node_deployment_plugins_to_install n = Some l /\
                        p ∈ l).
  { intros p. unfold flat. rewrite list_elem_of_bind. split.
    - intros (n & Hp & Hn). destruct (node_deployment_plugins_to_install n) as [l|] eqn:E;
        [eauto|]. apply elem_of_nil in Hp. contradiction.
    - intros (n & l & Hn & Hl & Hp). exists n. rewrite Hl. auto. }
  destruct (deployment_plugins_loop flat [] [] [] ∅)
    as (st' & names & -> & Hnd & Hall & Hfrom & Hcover).
  - intros p Hp. apply Hflat in Hp as (n & l & Hn & Hl & Hp). eauto.
  - apply NoDup_nil_2.
  - intros n. rewrite elem_of_nil. split; [contradiction | apply not_elem_of_empty].
  - constructor.
  - intros p Hp. apply elem_of_nil in Hp. contradiction.
  - intros p Hp. apply elem_of_nil in Hp. contradiction.
  - simpl. exists st'.1. split; [reflexivity|]. split; [|split].
    + assert (E : plugin_name <$> st'.1 = Some <$> names).
      { clear -Hall. induction Hall as [|n p ns ps Hp _ IH]; [reflexivity|].
        rewrite !fmap_cons, Hp, IH. reflexivity. }
      rewrite E. apply NoDup_fmap; [|exact Hnd]. intros a b [= ->]. reflexivity.
    + intros p Hp. apply Hflat. apply Hfrom in Hp. exact Hp.
    + intros n l p Hn Hl Hp. apply Hcover. simpl. apply Hflat. eauto.
Qed.

Lemma deployment_plugins_once_per_name_witness :
  exists deployment_plugins,
    _create_plan_deployment_plugins nodes_with_deployment_plugins
    = Ok deployment_plugins /\
    NoDup (plugin_name <$> deployment_plugins) /\
    (forall p, p ∈ deployment_plugins ->
       exists n l, n ∈ nodes_with_deployment_plugins /\
                   node_deployment_plugins_to_install n = Some l /\ p ∈ l) /\
    (forall n l p, n ∈ nodes_with_deployment_plugins ->
       node_deployment_plugins_to_install n = Some l -> p ∈ l ->
       exists q, q ∈ deployment_plugins /\ plugin_name q = plugin_name p).
Proof.
  apply (deployment_plugins_once_per_name nodes_with_deployment_plugins).
  intros n l p Hn Hl Hp. unfold nodes_with_deployment_plugins in Hn.
  elem_cases Hn; subst; injection Hl as <-; elem_cases Hp; subst; simpl; eauto.
Defined.

(** ** Policy types and policy triggers *)

Lemma items_get_has_key {V} (d : items V) k :
  has_key d k = true -> exists v, items_get d k = Ok v.
Proof.
  rewrite has_key_spec. induction d as [|[k' v'] d IH]; intros Hin.
  - apply elem_of_nil in Hin. contradiction.
  - simpl. destruct (decide (k' = k)); [eauto|].
    unfold keys in Hin. simpl in Hin. apply elem_of_cons in Hin as [?|Hin]; [congruence|].
    apply IH. exact Hin.
Qed.

Lemma items_set_same {V} (d : items V) k v : items_get d k = Ok v -> items_set d k v = d.
Proof.
  induction d as [|[k' v'] d IH]; intros H; simpl in *; [discriminate|].
  destruct (decide (k' = k)) as [->|Hne]; [congruence|].
  rewrite IH by exact H. reflexivity.
Qed.

Lemma items_get_missing {V} (d : items V) k :
  k ∉ keys d -> items_get d k = Raise (KeyError k).
Proof.
  induction d as [|[k' v'] d IH]; intros Hk; simpl; [reflexivity|].
  unfold keys in Hk. simpl in Hk. apply not_elem_of_cons in Hk as [Hne Hk].
  destruct (decide (k' = k)); [congruence | apply IH; exact Hk].
Qed.

Lemma set_default_dict_spec key d d' :
  set_default_dict key d = Ok d' <-> defaulted key d d'.
Proof.
  unfold set_default_dict, defaulted. split.
  - intros H. destruct d as [| | | | |entries]; try discriminate.
    injection H as <-. exists entries. split; [reflexivity|]. f_equal.
    destruct (has_key entries key) eqn:Hk.
    + destruct (items_get_has_key _ _ Hk) as [v Hv]. rewrite Hv.
      apply items_set_same. exact Hv.
    + apply has_key_false in Hk. rewrite (items_get_missing _ _ Hk).
      apply items_set_fresh. exact Hk.
  - intros (entries & -> & ->). f_equal. f_equal.
    destruct (has_key entries key) eqn:Hk.
    + destruct (items_get_has_key _ _ Hk) as [v Hv]. rewrite Hv.
      apply items_set_same. exact Hv.
    + apply has_key_false in Hk. rewrite (items_get_missing _ _ Hk).
      apply items_set_fresh. exact Hk.
Qed.

Lemma defaulted_has_key key d d' :
  defaulted key d d' -> exists entries, d' = YDict entries /\ has_key entries key = true.
Proof.
  intros (entries & -> & ->). eexists. split; [reflexivity|].
  destruct (has_key entries key) eqn:Hk; [exact Hk|].
  apply has_key_spec. unfold keys. rewrite fmap_app. apply elem_of_app. right.
  apply list_elem_of_singleton. reflexivity.
Qed.

Lemma defaulted_again key d d' : defaulted key d d' -> defaulted key d' d'.
Proof.
  intros H. destruct (defaulted_has_key _ _ _ H) as (entries & -> & Hk).
  exists entries. rewrite Hk. auto.
Qed.

(** The loop over the values of the dictionary. *)
Lemma set_defaults_spec key (d d' : items yaml) :
  mapM (fun '(name, v) => let* v := set_default_dict key v in Ok (name, v)) d = Ok d' ->
  Forall2 (fun x x' => x'.1 = x.1 /\ defaulted key x.2 x'.2) d d' /\
  mapM (fun '(name, v) => let* v := set_default_dict key v in Ok (name, v)) d' = Ok d'.
Proof.
  revert d'. induction d as [|[name v] d IH]; intros d' H; simpl in H.
  - injection H as <-. split; [constructor | reflexivity].
  - apply bind_ok in H as ([name' v'] & Hv & H).
    apply bind_ok in Hv as (v0 & Hv & E). injection E as <- <-.
    apply bind_ok in H as (rest & Hrest & H). injection H as <-.
    destruct (IH rest Hrest) as [Hall Hagain].
    apply set_default_dict_spec in Hv. split.
    + constructor; [split; [reflexivity | exact Hv] | exact Hall].
    + simpl. apply defaulted_again, set_default_dict_spec in Hv. rewrite Hv. simpl.
      rewrite Hagain. reflexivity.
Qed.

(** X20: processing the policy types (the policy triggers) gives every
    policy type its [properties] (every trigger its [parameters]), the
    empty dictionary when it had none, keeps its other entries and the
    names, and changes nothing when it is done again. *)
Theorem policy_types_get_their_properties :
  (forall policy_types processed,
     _process_policy_types policy_types = Ok processed ->
     exists d d',
       policy_types = YDict d /\ processed = YDict d' /\
       Forall2 (fun x x' => x'.1 = x.1 /\ defaulted PROPERTIES x.2 x'.2) d d' /\
       _process_policy_types processed = Ok processed) /\
  (forall policy_triggers processed,
     _process_policy_triggers policy_triggers = Ok processed ->
     exists d d',
       policy_triggers = YDict d /\ processed = YDict d' /\
       Forall2 (fun x x' => x'.1 = x.1 /\ defaulted PARAMETERS x.2 x'.2) d d' /\
       _process_policy_triggers processed = Ok processed).
Proof.
  split.
  - intros policy_types processed H. unfold _process_policy_types in *.
    apply bind_ok in H as (d & Hd & H).
    destruct policy_types; try discriminate. injection Hd as ->.
    apply bind_ok in H as (d' & Hd' & H). injection H as <-.
    destruct (set_defaults_spec _ _ _ Hd') as [Hall Hagain].
    exists d, d'. split; [reflexivity|]. split; [reflexivity|]. split; [exact Hall|].
    simpl. rewrite Hagain. reflexivity.
  - intros policy_triggers processed H. unfold _process_policy_triggers in *.
    apply bind_ok in H as (d & Hd & H).
    destruct policy_triggers; try discriminate. injection Hd as ->.
    apply bind_ok in H as (d' & Hd' & H). injection H as <-.
    destruct (set_defaults_spec _ _ _ Hd') as [Hall Hagain].
    exists d, d'. split; [reflexivity|]. split; [reflexivity|]. split; [exact Hall|].
    simpl. rewrite Hagain. reflexivity.
Qed.

Lemma policy_types_get_their_properties_witness :
  _process_policy_types example_policy_types
  = Ok (YDict [("threshold", YDict [("source", YStr "threshold.clj");
                                    ("properties", YDict [("limit", YInt 5)])]);
               ("noop", YDict [("source", YStr "noop.clj");
                               ("properties", YDict [])])]) /\
  exists d d',
    example_policy_types = YDict d /\
    YDict [("threshold", YDict [("source", YStr "threshold.clj");
                                ("properties", YDict [("limit", YInt 5)])]);
           ("noop", YDict [("source", YStr "noop.clj");
                           ("properties", YDict [])])] = YDict d' /\
    Forall2 (fun x x' => x'.1 = x.1 /\ defaulted PROPERTIES x.2 x'.2) d d' /\
    _process_policy_types
      (YDict [("threshold", YDict [("source", YStr "threshold.clj");
                                   ("properties", YDict [("limit", YInt 5)])]);
              ("noop", YDict [("source", YStr "noop.clj");
                              ("properties", YDict [])])])
    = Ok (YDict [("threshold", YDict [("source", YStr "threshold.clj");
                                      ("properties", YDict [("limit", YInt 5)])]);
                 ("noop", YDict [("source", YStr "noop.clj");
                                 ("properties", YDict [])])]).
Proof.
  split; [reflexivity|].
  apply (proj1 policy_types_get_their_properties example_policy_types).
  reflexivity.
Defined.

(** ** Groups *)

Lemma mapM_ok_elem {A B} (f : A -> result B) l ys y :
  mapM f l = Ok ys -> y ∈ ys -> exists x, x ∈ l /\ f x = Ok y.
Proof.
  intros H Hy. apply mapM_ok_Forall2 in H.
  induction H as [|x y' l ys Hx _ IH]; [apply elem_of_nil in Hy; contradiction|].
  apply elem_of_cons in Hy as [->|Hy].
  - exists x. split; [apply elem_of_cons; auto | exact Hx].
  - destruct (IH Hy) as (x' & Hx' & E). exists x'. split; [apply elem_of_cons; auto | exact E].
Qed.

Lemma mapM_ok_keys {V W} (f : string * V -> result (string * W)) (d : items V) d' :
  (forall x y, f x = Ok y -> y.1 = x.1) ->
  mapM f d = Ok d' -> keys d' = keys d.
Proof.
  intros Hf H. apply mapM_ok_Forall2 in H. unfold keys.
  induction H as [|x y l ys Hx _ IH]; [reflexivity|].
  rewrite !fmap_cons, IH, (Hf _ _ Hx). reflexivity.
Qed.

(** X21: processed groups refer to what is declared.  When
    [_process_groups] returns, the groups are the given ones by name and
    order; every member of a group is the name of a processed node, every
    policy has the type of a declared policy type and has properties, and
    every trigger has the type of a declared policy trigger and has
    parameters. *)
Theorem processed_groups_refer_to_declared_names :
  forall merge groups policy_types policy_triggers processed_nodes processed,
    _process_groups merge groups policy_types policy_triggers processed_nodes
    = Ok processed ->
    keys processed = keys groups /\
    forall group_name group, (group_name, group) ∈ processed ->
      exists members policies,
        group_members group = Some members /\
        group_policies group = Some policies /\
        (forall member, member ∈ members ->
           exists n, n ∈ processed_nodes /\ node_name n = member) /\
        forall policy_name policy, (policy_name, policy) ∈ policies ->
          exists type triggers,
            gp_type policy = Some type /\ has_key policy_types type = true /\
            is_Some (gp_properties policy) /\ gp_triggers policy = Some triggers /\
            forall trigger_name trigger, (trigger_name, trigger) ∈ triggers ->
              exists trigger_type,
                gt_type trigger = Some trigger_type /\
                has_key policy_triggers trigger_type = true /\
                is_Some (gt_parameters trigger).
Proof.
  intros merge groups policy_types policy_triggers processed_nodes processed H.
  unfold _process_groups in H. split.
  - eapply mapM_ok_keys; [|exact H].
    intros [name g] y Hy.
    apply bind_ok in Hy as (members & _ & Hy). apply bind_ok in Hy as (? & _ & Hy).
    apply bind_ok in Hy as (policies & _ & Hy). apply bind_ok in Hy as (? & _ & Hy).
    injection Hy as <-. reflexivity.
  - intros group_name group Hin.
    destruct (mapM_ok_elem _ _ _ _ H Hin) as ([name g] & _ & Hg).
    apply bind_ok in Hg as (members & _ & Hg).
    apply bind_ok in Hg as ([] & Hmembers & Hg).
    apply bind_ok in Hg as (policies0 & _ & Hg).
    apply bind_ok in Hg as (policies & Hpolicies & Hg).
    injection Hg as <- <-. exists members, policies.
    split; [reflexivity|]. split; [reflexivity|]. split.
    + clear -Hmembers. induction members as [|m members IH]; intros member Hm;
        [apply elem_of_nil in Hm; contradiction|].
      simpl in Hmembers. apply bind_ok in Hmembers as ([] & Hstep & Hmembers).
      apply elem_of_cons in Hm as [->|Hm]; [|apply IH; assumption].
      destruct (bool_decide (m ∈ _)) eqn:E; [|discriminate].
      apply bool_decide_eq_true, elem_of_list_to_set, list_elem_of_fmap in E
        as (n & -> & Hn). eauto.
    + intros policy_name policy Hp.
      destruct (mapM_ok_elem _ _ _ _ Hpolicies Hp) as ([pname p] & _ & Hpol).
      unfold process_group_policy in Hpol.
      apply bind_ok in Hpol as (type & _ & Hpol).
      destruct (has_key policy_types type) eqn:Hty; [|discriminate]. simpl in Hpol.
      apply bind_ok in Hpol as (definition & _ & Hpol).
      apply bind_ok in Hpol as (schema & _ & Hpol).
      apply bind_ok in Hpol as (merged & _ & Hpol).
      apply bind_ok in Hpol as (triggers & Htriggers & Hpol).
      injection Hpol as <- <-. exists type, triggers. simpl.
      split; [reflexivity|]. split; [exact Hty|]. split; [eauto|].
      split; [reflexivity|].
      intros trigger_name trigger Ht.
      destruct (mapM_ok_elem _ _ _ _ Htriggers Ht) as ([tname t] & _ & Htr).
      unfold process_group_trigger in Htr.
      apply bind_ok in Htr as (ttype & _ & Htr).
      destruct (has_key policy_triggers ttype) eqn:Htt; [|discriminate]. simpl in Htr.
      apply bind_ok in Htr as (tdefinition & _ & Htr).
      apply bind_ok in Htr as (tschema & _ & Htr).
      apply bind_ok in Htr as (tmerged & _ & Htr).
      injection Htr as <- <-. exists ttype. simpl. eauto.
Qed.

Lemma processed_groups_refer_to_declared_names_witness :
  exists processed,
    _process_groups keep_instance_values example_groups
      [("threshold", YDict [("properties", YDict [])])] example_policy_triggers
      app_on_vm = Ok processed /\
    keys processed = keys example_groups /\
    forall group_name group, (group_name, group) ∈ processed ->
      exists members policies,
        group_members group = Some members /\
        group_policies group = Some policies /\
        (forall member, member ∈ members ->
           exists n, n ∈ app_on_vm /\ node_name n = member) /\
        forall policy_name policy, (policy_name, policy) ∈ policies ->
          exists type triggers,
            gp_type policy = Some type /\
            has_key [("threshold", YDict [("properties", YDict [])])] type = true /\
            is_Some (gp_properties policy) /\ gp_triggers policy = Some triggers /\
            forall trigger_name trigger, (trigger_name, trigger) ∈ triggers ->
              exists trigger_type,
                gt_type trigger = Some trigger_type /\
                has_key example_policy_triggers trigger_type = true /\
                is_Some (gt_parameters trigger).
Proof.
  eexists. split; [vm_compute; reflexivity|].
  apply (processed_groups_refer_to_declared_names keep_instance_values example_groups
           [("threshold", YDict [("properties", YDict [])])] example_policy_triggers
           app_on_vm).
  vm_compute. reflexivity.
Defined.

(** X22: a member that is no node fails the groups first.  If the members
    of the first group are node names up to one that is not, code 40 is
    raised for that member, whatever the policies of the group are. *)
Theorem unknown_group_member_raises_40 :
  forall merge group_name group rest policy_types policy_triggers processed_nodes
         known member others,
    group_members group = Some (known ++ member :: others) ->
    (forall m, m ∈ known -> exists n, n ∈ processed_nodes /\ node_name n = m) ->
    (forall n, n ∈ processed_nodes -> node_name n <> member) ->
    _process_groups merge ((group_name, group) :: rest) policy_types policy_triggers
      processed_nodes
    = Raise (DSLParsingLogicException 40 [member]).
Proof.
  intros merge group_name group rest policy_types policy_triggers processed_nodes
         known member others Hmembers Hknown Hunknown.
  unfold _process_groups. simpl. rewrite Hmembers. simpl.
  rewrite foldM_app.
  assert (Hfold : foldM (fun (_ : unit) member =>
                           if bool_decide (member ∈ (list_to_set (node_name <$> processed_nodes)
                                                     : gset string))
                           then Ok tt else Raise (DSLParsingLogicException 40 [member]))
                        known tt = Ok tt).
  { clear -Hknown. induction known as [|m known IH]; [reflexivity|].
    simpl. rewrite bool_decide_eq_true_2.
    - simpl. apply IH. intros m' Hm'. apply Hknown, elem_of_cons. auto.
    - destruct (Hknown m) as (n & Hn & <-); [apply elem_of_cons; auto|].
      apply elem_of_list_to_set, list_elem_of_fmap_2. exact Hn. }
  rewrite Hfold. simpl. rewrite bool_decide_eq_false_2; [reflexivity|].
  intros Hin. apply elem_of_list_to_set, list_elem_of_fmap in Hin as (n & E & Hn).
  eapply Hunknown; eauto.
Qed.

Lemma unknown_group_member_raises_40_witness :
  _process_groups keep_instance_values
    [("servers", {| group_members := Some ["web"; "db"]; group_policies := None |})]
    [] [] app_on_vm
  = Raise (DSLParsingLogicException 40 ["db"]).
Proof.
  apply (unknown_group_member_raises_40 keep_instance_values "servers"
           {| group_members := Some ["web"; "db"]; group_policies := None |} [] [] []
           app_on_vm ["web"] "db" []).
  - reflexivity.
  - intros m Hm. apply list_elem_of_singleton in Hm as ->.
    exists (processed_node_of "web" "app" [processed_relationship "hosted_on" "host"]).
    split; [apply elem_of_cons; auto | reflexivity].
  - intros n Hn. unfold app_on_vm in Hn. elem_cases Hn; subst; discriminate.
Defined.

(** ** Locations of resources and the order of the imports *)

Lemma rfind_from_app c a b i found :
  rfind_from c (a +:+ String c b) i found
  = rfind_from c b (i + Z.of_nat (String.length a) + 1) (i + Z.of_nat (String.length a)).
Proof.
  revert i found. induction a as [|d a IH]; intros i found.
  - simpl. destruct (decide (c = c)); [|contradiction].
    f_equal; lia.
  - rewrite string_app_cons. simpl rfind_from. rewrite IH.
    simpl String.length. f_equal; lia.
Qed.

Lemma rfind_from_absent c s i found :
  string_mem c s = false -> rfind_from c s i found = found.
Proof.
  revert i found. induction s as [|d s IH]; intros i found H; [reflexivity|].
  simpl in *. apply orb_false_iff in H as [Hd Hs].
  apply bool_decide_eq_false in Hd.
  destruct (decide (d = c)); [contradiction|]. apply IH. exact Hs.
Qed.

Lemma string_take_app p rest : string_take (String.length p) (p +:+ rest) = p.
Proof.
  induction p as [|c p IH]; [destruct rest; reflexivity|].
  rewrite string_app_cons. simpl. f_equal. exact IH.
Qed.

(** The directory of a context, with its slash. *)
Lemma context_directory dir file :
  string_mem "/" file = false ->
  slice_to (rfind "/" (dir +:+ "/" +:+ file) + 1) (dir +:+ "/" +:+ file) = dir +:+ "/".
Proof.
  intros Hfile. unfold rfind.
  change (dir +:+ "/" +:+ file) with (dir +:+ String "/" file).
  rewrite rfind_from_app, (rfind_from_absent _ _ _ _ Hfile).
  unfold slice_to. destruct (decide _) as [_|Hneg]; [|lia].
  replace (Z.to_nat (0 + Z.of_nat (String.length dir) + 1))
    with (String.length (dir +:+ "/")) by (rewrite string_app_length; simpl; lia).
  change (dir +:+ String "/" file) with (dir +:+ ("/" +:+ file)).
  rewrite <- string_app_assoc. apply string_take_app.
Qed.

(** X23: a relative name is resolved beside the current resource.  A name
    that is no URL and no existing file is looked for in the directory of
    the context, the part of the context up to its last slash: when that
    URL can be opened it is the location, whatever the resources base is.
    A context without a slash has no directory: the name itself is
    tried. *)
Theorem relative_resource_resolves_beside_the_context :
  forall path_exists pathname2url_abspath urlopen resource_name resources_base_url,
    already_url_format resource_name = false ->
    path_exists resource_name = false ->
    (forall dir file,
       string_mem "/" file = false ->
       urlopen (dir +:+ "/" +:+ resource_name) = Opened ->
       _get_resource_location path_exists pathname2url_abspath urlopen
         resource_name resources_base_url (Some (dir +:+ "/" +:+ file))
       = Ok (Some (dir +:+ "/" +:+ resource_name))) /\
    (forall context,
       context <> "" -> string_mem "/" context = false ->
       urlopen resource_name = Opened ->
       _get_resource_location path_exists pathname2url_abspath urlopen
         resource_name resources_base_url (Some context)
       = Ok (Some resource_name)).
Proof.
  intros path_exists p2u urlopen resource_name base Hurl Hpath. split.
  - intros dir file Hfile Hexists. unfold _get_resource_location.
    rewrite Hurl, Hpath.
    assert (Hne : dir +:+ "/" +:+ file <> "").
    { destruct dir; discriminate. }
    assert (Ht : truthy_string (Some (dir +:+ "/" +:+ file)) = true).
    { unfold truthy_string. rewrite bool_decide_eq_false_2 by exact Hne. reflexivity. }
    rewrite Ht.
    rewrite (context_directory dir file Hfile), string_app_assoc.
    unfold _validate_url_exists. rewrite Hexists. reflexivity.
  - intros context Hne Hslash Hexists. unfold _get_resource_location.
    rewrite Hurl, Hpath.
    assert (Ht : truthy_string (Some context) = true).
    { unfold truthy_string. rewrite bool_decide_eq_false_2 by exact Hne. reflexivity. }
    rewrite Ht. unfold rfind. rewrite (rfind_from_absent _ _ _ _ Hslash).
    change (-1 + 1)%Z with 0%Z. unfold slice_to.
    destruct (decide (0 <= 0)%Z) as [_|Hneg]; [|lia].
    change (Z.to_nat 0) with 0.
    assert (Htake : string_take 0 context = "") by (destruct context; reflexivity).
    rewrite Htake. change ("" +:+ resource_name) with resource_name.
    unfold _validate_url_exists. rewrite Hexists. reflexivity.
Qed.

Lemma relative_resource_resolves_beside_the_context_witness :
  _get_resource_location no_path same_path every_url_opens "types/types.yaml" None
    (Some "http://host/blueprints/blueprint.yaml")
  = Ok (Some "http://host/blueprints/types/types.yaml").
Proof.
  apply (proj1 (relative_resource_resolves_beside_the_context no_path same_path
                  every_url_opens "types/types.yaml" None eq_refl eq_refl)
           "http://host/blueprints" "blueprint.yaml"); reflexivity.
Defined.

(** The list of the imports grows at its end, and stays without
    repetition. *)
Lemma build_ordered_imports_list_recursive_NoDup path_exists pathname2url_abspath
    urlopen load_yaml_from_url depth alias_mapping resources_base_url :
  forall _parsed_dsl _current_import ordered l,
    build_ordered_imports_list_recursive path_exists pathname2url_abspath urlopen
      load_yaml_from_url depth alias_mapping resources_base_url _parsed_dsl
      _current_import ordered = Ok l ->
    NoDup ordered ->
    (forall current, _current_import = Some current -> current ∉ ordered) ->
    NoDup l /\
    exists rest,
      l = ordered ++ match _current_import with
                     | Some current => [current]
                     | None => []
                     end ++ rest.
Proof.
  induction depth as [|depth IH]; intros parsed current ordered l H Hnd Hcur;
    [discriminate|].
  simpl in H.
  set (ordered1 := match current with
                   | Some c => ordered ++ [c]
                   | None => ordered
                   end) in *.
  assert (Hnd1 : NoDup ordered1).
  { unfold ordered1. destruct current as [c|]; [|exact Hnd].
    apply NoDup_app. split; [exact Hnd|]. split; [|apply NoDup_singleton].
    intros x Hx Hx'. apply list_elem_of_singleton in Hx' as ->.
    apply (Hcur c eq_refl). exact Hx. }
  assert (Hext : forall rest,
            ordered1 ++ rest
            = ordered ++ match current with Some c => [c] | None => [] end ++ rest).
  { intros rest. unfold ordered1. destruct current; [|reflexivity].
    rewrite <- app_assoc. reflexivity. }
  destruct (has_key parsed IMPORTS); simpl in H.
  2:{ injection H as <-. split; [exact Hnd1|]. exists []. rewrite <- Hext, app_nil_r.
      reflexivity. }
  apply bind_ok in H as (imports & _ & H).
  apply bind_ok in H as (names & _ & H).
  assert (Hloop : NoDup l /\ exists rest, l = ordered1 ++ rest).
  { revert H Hnd1. generalize ordered1. clear -IH.
    induction names as [|name names IHn]; intros acc H Hacc; simpl in H.
    - injection H as <-. split; [exact Hacc|]. exists []. rewrite app_nil_r. reflexivity.
    - apply bind_ok in H as (acc1 & Hstep & H).
      apply bind_ok in Hstep as (import & _ & Hstep).
      apply bind_ok in Hstep as (location & _ & Hstep).
      destruct location as [import_url|]; [|discriminate].
      destruct (bool_decide (import_url ∈ acc)) eqn:Hin.
      + injection Hstep as <-. apply IHn; assumption.
      + apply bool_decide_eq_false in Hin.
        destruct (load_yaml_from_url import_url) as [loaded|]; [|discriminate].
        apply bind_ok in Hstep as (imported_dsl & _ & Hstep).
        apply IH in Hstep as [Hnd1 (rest1 & ->)]; [|exact Hacc|].
        * destruct (IHn _ H Hnd1) as [Hl (rest & ->)]. split; [exact Hl|].
          eexists. rewrite <- !app_assoc. reflexivity.
        * intros c [= <-]. exact Hin. }
  destruct Hloop as [Hl (rest & ->)]. split; [exact Hl|].
  exists rest. apply Hext.
Qed.

(** X24: each import is listed once.  The ordered list of the imports has
    no repetition, also when the imports form a cycle; it starts with the
    location of the main blueprint, when there is one, which does not occur
    again: the main blueprint is not among its own imports. *)
Theorem ordered_imports_are_distinct :
  forall path_exists pathname2url_abspath urlopen load_yaml_from_url recursion_limit
         parsed_dsl alias_mapping current_import resources_base_url l,
    _build_ordered_imports_list path_exists pathname2url_abspath urlopen
      load_yaml_from_url recursion_limit parsed_dsl [] alias_mapping current_import
      resources_base_url = Ok l ->
    NoDup l /\
    match current_import with
    | Some current => exists rest, l = current :: rest /\ current ∉ rest
    | None => True
    end.
Proof.
  intros path_exists p2u urlopen load limit parsed_dsl alias_mapping current base l H.
  unfold _build_ordered_imports_list in H.
  apply build_ordered_imports_list_recursive_NoDup in H as [Hnd (rest & ->)].
  - split; [exact Hnd|]. destruct current as [c|]; [|exact I].
    exists rest. split; [reflexivity|]. simpl in Hnd. apply NoDup_cons in Hnd as [Hc _].
    exact Hc.
  - apply NoDup_nil_2.
  - intros c _. apply not_elem_of_nil.
Qed.

Lemma ordered_imports_are_distinct_witness :
  _build_ordered_imports_list no_path same_path every_url_opens cyclic_imports 10
    [(IMPORTS, YList [YStr "http://host/a.yaml"])] [] ∅ (Some "http://host/root.yaml")
    None
  = Ok ["http://host/root.yaml"; "http://host/a.yaml"; "http://host/b.yaml"] /\
  NoDup ["http://host/root.yaml"; "http://host/a.yaml"; "http://host/b.yaml"] /\
  exists rest,
    ["http://host/root.yaml"; "http://host/a.yaml"; "http://host/b.yaml"]
    = "http://host/root.yaml" :: rest /\
    "http://host/root.yaml" ∉ rest.
Proof.
  split; [vm_compute; reflexivity|].
  apply (ordered_imports_are_distinct no_path same_path every_url_opens cyclic_imports 10
           [(IMPORTS, YList [YStr "http://host/a.yaml"])] ∅
           (Some "http://host/root.yaml") None).
  vm_compute. reflexivity.
Defined.

(** X25: with a resources base a location is never missing.  When the
    resources base is not empty, [_get_resource_location] never returns
    [None]: it returns a location or raises what [urlopen] raised, other
    than [URLError], for the candidate beside a non-empty context.  Without
    a context nothing is opened, so that [_dsl_location_to_url] never raises
    code 30 and returns a location whenever it is given one. *)
Theorem location_resolves_with_resources_base :
  forall path_exists pathname2url_abspath urlopen base,
    base <> "" ->
    (forall resource_name context,
       (exists url,
          _get_resource_location path_exists pathname2url_abspath urlopen
            resource_name (Some base) context = Ok (Some url)) \/
       (exists current e,
          context = Some current /\ current <> "" /\
          urlopen (slice_to (rfind "/" current + 1) current +:+ resource_name)
          = OtherError e /\
          _get_resource_location path_exists pathname2url_abspath urlopen
            resource_name (Some base) context = Raise e)) /\
    (forall resource_name,
       exists url,
         _get_resource_location path_exists pathname2url_abspath urlopen
           resource_name (Some base) None = Ok (Some url)) /\
    (forall dsl_location alias_mapping,
       exists url,
         _dsl_location_to_url path_exists pathname2url_abspath urlopen dsl_location
           alias_mapping (Some base) = Ok url /\
         (is_Some dsl_location -> is_Some url)).
Proof.
  intros path_exists p2u urlopen base Hbase.
  assert (Hb : truthy_string (Some base) = true).
  { unfold truthy_string. rewrite bool_decide_eq_false_2 by exact Hbase. reflexivity. }
  assert (Hnone : forall resource_name,
            exists url,
              _get_resource_location path_exists p2u urlopen resource_name (Some base)
                None = Ok (Some url)).
  { intros resource_name. unfold _get_resource_location.
    destruct (already_url_format resource_name); [eauto|].
    destruct (path_exists resource_name); [eauto|].
    rewrite Hb. eauto. }
  split; [|split; [exact Hnone|]].
  - intros resource_name [current|]; [|left; apply Hnone].
    unfold _get_resource_location.
    destruct (already_url_format resource_name); [eauto|].
    destruct (path_exists resource_name); [eauto|].
    rewrite Hb.
    destruct (truthy_string (Some current)) eqn:Hcurrent; [|eauto].
    unfold _validate_url_exists.
    destruct (urlopen (slice_to (rfind "/" current + 1) current +:+ resource_name))
      as [| |e] eqn:Hopen; simpl; [eauto | eauto |].
    right. exists current, e. split; [reflexivity|]. split; [|auto].
    intros ->. discriminate.
  - intros [dsl_location|] alias_mapping; simpl.
    + destruct (Hnone (_apply_alias_mapping_if_available dsl_location alias_mapping))
        as [url Hurl].
      rewrite Hurl. exists (Some url). split; [reflexivity | eauto].
    + exists None. split; [reflexivity|]. intros [x Hx]. discriminate.
Qed.

(** With the base [http://host/resources/]: beside a context with a scheme
    nothing is found and the base is used; beside a context without a
    scheme the [ValueError] of [urlopen] is raised; and the location of a
    blueprint resolves. *)
Lemma location_resolves_with_resources_base_witness :
  _get_resource_location no_path same_path nothing_opens "types.yaml"
    (Some "http://host/resources/") (Some "http://host/blueprints/blueprint.yaml")
  = Ok (Some "http://host/resources/types.yaml") /\
  _get_resource_location no_path same_path nothing_opens "types.yaml"
    (Some "http://host/resources/") (Some "blueprints/blueprint.yaml")
  = Raise ValueError /\
  _dsl_location_to_url no_path same_path nothing_opens (Some "blueprint.yaml") ∅
    (Some "http://host/resources/")
  = Ok (Some "http://host/resources/blueprint.yaml").
Proof.
  pose proof (location_resolves_with_resources_base no_path same_path nothing_opens
                "http://host/resources/" ltac:(discriminate)) as (Hany & _ & Hdsl).
  split; [|split].
  - destruct (Hany "types.yaml" (Some "http://host/blueprints/blueprint.yaml"))
      as [[url Hurl]|(current & e & _ & _ & _ & Hraise)].
    + rewrite Hurl. vm_compute in Hurl. symmetry. exact Hurl.
    + vm_compute in Hraise. discriminate.
  - destruct (Hany "types.yaml" (Some "blueprints/blueprint.yaml"))
      as [[url Hurl]|(current & e & _ & _ & _ & Hraise)].
    + vm_compute in Hurl. discriminate.
    + rewrite Hraise. vm_compute in Hraise. symmetry. exact Hraise.
  - destruct (Hdsl (Some "blueprint.yaml") ∅) as (url & Hurl & _).
    rewrite Hurl. vm_compute in Hurl. symmetry. exact Hurl.
Defined.

(** ** Scanning properties *)

(** Induction on parsed values, through their lists and dictionaries. *)
Lemma yaml_nested_ind (P : yaml -> Prop) :
  P YNull -> (forall b, P (YBool b)) -> (forall z, P (YInt z)) ->
  (forall s, P (YStr s)) ->
  (forall l, Forall P l -> P (YList l)) ->
  (forall d, Forall (fun kv => P kv.2) d -> P (YDict d)) ->
  forall v, P v.
Proof.
  intros Hn Hb Hz Hs Hl Hd. fix IH 1. intros [|b|z|s|l|d].
  - exact Hn.
  - apply Hb.
  - apply Hz.
  - apply Hs.
  - apply Hl. induction l as [|x l IHl]; constructor; [apply IH | exact IHl].
  - apply Hd. induction d as [|[k x] d IHd]; constructor; [apply IH | exact IHd].
Qed.

(** X26: a scan of properties is the sequence of the calls of the handler
    on the entries of the dictionaries of the value, each entry before the
    entries below it; the handler is given the dictionary that holds the
    entry and a path that extends the path of the scan by the keys down to
    the entry. *)
Theorem scan_properties_visits_every_entry :
  forall scanned path,
    (forall (S : Type)
            (handler : items yaml -> string -> yaml -> string -> S -> result S) s,
       scan_properties handler scanned path s
       = foldM (fun s '(d, k, v, p) => handler d k v p s)
               (property_visits scanned path) s) /\
    (forall d k v p,
       (d, k, v, p) ∈ property_visits scanned path ->
       (k, v) ∈ d /\ exists keys_down, p = path +:+ keys_down +:+ "." +:+ k).
Proof.
  induction scanned as [| | | |l IHl|d IHd] using yaml_nested_ind; intros path;
    try (split; [reflexivity | intros d k v p H; apply elem_of_nil in H; contradiction]).
  - split.
    + intros S handler s. simpl. revert s.
      induction IHl as [|item l Hitem _ IH]; intros s; [reflexivity|].
      simpl. rewrite foldM_app, (proj1 (Hitem path)).
      match goal with
      | |- bind ?m _ = bind ?m _ => destruct m; simpl; [apply IH | reflexivity]
      end.
    + intros d k v p H. simpl in H.
      apply list_elem_of_In, in_flat_map in H as (item & Hitem & H).
      apply list_elem_of_In in Hitem, H.
      rewrite Forall_forall in IHl. eapply (proj2 (IHl item Hitem path)). exact H.
  - split.
    + intros S handler s. simpl.
      assert (Hgen : forall whole s,
                foldM (fun s '(k, v) =>
                         let* s := handler whole k v (path +:+ "." +:+ k) s in
                         scan_properties handler v (path +:+ "." +:+ k) s) d s
                = foldM (fun s '(d, k, v, p) => handler d k v p s)
                        (flat_map (fun '(k, v) =>
                                     (whole, k, v, path +:+ "." +:+ k)
                                       :: property_visits v (path +:+ "." +:+ k)) d) s).
      { intros whole. induction IHd as [|[k v] d Hv _ IH]; intros s'; [reflexivity|].
        simpl. destruct (handler whole k v (path +:+ "." +:+ k) s') as [s1|e]; simpl;
          [|reflexivity].
        simpl in Hv. rewrite foldM_app, (proj1 (Hv (path +:+ "." +:+ k))).
        match goal with
        | |- bind ?m _ = bind ?m _ => destruct m; simpl; [apply IH | reflexivity]
        end. }
      apply Hgen.
    + intros d' k v p H. simpl in H.
      apply list_elem_of_In, in_flat_map in H as ([k0 v0] & Hentry & H).
      apply list_elem_of_In in Hentry. simpl in H. destruct H as [H|H].
      * injection H as <- <- <- <-. split; [exact Hentry|].
        exists "". reflexivity.
      * apply list_elem_of_In in H. rewrite Forall_forall in IHd.
        destruct (proj2 (IHd (k0, v0) Hentry (path +:+ "." +:+ k0)) _ _ _ _ H)
          as [Hin (keys_down & ->)].
        split; [exact Hin|]. exists ("." +:+ k0 +:+ keys_down).
        rewrite !string_app_assoc. reflexivity.
Qed.

Lemma scan_properties_visits_every_entry_witness :
  scan_properties record_path example_properties "node" []
  = Ok ["node.port"; "node.server"; "node.server.image"; "node.disks";
        "node.disks.size"] /\
  scan_properties record_path example_properties "node" []
  = foldM (fun s '(d, k, v, p) => record_path d k v p s)
          (property_visits example_properties "node") [].
Proof.
  split; [reflexivity|].
  apply (proj1 (scan_properties_visits_every_entry example_properties "node")).
Defined.

(** ** References and imports *)

Lemma mapM_id {A} (f : A -> result A) (l : list A) :
  Forall (fun x => f x = Ok x) l -> mapM f l = Ok l.
Proof.
  induction 1 as [|x l Hx _ IH]; [reflexivity|].
  simpl. rewrite Hx. simpl. rewrite IH. reflexivity.
Qed.

Lemma replace_ref_without_ref apply_ref dsl path_context :
  has_ref dsl = false ->
  _replace_ref_with_inline_paths apply_ref dsl path_context = Ok dsl.
Proof.
  induction dsl as [| | | |l IHl|d IHd] using yaml_nested_ind; intros H;
    try reflexivity; simpl in *.
  - rewrite mapM_id; [reflexivity|].
    rewrite Forall_forall in *. intros x Hx. apply IHl; [exact Hx|].
    destruct (has_ref x) eqn:E; [|reflexivity].
    assert (existsb has_ref l = true); [|congruence].
    apply existsb_exists. exists x. split; [apply list_elem_of_In; exact Hx | exact E].
  - rewrite mapM_id; [reflexivity|].
    rewrite Forall_forall in *. intros [k v] Hx.
    assert (Hk : bool_decide (k = "ref") || has_ref v = false).
    { destruct (bool_decide (k = "ref") || has_ref v) eqn:E; [|reflexivity].
      assert (existsb (fun kv => bool_decide (kv.1 = "ref") || has_ref kv.2) d = true);
        [|congruence].
      apply existsb_exists. exists (k, v).
      split; [apply list_elem_of_In; exact Hx | exact E]. }
    apply orb_false_iff in Hk as [Hk Hv]. apply bool_decide_eq_false in Hk.
    destruct (decide (k = "ref")); [contradiction|].
    pose proof (IHd (k, v) Hx Hv) as E. simpl in E. rewrite E. reflexivity.
Qed.

(** X27: a value without a [ref] key is left as it is, and nothing is
    read: [_replace_ref_with_inline_paths] returns it whatever reading a
    reference would do. *)
Theorem value_without_ref_is_unchanged :
  forall _apply_ref dsl path_context,
    has_ref dsl = false ->
    _replace_ref_with_inline_paths _apply_ref dsl path_context = Ok dsl.
Proof. intros. apply replace_ref_without_ref. assumption. Qed.

Lemma value_without_ref_is_unchanged_witness :
  _replace_ref_with_inline_paths (fun _ _ => Raise (KeyError "ref")) example_properties
    None = Ok example_properties.
Proof.
  apply (value_without_ref_is_unchanged (fun _ _ => Raise (KeyError "ref"))
           example_properties None).
  reflexivity.
Defined.

Lemma combine_single_import_extended load_import apply_ref dsl_version combined
    single_import combined' :
  combine_single_import apply_ref load_import dsl_version combined single_import
  = Ok combined' ->
  document_extended combined combined'.
Proof.
  unfold combine_single_import. intros H.
  apply bind_ok in H as (imported & _ & H).
  apply bind_ok in H as (imported1 & _ & H).
  apply bind_ok in H as (imported2 & _ & H).
  unfold merge_imported_dsl in H. revert H.
  apply foldM_preserves;
    [apply document_extended_refl | apply document_extended_trans|].
  intros s [key value] s'. apply merge_import_key_extended.
Qed.

(** X28: imports only add to the main blueprint.  When [_combine_imports]
    returns for a main blueprint without references, every top level entry
    of the main blueprint but [imports] is in the combined document with its
    value, or, when it is a section, with that section extended at its end:
    no import overrides or removes what the main blueprint declares. *)
Theorem imports_only_add_to_the_main_blueprint :
  forall _apply_ref load_import _build_ordered_imports_list _validate_imports_section
         parsed_dsl dsl_location combined,
    has_ref (YDict parsed_dsl) = false ->
    _combine_imports _apply_ref load_import _build_ordered_imports_list
      _validate_imports_section parsed_dsl dsl_location = Ok combined ->
    forall key value,
      key <> "imports" ->
      items_get parsed_dsl key = Ok value ->
      exists value', items_get combined key = Ok value' /\ extended value value'.
Proof.
  intros apply_ref load_import build validate parsed_dsl dsl_location combined
         Href H key value Hkey Hvalue.
  unfold _combine_imports, replace_ref_in_document in H.
  rewrite (replace_ref_without_ref _ _ _ Href) in H. simpl in H.
  destruct (has_key parsed_dsl VERSION); simpl in H; [|discriminate].
  destruct (has_key parsed_dsl IMPORTS); simpl in H.
  - apply bind_ok in H as (dsl_version & _ & H).
    apply bind_ok in H as (imports & _ & H).
    apply bind_ok in H as (? & _ & H).
    apply bind_ok in H as (ordered & _ & H).
    apply bind_ok in H as (merged & Hmerged & H). injection H as <-.
    assert (Hext : document_extended parsed_dsl merged).
    { revert Hmerged. apply foldM_preserves;
        [apply document_extended_refl | apply document_extended_trans|].
      intros s single_import s'. apply combine_single_import_extended. }
    destruct (Hext key value Hvalue) as (value' & Hvalue' & E).
    exists value'. split; [|exact E].
    destruct (has_key merged IMPORTS); [|exact Hvalue'].
    rewrite items_get_delete_other by exact Hkey. exact Hvalue'.
  - injection H as <-. exists value. split; [exact Hvalue | apply extended_refl].
Qed.

Lemma imports_only_add_to_the_main_blueprint_witness :
  exists combined,
    _combine_imports keep_ref load_types_yaml one_import accept_imports example_root None
    = Ok combined /\
    items_get combined "plugins" = Ok (YDict [("a", YNull); ("b", YNull)]) /\
    forall key value,
      key <> "imports" ->
      items_get example_root key = Ok value ->
      exists value', items_get combined key = Ok value' /\ extended value value'.
Proof.
  eexists. split; [vm_compute; reflexivity|]. split; [reflexivity|].
  apply (imports_only_add_to_the_main_blueprint keep_ref load_types_yaml one_import
           accept_imports example_root None).
  - reflexivity.
  - vm_compute. reflexivity.
Defined.

(** ** Circular [get_property] calls *)

(** Following a chain of [get_property] functions that leads back to a
    function already visited. *)
Lemma circular_chain_detected evaluate function_id separator plan back back_id :
  function_id back plan = Ok back_id ->
  forall chain ids visited depth,
    Forall2 (fun raw id => function_id raw plan = Ok id) chain ids ->
    NoDup ids -> (forall id, id ∈ ids -> id ∉ visited) ->
    back_id ∈ visited ->
    evaluates_in_chain evaluate plan chain back ->
    length chain < depth ->
    validate_no_circular_get_property evaluate function_id separator depth plan
      (VFunction GET_PROPERTY (match chain with next :: _ => next | [] => back end))
      visited
    = Raise (RuntimeError
               ("Circular get_property function call detected: " +:+
                join " -> " ((fun x => string_replace x separator ",")
                               <$> (visited ++ ids ++ [back_id])))).
Proof.
  intros Hback chain ids visited depth Hids. revert visited depth.
  induction Hids as [|raw id chain ids Hid _ IH];
    intros visited depth Hnd Hfresh Hin Heval Hdepth;
    (destruct depth as [|depth]; [simpl in Hdepth; lia|]).
  - simpl. destruct (decide (GET_PROPERTY = GET_PROPERTY)); [|contradiction].
    rewrite Hback. simpl. rewrite bool_decide_eq_true_2 by exact Hin. reflexivity.
  - apply NoDup_cons in Hnd as [Hid_fresh Hnd]. destruct Heval as [Hraw Heval].
    simpl. destruct (decide (GET_PROPERTY = GET_PROPERTY)); [|contradiction].
    rewrite Hid. simpl.
    rewrite bool_decide_eq_false_2 by (apply Hfresh, elem_of_cons; auto).
    rewrite Hraw. simpl.
    rewrite IH; [rewrite <- app_assoc; reflexivity|exact Hnd| | |exact Heval|].
    + intros id' Hid' Hv. apply elem_of_app in Hv as [Hv|Hv].
      * eapply Hfresh; [apply elem_of_cons; right; exact Hid' | exact Hv].
      * apply list_elem_of_singleton in Hv as ->. contradiction.
    + apply elem_of_app. auto.
    + simpl in Hdepth. lia.
Qed.

(** X29: a circle of [get_property] functions is detected.  If a
    [get_property] function evaluates, through a chain of functions with
    different ids that is no longer than the recursion limit, to itself, the
    check raises a [RuntimeError] that lists the ids of the chain and the id
    it came back to, each with the separators of its property path replaced
    by commas. *)
Theorem circular_get_property_is_detected :
  forall recursion_limit evaluate function_id FUNCTION_NAME_PATH_SEPARATOR plan raw
         chain id ids,
    Forall2 (fun raw id => function_id raw plan = Ok id) (raw :: chain) (id :: ids) ->
    NoDup (id :: ids) ->
    evaluates_in_chain evaluate plan (raw :: chain) raw ->
    length (raw :: chain) <= recursion_limit ->
    validate_no_circular_calls recursion_limit evaluate function_id
      FUNCTION_NAME_PATH_SEPARATOR plan [VFunction GET_PROPERTY raw]
    = Raise (RuntimeError
               ("Circular get_property function call detected: " +:+
                join " -> "
                  ((fun x => string_replace x FUNCTION_NAME_PATH_SEPARATOR ",")
                     <$> ((id :: ids) ++ [id])))).
Proof.
  intros limit evaluate function_id separator plan raw chain id ids Hids Hnd Heval
         Hlimit.
  apply Forall2_cons in Hids as [Hid Hids]. apply NoDup_cons in Hnd as [Hfresh Hnd].
  destruct Heval as [Hraw Heval].
  unfold validate_no_circular_calls. simpl. rewrite Hid, Hraw. simpl.
  assert (Hdisjoint : forall id', id' ∈ ids -> id' ∉ [id]).
  { intros id' Hid' Hv. apply list_elem_of_singleton in Hv as ->. contradiction. }
  assert (Hvisited : id ∈ [id]) by (apply list_elem_of_singleton; reflexivity).
  assert (Hdepth : length chain < limit) by (simpl in Hlimit; lia).
  rewrite (circular_chain_detected evaluate function_id separator plan raw id Hid chain
             ids [id] limit Hids Hnd Hdisjoint Hvisited Heval Hdepth).
  reflexivity.
Qed.

(** The property [a.x] of [web] and the property [b] refer to each other;
    the message shows the path [a.x] with a comma. *)
Lemma circular_get_property_is_detected_witness :
  id_of_property property_a example_plan = Ok "web.a__sep__x" /\
  validate_no_circular_calls 10 evaluate_to_each_other id_of_property "__sep__"
    example_plan [VFunction GET_PROPERTY property_a]
  = Raise (RuntimeError
             "Circular get_property function call detected: web.a,x -> web.b -> web.a,x").
Proof.
  split; [reflexivity|].
  apply (circular_get_property_is_detected 10 evaluate_to_each_other id_of_property
           "__sep__" example_plan property_a [property_b] "web.a__sep__x" ["web.b"]).
  - repeat constructor.
  - compute_decision.
  - simpl. auto.
  - simpl. lia.
Defined.

(** ** Host ids name hosts *)

(** X30: every host id names a host of the plan.  In every fully processed
    set of nodes with different ids that had no host ids before, the host
    id of a node is not empty and is the id of a processed node whose type
    derives from the host type and whose host id is its own id. *)
Theorem host_ids_name_hosts :
  forall recursion_limit url_exists consts processed_nodes types relationships plugins
         type_impls relationship_impls resource_base nodes',
    NoDup (node_id <$> processed_nodes) ->
    (forall n, n ∈ processed_nodes -> node_host_id n = None) ->
    _post_process_nodes recursion_limit url_exists consts processed_nodes types
      relationships plugins type_impls relationship_impls resource_base = Ok nodes' ->
    forall n h, n ∈ nodes' -> node_host_id n = Some h ->
      h <> "" /\
      exists m,
        m ∈ nodes' /\ node_id m = h /\ node_host_id m = Some h /\
        _is_derived_from recursion_limit (node_type m) types HOST_TYPE = Ok true.
Proof.
  intros limit url_exists consts processed_nodes types relationships plugins
         type_impls relationship_impls resource_base nodes' Hnd Hnone H n hid Hn Hhid.
  apply post_process_nodes_stages in H
    as (dep & cin & con & store1 & host_types & store2 & store3 & store4 &
        _ & H1 & Hhosts & H2 & H3 & H4 & Hfinal & _).
  set (ids := node_id <$> processed_nodes) in *.
  pose proof (mapM_dict_get_elem _ _ _ Hfinal) as Hnodes.
  apply Hnodes in Hn as (id & Hid & Hn).
  apply post_process_relationships_pass_keeps in H1 as [Hframe _].
  destruct (late_passes_keep _ _ _ _ _ _ _ _ _ H2 H3 H4) as (Hkeep & _ & Hhost24 & _).
  (* the store before the host ids are set *)
  assert (Hstore1 : forall k m, store1 !! k = Some m ->
            node_id m = k /\ node_host_id m = None /\ k ∈ ids).
  { intros k m Hm. destruct (same_on_back _ _ _ _ _ Hframe Hm) as (m0 & Hm0 & E).
    apply node_name_to_node_of_lookup in Hm0 as [Hin Hk].
    injection E as Eid _ _ Ehost _ _.
    split; [congruence|]. split; [rewrite Ehost; apply Hnone; exact Hin|].
    subst k. apply list_elem_of_fmap_2. exact Hin. }
  assert (Hrefl : same_but_host_id store1 store1) by (intros k; reflexivity).
  destruct (host_id_pass_spec limit host_types cin ids store1 store1 store2 Hnd Hrefl H2)
    as (_ & _ & Hpass).
  (* what the final nodes keep of the nodes of the second store *)
  assert (Hfinal_of : forall k m2, k ∈ ids -> store2 !! k = Some m2 ->
            exists m4, m4 ∈ nodes' /\ store4 !! k = Some m4 /\
                       node_host_id m4 = node_host_id m2).
  { intros k m2 Hk Hm2. destruct (same_on_forth _ _ _ _ _ Hhost24 Hm2) as (m4 & Hm4 & E).
    exists m4. split; [apply Hnodes; eauto|]. split; [exact Hm4 | exact E]. }
  assert (Hcore : forall k m4, store4 !! k = Some m4 ->
            exists m1, store1 !! k = Some m1 /\ node_id m4 = node_id m1 /\
                       node_type m4 = node_type m1).
  { intros k m4 Hm4. destruct (same_on_back _ _ _ _ _ Hkeep Hm4) as (m1 & Hm1 & E).
    injection E as Eid _ Ety _ _ _. eauto. }
  assert (Hderived : forall t, t ∈ host_types ->
            _is_derived_from limit t types HOST_TYPE = Ok true).
  { intros t Ht. apply (build_family_descendants_set_spec _ _ _ _ Hhosts) in Ht.
    apply Ht. }
  (* the node itself *)
  destruct (Hpass id Hid) as (n1 & n1' & h & Hn1 & Hn1' & Hextract & Hn2).
  rewrite Hn1 in Hn1'. injection Hn1' as <-.
  destruct (Hstore1 id n1 Hn1) as (Hid1 & Hnone1 & _).
  destruct (Hfinal_of id _ Hid Hn2) as (n4 & _ & Hn4 & Ehost).
  rewrite Hn in Hn4. injection Hn4 as <-. rewrite Hhid in Ehost.
  assert (Hh : h = Some hid /\ hid <> "").
  { unfold with_host_id, truthy in Ehost. destruct h as [h|].
    - destruct (bool_decide (h = "")) eqn:E.
      + rewrite Hnone1 in Ehost. discriminate.
      + simpl in Ehost. injection Ehost as ->.
        apply bool_decide_eq_false in E. auto.
    - rewrite Hnone1 in Ehost. discriminate. }
  destruct Hh as [-> Hne]. split; [exact Hne|].
  assert (Hlimit : exists depth, limit = S depth).
  { destruct limit as [|depth]; [discriminate | eauto]. }
  destruct Hlimit as [depth ->].
  destruct (extract_some_host host_types cin (S depth) n1 store1 hid) as
    [[Hhost ->] | [_ (m1 & Hm1 & Hhost)]].
  - intros k m Hm. apply Hstore1 in Hm. apply Hm.
  - exact Hextract.
  - (* the node is its own host *)
    exists n. destruct (Hcore id n Hn) as (n1' & Hn1' & Eid & Ety).
    rewrite Hn1 in Hn1'. injection Hn1' as <-.
    split; [apply Hnodes; eauto|]. split; [exact Eid|]. split; [exact Hhid|].
    rewrite Ety. apply Hderived. exact Hhost.
  - (* the host is another node *)
    destruct (Hstore1 hid m1 Hm1) as (Hidm & Hnonem & Hin).
    destruct (Hpass hid Hin) as (m1' & m1'' & h' & Hm1' & Hm1'' & Hextract' & Hm2).
    rewrite Hm1 in Hm1', Hm1''. injection Hm1' as <-. injection Hm1'' as <-.
    rewrite extract_unfold in Hextract'.
    rewrite bool_decide_eq_true_2 in Hextract' by exact Hhost.
    injection Hextract' as <-. rewrite Hidm in Hm2.
    destruct (Hfinal_of hid _ Hin Hm2) as (m4 & Hm4in & Hm4 & Ehost4).
    destruct (Hcore hid m4 Hm4) as (m1' & Hm1' & Eid & Ety).
    rewrite Hm1 in Hm1'. injection Hm1' as <-.
    exists m4. split; [exact Hm4in|]. split; [congruence|]. split.
    + rewrite Ehost4. unfold with_host_id, truthy.
      rewrite bool_decide_eq_false_2 by exact Hne. reflexivity.
    + rewrite Ety. apply Hderived. exact Hhost.
Qed.

Lemma host_ids_name_hosts_witness :
  exists nodes',
    _post_process_nodes 10 no_url example_consts app_on_vm scenario_types
      example_relationships ∅ ∅ ∅ None = Ok nodes' /\
    forall n h, n ∈ nodes' -> node_host_id n = Some h ->
      h <> "" /\
      exists m,
        m ∈ nodes' /\ node_id m = h /\ node_host_id m = Some h /\
        _is_derived_from 10 (node_type m) scenario_types HOST_TYPE = Ok true.
Proof.
  destruct (_post_process_nodes 10 no_url example_consts app_on_vm scenario_types
              example_relationships ∅ ∅ ∅ None) as [nodes'|e] eqn:Hrun;
    [|vm_compute in Hrun; discriminate].
  exists nodes'. split; [reflexivity|].
  apply (host_ids_name_hosts 10 no_url example_consts app_on_vm scenario_types
           example_relationships ∅ ∅ ∅ None nodes').
  - compute_decision.
  - intros n Hn. unfold app_on_vm in Hn. elem_cases Hn; subst; reflexivity.
  - exact Hrun.
Defined.
